(* ===== verification/_CoqProject ===== *)
-Q . S2P
Prelude.v
PyString.v
PyDecimal.v
Json.v
Env.v
JsonParse.v
Database.v
Store.v
Leases.v
Engine.v
Budget.v
Sha256.v
LlmCache.v
Workspace.v
Agent.v
Anthropic.v
OpenAI.v
Invariants.v
Execution.v
System.v
Safety.v
Progress.v
Runner.v
Scenarios.v
Workers.v
EventLoop.v
Healthy.v
Refinement.v
Attempts.v
Overshoot.v
Injector.v
Supervisor.v
Timeline.v
Api.v
Evals.v
EvalRun.v
Argparse.v
Cli.v
Witnesses.v
LoopRuns.v
Platform.v
BuildOrder.v
Ledger.v
Limiter.v
LfuCache.v
Codecs.v
TextTasks.v
Tasks.v
Bench.v
BenchRuns.v
Scripts.v
BenchWitnesses.v
Commands.v
