(* ===== verification/Prelude.v ===== *)
(** * A verification library of the Phoenix agent runner

    Phoenix ([src/src/phoenix]) runs LLM coding agents so that a run survives
    crashed, paused and killed workers and every step is billed at most once.
    Its state is a PostgreSQL database with an append-only event log; workers
    are processes that claim runs with leases; agent code runs in Docker
    containers.  This library models the Python program and proves what makes
    it correct.

    ** How the code is translated

    A function that reads or changes state is a computation of the monad [M S]:
    it takes the state, and returns a value or the exception it raises with the
    state at that point.  A database transaction is [transaction]: an exception
    undoes its writes.  [try_except] and [try_finally] are Python's.  A function
    without effects that may raise returns [res].  Dicts and tables are [gmap]s
    where order does not matter and lists of items where it does.  Every
    definition computes, and the examples in the files are evaluated.

    What the program calls and does not contain is a parameter: the random
    generator, Docker, processes and time are classes of operations ([Rng],
    [Docker], [Processes]) with the documented behaviour relied on as laws; an
    LLM endpoint is the sequence of its responses; the sandbox and the provider
    are interfaces ([Sandbox], [Provider], [ProviderLaws]) that the agent and
    the cache are proved against and that the implementations discharge.  Times
    are given to the operations as values, and what other transactions hold
    locked is an arbitrary set.

    ** The files, from the bottom up

    - [Prelude]: exceptions, results, the monad, sorting, tactics, the rewrite
      database [phx] and the resolution database [phx_inv] of preservation
      lemmas.  [PyString], [PyDecimal], [Json], [JsonParse]: what the program
      uses of [str], [decimal], and of [json]'s printer and parser.  [Sha256]:
      the hash of the cache keys, in full.
    - [Env]: [envfile.py] and the choices of [llm/factory.py].
    - [Database]: the schema of [migrations/]: rows, keys, foreign keys,
      [NUMERIC] columns; what [jsonb] refuses is [jsonb] of [Json].  [Store]: [store.py], the event log and the
      migrations.  [Leases]: [leases.py], claims, heartbeats, the reaper and
      the fence.  [Engine]: [engine.py] without its loops: submission,
      [commit_step], [execute_task], error handling, the toy workflow.
    - [Budget]: [budget.py].  [LlmCache]: [llm/base.py], [llm/cache.py],
      [llm/mock.py].  [Workspace], [Agent]: [agent.py] on a model of a file
      system with links.  [Anthropic], [OpenAI]: the two providers.
      [Runner]: [sandbox/].
    - [Execution]: whole executions of toy and agent tasks.  [Invariants]:
      [chaos/invariants.py].  [System]: all workers, heartbeats and reapers as
      one transition system over the database, with any costs.  [Safety] and
      [Progress]: what holds in every reachable state, and what can be reached.
    - [Workers]: the worker process of [engine.py].  [Refinement]: a turn of a
      worker is a path of [System].  [Attempts]: how many turns end a run.
      [Overshoot]: how far the spend of a run gets past its budget.  [EventLoop]: [run_worker] with its three
      asyncio tasks, for any number of processes, as a step relation finer than
      [System].  [Healthy]: its runs in which heartbeats are in
      time, without crashes, and without errors.
    - [Scenarios], [Injector], [Supervisor]: [chaos/], the seeded plan, the
      faults and the workers they hit, the supervisor loop and the report; the
      zombie replay.
    - [Timeline], [Api]: [timeline.py], and the handlers, routes and pool of
      [api.py].
    - [Evals], [EvalRun]: [evals/], the catalog, the spending guard, a suite
      run on the platform, grading and summary.
    - [Argparse], [Cli]: [__main__.py], every command from its arguments to its
      exit status.  [Bench]: the counts and the percentile of [bench/].
      [BenchRuns], [Scripts]: the recovery trial, and every script of [bench/]
      from its arguments to the file it saves.
    - [BuildOrder], [Ledger], [Limiter], [LfuCache], [Codecs], [TextTasks],
      [Tasks]: the reference solutions of the evaluation tasks, with the
      assertions of their tests, and proofs that they do what their task says.
    - [Witnesses], [LoopRuns], [Platform], [BenchWitnesses], [Commands]: the
      theorems applied at concrete inputs and runs.

    The state of the whole system is [world] (database, file system, last
    container) inside an operating system [S] ([HasDb], [HasFs],
    [Processes], [Docker]), inside the injector's [sup S] (worker records),
    inside the process of the command line, [cli S] (printed lines, files).
    [on_db], [on_os], [on_world], [with_db], [on_sup] run a component's
    operation at its level.

    ** What is proved

    - The log: appends are gapless and idempotent ([Store]); a commit has all
      its effects or none ([Engine]).  Both are refused for a payload [jsonb]
      cannot store, such as one with a NUL character, and then do nothing.
    - Leases and fencing: who may be claimed, what the reaper requeues, and
      that a stale claim can do nothing ([Leases]).
    - The interleaved system: in every reachable state logs are sound, the
      stored spend is what NUMERIC(12,6) makes of the recorded costs and no
      attempt bills a step twice; with fencing the log and billing checks of
      the chaos report pass, and an ended run never changes ([Safety]);
      without it they can fail ([Progress]).  The spend check compares exact
      sums: it passes when the recorded costs are whole millionths of a
      dollar ([Safety]), and can fail for others, which a toy run's
      [step_cost] ([tiny_cost_mismatch] of [Progress]) or a price
      ([price_mismatch] of [Platform]) brings about.
    - Refinement: one turn of a worker, with its workflow, provider, cache and
      error handling, is a path of that system whatever the steps cost, so the
      invariants hold of any sequence of submissions, turns and reaper passes
      ([Refinement]).
    - Liveness: the run of an agent has ended once [max_attempts] turns
      claimed its task under leases that outlasted them, whatever happens
      between the turns ([Attempts]).  An attempt whose lease runs out does
      not count: the reaper requeues without a limit.
    - Event loops: however the tasks of the workers interleave, are cancelled,
      fail or die, the database is a reachable state of that system; a worker
      whose heartbeats are in time keeps its lease; a claim refused once is
      refused for ever; a worker outlives every task it executes
      ([EventLoop]).  While heartbeats are in time at most one worker works on
      a run, without a crash no reaper ever takes a task back ([Healthy]), and
      without an error no call to a model is repeated ([BenchRuns]).  Two ways a
      lost connection breaks the watching of a task are runs of [LoopRuns].
    - The checks of the chaos report pass exactly on sound databases
      ([Invariants]).
    - Termination: agent and toy tasks end ([Execution]); an LLM call makes a
      bounded number of requests ([OpenAI]); the loops of a chaos run and of an
      evaluation stop after as many rounds as their timeouts hold sleeps, and
      no process is left behind, up to one race ([Supervisor], [EvalRun]); how
      long a round takes is the operating system's.  So do the benchmarks and
      the demo ([BenchRuns], [Scripts]); a sandbox run leaves no container
      ([Runner]), and its texts are those of the container's streams.
    - Measurements: the recovery gap is the time between two neighbouring
      steps of the log ([BenchRuns]); a saved summary is that of its trials,
      and each of these is what the database showed at its end ([Scripts]).
    - The HTTP API: the key guards the routes that touch the tables - the
      probe, FastAPI's own pages and unknown paths need none -, and only an
      accepted submission writes ([Api]).
    - Money: every agent's run, in every deployment, exceeds its budget by
      less than its last paid step ([Overshoot]); caps, cached answers that
      are not paid again, workers that can build no paid provider
      ([LlmCache], [Api], [Injector]); an evaluation beyond its means is
      refused ([EvalRun]).
    - Files: confinement of paths, and rebuilding a workspace on takeover
      ([Workspace], [Agent]).
    - Text: tool calls, conversations and command lines read back as what was
      written ([OpenAI], [Cli]), and exit statuses mean what they say ([Cli]).

    ** Fuel

    Loops that are not structural take fuel, and each has a lemma that enough
    is enough.  [execute_task] counts rounds: an agent task needs
    [max_steps + 1], a toy task one per step.  A parser of JSON text takes
    twice its length plus one.  The supervisor sleeps 0.2 s a turn and the
    evaluation 0.3 s, so that their rounds are bounded by the timeout; a
    recovery trial sleeps 0.1 s a turn and the demo 0.3 s.  The two loops of
    [bench/] without a deadline report that their rounds were used up.  A path
    is resolved with as many links in progress as the file system has nodes,
    which no path without a loop needs ([resolve_enough] of [Workspace]); on
    a loop [resolve] raises, as Python 3.12 does.  The
    loop of [build_order] takes a turn per task, the expression parser four
    per token, base conversion one per binary digit.

    ** What is not modelled

    - Characters above 255; arithmetic on infinities, [nan] and negative zero
      (that [jsonb] refuses the first two is modelled); underscores
      and spaces inside the text of numbers; Python's limits on digits and
      recursion.  The decimal text of a float is a parameter ([float_repr],
      [float_str], [fixed1] and the like), and floats that are computed with
      are exact rationals.
    - The order [jsonb] gives the keys of an object; [json_same] compares up to
      it; its limits on size and depth.  NUL characters in text columns, which
      only a worker's name or an event's type could bring there.  Overflow of
      the column [attempt].
    - The texts of exceptions are parameters ([exc_str], [exc_repr]); where a
      theorem needs that they hold no NUL character it says so
      ([texts_nul_free]).  Log lines, file permissions, connection pools,
      failing database connections outside [EventLoop] and the probe, and
      links in the path of the workspace root itself.
    - A Docker call that never returns: [Runner] runs the two captures after
      the wait, and joins them also when the wait has raised.
    - A statement that is cancelled while the server executes it: in
      [EventLoop] a task is cancelled between two statements.  A sandbox run
      that outlives the cancellation of its step in its thread.  The plan of a
      chaos run is drawn by [plan] and given to [run_chaos].
    - A [mock_script] that is not a list of actions is refused when the
      provider is built, where the code fails at its first use.
    - [argparse]'s [--]; [uvicorn].  How FastAPI and pydantic read a body and
      an identifier is a parameter of [Api]; the order of their refusals and
      of the key, and the declared constraints, are modelled.
    - The test suites of the repository. *)

From Stdlib Require Import DecimalString DecimalN DecimalFacts.
From Stdlib Require Export Ascii ZArith Lia.
From stdpp Require Export base tactics gmap strings list fin_maps sorting.

#[export] Set Default Goal Selector "!".
Global Open Scope Z_scope.
Declare Scope phx_scope.
Delimit Scope phx_scope with phx.
Open Scope phx_scope.

(** ** Identifiers and numbers of the program *)

(** A [uuid.UUID] is its 128-bit integer. *)
Abbreviation uuid := N.

(** ** Exceptions

    The exception classes the modelled code raises, catches or lets through.
    Message texts are not modelled; the values a message interpolates are kept
    where a later decision depends on them. *)
Inductive exn :=
  | LeaseLostError
  | RunNotFoundError (run : uuid)
  | UniqueViolation
  | ForeignKeyViolation
  | NumericOverflow
  | UntranslatableCharacterError
  | InvalidTextRepresentationError
  | UnsafePathError
  | KeyError (key : string)
  | IndexError
  | TypeError
  | ValueError
  | AttributeError
  | InvalidOperation
  | OSError
  | NotFound
  | APIError
  | ReadTimeout
  | RequestsConnectionError
  | HTTPException (status : Z)
  | ProviderError (fatal : bool)
  | RuntimeError
  | DockerException
  | NoSuchProcess
  | EvalConfigError
  | ZeroDivisionError
  | AssertionError
  | NameError
  | SystemExit (code : Z).

#[export] Instance exn_eq_dec : EqDecision exn.
Proof. solve_decision. Defined.

(** ** Results: a value or a raised exception *)
Inductive res (A : Type) : Type :=
  | Ok (a : A)
  | Raise (e : exn).
Arguments Ok {A} a.
Arguments Raise {A} e.

#[export] Instance res_ret : MRet res := fun A a => Ok a.
#[export] Instance res_bind : MBind res := fun A B f r =>
  match r with Ok a => f a | Raise e => Raise e end.
#[export] Instance res_eq_dec `{EqDecision A} : EqDecision (res A).
Proof. solve_decision. Defined.

Definition of_option {A} (e : exn) (o : option A) : res A :=
  match o with Some a => Ok a | None => Raise e end.

Fixpoint mapR {A B} (f : A -> res B) (l : list A) : res (list B) :=
  match l with
  | [] => mret []
  | x :: l' => y ← f x; ys ← mapR f l'; mret (y :: ys)
  end.

(** ** The effect monad: explicit state, raised exceptions

    [M S A] is a computation over a state [S].  An exception leaves the state
    as it is at that point, as a Python [raise] does; a database transaction
    ([transaction]) restores the state it started from. *)
Definition M (S A : Type) : Type := S -> res A * S.

#[export] Instance M_ret {S} : MRet (M S) := fun A a s => (Ok a, s).
#[export] Instance M_bind {S} : MBind (M S) := fun A B f m s =>
  match m s with
  | (Ok a, s') => f a s'
  | (Raise e, s') => (Raise e, s')
  end.

Definition raise {S A} (e : exn) : M S A := fun s => (Raise e, s).
Definition gets {S A} (f : S -> A) : M S A := fun s => (Ok (f s), s).
Definition modify {S} (f : S -> S) : M S unit := fun s => (Ok tt, f s).
Definition lift_res {S A} (r : res A) : M S A := fun s => (r, s).

(** [async with conn.transaction()]: all of the body's writes, or none. *)
Definition transaction {S A} (m : M S A) : M S A := fun s =>
  match m s with
  | (Ok a, s') => (Ok a, s')
  | (Raise e, _) => (Raise e, s)
  end.

(** [try: m except handled: h]. *)
Definition try_except {S A} (m : M S A) (handled : exn -> bool) (h : exn -> M S A) : M S A :=
  fun s =>
  match m s with
  | (Raise e, s') => if handled e then h e s' else (Raise e, s')
  | r => r
  end.

(** The result or the exception of [m], as a value: a future that was awaited. *)
Definition attempt {S A} (m : M S A) : M S (res A) := fun s => let '(r, s') := m s in (Ok r, s').

(** [try: body finally: cleanup]: an exception of the cleanup replaces the
    outcome of the body. *)
Definition try_finally {S A} (body : M S A) (cleanup : M S unit) : M S A := fun s =>
  let '(r, s1) := body s in
  match cleanup s1 with
  | (Ok _, s2) => (r, s2)
  | (Raise e, s2) => (Raise e, s2)
  end.

(** [for x in l: f(x)] *)
Fixpoint iter_m {S A} (f : A -> M S unit) (l : list A) : M S unit :=
  match l with
  | [] => mret tt
  | x :: l' => f x ;; iter_m f l'
  end.

(** ** Sorting rows by a key ([ORDER BY], [sorted(key=...)]): stable insertion *)
Section SortBy.
Context {A : Type} (le : A -> A -> bool).

Fixpoint insert_by (x : A) (l : list A) : list A :=
  match l with
  | [] => [x]
  | y :: l' => if le x y then x :: l else y :: insert_by x l'
  end.

Definition sort_by (l : list A) : list A := foldr insert_by [] l.
End SortBy.

(** ** Text of integers ([str(n)]) *)
Definition string_of_N (n : N) : string := NilZero.string_of_uint (N.to_uint n).
Definition string_of_Z (z : Z) : string :=
  if (z <? 0)%Z then ("-" +:+ string_of_N (Z.abs_N z))%stdpp else string_of_N (Z.abs_N z).

(** ** Strings as Python uses them *)
#[global] Arguments String.append !_ _ : simpl nomatch.

Fixpoint str_to_list (s : string) : list ascii :=
  match s with EmptyString => [] | String c s' => c :: str_to_list s' end.
Fixpoint str_of_list (l : list ascii) : string :=
  match l with [] => EmptyString | c :: l' => String c (str_of_list l') end.

(** [sep.join(parts)] *)
Fixpoint join (sep : string) (parts : list string) : string :=
  match parts with
  | [] => EmptyString
  | [p] => p
  | p :: ps => (p +:+ sep +:+ join sep ps)%string
  end.

(** ** Tactics *)

(** Unfold one layer of the monads in the goal and the hypotheses. *)
Ltac unfold_m :=
  unfold mret, mbind, M_ret, M_bind, res_ret, res_bind, raise, gets, modify, lift_res,
    transaction, try_except in *.

(** Case analysis on the scrutinee of a match in a hypothesis. *)
Ltac case_in H :=
  match type of H with
  | context [match ?x with _ => _ end] =>
      lazymatch x with
      | context [match _ with _ => _ end] => fail
      | _ => let E := fresh "E" in destruct x eqn:E; try discriminate H
      end
  end.

Ltac bool_to_prop :=
  repeat match goal with
  | H : (_ && _)%bool = true |- _ => apply andb_true_iff in H; destruct H
  | H : (_ && _)%bool = false |- _ => apply andb_false_iff in H
  | H : (_ || _)%bool = false |- _ => apply orb_false_iff in H; destruct H
  | H : bool_decide _ = true |- _ => apply bool_decide_eq_true in H
  | H : bool_decide _ = false |- _ => apply bool_decide_eq_false in H
  | H : (_ <? _)%Z = true |- _ => apply Z.ltb_lt in H
  | H : (_ <? _)%Z = false |- _ => apply Z.ltb_ge in H
  | H : (_ <=? _)%Z = true |- _ => apply Z.leb_le in H
  | H : (_ <=? _)%Z = false |- _ => apply Z.leb_gt in H
  | H : (_ =? _)%Z = true |- _ => apply Z.eqb_eq in H
  | H : (_ =? _)%Z = false |- _ => apply Z.eqb_neq in H
  | H : negb _ = true |- _ => apply negb_true_iff in H
  | H : negb _ = false |- _ => apply negb_false_iff in H
  end.

(** A closed equation, decided by the virtual machine. *)
Ltac by_vm :=
  lazymatch goal with
  | |- ?x = _ => vm_cast_no_check (@eq_refl _ x)
  | _ => vm_compute; reflexivity
  end.

(** Rewriting database [phx]: reads of updated records and dicts.
    Resolution database [phx_inv]: preservation lemmas of the components. *)
Create Rewrite HintDb phx.
Create HintDb phx_inv discriminated.

(** ** Lemmas of the monads *)
Lemma bind_Ok_inv {S A B} (m : M S A) (f : A -> M S B) s b s' :
  (m ≫= f) s = (Ok b, s') -> exists a s1, m s = (Ok a, s1) /\ f a s1 = (Ok b, s').
Proof.
  unfold mbind, M_bind. destruct (m s) as [[a|e] s1] eqn:E; [eauto|discriminate].
Qed.

Lemma bind_Raise_inv {S A B} (m : M S A) (f : A -> M S B) s e s' :
  (m ≫= f) s = (Raise e, s') ->
  m s = (Raise e, s') \/ exists a s1, m s = (Ok a, s1) /\ f a s1 = (Raise e, s').
Proof.
  unfold mbind, M_bind. destruct (m s) as [[a|e'] s1] eqn:E; [eauto|].
  intros [= -> ->]. by left.
Qed.

(** A transaction that raises leaves the database as it found it. *)
Lemma transaction_atomic {S A} (m : M S A) s e s' :
  transaction m s = (Raise e, s') -> s' = s.
Proof. unfold transaction. destruct (m s) as [[a|e'] s1]; naive_solver. Qed.

Lemma transaction_Ok {S A} (m : M S A) s a s' :
  transaction m s = (Ok a, s') <-> m s = (Ok a, s').
Proof. unfold transaction. destruct (m s) as [[a'|e'] s1]; naive_solver. Qed.

(** ** Stable predicates

    [stable P m]: whatever [m] does, returns or raises, [P] holds after it if
    it held before. *)
Section Stable.
Context {S : Type} (P : S -> Prop).

Definition stable {A} (m : M S A) : Prop := forall s, P s -> P (snd (m s)).

Lemma stable_ret {A} (a : A) : stable (mret a).
Proof. by intros s. Qed.
Lemma stable_raise {A} e : stable (raise (A := A) e).
Proof. by intros s. Qed.
Lemma stable_gets {A} (f : S -> A) : stable (gets f).
Proof. by intros s. Qed.

Lemma stable_bind {A B} (m : M S A) (f : A -> M S B) :
  stable m -> (forall a, stable (f a)) -> stable (m ≫= f).
Proof.
  intros Hm Hf s Hs. specialize (Hm s Hs). unfold mbind, M_bind.
  destruct (m s) as [[a|e] s1]; simpl in *; [by apply Hf|done].
Qed.

Lemma stable_try {A} (m : M S A) p h :
  stable m -> (forall e, stable (h e)) -> stable (try_except m p h).
Proof.
  intros Hm Hh s Hs. specialize (Hm s Hs). unfold try_except.
  destruct (m s) as [[a|e] s1]; simpl in *; [done|]. destruct (p e); [by apply Hh|done].
Qed.

Lemma stable_finally {A} (m : M S A) c : stable m -> stable c -> stable (try_finally m c).
Proof.
  intros Hm Hc s Hs. specialize (Hm s Hs). unfold try_finally. destruct (m s) as [r s1].
  specialize (Hc s1 Hm). by destruct (c s1) as [[]?].
Qed.

Lemma stable_iter {A} (f : A -> M S unit) l : (forall x, stable (f x)) -> stable (iter_m f l).
Proof.
  intros Hf. induction l as [|x l IH]; [apply stable_ret|]. apply stable_bind; [apply Hf|done].
Qed.

Lemma stable_run {A} (m : M S A) s r s' : stable m -> P s -> m s = (r, s') -> P s'.
Proof. intros Hm Hs E. specialize (Hm s Hs). by rewrite E in Hm. Qed.
End Stable.

#[export] Hint Resolve stable_ret stable_raise stable_gets stable_bind stable_try stable_finally
  stable_iter : phx_inv.

(** ** Lemmas of the sort *)
Section SortByFacts.
Context {A : Type} (le : A -> A -> bool).
Local Abbreviation R := (fun x y => Is_true (le x y)).

Lemma insert_by_Permutation x l : insert_by le x l ≡ₚ x :: l.
Proof.
  induction l as [|y l IH]; simpl; [done|].
  destruct (le x y); [done|]. rewrite IH. constructor.
Qed.

Lemma sort_by_Permutation l : sort_by le l ≡ₚ l.
Proof.
  induction l as [|x l IH]; simpl; [done|].
  by rewrite insert_by_Permutation, IH.
Qed.

Lemma elem_of_sort_by x l : x ∈ sort_by le l <-> x ∈ l.
Proof. by rewrite sort_by_Permutation. Qed.

Lemma sort_by_length l : length (sort_by le l) = length l.
Proof. by rewrite sort_by_Permutation. Qed.

(** A list already in order is its own sort. *)
Lemma sort_by_sorted_id l : Sorted R l -> sort_by le l = l.
Proof.
  induction 1 as [|x l Hl IH Hd]; simpl; [done|]. rewrite IH.
  destruct Hd as [|y l Hxy]; simpl; [done|].
  by destruct (le x y).
Qed.

Context (le_total : forall x y, le x y = false -> le y x = true).

Lemma insert_by_HdRel y x l :
  le y x = true -> HdRel R y l -> HdRel R y (insert_by le x l).
Proof.
  intros Hyx Hd. destruct l as [|z l]; simpl.
  - constructor. by rewrite Hyx.
  - destruct (le x z); constructor; [by rewrite Hyx|]. by inversion Hd.
Qed.

Lemma insert_by_Sorted x l : Sorted R l -> Sorted R (insert_by le x l).
Proof.
  induction 1 as [|y l Hl IH Hd]; simpl; [repeat constructor|].
  destruct (le x y) eqn:E.
  - repeat constructor; [done..|]. by rewrite E.
  - constructor; [done|]. apply insert_by_HdRel; auto.
Qed.

Lemma sort_by_Sorted l : Sorted R (sort_by le l).
Proof. induction l; simpl; [constructor|]. by apply insert_by_Sorted. Qed.
End SortByFacts.

(** ** Integer ranges *)
Lemma seqZ_snoc m n : seqZ m (Z.of_nat (n + 1)) = seqZ m (Z.of_nat n) ++ [m + Z.of_nat n].
Proof.
  rewrite Nat2Z.inj_add, seqZ_app by lia. by f_equal.
Qed.

Lemma seqZ_S m n : seqZ m (Z.of_nat (S n)) = m :: seqZ (m + 1) (Z.of_nat n).
Proof. rewrite seqZ_cons by lia. by rewrite Nat2Z.inj_succ, Z.pred_succ. Qed.

(** ** Filters *)
Lemma filter_none {A} (P : A -> Prop) `{forall x, Decision (P x)} (l : list A) :
  Forall (fun x => ~ P x) l -> filter P l = [].
Proof. induction 1 as [|x l Hx _ IH]; [done|]. by rewrite filter_cons_False. Qed.

Lemma filter_all {A} (P : A -> Prop) `{forall x, Decision (P x)} (l : list A) :
  Forall P l -> filter P l = l.
Proof. induction 1 as [|x l Hx _ IH]; [done|]. by rewrite filter_cons_True, IH. Qed.

Lemma filter_ext_elem {A} (P Q : A -> Prop) `{forall x, Decision (P x)} `{forall x, Decision (Q x)}
    (l : list A) :
  (forall x, x ∈ l -> P x <-> Q x) -> filter P l = filter Q l.
Proof.
  induction l as [|x l IH]; intros Hpq; [done|].
  assert (Hx : P x <-> Q x) by (apply Hpq; constructor).
  assert (IH' : filter P l = filter Q l) by (apply IH; intros; apply Hpq; by constructor).
  destruct (decide (P x)).
  - rewrite !filter_cons_True by tauto. by rewrite IH'.
  - rewrite !filter_cons_False by tauto. done.
Qed.

(** ** Lemmas of the strings *)
Lemma str_of_to_list s : str_of_list (str_to_list s) = s.
Proof. induction s; simpl; congruence. Qed.
Lemma str_to_of_list l : str_to_list (str_of_list l) = l.
Proof. induction l; simpl; congruence. Qed.

Lemma str_app_assoc (a b c : string) : ((a +:+ b) +:+ c = a +:+ (b +:+ c))%string.
Proof. induction a as [|x a IH]; [done|]. cbn. by rewrite IH. Qed.

Lemma str_app_nil_r (a : string) : (a +:+ EmptyString = a)%string.
Proof. induction a as [|x a IH]; [done|]. cbn. by rewrite IH. Qed.

Lemma str_to_list_app s t : str_to_list (s +:+ t)%string = str_to_list s ++ str_to_list t.
Proof. induction s; simpl; congruence. Qed.

Lemma str_of_list_app l l' : str_of_list (l ++ l') = (str_of_list l +:+ str_of_list l')%string.
Proof. induction l; [done|]. cbn. by f_equal. Qed.

(** The digits of a number determine it. *)
Lemma string_of_N_inj n m : string_of_N n = string_of_N m -> n = m.
Proof.
  unfold string_of_N. intros H.
  assert (Hn : forall k, N.to_uint k <> Decimal.Nil).
  { intros k. pose proof (DecimalN.Unsigned.to_of (N.to_uint k)) as H1.
    rewrite DecimalN.Unsigned.of_to in H1. rewrite H1. apply unorm_nonnil. }
  apply (f_equal NilZero.uint_of_string) in H.
  rewrite !NilZero.usu in H by auto. injection H as H.
  by rewrite <- (DecimalN.Unsigned.of_to n), <- (DecimalN.Unsigned.of_to m), H.
Qed.
