(* ===== verification/PyString.v ===== *)
(** The methods of Python's [str] the program uses beyond concatenation:
    stripping, splitting into lines, searching, slicing. *)

From S2P Require Import Prelude.

(** [c.isspace()] *)
Definition is_space (c : ascii) : bool :=
  let n := N_of_ascii c in
  ((9 <=? n)%N && (n <=? 13)%N) || ((28 <=? n)%N && (n <=? 32)%N) || (n =? 133)%N || (n =? 160)%N.

(** [s.lstrip()] *)
Fixpoint lstrip (l : list ascii) : list ascii :=
  match l with
  | c :: l' => if is_space c then lstrip l' else l
  | [] => []
  end.

(** [s.strip()] *)
Definition strip (s : string) : string :=
  str_of_list (reverse (lstrip (reverse (lstrip (str_to_list s))))).

(** Characters that end a line for [str.splitlines]. *)
Definition is_line_end (c : ascii) : bool :=
  let n := N_of_ascii c in
  ((10 <=? n)%N && (n <=? 13)%N) || ((28 <=? n)%N && (n <=? 30)%N) || (n =? 133)%N.

(** [s.splitlines()]: [\r\n] ends one line, and a final line end adds none. *)
Fixpoint splitlines (s : string) : list string :=
  match s with
  | EmptyString => []
  | String c r =>
      if is_line_end c then
        match (N_of_ascii c =? 13)%N, r with
        | true, String d r' =>
            if (N_of_ascii d =? 10)%N then EmptyString :: splitlines r' else EmptyString :: splitlines r
        | _, _ => EmptyString :: splitlines r
        end
      else
        match splitlines r with
        | l :: ls => String c l :: ls
        | [] => [String c EmptyString]
        end
  end.

(** [s] without the prefix [p]; [None] when it has another start. *)
Fixpoint strip_prefix (p s : string) : option string :=
  match p, s with
  | EmptyString, _ => Some s
  | String a p', String b s' => if decide (a = b) then strip_prefix p' s' else None
  | String _ _, EmptyString => None
  end.

(** [s.startswith(p)] *)
Definition startswith (p s : string) : bool :=
  match strip_prefix p s with Some _ => true | None => false end.

(** [s.removeprefix(p)] *)
Definition removeprefix (p s : string) : string := default s (strip_prefix p s).

(** [k in s] *)
Fixpoint is_substring (k s : string) : bool :=
  String.prefix k s || match s with String _ s' => is_substring k s' | EmptyString => false end.

(** [s.partition(sep)] for a one-character separator that is in [s]. *)
Fixpoint partition_at (sep : ascii) (s : string) : option (string * string) :=
  match s with
  | EmptyString => None
  | String c r =>
      if decide (c = sep) then Some (EmptyString, r)
      else '(a, b) ← partition_at sep r; Some (String c a, b)
  end.

(** [s[:n]] *)
Definition str_take (n : nat) (s : string) : string := str_of_list (take n (str_to_list s)).

(** [f"{s:<w}"] and [f"{s:>w}"] *)
Definition spaces (n : nat) : string := str_of_list (replicate n " "%char).
Definition pad_right (w : nat) (s : string) : string := s +:+ spaces (w - String.length s).
Definition pad_left (w : nat) (s : string) : string := spaces (w - String.length s) +:+ s.

(** [s.lower()] for the letters of ASCII and Latin-1. *)
Definition lower_char (c : ascii) : ascii :=
  let n := N_of_ascii c in
  if ((65 <=? n)%N && (n <=? 90)%N) || ((192 <=? n)%N && (n <=? 222)%N && negb (n =? 215)%N)
  then ascii_of_N (n + 32) else c.
Definition lower (s : string) : string := str_of_list (lower_char <$> str_to_list s).

Example splitlines_ends :
  let cr := String (ascii_of_N 13) EmptyString in
  let lf := String (ascii_of_N 10) EmptyString in
  splitlines ("a" +:+ cr +:+ lf +:+ lf +:+ "bc" +:+ cr +:+ "d" +:+ lf) = ["a"; ""; "bc"; "d"].
Proof. by_vm. Qed.
Example strip_both : strip "  a b  " = "a b".
Proof. by_vm. Qed.

Lemma startswith_app p s : startswith p (p +:+ s) = true.
Proof.
  unfold startswith. induction p as [|c p IH]; [done|].
  cbn [String.append strip_prefix]. by rewrite decide_True.
Qed.

Lemma lower_lower s : lower (lower s) = lower s.
Proof.
  unfold lower. rewrite str_to_of_list, <- list_fmap_compose. f_equal.
  apply list_fmap_ext. intros i c _. destruct c as [[] [] [] [] [] [] [] []]; reflexivity.
Qed.
