(* ===== verification/PyDecimal.v ===== *)
(** Python's [decimal.Decimal] and PostgreSQL's [NUMERIC(p, s)], as far as the
    program's money uses them: context precision 28 with half-even rounding,
    [+], [*], [/], exact comparison, [str] and the constructor from text, and
    the rounding assignment to a [NUMERIC] column.

    A number is a coefficient and an exponent; numbers that denote the same
    value are related by [dec_equiv], and the operations respect it.  NaN,
    infinities and the sign of zero are not modelled. *)

From S2P Require Import Prelude.
From Stdlib Require Import DecimalString DecimalN Setoid Morphisms.

(** ** Numbers: [dcoef * 10 ^ dexp] *)
Record dec : Type := Dec { dcoef : Z; dexp : Z }.

#[export] Instance dec_eq_dec : EqDecision dec.
Proof. solve_decision. Defined.

Definition pow10 (k : Z) : Z := 10 ^ k.

(** Both coefficients over the smaller exponent. *)
Definition dec_align (a b : dec) : Z * Z * Z :=
  let e := Z.min (dexp a) (dexp b) in
  (dcoef a * pow10 (dexp a - e), dcoef b * pow10 (dexp b - e), e).

Definition dec_eqb (a b : dec) : bool :=
  let '(ca, cb, _) := dec_align a b in ca =? cb.
Definition dec_leb (a b : dec) : bool :=
  let '(ca, cb, _) := dec_align a b in ca <=? cb.
Definition dec_ltb (a b : dec) : bool :=
  let '(ca, cb, _) := dec_align a b in ca <? cb.

(** Equality of values ([==] of Decimal). *)
Definition dec_equiv (a b : dec) : Prop := dec_eqb a b = true.

Declare Scope dec_scope.
Infix "=d=" := dec_equiv (at level 70) : dec_scope.
Open Scope dec_scope.

(** ** Decimal digits of an integer *)
Definition digits_of (z : Z) : list ascii := str_to_list (string_of_N (Z.abs_N z)).
Definition ndigits (z : Z) : Z := Z.of_nat (length (digits_of z)).

Definition digit_val (c : ascii) : option Z :=
  let n := Z.of_N (N_of_ascii c) in
  if (48 <=? n) && (n <=? 57) then Some (n - 48) else None.

Definition is_digit (c : ascii) : bool :=
  match digit_val c with Some _ => true | None => false end.

Definition digits_val (l : list ascii) : Z :=
  foldl (fun acc c => acc * 10 + default 0 (digit_val c)) 0 l.

(** ** Rounding to the context precision ([_fix], ROUND_HALF_EVEN) *)
Definition prec : Z := 28.

Definition round_half_even (c k : Z) : Z :=
  let q := Z.abs c / pow10 k in
  let r := Z.abs c mod pow10 k in
  let up := (pow10 k <? 2 * r) || ((2 * r =? pow10 k) && Z.odd q) in
  Z.sgn c * (if up then q + 1 else q).

Definition dec_fix (d : dec) : dec :=
  if Z.abs (dcoef d) <? pow10 prec then d
  else
    let k := ndigits (dcoef d) - prec in
    let c := round_half_even (dcoef d) k in
    if Z.abs c <? pow10 prec then Dec c (dexp d + k)
    else Dec (Z.quot c 10) (dexp d + k + 1).

(** ** Arithmetic *)
Definition dec_exact_add (a b : dec) : dec :=
  let '(ca, cb, e) := dec_align a b in Dec (ca + cb) e.
Definition dec_add (a b : dec) : dec := dec_fix (dec_exact_add a b).
Definition dec_mul (a b : dec) : dec := dec_fix (Dec (dcoef a * dcoef b) (dexp a + dexp b)).

(** Remove trailing zeros while the exponent is below the ideal one. *)
Fixpoint strip_zeros (fuel : nat) (c e ideal : Z) : dec :=
  match fuel with
  | O => Dec c e
  | S fuel' =>
      if (e <? ideal) && (c mod 10 =? 0) then strip_zeros fuel' (c / 10) (e + 1) ideal
      else Dec c e
  end.

(** Division by a positive number ([Decimal.__truediv__]). *)
Definition dec_div (a b : dec) : dec :=
  if dcoef a =? 0 then dec_fix (Dec 0 (dexp a - dexp b))
  else
    let shift := ndigits (dcoef b) - ndigits (dcoef a) + prec + 1 in
    let e := dexp a - dexp b - shift in
    let n := if 0 <=? shift then Z.abs (dcoef a) * pow10 shift else Z.abs (dcoef a) in
    let m := if 0 <=? shift then Z.abs (dcoef b) else Z.abs (dcoef b) * pow10 (- shift) in
    let q := n / m in
    let s := Z.sgn (dcoef a) * Z.sgn (dcoef b) in
    if n mod m =? 0 then
      let d := strip_zeros (Z.to_nat (dexp a - dexp b - e)) q e (dexp a - dexp b) in
      dec_fix (Dec (s * dcoef d) (dexp d))
    else
      let q' := if q mod 5 =? 0 then q + 1 else q in
      dec_fix (Dec (s * q') e).

Definition dec_of_Z (z : Z) : dec := Dec z 0.
Definition dec_zero : dec := Dec 0 0.

(** [sum(costs, Decimal(0))] *)
Definition dec_sum (l : list dec) : dec := foldl dec_add dec_zero l.

(** ** Text: [str(Decimal)] *)
Definition zeros (k : Z) : list ascii := replicate (Z.to_nat k) "0"%char.

Definition signed_digits (z : Z) : list ascii :=
  (if z <? 0 then "-"%char else "+"%char) :: digits_of z.

Definition list_of_dec (d : dec) : list ascii :=
  let int := digits_of (dcoef d) in
  let len := Z.of_nat (length int) in
  let leftdigits := dexp d + len in
  let dotplace := if (dexp d <=? 0) && (-6 <? leftdigits) then leftdigits else 1 in
  let mantissa :=
    if dotplace <=? 0 then ["0"%char; "."%char] ++ zeros (- dotplace) ++ int
    else if len <=? dotplace then int ++ zeros (dotplace - len)
    else take (Z.to_nat dotplace) int ++ ["."%char] ++ drop (Z.to_nat dotplace) int in
  let exponent :=
    if leftdigits =? dotplace then [] else "E"%char :: signed_digits (leftdigits - dotplace) in
  (if dcoef d <? 0 then ["-"%char] else []) ++ mantissa ++ exponent.

Definition string_of_dec (d : dec) : string := str_of_list (list_of_dec d).

(** ** Text: the constructor [Decimal(text)] *)
Fixpoint span_digits (l : list ascii) : list ascii * list ascii :=
  match l with
  | c :: l' => if is_digit c then let '(ds, r) := span_digits l' in (c :: ds, r) else ([], l)
  | [] => ([], [])
  end.

Definition split_sign (l : list ascii) : bool * list ascii :=
  match l with
  | "-"%char :: l' => (true, l')
  | "+"%char :: l' => (false, l')
  | _ => (false, l)
  end.

Definition parse_int (l : list ascii) : option Z :=
  let '(neg, l1) := split_sign l in
  let '(ds, r) := span_digits l1 in
  match ds, r with
  | _ :: _, [] => Some (if neg then - digits_val ds else digits_val ds)
  | _, _ => None
  end.

Definition parse_exp (l : list ascii) : option Z :=
  match l with
  | [] => Some 0
  | "e"%char :: l' | "E"%char :: l' => parse_int l'
  | _ => None
  end.

Definition parse_dec (l : list ascii) : option dec :=
  let '(neg, l1) := split_sign l in
  let '(ip, l2) := span_digits l1 in
  let '(fp, l3) :=
    match l2 with "."%char :: l' => span_digits l' | _ => ([], l2) end in
  match ip ++ fp with
  | [] => None
  | ds =>
      e ← parse_exp l3;
      Some (Dec (if neg then - digits_val ds else digits_val ds) (e - Z.of_nat (length fp)))
  end.

Definition dec_of_string (s : string) : option dec := parse_dec (str_to_list s).

(** ** PostgreSQL [NUMERIC(p, s)]

    A stored value is the integer number of units of [10 ^ - s]: an assignment
    rounds half away from zero and rejects a value of [p] digits or more. *)
Definition numeric_round (s : Z) (d : dec) : Z :=
  if 0 <=? dexp d + s then dcoef d * pow10 (dexp d + s)
  else
    let k := - (dexp d + s) in
    Z.sgn (dcoef d) * ((Z.abs (dcoef d) + pow10 k / 2) / pow10 k).

Definition numeric (p s : Z) (d : dec) : res Z :=
  let z := numeric_round s d in
  if Z.abs z <? pow10 p then Ok z else Raise NumericOverflow.

(** The Decimal asyncpg returns for a stored [NUMERIC(_, s)] value. *)
Definition of_numeric (s z : Z) : dec := Dec z (- s).

Example str_mock_cost : string_of_dec (dec_div (Dec 350 0) (Dec 1000000 0)) = "0.00035"%stdpp.
Proof. vm_compute. reflexivity. Qed.
Example str_sci : string_of_dec (Dec 75 (-9)) = "7.5E-8"%stdpp.
Proof. vm_compute. reflexivity. Qed.
Example parse_back : dec_of_string "7.5E-8"%stdpp = Some (Dec 75 (-9)).
Proof. vm_compute. reflexivity. Qed.
Example sum_big : dec_add (Dec 1 30) (Dec 1 0) = Dec (10 ^ 27) 3.
Proof. vm_compute. reflexivity. Qed.

(** ** Powers of ten *)
Lemma pow10_pos k : 0 <= k -> 0 < pow10 k.
Proof. intros. unfold pow10. by apply Z.pow_pos_nonneg. Qed.

Lemma pow10_add a b : 0 <= a -> 0 <= b -> pow10 (a + b) = pow10 a * pow10 b.
Proof. intros. unfold pow10. by apply Z.pow_add_r. Qed.

Lemma pow10_split a b : 0 <= b <= a -> pow10 a = pow10 (a - b) * pow10 b.
Proof. intros. rewrite <- pow10_add by lia. f_equal. lia. Qed.

Lemma pow10_le a b : 0 <= a <= b -> pow10 a <= pow10 b.
Proof. intros. unfold pow10. apply Z.pow_le_mono_r; lia. Qed.

(** ** Values on a common scale *)

(** The value of [d] in units of [10 ^ k]. *)
Definition scaled (k : Z) (d : dec) : Z := dcoef d * pow10 (dexp d - k).

Lemma scaled_shift k j d : j <= k <= dexp d -> scaled j d = scaled k d * pow10 (k - j).
Proof.
  intros. unfold scaled. rewrite <- Z.mul_assoc, <- pow10_add by lia. do 2 f_equal. lia.
Qed.

Section Align.
Context (k : Z) (a b : dec) (Ha : k <= dexp a) (Hb : k <= dexp b).
Let e := Z.min (dexp a) (dexp b).
Let p := pow10 (e - k).

Local Lemma align_pos : 0 < p.
Proof. apply pow10_pos. lia. Qed.

Local Lemma align_scaled :
  scaled k a = dcoef a * pow10 (dexp a - e) * p /\ scaled k b = dcoef b * pow10 (dexp b - e) * p.
Proof.
  unfold scaled, p. split; rewrite <- Z.mul_assoc, <- pow10_add by lia; do 2 f_equal; lia.
Qed.

Lemma dec_equiv_scaled : a =d= b <-> scaled k a = scaled k b.
Proof.
  destruct align_scaled as [-> ->]. pose proof align_pos.
  unfold dec_equiv, dec_eqb, dec_align. fold e. rewrite Z.eqb_eq. split; intros H1.
  - by rewrite H1.
  - by apply Z.mul_reg_r in H1; [|lia].
Qed.

Lemma dec_leb_scaled : dec_leb a b = (scaled k a <=? scaled k b).
Proof.
  destruct align_scaled as [-> ->]. pose proof align_pos.
  unfold dec_leb, dec_align. fold e. apply eq_iff_eq_true. rewrite !Z.leb_le. nia.
Qed.

Lemma dec_exact_add_scaled :
  k <= dexp (dec_exact_add a b) /\ scaled k (dec_exact_add a b) = scaled k a + scaled k b.
Proof.
  destruct align_scaled as [-> ->]. unfold dec_exact_add, dec_align. fold e. simpl.
  split; [lia|]. unfold scaled; simpl. fold p. lia.
Qed.
End Align.

(** A scale below every exponent of interest. *)
Ltac common_scale a b c k :=
  pose (k := Z.min (dexp a) (Z.min (dexp b) (dexp c)));
  assert (k <= dexp a) by lia; assert (k <= dexp b) by lia; assert (k <= dexp c) by lia;
  clearbody k.

#[export] Instance dec_equiv_equivalence : Equivalence dec_equiv.
Proof.
  split.
  - intros a. by apply (dec_equiv_scaled (dexp a)).
  - intros a b. common_scale a b b k. rewrite !(dec_equiv_scaled k) by done. congruence.
  - intros a b c. common_scale a b c k. rewrite !(dec_equiv_scaled k) by done. congruence.
Qed.

#[export] Instance dec_leb_proper : Proper (dec_equiv ==> dec_equiv ==> eq) dec_leb.
Proof.
  intros a a' Ha b b' Hb. common_scale a a' b k0. common_scale b' b' b k1.
  set (k := Z.min k0 k1). apply (dec_equiv_scaled k) in Ha, Hb; [|lia..].
  rewrite !(dec_leb_scaled k) by lia. by rewrite Ha, Hb.
Qed.

#[export] Instance dec_exact_add_proper :
  Proper (dec_equiv ==> dec_equiv ==> dec_equiv) dec_exact_add.
Proof.
  intros a a' Ha b b' Hb. common_scale a a' b k0. common_scale b' b' b k1.
  set (k := Z.min k0 k1).
  destruct (dec_exact_add_scaled k a b) as [? E]; [lia..|].
  destruct (dec_exact_add_scaled k a' b') as [? E']; [lia..|].
  apply (dec_equiv_scaled k) in Ha, Hb; [|lia..].
  apply (dec_equiv_scaled k); [lia..|]. by rewrite E, E', Ha, Hb.
Qed.

(** ** Rounding *)

(** A number of at most [prec] digits is not rounded. *)
Lemma dec_fix_exact d : Z.abs (dcoef d) < pow10 prec -> dec_fix d = d.
Proof. intros H. unfold dec_fix. by apply Z.ltb_lt in H as ->. Qed.

(** An assignment to a [NUMERIC] column is a function of the value. *)
Lemma numeric_round_scaled s k d :
  k <= dexp d -> k <= - s ->
  numeric_round s d =
    Z.sgn (scaled k d) * ((Z.abs (scaled k d) + pow10 (- s - k) / 2) / pow10 (- s - k)).
Proof.
  intros Hd Hs. unfold numeric_round, scaled.
  assert (0 < pow10 (dexp d - k)) by (apply pow10_pos; lia).
  rewrite Z.sgn_mul, Z.abs_mul, (Z.sgn_pos (pow10 _)), Z.mul_1_r by lia.
  rewrite (Z.abs_eq (pow10 _)) by lia.
  destruct (0 <=? dexp d + s) eqn:E; bool_to_prop.
  - rewrite (pow10_split (dexp d - k) (- s - k)) by lia.
    replace (dexp d - k - (- s - k)) with (dexp d + s) by lia.
    assert (0 < pow10 (- s - k)) as Hp by (apply pow10_pos; lia).
    set (p := pow10 (- s - k)) in *. set (x := pow10 (dexp d + s)).
    rewrite Z.mul_assoc, Z.div_add_l, (Z.div_small (p / 2)) by
      (try split; try apply Z.div_pos; try apply Z.div_lt_upper_bound; lia).
    rewrite Z.add_0_r, Z.mul_assoc. f_equal. lia.
  - set (m := dexp d - k) in *. set (j := - (dexp d + s)).
    replace (- s - k) with (j + m) by (unfold j, m; lia).
    rewrite (pow10_add j m) by (unfold j, m; lia).
    f_equal.
    assert (Heven : pow10 j = 2 * (pow10 j / 2)).
    { unfold pow10, j. replace (- (dexp d + s)) with (Z.succ (- (dexp d + s) - 1)) by lia.
      rewrite Z.pow_succ_r by lia. replace (10 * _) with (5 * 10 ^ (- (dexp d + s) - 1) * 2) by lia.
      rewrite Z.div_mul by lia. lia. }
    assert (0 < pow10 j) by (apply pow10_pos; unfold j; lia).
    replace (pow10 j * pow10 m / 2) with (pow10 j / 2 * pow10 m).
    2:{ rewrite Heven at 2. replace (2 * _ * _) with (pow10 j / 2 * pow10 m * 2) by lia.
        by rewrite Z.div_mul by lia. }
    rewrite <- Z.mul_add_distr_r, Z.div_mul_cancel_r by lia. done.
Qed.

#[export] Instance numeric_round_proper s : Proper (dec_equiv ==> eq) (numeric_round s).
Proof.
  intros a b Hab. set (k := Z.min (Z.min (dexp a) (dexp b)) (- s)).
  apply (dec_equiv_scaled k) in Hab; [|lia..].
  by rewrite !(numeric_round_scaled s k), Hab by lia.
Qed.

#[export] Instance numeric_proper p s : Proper (dec_equiv ==> eq) (numeric p s).
Proof. intros a b Hab. unfold numeric. by rewrite (numeric_round_proper s a b Hab). Qed.

(** A value with at most [s] decimals is stored exactly. *)
Lemma numeric_round_exact s z : numeric_round s (Dec z (- s)) = z.
Proof.
  unfold numeric_round; simpl. rewrite Z.add_opp_diag_l. simpl. unfold pow10. simpl. lia.
Qed.

Lemma numeric_exact p s d z : d =d= Dec z (- s) -> Z.abs z < pow10 p -> numeric p s d = Ok z.
Proof.
  intros H Hz. rewrite H. unfold numeric. rewrite numeric_round_exact.
  by apply Z.ltb_lt in Hz as ->.
Qed.

(** ** Digits *)
Definition digit_step (acc : Z) (c : ascii) : Z := acc * 10 + default 0 (digit_val c).

Lemma digits_val_unfold l : digits_val l = foldl digit_step 0 l.
Proof. done. Qed.

Lemma uint_digits_acc d acc :
  foldl digit_step (Z.pos acc) (str_to_list (NilEmpty.string_of_uint d)) =
    Z.pos (Pos.of_uint_acc d acc).
Proof.
  revert acc; induction d; intros acc; [done|..];
    (cbn [str_to_list NilEmpty.string_of_uint foldl Pos.of_uint_acc]; rewrite <- IHd; f_equal;
     unfold digit_step;
     match goal with |- context [digit_val ?c] =>
       let v := eval vm_compute in (digit_val c) in change (digit_val c) with v end;
     cbn [default from_option id]; lia).
Qed.

Lemma uint_digits_val d :
  foldl digit_step 0 (str_to_list (NilEmpty.string_of_uint d)) = Z.of_N (N.of_uint d).
Proof. unfold N.of_uint. induction d; [done|done|..]; apply (uint_digits_acc d). Qed.

Lemma uint_digits_digit d :
  Forall (fun c => is_digit c = true) (str_to_list (NilEmpty.string_of_uint d)).
Proof. induction d; simpl; constructor; done. Qed.

Lemma string_of_N_Empty n :
  exists d, str_to_list (string_of_N n) = str_to_list (NilEmpty.string_of_uint d) /\
    N.of_uint d = n /\ d <> Decimal.Nil.
Proof.
  unfold string_of_N. destruct (N.to_uint n) eqn:E;
    [exists (Decimal.D0 Decimal.Nil)|exists (N.to_uint n); rewrite DecimalN.Unsigned.of_to, E; done..].
  pose proof (DecimalN.Unsigned.of_to n) as H. rewrite E in H. by subst n.
Qed.

Lemma digits_val_digits_of z : digits_val (digits_of z) = Z.abs z.
Proof.
  unfold digits_of. destruct (string_of_N_Empty (Z.abs_N z)) as (d & -> & H & _).
  rewrite digits_val_unfold, uint_digits_val, H. apply N2Z.inj_abs_N.
Qed.

Lemma digits_of_digit z : Forall (fun c => is_digit c = true) (digits_of z).
Proof.
  unfold digits_of. destruct (string_of_N_Empty (Z.abs_N z)) as (d & -> & _ & _).
  apply uint_digits_digit.
Qed.

Lemma digits_of_nonempty z : digits_of z <> [].
Proof.
  unfold digits_of. destruct (string_of_N_Empty (Z.abs_N z)) as (d & -> & _ & H).
  by destruct d.
Qed.

Lemma digits_val_app_zero k l : digits_val (zeros k ++ l) = digits_val l.
Proof.
  unfold zeros. induction (Z.to_nat k) as [|n IH]; [done|].
  rewrite !digits_val_unfold in *. simpl. done.
Qed.

Lemma zeros_digit k : Forall (fun c => is_digit c = true) (zeros k).
Proof. apply Forall_replicate. done. Qed.

(** A block of digits is read off whole. *)
Lemma span_digits_app ds r :
  Forall (fun c => is_digit c = true) ds ->
  (forall c r', r = c :: r' -> is_digit c = false) ->
  span_digits (ds ++ r) = (ds, r).
Proof.
  intros Hds Hr. induction Hds as [|c ds Hc _ IH]; simpl.
  - destruct r as [|c r']; [done|]. simpl. by rewrite (Hr c r').
  - by rewrite Hc, IH.
Qed.

Lemma span_digits_all ds :
  Forall (fun c => is_digit c = true) ds -> span_digits ds = (ds, []).
Proof.
  intros H. rewrite <- (app_nil_r ds) at 1. by apply span_digits_app.
Qed.

Lemma split_sign_digits (neg : bool) ds r :
  Forall (fun c => is_digit c = true) ds -> ds <> [] ->
  split_sign ((if neg then ["-"%char] else []) ++ ds ++ r) = (neg, ds ++ r).
Proof.
  intros Hds Hne. destruct neg; [done|]. destruct Hds as [|c ds Hc _]; [done|].
  simpl. destruct c as [[] [] [] [] [] [] [] []]; done.
Qed.

Lemma parse_int_signed z : parse_int (signed_digits z) = Some z.
Proof.
  unfold parse_int, signed_digits.
  pose proof (digits_of_nonempty z) as Hne.
  assert (H : split_sign ((if z <? 0 then "-"%char else "+"%char) :: digits_of z) =
    (z <? 0, digits_of z)) by (by destruct (z <? 0)).
  rewrite H, span_digits_all by apply digits_of_digit.
  pose proof (digits_val_digits_of z) as Hv. destruct (digits_of z); [done|].
  rewrite Hv. f_equal. destruct (z <? 0) eqn:E; bool_to_prop; lia.
Qed.

(** ** Text round trip *)

(** The exponent suffix of [list_of_dec]. *)
Definition exp_suffix (k : Z) : list ascii := if k =? 0 then [] else "E"%char :: signed_digits k.

Lemma parse_exp_suffix k : parse_exp (exp_suffix k) = Some k.
Proof.
  unfold exp_suffix. destruct (k =? 0) eqn:E; bool_to_prop; [by subst|]. apply parse_int_signed.
Qed.

Lemma exp_suffix_head k c r : exp_suffix k = c :: r -> is_digit c = false /\ c <> "."%char.
Proof. unfold exp_suffix. destruct (k =? 0); [done|]. intros [= <- _]. by split. Qed.

Section ParseForms.
Context (neg : bool) (ip fp : list ascii) (k : Z).
Context (Hip : Forall (fun c => is_digit c = true) ip) (Hne : ip <> []).
Context (Hfp : Forall (fun c => is_digit c = true) fp).
Let sign := if neg then ["-"%char] else [].

Lemma parse_dec_point :
  parse_dec (sign ++ ip ++ "."%char :: fp ++ exp_suffix k) =
    Some (Dec (if neg then - digits_val (ip ++ fp) else digits_val (ip ++ fp))
              (k - Z.of_nat (length fp))).
Proof.
  unfold parse_dec, sign. rewrite split_sign_digits by done.
  rewrite (span_digits_app ip) by (done || (by intros ?? [= <- _])).
  rewrite (span_digits_app fp) by (done || (intros ??; apply exp_suffix_head)).
  rewrite parse_exp_suffix. destruct ip; done.
Qed.

Lemma parse_dec_integer :
  parse_dec (sign ++ ip ++ exp_suffix k) =
    Some (Dec (if neg then - digits_val ip else digits_val ip) k).
Proof.
  unfold parse_dec, sign. rewrite split_sign_digits by done.
  rewrite (span_digits_app ip) by (done || (intros ??; apply exp_suffix_head)).
  assert (H : match exp_suffix k with "."%char :: l' => span_digits l' | _ => ([], exp_suffix k) end
              = ([], exp_suffix k)).
  { destruct (exp_suffix k) as [|c r] eqn:E; [done|].
    apply exp_suffix_head in E as [_ Hc].
    destruct c as [[] [] [] [] [] [] [] []]; done. }
  rewrite H, parse_exp_suffix, app_nil_r. destruct ip; [done|]. simpl. do 2 f_equal. lia.
Qed.
End ParseForms.

Lemma parse_list_of_dec d : parse_dec (list_of_dec d) = Some d.
Proof.
  destruct d as [c e]. unfold list_of_dec; simpl.
  pose proof (digits_of_nonempty c) as Hne. pose proof (digits_of_digit c) as Hdig.
  pose proof (digits_val_digits_of c) as Hval.
  set (int := digits_of c) in *. set (len := Z.of_nat (length int)).
  assert (1 <= len) by (unfold len; destruct int; [done|simpl; lia]).
  set (left := e + len).
  assert (Hc : forall x, x = c -> (if c <? 0 then - Z.abs x else Z.abs x) = c).
  { intros x ->. destruct (c <? 0) eqn:?; bool_to_prop; lia. }
  assert (Hsuf : forall dot, (if left =? dot then [] else "E"%char :: signed_digits (left - dot)) =
                             exp_suffix (left - dot)).
  { intros dot. unfold exp_suffix.
    destruct (left =? dot) eqn:E1, (left - dot =? 0) eqn:E2; bool_to_prop; done || lia. }
  rewrite Hsuf. set (dot := if (e <=? 0) && (-6 <? left) then left else 1).
  assert (Hdot : (dot = left /\ (e <= 0 \/ left = 1)) \/ dot = 1).
  { unfold dot. destruct (_ && _) eqn:E; bool_to_prop; auto. }
  clearbody dot. destruct (dot <=? 0) eqn:E1; [|destruct (len <=? dot) eqn:E2]; bool_to_prop.
  - destruct Hdot as [[-> _]| ->]; [|lia].
    simpl. rewrite <- app_assoc.
    rewrite (app_assoc (zeros _)).
    etrans; [apply (parse_dec_point (c <? 0) ["0"%char] (zeros (- left) ++ int));
      [by repeat constructor|done|apply Forall_app; auto using zeros_digit]|].
    assert (Hz : digits_val (["0"%char] ++ zeros (- left) ++ int) = Z.abs c)
      by (rewrite <- Hval; etrans; [|apply (digits_val_app_zero (- left))]; done).
    rewrite Hz, (Hc c eq_refl). do 2 f_equal.
    unfold zeros. rewrite length_app, length_replicate. unfold left, len in *. lia.
  - assert (dot = len) as ->.
    { destruct Hdot as [[-> ?]| ->]; unfold left in *; lia. }
    rewrite Z.sub_diag. unfold zeros at 1. simpl. rewrite app_nil_r.
    rewrite (parse_dec_integer (c <? 0) int) by done.
    rewrite Hval, (Hc c eq_refl). do 2 f_equal. unfold left. lia.
  - rewrite <- app_assoc. simpl.
    rewrite (parse_dec_point (c <? 0) (take (Z.to_nat dot) int) (drop (Z.to_nat dot) int)).
    + rewrite take_drop, Hval, (Hc c eq_refl). do 2 f_equal.
      rewrite length_drop. unfold left, len in *. lia.
    + by apply Forall_take.
    + intros H0. apply (f_equal length) in H0. rewrite length_take in H0. simpl in H0. lia.
    + by apply Forall_drop.
Qed.

Lemma dec_of_string_of_dec d : dec_of_string (string_of_dec d) = Some d.
Proof. unfold dec_of_string, string_of_dec. rewrite str_to_of_list. apply parse_list_of_dec. Qed.

(** ** Sums of whole micro-dollars

    [whole_micros d z]: the amount [d] is exactly [z] millionths, is not
    negative, and carries no more than 22 decimals.  Such amounts are summed
    without rounding as long as the total stays below 10^6. *)
Definition whole_micros (d : dec) (z : Z) : Prop :=
  d =d= of_numeric 6 z /\ -22 <= dexp d /\ 0 <= z.

Lemma scaled_of_numeric z : scaled (-22) (of_numeric 6 z) = z * pow10 16.
Proof. unfold scaled, of_numeric. simpl. f_equal. Qed.

Lemma dec_add_micros a b x y :
  whole_micros a x -> whole_micros b y -> x + y < pow10 12 ->
  whole_micros (dec_add a b) (x + y).
Proof.
  intros (Ha & ? & ?) (Hb & ? & ?) Hlt.
  destruct (dec_exact_add_scaled (-22) a b) as [He Hs]; [done..|].
  apply (dec_equiv_scaled (-22)) in Ha, Hb; [|simpl; lia..].
  rewrite scaled_of_numeric in Ha, Hb. rewrite Ha, Hb in Hs.
  unfold dec_add. rewrite dec_fix_exact.
  - split; [|lia]. apply (dec_equiv_scaled (-22)); [done|simpl; lia|].
    rewrite scaled_of_numeric, Hs. lia.
  - unfold scaled in Hs.
    assert (1 <= pow10 (dexp (dec_exact_add a b) - -22)).
    { pose proof (pow10_pos (dexp (dec_exact_add a b) - -22)). lia. }
    assert (pow10 prec = pow10 12 * pow10 16) as -> by done.
    assert (0 < pow10 16) by done. nia.
Qed.

Definition sumZ (l : list Z) : Z := foldr Z.add 0 l.

Lemma sumZ_app l l' : sumZ (l ++ l') = sumZ l + sumZ l'.
Proof. unfold sumZ. induction l as [|x l IH]; [done|]. cbn. rewrite IH. lia. Qed.

Lemma sumZ_snoc l z : sumZ (l ++ [z]) = sumZ l + z.
Proof. rewrite sumZ_app. unfold sumZ at 2. simpl. lia. Qed.

Lemma sumZ_nonneg l : Forall (fun z => 0 <= z) l -> 0 <= sumZ l.
Proof. induction 1; unfold sumZ in *; cbn; lia. Qed.

Lemma dec_sum_micros ds zs :
  Forall2 whole_micros ds zs -> sumZ zs < pow10 12 -> whole_micros (dec_sum ds) (sumZ zs).
Proof.
  unfold dec_sum. intros H.
  assert (Hgen : forall acc s, whole_micros acc s -> s + sumZ zs < pow10 12 ->
    whole_micros (foldl dec_add acc ds) (s + sumZ zs)).
  { induction H as [|d z ds zs Hd Hrest IH]; intros acc s Hacc Hlt; simpl in *.
    - by rewrite Z.add_0_r.
    - assert (0 <= sumZ zs).
      { apply sumZ_nonneg. apply Forall_forall. intros x Hx.
        apply list_elem_of_lookup in Hx as [i Hi].
        destruct (Forall2_lookup_r _ _ _ _ _ Hrest Hi) as (? & _ & (_ & _ & ?)). lia. }
      unfold sumZ in *. simpl in *. rewrite Z.add_assoc. apply IH; [|lia].
      apply dec_add_micros; auto. lia. }
  intros Hlt. apply (Hgen dec_zero 0); [|lia]. by split; [vm_compute|].
Qed.

Lemma whole_micros_round d z : whole_micros d z -> numeric_round 6 d = z.
Proof. intros (Hd & _). rewrite Hd. unfold of_numeric. apply numeric_round_exact. Qed.

Lemma whole_micros_numeric d z :
  whole_micros d z -> z < pow10 12 -> numeric 12 6 d = Ok z.
Proof. intros (H & _ & ?) ?. apply numeric_exact; [done|lia]. Qed.

(** Adding whole micro-dollars to a stored NUMERIC(12,6) amount is exact. *)
Lemma exact_add_micros s cost z :
  whole_micros cost z -> dec_exact_add (of_numeric 6 s) cost =d= of_numeric 6 (s + z).
Proof.
  intros (Hc & ? & ?).
  rewrite Hc. destruct (dec_exact_add_scaled (-6) (of_numeric 6 s) (of_numeric 6 z)) as [He Hx];
    [simpl; lia..|].
  apply (dec_equiv_scaled (-6)); [done|simpl; lia|]. rewrite Hx.
  unfold scaled, of_numeric; simpl. unfold pow10. simpl. lia.
Qed.

Lemma numeric_add_micros s cost z :
  whole_micros cost z -> 0 <= s -> s + z < pow10 12 ->
  numeric 12 6 (dec_exact_add (of_numeric 6 s) cost) = Ok (s + z).
Proof.
  intros Hc Hs Hlt. apply numeric_exact; [by apply exact_add_micros|]. destruct Hc as (_ & _ & ?). lia.
Qed.

(** Adding nothing leaves a stored amount as it is. *)
Lemma exact_add_zero s : dec_exact_add (of_numeric 6 s) dec_zero =d= of_numeric 6 s.
Proof.
  destruct (dec_exact_add_scaled (-6) (of_numeric 6 s) dec_zero) as [He Hx]; [simpl; lia..|].
  apply (dec_equiv_scaled (-6)); [done|simpl; lia|]. rewrite Hx. unfold scaled, dec_zero. simpl. lia.
Qed.

Lemma numeric_add_zero s :
  Z.abs s < pow10 12 -> numeric 12 6 (dec_exact_add (of_numeric 6 s) dec_zero) = Ok s.
Proof. intros. apply numeric_exact; [apply exact_add_zero|done]. Qed.

Lemma numeric_Ok_inv p s d v x :
  d =d= of_numeric s v -> numeric p s d = Ok x -> x = v /\ Z.abs v < pow10 p.
Proof.
  intros Hd. rewrite Hd. unfold numeric, of_numeric. rewrite numeric_round_exact.
  destruct (_ <? _) eqn:E; [|done]. intros [= <-]. bool_to_prop. done.
Qed.

(** ** The spend of a run

    A NUMERIC(12,6) column rounds every addition. *)
Definition add_cost (s : Z) (cost : dec) : Z :=
  numeric_round 6 (dec_exact_add (of_numeric 6 s) cost).

Definition stored_spend (costs : list dec) : Z := foldl add_cost 0 costs.

(** [s] millionths are the sum of [costs] to half a millionth for each: both on
    a scale fine enough for all. *)
Definition near_sum (s : Z) (costs : list dec) : Prop :=
  forall k, k <= -6 -> Forall (fun c => k <= dexp c) costs ->
    2 * Z.abs (s * pow10 (-6 - k) - sumZ (scaled k <$> costs)) <=
      Z.of_nat (length costs) * pow10 (-6 - k).

Lemma stored_spend_snoc costs c : stored_spend (costs ++ [c]) = add_cost (stored_spend costs) c.
Proof. unfold stored_spend. by rewrite foldl_app. Qed.

Lemma stored_spend_micros costs zs : Forall2 whole_micros costs zs -> stored_spend costs = sumZ zs.
Proof.
  intros H. unfold stored_spend. enough (Hgen : forall s, foldl add_cost s costs = s + sumZ zs) by apply Hgen.
  induction H as [|c z costs zs Hc _ IH]; intros s; simpl; [unfold stored_spend, sumZ; simpl; lia|].
  rewrite IH. unfold add_cost. rewrite (exact_add_micros s c z Hc). unfold of_numeric. rewrite numeric_round_exact.
  unfold sumZ. simpl. lia.
Qed.

(** An assignment moves a value by half a unit at most. *)
Lemma numeric_round_half s k d :
  k <= dexp d -> k <= - s ->
  2 * Z.abs (numeric_round s d * pow10 (- s - k) - scaled k d) <= pow10 (- s - k).
Proof.
  intros Hd Hs. rewrite (numeric_round_scaled s k) by done.
  set (x := scaled k d). set (p := pow10 (- s - k)).
  assert (0 < p) by (apply pow10_pos; lia).
  pose proof (Z.div_mod (Z.abs x + p / 2) p ltac:(lia)) as H1.
  pose proof (Z.mod_pos_bound (Z.abs x + p / 2) p ltac:(lia)) as H2.
  pose proof (Z.div_mod p 2 ltac:(lia)) as H3. pose proof (Z.mod_pos_bound p 2 ltac:(lia)) as H4.
  set (q := (Z.abs x + p / 2) / p) in *.
  assert (Hx : x = Z.sgn x * Z.abs x) by (destruct x; simpl; lia).
  assert (Hq : 2 * Z.abs (q * p - Z.abs x) <= p) by lia.
  rewrite Hx at 2. replace (Z.sgn x * q * p - Z.sgn x * Z.abs x) with (Z.sgn x * (q * p - Z.abs x)) by lia.
  rewrite Z.abs_mul. pose proof (Z.abs_nonneg (q * p - Z.abs x)).
  assert (Z.abs (Z.sgn x) <= 1) by (destruct x; simpl; lia). nia.
Qed.

Lemma stored_spend_near costs : near_sum (stored_spend costs) costs.
Proof.
  intros k Hk. induction costs as [|c costs IH] using rev_ind; intros Hf; [done|].
  apply Forall_app in Hf as [Hf Hc]. apply Forall_cons in Hc as [Hc _]. specialize (IH Hf).
  rewrite stored_spend_snoc, fmap_app, sumZ_app, length_app. cbn [fmap list_fmap length].
  set (s := stored_spend costs) in *. set (p := pow10 (-6 - k)) in *.
  destruct (dec_exact_add_scaled k (of_numeric 6 s) c) as [He Hx]; [by simpl|exact Hc|].
  pose proof (numeric_round_half 6 k _ He Hk) as Hr. fold (add_cost s c) in Hr. rewrite Hx in Hr.
  change (- (6) - k) with (-6 - k) in Hr. fold p in Hr.
  assert (Hs : scaled k (of_numeric 6 s) = s * p) by (unfold scaled, of_numeric, p; simpl; f_equal; f_equal; lia).
  rewrite Hs in Hr. unfold sumZ at 2. cbn [foldr]. lia.
Qed.

Lemma numeric_add_cost s c z :
  numeric 12 6 (dec_exact_add (of_numeric 6 s) c) = Ok z -> z = add_cost s c /\ Z.abs z < pow10 12.
Proof. unfold numeric. destruct (_ <? _) eqn:E; [|done]. intros [= <-]. bool_to_prop. by split. Qed.
