(* ===== verification/Json.v ===== *)
(** JSON documents as Python's [json] module sees them: the values, the [dict]
    operations the program uses, the text of [json.dumps] and of [str]/[repr].

    Strings are sequences of code points below 256.  A [dict] is its list of
    items in insertion order; [JFloat] carries the [repr] of a float. *)

From S2P Require Import Prelude PyString.

(** ** Values *)
Inductive json : Type :=
  | JNull
  | JBool (b : bool)
  | JInt (z : Z)
  | JFloat (repr : string)
  | JStr (s : string)
  | JArr (l : list json)
  | JObj (kvs : list (string * json)).

Abbreviation dict := (list (string * json)).

Section JsonInd.
Context (P : json -> Prop).
Context (Hnull : P JNull) (Hbool : forall b, P (JBool b)) (Hint : forall z, P (JInt z)).
Context (Hfloat : forall s, P (JFloat s)) (Hstr : forall s, P (JStr s)).
Context (Harr : forall l, Forall P l -> P (JArr l)).
Context (Hobj : forall kvs, Forall (fun kv => P (snd kv)) kvs -> P (JObj kvs)).

(** Induction that reaches the elements of arrays and objects. *)
Fixpoint json_nested_ind (j : json) : P j :=
  match j with
  | JNull => Hnull
  | JBool b => Hbool b
  | JInt z => Hint z
  | JFloat s => Hfloat s
  | JStr s => Hstr s
  | JArr l =>
      Harr l ((fix go (l : list json) : Forall P l :=
        match l with
        | [] => Forall_nil_2 _
        | x :: l' => Forall_cons_2 _ _ _ (json_nested_ind x) (go l')
        end) l)
  | JObj kvs =>
      Hobj kvs ((fix go (l : dict) : Forall (fun kv => P (snd kv)) l :=
        match l with
        | [] => Forall_nil_2 _
        | x :: l' => Forall_cons_2 (fun kv => P (snd kv)) _ _ (json_nested_ind (snd x)) (go l')
        end) kvs)
  end.
End JsonInd.

Fixpoint json_dec (a b : json) {struct a} : {a = b} + {a <> b}.
Proof.
  refine (
    match a, b with
    | JNull, JNull => left eq_refl
    | JBool x, JBool y => cast_if (decide (x = y))
    | JInt x, JInt y => cast_if (decide (x = y))
    | JFloat x, JFloat y => cast_if (decide (x = y))
    | JStr x, JStr y => cast_if (decide (x = y))
    | JArr l, JArr l' => cast_if (List.list_eq_dec json_dec l l')
    | JObj l, JObj l' =>
        cast_if (List.list_eq_dec (fun p q : string * json =>
          match p, q with
          | (k, v), (k', v') => cast_if_and (decide (k = k')) (json_dec v v')
          end) l l')
    | _, _ => right _
    end); abstract congruence.
Defined.

#[export] Instance json_eq_dec : EqDecision json := json_dec.

(** ** Dicts *)

(** [d.get(k)] *)
Fixpoint dget (k : string) (d : dict) : option json :=
  match d with
  | [] => None
  | (k', v) :: d' => if decide (k = k') then Some v else dget k d'
  end.

(** [k in d] *)
Definition dmem (k : string) (d : dict) : bool :=
  match dget k d with Some _ => true | None => false end.

(** [d[k] = v]: in place when the key is there, at the end otherwise. *)
Fixpoint dset (k : string) (v : json) (d : dict) : dict :=
  match d with
  | [] => [(k, v)]
  | (k', v') :: d' => if decide (k = k') then (k', v) :: d' else (k', v') :: dset k v d'
  end.

(** [d[k]] *)
Definition dindex (k : string) (d : dict) : res json := of_option (KeyError k) (dget k d).

(** [d.get(k, default)] *)
Definition dget_or (k : string) (dflt : json) (d : dict) : json := default dflt (dget k d).

(** A value used as a dict ([v.get(...)]). *)
Definition as_dict (v : json) : res dict :=
  match v with JObj d => Ok d | _ => Raise AttributeError end.

(** [v[k]] *)
Definition subscript (k : string) (v : json) : res json :=
  match v with JObj d => dindex k d | _ => Raise TypeError end.

(** [k in v] *)
Definition py_in (k : string) (v : json) : res bool :=
  match v with
  | JObj d => Ok (dmem k d)
  | JArr l => Ok (bool_decide (JStr k ∈ l))
  | JStr s => Ok (is_substring k s)
  | _ => Raise TypeError
  end.

(** [bool(v)] *)
Definition truthy (v : json) : bool :=
  match v with
  | JNull => false
  | JBool b => b
  | JInt z => negb (z =? 0)
  | JFloat s => negb (bool_decide (s = "0.0") || bool_decide (s = "-0.0"))
  | JStr s => negb (bool_decide (s = ""))
  | JArr l => match l with [] => false | _ => true end
  | JObj d => match d with [] => false | _ => true end
  end.

(** ** Characters *)
Definition dquote : ascii := ascii_of_N 34.
Definition squote : ascii := ascii_of_N 39.
Definition backslash : ascii := ascii_of_N 92.
Definition chr (n : N) : string := String (ascii_of_N n) EmptyString.

Definition hex_digit (n : N) : ascii :=
  if (n <? 10)%N then ascii_of_N (48 + n) else ascii_of_N (87 + n).

Definition hex2 (n : N) : string :=
  String (hex_digit (n / 16)) (String (hex_digit (n mod 16)) EmptyString).

(** Order of strings by code points. *)
Fixpoint str_leb (s t : string) : bool :=
  match s, t with
  | EmptyString, _ => true
  | String _ _, EmptyString => false
  | String a s', String b t' =>
      let x := N_of_ascii a in
      let y := N_of_ascii b in
      (x <? y)%N || ((x =? y)%N && str_leb s' t')
  end.

(** ** [json.dumps] *)

(** One character inside a JSON string, [ensure_ascii=True]. *)
Definition json_escape (c : ascii) : string :=
  let n := N_of_ascii c in
  if (n =? 34)%N then chr 92 +:+ chr 34
  else if (n =? 92)%N then chr 92 +:+ chr 92
  else if (n =? 10)%N then chr 92 +:+ "n"
  else if (n =? 13)%N then chr 92 +:+ "r"
  else if (n =? 9)%N then chr 92 +:+ "t"
  else if (n =? 12)%N then chr 92 +:+ "f"
  else if (n =? 8)%N then chr 92 +:+ "b"
  else if (32 <=? n)%N && (n <=? 126)%N then String c EmptyString
  else chr 92 +:+ "u00" +:+ hex2 n.

Fixpoint json_escapes (s : string) : string :=
  match s with EmptyString => EmptyString | String c s' => json_escape c +:+ json_escapes s' end.

Definition json_quote (s : string) : string := chr 34 +:+ json_escapes s +:+ chr 34.

Definition json_item (kt : string * string) : string :=
  json_quote (fst kt) +:+ ": " +:+ snd kt.

(** [json.dumps(v, sort_keys=sort)] *)
Fixpoint dumps (sort : bool) (v : json) : string :=
  match v with
  | JNull => "null"
  | JBool true => "true"
  | JBool false => "false"
  | JInt z => string_of_Z z
  | JFloat r => r
  | JStr s => json_quote s
  | JArr l => "[" +:+ join ", " (map (dumps sort) l) +:+ "]"
  | JObj kvs =>
      let items := map (fun kv => (fst kv, dumps sort (snd kv))) kvs in
      let items := if sort then sort_by (fun x y => str_leb (fst x) (fst y)) items else items in
      "{" +:+ join ", " (map json_item items) +:+ "}"
  end.

(** ** [$n::jsonb]

    PostgreSQL stores no NUL character in a [jsonb] string and no number that
    is not finite: the cast of such a text raises. *)
Fixpoint nul_free (s : string) : bool :=
  match s with EmptyString => true | String c s' => negb (N_of_ascii c =? 0)%N && nul_free s' end.

Definition jsonb_text (s : string) : res unit :=
  if nul_free s then Ok tt else Raise UntranslatableCharacterError.

Definition finite_float (r : string) : bool :=
  negb (bool_decide (r = "nan") || bool_decide (r = "inf") || bool_decide (r = "-inf")).

(** The cast of [json.dumps(v)]: the first thing it refuses raises. *)
Fixpoint jsonb (v : json) : res unit :=
  match v with
  | JStr s => jsonb_text s
  | JFloat r => if finite_float r then Ok tt else Raise InvalidTextRepresentationError
  | JArr l => mapR jsonb l ;; mret tt
  | JObj kvs => mapR (fun kv => jsonb_text (fst kv) ;; jsonb (snd kv)) kvs ;; mret tt
  | JNull | JBool _ | JInt _ => Ok tt
  end.

Example jsonb_nul : jsonb (JObj [("stdout", JStr (String "000" EmptyString))]) =
  Raise UntranslatableCharacterError.
Proof. reflexivity. Qed.

(** ** [repr] and [str] *)
Definition repr_escape (q : ascii) (c : ascii) : string :=
  let n := N_of_ascii c in
  if bool_decide (c = q) || (n =? 92)%N then String backslash (String c EmptyString)
  else if (n =? 10)%N then chr 92 +:+ "n"
  else if (n =? 13)%N then chr 92 +:+ "r"
  else if (n =? 9)%N then chr 92 +:+ "t"
  else if (n <? 32)%N || ((127 <=? n)%N && (n <=? 160)%N) || (n =? 173)%N
  then chr 92 +:+ "x" +:+ hex2 n
  else String c EmptyString.

Fixpoint repr_escapes (q : ascii) (s : string) : string :=
  match s with EmptyString => EmptyString | String c s' => repr_escape q c +:+ repr_escapes q s' end.

Definition repr_str (s : string) : string :=
  let has c := bool_decide (c ∈ str_to_list s) in
  let q := if has squote && negb (has dquote) then dquote else squote in
  String q (repr_escapes q s +:+ String q EmptyString).

Fixpoint py_repr (v : json) : string :=
  match v with
  | JNull => "None"
  | JBool true => "True"
  | JBool false => "False"
  | JInt z => string_of_Z z
  | JFloat r => r
  | JStr s => repr_str s
  | JArr l => "[" +:+ join ", " (map py_repr l) +:+ "]"
  | JObj kvs =>
      "{" +:+ join ", " (map (fun kv => repr_str (fst kv) +:+ ": " +:+ py_repr (snd kv)) kvs) +:+ "}"
  end.

(** [str(v)] *)
Definition py_str (v : json) : string := match v with JStr s => s | _ => py_repr v end.

(** ** Lemmas of the dicts *)
Lemma dget_dset_eq k v d : dget k (dset k v d) = Some v.
Proof.
  induction d as [|[k' v'] d IH]; simpl; [by rewrite decide_True|].
  destruct (decide (k = k')) as [<-|]; simpl; [by rewrite decide_True|by rewrite decide_False].
Qed.

Lemma dget_dset_ne k k' v d : k <> k' -> dget k (dset k' v d) = dget k d.
Proof.
  intros Hne. induction d as [|[k2 v2] d IH]; simpl; [by rewrite decide_False|].
  destruct (decide (k' = k2)) as [<-|]; simpl; [by rewrite !decide_False|].
  by destruct (decide (k = k2)).
Qed.

(** *** What can be stored *)
Lemma jsonb_text_Ok s : jsonb_text s = Ok tt <-> nul_free s = true.
Proof. unfold jsonb_text. by destruct (nul_free s). Qed.

Lemma mapR_unit_Ok {A} (f : A -> res unit) l :
  (mapR f l ;; mret tt) = Ok tt <-> Forall (fun x => f x = Ok tt) l.
Proof.
  unfold_m. induction l as [|x l IH]; simpl; [done|]. rewrite Forall_cons, <- IH. unfold_m.
  destruct (f x) as [[]|]; [|naive_solver]. by destruct (mapR f l); naive_solver.
Qed.

Lemma jsonb_obj_Ok kvs :
  jsonb (JObj kvs) = Ok tt <->
  Forall (fun kv => nul_free (fst kv) = true /\ jsonb (snd kv) = Ok tt) kvs.
Proof.
  simpl. rewrite mapR_unit_Ok. apply Forall_iff. intros [k v]. simpl. rewrite <- jsonb_text_Ok. unfold_m.
  destruct (jsonb_text k) as [[]|]; naive_solver.
Qed.

(** What the cast can raise. *)
Lemma mapR_raises {A} (f : A -> res unit) (Q : exn -> Prop) l e :
  Forall (fun x => forall e, f x = Raise e -> Q e) l -> (mapR f l ;; mret tt) = Raise e -> Q e.
Proof.
  unfold_m. intros H He. induction H as [|x l Hx _ IH]; simpl in *; [done|]. unfold_m.
  destruct (f x) as [[]|e'] eqn:E; [|injection He as <-; by apply Hx].
  destruct (mapR f l); [done|]. by apply IH.
Qed.

Definition jsonb_error (e : exn) : Prop :=
  e = UntranslatableCharacterError \/ e = InvalidTextRepresentationError.

Lemma jsonb_text_raises s e : jsonb_text s = Raise e -> jsonb_error e.
Proof. unfold jsonb_text. destruct (nul_free s); [done|]. intros [= <-]. by left. Qed.

Lemma jsonb_raises v e : jsonb v = Raise e -> jsonb_error e.
Proof.
  revert e. induction v as [|b|z|r|s|l Hl|kvs Hk] using json_nested_ind; intros e; try done.
  - simpl. destruct (finite_float r); [done|]. intros [= <-]. by right.
  - apply jsonb_text_raises.
  - by apply mapR_raises.
  - apply mapR_raises. eapply Forall_impl; [exact Hk|]. intros [k v] Hv e'. simpl in *. unfold_m.
    destruct (jsonb_text k) as [[]|e2] eqn:E; [apply Hv|]. intros [= <-]. by eapply jsonb_text_raises.
Qed.

Lemma nul_free_app s t : nul_free (s +:+ t) = nul_free s && nul_free t.
Proof. induction s as [|c s IH]; simpl; [done|]. by rewrite IH, andb_assoc. Qed.

Lemma nul_free_list s : nul_free s = true <-> Forall (fun c => c <> "000"%char) (str_to_list s).
Proof.
  induction s as [|c s IH]; simpl; [by split|]. rewrite andb_true_iff, IH, Forall_cons, negb_true_iff, N.eqb_neq.
  apply and_iff_compat_r. split; intros H E; apply H; [by subst|]. apply (f_equal ascii_of_N) in E.
  by rewrite ascii_N_embedding in E.
Qed.

Lemma dset_Forall (Q : string * json -> Prop) k v d : Q (k, v) -> Forall Q d -> Forall Q (dset k v d).
Proof.
  intros Hq. induction 1 as [|[k' v'] d Hx Hd IH]; simpl; [by repeat constructor|].
  destruct (decide (k = k')) as [<-|]; by constructor.
Qed.

Lemma dget_app k d d' : dget k (d ++ d') = match dget k d with Some v => Some v | None => dget k d' end.
Proof. induction d as [|[k' v] d IH]; simpl; [done|]. by destruct (decide (k = k')). Qed.

#[export] Hint Rewrite dget_dset_eq : phx.
#[export] Hint Rewrite dget_dset_ne using done : phx.

Example dumps_sorted :
  dumps true (JObj [("tool", JStr "run_code"); ("args", JObj [("path", JStr "main.py")])]) =
  "{" +:+ json_quote "args" +:+ ": {" +:+ json_quote "path" +:+ ": " +:+ json_quote "main.py" +:+
  "}, " +:+ json_quote "tool" +:+ ": " +:+ json_quote "run_code" +:+ "}".
Proof. vm_compute. reflexivity. Qed.

(** ** The order of strings *)
Lemma str_leb_refl s : str_leb s s = true.
Proof. induction s; simpl; [done|]. by rewrite N.eqb_refl, IHs, orb_true_r. Qed.

Lemma str_leb_total s t : str_leb s t = false -> str_leb t s = true.
Proof.
  revert t; induction s as [|a s IH]; intros [|b t]; simpl; try done.
  intros [H1 H2]%orb_false_iff. apply N.ltb_ge in H1. apply orb_true_iff.
  apply andb_false_iff in H2 as [H2|H2].
  - apply N.eqb_neq in H2. left. apply N.ltb_lt. lia.
  - destruct (N.eq_dec (N_of_ascii b) (N_of_ascii a)) as [E|]; [|left; apply N.ltb_lt; lia].
    right. by rewrite (proj2 (N.eqb_eq _ _) E), IH.
Qed.

Lemma str_leb_antisym s t : str_leb s t = true -> str_leb t s = true -> s = t.
Proof.
  revert t; induction s as [|a s IH]; intros [|b t]; simpl; try done.
  intros [H1%N.ltb_lt|[E1%N.eqb_eq H1]%andb_true_iff]%orb_true_iff
    [H2%N.ltb_lt|[E2%N.eqb_eq H2]%andb_true_iff]%orb_true_iff; try lia.
  f_equal; [|by apply IH]. rewrite <- (ascii_N_embedding a), <- (ascii_N_embedding b). congruence.
Qed.

Lemma str_leb_trans s t u : str_leb s t = true -> str_leb t u = true -> str_leb s u = true.
Proof.
  revert t u; induction s as [|a s IH]; intros [|b t] [|c u]; simpl; try done.
  intros [H1%N.ltb_lt|[E1%N.eqb_eq H1]%andb_true_iff]%orb_true_iff
    [H2%N.ltb_lt|[E2%N.eqb_eq H2]%andb_true_iff]%orb_true_iff; apply orb_true_iff.
  1-3: left; apply N.ltb_lt; lia.
  right. apply andb_true_iff. split; [apply N.eqb_eq; congruence|eauto].
Qed.

(** Items sorted by distinct keys have one order. *)
Lemma sort_items_unique {A} (l l' : list (string * A)) :
  NoDup (fst <$> l) -> l ≡ₚ l' ->
  sort_by (fun x y => str_leb (fst x) (fst y)) l = sort_by (fun x y => str_leb (fst x) (fst y)) l'.
Proof.
  intros Hnd Hp. set (le := fun x y : string * A => str_leb (fst x) (fst y)).
  assert (Hss : forall k, StronglySorted (fun x y => Is_true (le x y)) (sort_by le k)).
  { intros k. apply Sorted_StronglySorted.
    - intros x y z. unfold le. rewrite !Is_true_true. apply str_leb_trans.
    - apply sort_by_Sorted. intros x y. apply str_leb_total. }
  eapply StronglySorted_unique_strong; [|apply Hss..|by rewrite !sort_by_Permutation].
  intros [k v] [k' v'] H1 H2 Hle Hge. apply elem_of_sort_by in H1, H2. rewrite <- Hp in H2.
  unfold le in *. simpl in *. apply Is_true_true in Hle, Hge.
  pose proof (str_leb_antisym _ _ Hle Hge) as <-. f_equal.
  apply list_elem_of_lookup in H1 as [i Hi], H2 as [j Hj].
  assert (i = j) as ->; [|congruence].
  eapply NoDup_lookup; [done|..]; by rewrite list_lookup_fmap, ?Hi, ?Hj.
Qed.

(** ** Equality of JSON values: the order of a dict's items does not count *)
Inductive json_same : json -> json -> Prop :=
  | same_refl v : json_same v v
  | same_arr l l' : Forall2 json_same l l' -> json_same (JArr l) (JArr l')
  | same_obj kvs mid kvs' :
      NoDup (fst <$> kvs) ->
      Forall2 (fun p q => fst p = fst q /\ json_same (snd p) (snd q)) kvs mid ->
      mid ≡ₚ kvs' -> json_same (JObj kvs) (JObj kvs').

(** [json.dumps(v, sort_keys=True)] depends only on the value: documents that
    went through a JSONB column, which reorders keys, have the same text. *)
Lemma dumps_sorted_same v w : json_same v w -> dumps true v = dumps true w.
Proof.
  revert w. induction v as [| | | | |l IH|kvs IH] using json_nested_ind; intros w H;
    inversion H as [|? l' Hl|? mid kvs' Hnd Hm Hp]; subst; try done.
  - simpl. do 3 f_equal. clear H. induction Hl as [|x y l l' Hxy Hl IHl]; [done|].
    apply Forall_cons in IH as [Hx IH]. simpl. f_equal; auto.
  - simpl. do 3 f_equal. f_equal.
    assert (map (fun kv => (fst kv, dumps true (snd kv))) kvs =
            map (fun kv => (fst kv, dumps true (snd kv))) mid) as Heq.
    { clear H Hnd Hp. induction Hm as [|[k x] [k' y] l l' [Hk Hxy] Hl IHl]; [done|].
      apply Forall_cons in IH as [Hx IH]. simpl in *. subst. f_equal; [|by apply IHl].
      f_equal. by apply Hx. }
    apply sort_items_unique.
    + rewrite <- list_fmap_compose. by erewrite list_fmap_ext.
    + rewrite Heq. by apply Permutation_map.
Qed.

(** ** Strings inside JSON text can be read back *)
Definition hex_val (c : ascii) : option N :=
  let n := N_of_ascii c in
  if (48 <=? n)%N && (n <=? 57)%N then Some (n - 48)%N
  else if (97 <=? n)%N && (n <=? 102)%N then Some (n - 87)%N
  else None.

(** One character of a JSON string and the rest of the text; [None] at the
    closing quote or on text [json.dumps] does not write. *)
Definition unescape (s : string) : option (ascii * string) :=
  match s with
  | EmptyString => None
  | String c s' =>
      if decide (c = dquote) then None
      else if decide (c = backslash) then
        match s' with
        | String "n" r => Some (ascii_of_N 10, r)
        | String "r" r => Some (ascii_of_N 13, r)
        | String "t" r => Some (ascii_of_N 9, r)
        | String "f" r => Some (ascii_of_N 12, r)
        | String "b" r => Some (ascii_of_N 8, r)
        | String "u" (String "0" (String "0" (String h (String l r)))) =>
            x ← hex_val h; y ← hex_val l; Some (ascii_of_N (16 * x + y), r)
        | String e r => if decide (e = dquote \/ e = backslash) then Some (e, r) else None
        | EmptyString => None
        end
      else Some (c, s')
  end.

Lemma unescape_escape c r : unescape (json_escape c +:+ r) = Some (c, r).
Proof. destruct c as [[] [] [] [] [] [] [] []]; reflexivity. Qed.

Lemma json_escapes_app_inj s t x y :
  json_escapes s +:+ String dquote x = json_escapes t +:+ String dquote y -> s = t /\ x = y.
Proof.
  revert t; induction s as [|c s IH]; intros [|d t]; cbn [json_escapes]; intros H.
  - by injection H.
  - apply (f_equal unescape) in H. rewrite str_app_assoc, unescape_escape in H. done.
  - apply (f_equal unescape) in H. rewrite str_app_assoc, unescape_escape in H. done.
  - apply (f_equal unescape) in H. rewrite !str_app_assoc, !unescape_escape in H.
    injection H as -> H. by apply IH in H as [-> ->].
Qed.

Lemma json_quote_app_inj s t x y : json_quote s +:+ x = json_quote t +:+ y -> s = t /\ x = y.
Proof.
  unfold json_quote. rewrite !str_app_assoc. intros [= H]. by apply json_escapes_app_inj.
Qed.
