(* ===== verification/Env.v ===== *)
(** [envfile.py] and [llm/factory.py]: the environment variables, the [.env]
    loader of the command line, and the choice of the real provider. *)

From S2P Require Import Prelude PyString Json.

(** [os.environ] *)
Abbreviation environ := (gmap string string).

(** [os.environ.get(name, dflt)] *)
Definition getenv_or (name dflt : string) (env : environ) : string := default dflt (env !! name).

(** [os.environ.get(name) == value] *)
Definition env_is (name value : string) (env : environ) : bool :=
  bool_decide (env !! name = Some value).

Lemma env_is_spec name value env : env_is name value env = true <-> env !! name = Some value.
Proof. apply bool_decide_eq_true. Qed.

Definition nul : ascii := ascii_of_N 0.

(** [os.environ[key] = value]; the C library refuses embedded NULs. *)
Definition setenv (key value : string) : M environ unit := fun env =>
  if bool_decide (nul ∈ str_to_list key) || bool_decide (nul ∈ str_to_list value)
  then (Raise ValueError, env)
  else (Ok tt, <[key := value]> env).

(** ** [load_dotenv] *)

(** The quotes around a value, when it has the same one on both sides. *)
Definition unquote (value : string) : string :=
  match str_to_list value with
  | q :: rest =>
      match reverse rest with
      | q' :: mid =>
          if decide (q = q' /\ (q = ascii_of_N 34 \/ q = ascii_of_N 39))
          then str_of_list (reverse mid) else value
      | [] => value
      end
  | [] => value
  end.

(** The assignment on a line of the file. *)
Definition parse_line (raw : string) : option (string * string) :=
  let line := strip raw in
  if bool_decide (line = "") || startswith "#" line then None
  else
    '(key, value) ← partition_at "=" line;
    Some (strip (removeprefix "export " (strip key)), unquote (strip value)).

Fixpoint load_lines (lines : list string) (loaded : list string) : M environ (list string) :=
  match lines with
  | [] => mret loaded
  | raw :: lines' =>
      match parse_line raw with
      | None => load_lines lines' loaded
      | Some (key, value) =>
          known ← gets (fun env => bool_decide (is_Some (env !! key)));
          if negb (bool_decide (key = "")) && negb (bool_decide (value = "")) && negb known then
            setenv key value ;; load_lines lines' (loaded ++ [key])
          else load_lines lines' loaded
      end
  end.

(** [file] is the text at [path], [None] when there is no file. *)
Definition load_dotenv (file : option string) : M environ (list string) :=
  match file with
  | None => mret []
  | Some text => load_lines (splitlines text) []
  end.

(** ** The choice of the provider *)
Definition KEY_ENV : environ :=
  <["anthropic" := "ANTHROPIC_API_KEY"]> (<["gemini" := "GEMINI_API_KEY"]> ∅).

Definition provider_kind (env : environ) : res string :=
  let kind := lower (getenv_or "PHOENIX_PROVIDER" "anthropic" env) in
  if bool_decide (is_Some (KEY_ENV !! kind)) then Ok kind else Raise RuntimeError.

Definition required_key_env (env : environ) : res string :=
  kind ← provider_kind env;
  of_option (KeyError kind) (KEY_ENV !! kind).

Lemma required_key_raises env e : required_key_env env = Raise e -> e = RuntimeError.
Proof.
  unfold required_key_env, provider_kind. unfold_m. case_bool_decide as H; [|by intros [= <-]].
  destruct H as [k Hk]. simpl. by rewrite Hk.
Qed.

Definition DEFAULT_MODEL : string := "claude-haiku-4-5-20251001".
Definition DEFAULT_GEMINI_MODEL : string := "gemini-3.6-flash".

Definition default_model (env : environ) : res string :=
  kind ← provider_kind env;
  mret (getenv_or "PHOENIX_MODEL"
    (if bool_decide (kind = "gemini") then DEFAULT_GEMINI_MODEL else DEFAULT_MODEL) env).

(** ** What loading a file does *)

Example load_dotenv_example :
  load_dotenv (Some ("# keys" +:+ chr 10 +:+ "export A = '1 2' " +:+ chr 10 +:+ "B=" +:+ chr 10 +:+
                     "C=3" +:+ chr 10 +:+ "A=4"))
    {[ "C" := "old" ]} = (Ok ["A"], <["A" := "1 2"]> {[ "C" := "old" ]}).
Proof. by_vm. Qed.

(** The assignments of a file that count: a name and a value on both sides. *)
Definition assignments (lines : list string) : list (string * string) :=
  filter (fun kv => kv.1 <> "" /\ kv.2 <> "") (omap parse_line lines).

(** The variables of a file: the first assignment of a name is its value. *)
Definition file_env (lines : list string) : environ := list_to_map (assignments lines).

Definition lines_of (file : option string) : list string := default [] (splitlines <$> file).

Lemma file_env_cons raw lines :
  file_env (raw :: lines) =
    match parse_line raw with
    | Some (k, v) =>
        if decide (k <> "" /\ v <> "") then <[k := v]> (file_env lines) else file_env lines
    | None => file_env lines
    end.
Proof.
  unfold file_env, assignments. cbn [omap list_omap].
  destruct (parse_line raw) as [[k v]|]; [|done].
  case_decide; [by rewrite filter_cons_True|by rewrite filter_cons_False].
Qed.

Lemma load_lines_Ok lines loaded env names env' :
  load_lines lines loaded env = (Ok names, env') ->
  env' = env ∪ file_env lines /\
  exists new, names = loaded ++ new /\ NoDup new /\
    forall k, k ∈ new <-> is_Some (file_env lines !! k) /\ env !! k = None.
Proof.
  revert loaded env. induction lines as [|raw lines IH]; intros loaded env H; simpl in H.
  { injection H as <- <-. split; [apply map_eq; intros k; rewrite lookup_union; unfold file_env; simpl; rewrite lookup_empty; by destruct (env !! k)|].
    exists []. rewrite app_nil_r. split_and!; [done|constructor|].
    intros k. unfold file_env. simpl. rewrite lookup_empty. split; [by intros ?%elem_of_nil|by intros [[]]]. }
  rewrite file_env_cons. destruct (parse_line raw) as [[key value]|]; [|by apply IH].
  unfold mbind, M_bind, gets in H.
  destruct (decide (key <> "" /\ value <> "")) as [[Hk Hv]|Hn].
  2: {
       replace (negb (bool_decide (key = "")) && negb (bool_decide (value = ""))) with false in H; [by apply IH|].
       symmetry. apply andb_false_iff. rewrite !negb_false_iff, !bool_decide_eq_true.
       destruct (decide (key = "")), (decide (value = "")); tauto. }
  rewrite !(bool_decide_eq_false_2 (_ = "")) in H by done. simpl in H.
  destruct (bool_decide (is_Some (env !! key))) eqn:Hkn; bool_to_prop; simpl in H.
  - apply IH in H as (-> & new & -> & Hnd & Hnew). destruct Hkn as [v0 Hkn]. split.
    + apply map_eq. intros k. rewrite !lookup_union, lookup_insert. case_decide; subst; [rewrite Hkn|done]. by destruct (file_env lines !! k).
    + exists new. split_and!; [done..|]. intros k. rewrite Hnew, lookup_insert. case_decide; subst; [|done].
      rewrite Hkn. naive_solver.
  - apply eq_None_not_Some in Hkn. unfold setenv in H. destruct (_ || _); [done|].
    apply IH in H as (-> & new & -> & Hnd & Hnew). split.
    + apply map_eq. intros k. rewrite !lookup_union, !lookup_insert. case_decide; subst; [|done].
      rewrite Hkn. by destruct (file_env lines !! k).
    + exists (key :: new). rewrite <- app_assoc. split_and!; [done| |].
      * constructor; [|done]. rewrite Hnew, lookup_insert_eq. naive_solver.
      * intros k. rewrite elem_of_cons, Hnew, !lookup_insert. destruct (decide (key = k)) as [->|Hne].
        -- split; [intros _; split; [by eexists|done]|]. by left.
        -- split; [intros [->|]; [done|done]|by right].
Qed.

(** Loading changes no variable that has a value, even when it stops early. *)
Lemma load_lines_keeps lines loaded env : env ⊆ snd (load_lines lines loaded env).
Proof.
  revert loaded env. induction lines as [|raw lines IH]; intros loaded env; simpl; [done|].
  destruct (parse_line raw) as [[key value]|]; [|apply IH].
  unfold mbind, M_bind, gets. destruct (bool_decide (is_Some (env !! key))) eqn:Hk;
    destruct (bool_decide (key = "")), (bool_decide (value = "")); simpl; try apply IH.
  unfold setenv. destruct (_ || _); [done|].
  etransitivity; [|apply IH]. apply insert_subseteq. apply bool_decide_eq_false in Hk.
  by apply eq_None_not_Some.
Qed.

(** A file whose names all have values sets nothing. *)
Lemma load_lines_known lines loaded env :
  (forall k, is_Some (file_env lines !! k) -> is_Some (env !! k)) ->
  load_lines lines loaded env = (Ok loaded, env).
Proof.
  revert loaded. induction lines as [|raw lines IH]; intros loaded H; simpl; [done|].
  rewrite file_env_cons in H.
  destruct (parse_line raw) as [[key value]|]; [|by apply IH].
  unfold mbind, M_bind, gets. destruct (decide (key <> "" /\ value <> "")) as [Hk|Hn].
  - rewrite (bool_decide_eq_true_2 (is_Some _)); [|apply H; rewrite lookup_insert_eq; by eexists].
    rewrite andb_false_r. apply IH. intros k Hs. apply H.
    rewrite lookup_insert. case_decide; [by eexists|exact Hs].
  - replace (negb (bool_decide (key = "")) && negb (bool_decide (value = ""))) with false; [by apply IH|].
    symmetry. apply andb_false_iff. rewrite !negb_false_iff, !bool_decide_eq_true.
    destruct (decide (key = "")), (decide (value = "")); tauto.
Qed.

(** The environment wins.  Loading a [.env] file never changes a variable
    that is set.  When it succeeds, the variables are the ones that were set
    and, for the other names, the first assignment of the file whose name and
    value are not empty; the names returned are exactly the new ones, once
    each; and loading again sets nothing. *)
Theorem load_dotenv_correct file env r env' :
  load_dotenv file env = (r, env') ->
  env ⊆ env' /\
  forall names, r = Ok names ->
    env' = env ∪ file_env (lines_of file) /\
    NoDup names /\
    (forall k, k ∈ names <-> env !! k = None /\ is_Some (env' !! k)) /\
    load_dotenv file env' = (Ok [], env').
Proof.
  intros H. assert (Hl : load_lines (lines_of file) [] env = (r, env')) by (by destruct file). split.
  { pose proof (load_lines_keeps (lines_of file) [] env) as Hk. by rewrite Hl in Hk. }
  intros names ->. pose proof (load_lines_Ok _ _ _ _ _ Hl) as (He & new & Hn & Hnd & Hnew).
  simpl in Hn. subst new. split_and!; [done..| |].
  - intros k. rewrite Hnew, He, lookup_union.
    destruct (env !! k), (file_env (lines_of file) !! k); naive_solver.
  - assert (Hk : load_lines (lines_of file) [] env' = (Ok [], env')); [|by destruct file].
    apply load_lines_known. intros k [v Hv]. rewrite He, lookup_union, Hv. by destruct (env !! k).
Qed.
