(* ===== verification/JsonParse.v ===== *)
(** [json.loads]: the decoder of Python's [json] module, and the round trip
    with [json.dumps].

    The decoder is written over the text with fuel; [loads] gives it two units
    per character, which [value_fuel] shows is enough.  Escapes of code points
    above 255, the recursion limit and the limit on the digits of an integer
    are not modelled. *)

From Stdlib Require Import DecimalString DecimalN DecimalFacts.
From S2P Require Import Prelude PyString PyDecimal Json.

(** ** Scanning *)
Definition is_json_ws (c : ascii) : bool :=
  let n := N_of_ascii c in (n =? 32)%N || (n =? 9)%N || (n =? 10)%N || (n =? 13)%N.

Fixpoint skip_ws (s : string) : string :=
  match s with
  | String c r => if is_json_ws c then skip_ws r else s
  | EmptyString => EmptyString
  end.

Definition hex_digit_val (c : ascii) : option N :=
  let n := N_of_ascii c in
  if (48 <=? n)%N && (n <=? 57)%N then Some (n - 48)%N
  else if (97 <=? n)%N && (n <=? 102)%N then Some (n - 87)%N
  else if (65 <=? n)%N && (n <=? 70)%N then Some (n - 55)%N
  else None.

(** The character an escape stands for, after its backslash. *)
Definition escaped (s : string) : option (ascii * string) :=
  match s with
  | String "n" r => Some (ascii_of_N 10, r)
  | String "r" r => Some (ascii_of_N 13, r)
  | String "t" r => Some (ascii_of_N 9, r)
  | String "f" r => Some (ascii_of_N 12, r)
  | String "b" r => Some (ascii_of_N 8, r)
  | String "/" r => Some ("/"%char, r)
  | String "u" (String "0" (String "0" (String h (String l r)))) =>
      x ← hex_digit_val h; y ← hex_digit_val l; Some (ascii_of_N (16 * x + y), r)
  | String e r => if decide (e = dquote \/ e = backslash) then Some (e, r) else None
  | EmptyString => None
  end.

(** One character of a string literal and the text after it.  [None] at the
    closing quote, at a control character and at a bad escape. *)
Definition string_char (s : string) : option (ascii * string) :=
  match s with
  | EmptyString => None
  | String c r =>
      if decide (c = dquote) then None
      else if decide (c = backslash) then escaped r
      else if (N_of_ascii c <? 32)%N then None
      else Some (c, r)
  end.

(** The rest of a string literal, after its opening quote. *)
Fixpoint string_body (fuel : nat) (s : string) : option (string * string) :=
  match fuel with
  | O => None
  | S fuel' =>
      match s with
      | String c r =>
          if decide (c = dquote) then Some (EmptyString, r)
          else '(x, r) ← string_char s; '(t, r) ← string_body fuel' r; Some (String x t, r)
      | EmptyString => None
      end
  end.

Definition string_literal (s : string) : option (string * string) :=
  string_body (S (String.length s)) s.

(** ** Numbers *)

(** [(\.[0-9]+)?] *)
Definition match_frac (l : list ascii) : list ascii * list ascii :=
  match l with
  | "."%char :: r =>
      let '(ds, r') := span_digits r in
      match ds with [] => ([], l) | _ => ("."%char :: ds, r') end
  | _ => ([], l)
  end.

(** [([eE][-+]?[0-9]+)?] *)
Definition match_exp (l : list ascii) : list ascii * list ascii :=
  match l with
  | e :: r =>
      if decide (e = "e"%char \/ e = "E"%char) then
        let '(sgn, r1) := match r with
          | c :: r1 => if decide (c = "-"%char \/ c = "+"%char) then ([c], r1) else ([], r)
          | [] => ([], r)
          end in
        let '(ds, r2) := span_digits r1 in
        match ds with [] => ([], l) | _ => (e :: sgn ++ ds, r2) end
      else ([], l)
  | [] => ([], l)
  end.

(** [(-?(?:0|[1-9][0-9]* ))] *)
Definition match_int (l : list ascii) : option (list ascii * list ascii) :=
  let '(sgn, r) := match l with "-"%char :: r => (["-"%char], r) | _ => ([], l) end in
  match r with
  | "0"%char :: r' => Some (sgn ++ ["0"%char], r')
  | _ =>
      let '(ds, r') := span_digits r in
      match ds with [] => None | _ => Some (sgn ++ ds, r') end
  end.

Section Loads.
(** [repr(float(text))] *)
Context (float_repr : string -> string).

Definition number (s : string) : option (json * string) :=
  '(i, r) ← match_int (str_to_list s);
  let '(f, r1) := match_frac r in
  let '(e, r2) := match_exp r1 in
  match f ++ e with
  | [] => z ← parse_int i; Some (JInt z, str_of_list r2)
  | fe => Some (JFloat (float_repr (str_of_list (i ++ fe))), str_of_list r2)
  end.

(** ** Values *)

Definition keywords : list (string * json) :=
  [("null", JNull); ("true", JBool true); ("false", JBool false); ("NaN", JFloat "nan");
   ("Infinity", JFloat "inf"); ("-Infinity", JFloat "-inf")].

Fixpoint keyword (ks : list (string * json)) (s : string) : option (json * string) :=
  match ks with
  | [] => None
  | (k, v) :: ks' => match strip_prefix k s with Some r => Some (v, r) | None => keyword ks' s end
  end.

Definition scalar (s : string) : option (json * string) :=
  match keyword keywords s with Some r => Some r | None => number s end.

(** [dict(pairs)] *)
Definition dict_of_pairs (kvs : list (string * json)) : dict :=
  foldl (fun d kv => dset (fst kv) (snd kv) d) [] kvs.

(** The text after the character [c]. *)
Definition after (c : ascii) (s : string) : option string :=
  match s with
  | String d r => if decide (c = d) then Some r else None
  | EmptyString => None
  end.

Fixpoint value (fuel : nat) (s : string) : option (json * string) :=
  match fuel with
  | O => None
  | S n =>
      match s with
      | EmptyString => None
      | String c r =>
          if decide (c = dquote) then '(t, r') ← string_literal r; Some (JStr t, r')
          else if decide (c = "["%char) then
            match after "]" (skip_ws r) with
            | Some r' => Some (JArr [], r')
            | None => '(l, r') ← array_items n (skip_ws r); Some (JArr l, r')
            end
          else if decide (c = "{"%char) then
            match after "}" (skip_ws r) with
            | Some r' => Some (JObj [], r')
            | None => '(l, r') ← object_items n (skip_ws r); Some (JObj (dict_of_pairs l), r')
            end
          else scalar s
      end
  end
with array_items (fuel : nat) (s : string) : option (list json * string) :=
  match fuel with
  | O => None
  | S n =>
      '(v, r) ← value n s;
      match after "]" (skip_ws r) with
      | Some r' => Some ([v], r')
      | None =>
          r1 ← after "," (skip_ws r);
          '(l, r2) ← array_items n (skip_ws r1);
          Some (v :: l, r2)
      end
  end
with object_items (fuel : nat) (s : string) : option (list (string * json) * string) :=
  match fuel with
  | O => None
  | S n =>
      s1 ← after dquote s;
      '(k, r1) ← string_literal s1;
      r2 ← after ":" (skip_ws r1);
      '(v, r3) ← value n (skip_ws r2);
      match after "}" (skip_ws r3) with
      | Some r4 => Some ([(k, v)], r4)
      | None =>
          r4 ← after "," (skip_ws r3);
          '(l, r5) ← object_items n (skip_ws r4);
          Some ((k, v) :: l, r5)
      end
  end.

Definition loads_fuel (s : string) : nat := S (2 * String.length s).

(** [json.loads(s)] *)
Definition loads (s : string) : res json :=
  let s := skip_ws s in
  match value (loads_fuel s) s with
  | Some (v, r) => match skip_ws r with EmptyString => Ok v | _ => Raise ValueError end
  | None => Raise ValueError
  end.
End Loads.

Example loads_object :
  loads id (" {" +:+ json_quote "path" +:+ ": [1, -2.5e3,true] , " +:+ json_quote "path" +:+ ":null}")
  = Ok (JObj [("path", JNull)]).
Proof. by_vm. Qed.
Example loads_bad : loads id "[1,]" = Raise ValueError.
Proof. by_vm. Qed.

(** ** Scanners and the text that follows *)

(** [rest] does not continue a number. *)
Definition stops (rest : list ascii) : bool :=
  match rest with
  | [] => true
  | c :: _ => negb (is_digit c || bool_decide (c ∈ [".";"e";"E";"-";"+"]%char))
  end.

Lemma span_digits_ext l rest :
  stops rest = true ->
  span_digits (l ++ rest) = (fst (span_digits l), snd (span_digits l) ++ rest).
Proof.
  intros Hs. induction l as [|c l IH]; simpl.
  - destruct rest as [|c r]; [done|]. simpl in *.
    apply negb_true_iff, orb_false_iff in Hs as [-> _]. done.
  - destruct (is_digit c); [|done]. rewrite IH. by destruct (span_digits l).
Qed.

Lemma stops_head c r x : stops (c :: r) = true -> x ∈ [".";"e";"E";"-";"+"]%char -> c <> x.
Proof.
  simpl. intros [_ H]%negb_true_iff%orb_false_iff Hx ->. by apply bool_decide_eq_false in H.
Qed.

Ltac stops_ne H :=
  repeat match goal with
  | |- context [decide (?c = _ \/ ?c = _)] =>
      rewrite (decide_False (P := c = _ \/ c = _))
        by (intros [E|E]; revert E; apply (stops_head _ _ _ H); set_solver)
  end.

Lemma match_frac_ext l rest :
  stops rest = true ->
  match_frac (l ++ rest) = (fst (match_frac l), snd (match_frac l) ++ rest).
Proof.
  intros Hs. destruct l as [|c l]; simpl.
  - destruct rest as [|c r]; [done|]. pose proof (stops_head c r "."%char Hs ltac:(set_solver)).
    simpl. destruct c as [[] [] [] [] [] [] [] []]; done.
  - unfold match_frac. destruct (decide (c = "."%char)) as [->|Hne].
    + rewrite span_digits_ext by done. destruct (span_digits l) as [[|d ds] r]; done.
    + destruct c as [[] [] [] [] [] [] [] []]; done.
Qed.

Lemma match_exp_ext l rest :
  stops rest = true ->
  match_exp (l ++ rest) = (fst (match_exp l), snd (match_exp l) ++ rest).
Proof.
  intros Hs. destruct l as [|c l]; simpl.
  - destruct rest as [|c r]; [done|]. simpl. by stops_ne Hs.
  - destruct (decide _) as [_|]; [|done]. destruct l as [|d l]; simpl.
    + destruct rest as [|d r]; [done|]. stops_ne Hs. simpl.
      simpl in Hs. apply negb_true_iff, orb_false_iff in Hs as [-> _]. done.
    + destruct (decide (d = "-"%char \/ d = "+"%char)).
      * rewrite span_digits_ext by done. by destruct (span_digits l) as [[|x ds] r].
      * change (d :: l ++ rest) with ((d :: l) ++ rest). rewrite span_digits_ext by done.
        destruct (span_digits (d :: l)) as [[|x ds] r]; done.
Qed.

Definition unsigned_int (r : list ascii) : option (list ascii * list ascii) :=
  match r with
  | "0"%char :: r' => Some (["0"%char], r')
  | _ => let '(ds, r') := span_digits r in match ds with [] => None | _ => Some (ds, r') end
  end.

Lemma match_int_unsigned l :
  match_int l =
    match l with
    | "-"%char :: r => '(i, r') ← unsigned_int r; Some ("-"%char :: i, r')
    | _ => unsigned_int l
    end.
Proof.
  assert (H : forall sgn r,
    match r with
    | "0"%char :: r' => Some (sgn ++ ["0"%char], r')
    | _ => let '(ds, r') := span_digits r in match ds with [] => None | _ => Some (sgn ++ ds, r') end
    end = '(i, r') ← unsigned_int r; Some (sgn ++ i, r')).
  { intros sgn r. unfold unsigned_int. destruct r as [|c r]; [done|].
    destruct (decide (c = "0"%char)) as [->|]; [done|].
    destruct (span_digits (c :: r)) as [[|d ds] r'] eqn:E; destruct c as [[] [] [] [] [] [] [] []]; done. }
  unfold match_int. destruct l as [|c l]; [done|].
  destruct (decide (c = "-"%char)) as [->|]; [apply (H ["-"%char])|].
  assert (Hc : forall A (a b : A), match c with "-"%char => a | _ => b end = b).
  { intros. destruct c as [[] [] [] [] [] [] [] []]; done. }
  pose proof (H [] (c :: l)) as E. simpl app in E.
  destruct c as [[] [] [] [] [] [] [] []]; try done; etransitivity; try exact E; by destruct (unsigned_int _) as [[]|].
Qed.

Lemma unsigned_int_ext l i r rest :
  unsigned_int l = Some (i, r) -> stops rest = true ->
  unsigned_int (l ++ rest) = Some (i, r ++ rest).
Proof.
  intros H Hs. unfold unsigned_int in *. destruct l as [|c l]; [done|].
  destruct (decide (c = "0"%char)) as [->|]; [by injection H as <- <-|].
  pose proof (span_digits_ext (c :: l) rest Hs) as E.
  change ((c :: l) ++ rest) with (c :: (l ++ rest)) in *.
  destruct (span_digits (c :: l)) as [[|d ds] r'] eqn:Ed; cbn [fst snd] in E.
  - destruct c as [[] [] [] [] [] [] [] []]; done.
  - rewrite E. destruct c as [[] [] [] [] [] [] [] []]; try done; by injection H as <- <-.
Qed.

Lemma match_int_ext l i r rest :
  match_int l = Some (i, r) -> stops rest = true -> match_int (l ++ rest) = Some (i, r ++ rest).
Proof.
  rewrite !match_int_unsigned. intros H Hs. destruct l as [|c l]; [done|]. simpl app.
  destruct (decide (c = "-"%char)) as [->|].
  - destruct (unsigned_int l) as [[i' r']|] eqn:E; simplify_eq/=.
    by erewrite unsigned_int_ext.
  - pose proof (unsigned_int_ext (c :: l) i r rest) as E. simpl app in E.
    destruct c as [[] [] [] [] [] [] [] []]; try done; auto.
Qed.

(** A number starts with a digit or a minus sign and a digit. *)
Lemma match_int_head l i r :
  match_int l = Some (i, r) ->
  exists c l', l = c :: l' /\
    (is_digit c = true \/ c = "-"%char /\ exists d l2, l' = d :: l2 /\ is_digit d = true).
Proof.
  assert (Hu : forall l i r, unsigned_int l = Some (i, r) ->
    exists c l', l = c :: l' /\ is_digit c = true).
  { clear. intros [|c l] i r H; [done|]. exists c, l. split; [done|].
    destruct (is_digit c) eqn:E; [done|]. unfold unsigned_int in H. simpl in H. rewrite E in H.
    destruct (decide (c = "0"%char)) as [->|]; [done|].
    destruct c as [[] [] [] [] [] [] [] []]; done. }
  rewrite match_int_unsigned. intros H. destruct l as [|c l]; [done|]. exists c, l. split; [done|].
  destruct (decide (c = "-"%char)) as [->|].
  - destruct (unsigned_int l) as [[i' r']|] eqn:E; [|done].
    apply Hu in E as (d & l2 & -> & Hd). right. split; [done|]. by exists d, l2.
  - left. assert (exists i r, unsigned_int (c :: l) = Some (i, r)) as (i' & r' & E).
    { destruct c as [[] [] [] [] [] [] [] []]; try done; eauto. }
    by apply Hu in E as (? & ? & [= <- <-] & ?).
Qed.

Section NumberExt.
Context (float_repr : string -> string).

Lemma number_ext s v r rest :
  number float_repr s = Some (v, r) -> stops (str_to_list rest) = true ->
  number float_repr (s +:+ rest) = Some (v, r +:+ rest).
Proof.
  unfold number. rewrite str_to_list_app. intros H Hs.
  destruct (match_int (str_to_list s)) as [[i r0]|] eqn:Ei; [|done].
  erewrite match_int_ext by done. simpl in *. rewrite match_frac_ext by done.
  destruct (match_frac r0) as [f r1]; simpl in *. rewrite match_exp_ext by done.
  destruct (match_exp r1) as [e r2]; simpl in *.
  rewrite str_of_list_app, str_of_to_list.
  destruct (f ++ e); simpl in *; [destruct (parse_int i)|]; by simplify_eq/=.
Qed.

Lemma number_scalar s v r rest :
  number float_repr s = Some (v, r) -> stops (str_to_list rest) = true ->
  scalar float_repr (s +:+ rest) = Some (v, r +:+ rest) /\
  exists c t, s = String c t /\ (is_digit c = true \/ c = "-"%char).
Proof.
  intros H Hs. unfold scalar. erewrite number_ext by done.
  unfold number in H. destruct (match_int (str_to_list s)) as [[i r0]|] eqn:Ei; [|done].
  apply match_int_head in Ei as (c & l & El & Hc).
  destruct s as [|c' t]; [done|]. injection El as -> El.
  split; [|exists c, t; split; [done|tauto]].
  assert (keyword keywords (String c t +:+ rest) = None) as ->; [|done].
  simpl. destruct Hc as [Hd|[-> (d & l2 & -> & Hd)]].
  - rewrite !decide_False by (intros <-; done). done.
  - destruct t as [|d' t]; [done|]. injection El as -> _. simpl.
    rewrite !decide_False by (try done; intros <-; done). done.
Qed.
End NumberExt.

(** ** Printed integers *)
Lemma digits_of_lead z : exists c l, digits_of z = c :: l /\ (c = "0"%char -> l = []).
Proof.
  unfold digits_of, string_of_N. pose proof (DecimalN.Unsigned.to_of (N.to_uint (Z.abs_N z))) as H.
  rewrite DecimalN.Unsigned.of_to in H.
  destruct (N.to_uint (Z.abs_N z)) as [|u|u|u|u|u|u|u|u|u|u] eqn:E; simpl; eauto 10.
  all: try (eexists _, _; split; [reflexivity|done]).
  assert (u = Decimal.Nil) as ->; [|by eexists _, []].
  unfold Decimal.unorm in H. cbn [Decimal.nzhead] in H.
  destruct (Decimal.nzhead u) eqn:En; try discriminate H; [by injection H|].
  by apply nzhead_nonzero in En.
Qed.

Definition int_text (z : Z) : list ascii :=
  (if z <? 0 then ["-"%char] else []) ++ digits_of z.

Lemma match_int_text z : match_int (int_text z) = Some (int_text z, []).
Proof.
  assert (Hu : unsigned_int (digits_of z) = Some (digits_of z, [])).
  { destruct (digits_of_lead z) as (c & l & E & H0). unfold unsigned_int.
    pose proof (span_digits_all (digits_of z) (digits_of_digit z)) as Hs. rewrite E in *.
    destruct (decide (c = "0"%char)) as [->|]; [by rewrite H0 by done|].
    rewrite Hs. destruct c as [[] [] [] [] [] [] [] []]; done. }
  rewrite match_int_unsigned. unfold int_text. destruct (z <? 0); simpl; [by rewrite Hu|].
  destruct (digits_of z) as [|c l] eqn:E; [done|].
  pose proof (digits_of_digit z) as Hd. rewrite E in Hd. apply Forall_cons in Hd as [Hd _].
  destruct (decide (c = "-"%char)) as [->|]; [done|].
  destruct c as [[] [] [] [] [] [] [] []]; try done; exact Hu.
Qed.

Lemma parse_int_text z : parse_int (int_text z) = Some z.
Proof.
  unfold parse_int, int_text.
  pose proof (split_sign_digits (z <? 0) (digits_of z) [] (digits_of_digit z) (digits_of_nonempty z)) as H.
  rewrite app_nil_r in H. rewrite H, span_digits_all by apply digits_of_digit.
  pose proof (digits_val_digits_of z) as Hv. pose proof (digits_of_nonempty z) as Hne.
  destruct (digits_of z); [done|]. rewrite Hv. f_equal. destruct (z <? 0) eqn:E; bool_to_prop; lia.
Qed.

Lemma string_of_Z_text z : string_of_Z z = str_of_list (int_text z).
Proof.
  unfold string_of_Z, int_text, digits_of. destruct (z <? 0); simpl; by rewrite str_of_to_list.
Qed.

Lemma number_int float_repr z : number float_repr (string_of_Z z) = Some (JInt z, EmptyString).
Proof.
  unfold number. rewrite string_of_Z_text, str_to_of_list, match_int_text. simpl.
  by rewrite parse_int_text.
Qed.

(** ** String literals *)
Lemma string_char_escape c r : string_char (json_escape c +:+ r) = Some (c, r).
Proof. destruct c as [[] [] [] [] [] [] [] []]; reflexivity. Qed.

Lemma json_escape_head c : exists x t, json_escape c = String x t /\ x <> dquote.
Proof. destruct c as [[] [] [] [] [] [] [] []]; eexists _, _; split; [reflexivity|done| | |..]; done. Qed.

Lemma string_body_escapes s fuel r :
  (String.length s < fuel)%nat ->
  string_body fuel (json_escapes s +:+ String dquote r) = Some (s, r).
Proof.
  revert fuel; induction s as [|c s IH]; intros [|fuel] Hf; simpl in *; try lia.
  - done.
  - rewrite str_app_assoc. pose proof (string_char_escape c (json_escapes s +:+ String dquote r)) as Hc.
    destruct (json_escape_head c) as (x & t & E & Hx). rewrite E in *. simpl in *.
    rewrite decide_False by done. rewrite Hc. simpl. by rewrite IH by lia.
Qed.

Lemma length_app_str s t : String.length (s +:+ t) = (String.length s + String.length t)%nat.
Proof. induction s; simpl; congruence. Qed.

Lemma length_json_escapes s : (String.length s <= String.length (json_escapes s))%nat.
Proof.
  induction s as [|c s IH]; simpl; [done|]. rewrite length_app_str.
  destruct (json_escape_head c) as (x & t & -> & _). simpl. lia.
Qed.

Lemma string_literal_quote s r :
  string_literal (json_escapes s +:+ String dquote r) = Some (s, r).
Proof.
  apply string_body_escapes. rewrite length_app_str. pose proof (length_json_escapes s). simpl. lia.
Qed.

(** ** The text of a document *)

(** The document [json.dumps(v, sort_keys=True)] writes: items in key order. *)
Fixpoint sorted_keys (v : json) : json :=
  match v with
  | JArr l => JArr (map sorted_keys l)
  | JObj kvs =>
      JObj (sort_by (fun x y => str_leb (fst x) (fst y))
              (map (fun kv => (fst kv, sorted_keys (snd kv))) kvs))
  | v => v
  end.

Lemma sort_by_map {A B} (le : B -> B -> bool) (f : A -> B) l :
  sort_by le (map f l) = map f (sort_by (fun x y => le (f x) (f y)) l).
Proof.
  assert (Hi : forall x l, insert_by le (f x) (map f l) =
    map f (insert_by (fun x y => le (f x) (f y)) x l)).
  { intros x l'. induction l' as [|y l' IH]; simpl; [done|]. destruct (le _ _); simpl; congruence. }
  induction l as [|x l IH]; simpl; [done|]. by rewrite IH, Hi.
Qed.

Lemma dumps_sorted_keys v : dumps true v = dumps false (sorted_keys v).
Proof.
  induction v as [| | | | |l IH|kvs IH] using json_nested_ind; simpl; [done..| |].
  - do 3 f_equal. rewrite map_map. by apply map_ext_Forall.
  - do 3 f_equal. rewrite !(sort_by_map _ _ kvs), !map_map. simpl. apply map_ext_Forall.
    rewrite sort_by_Permutation. eapply Forall_impl; [exact IH|]. intros kv Hkv. simpl.
    by rewrite Hkv.
Qed.

Section RoundTrip.
Context (float_repr : string -> string).

(** The text of a float: a number the scanner reads back as it is. *)
Definition float_text (r : string) : Prop := number float_repr r = Some (JFloat r, EmptyString).

(** The documents Python can hold: no key twice in a dict, every float with
    the text of a finite one. *)
Inductive py_json : json -> Prop :=
  | py_null : py_json JNull
  | py_bool b : py_json (JBool b)
  | py_integer z : py_json (JInt z)
  | py_float r : float_text r -> py_json (JFloat r)
  | py_string s : py_json (JStr s)
  | py_list l : Forall py_json l -> py_json (JArr l)
  | py_object kvs :
      NoDup (fst <$> kvs) -> Forall (fun kv => py_json (snd kv)) kvs -> py_json (JObj kvs).

Lemma sorted_keys_ok v : py_json v -> py_json (sorted_keys v) /\ json_same v (sorted_keys v).
Proof.
  induction v as [| | | | |l IH|kvs IH] using json_nested_ind; simpl; intros Hv;
    try (split; [done|constructor]).
  - inversion Hv as [| | | | |? Hl|]; subst. rewrite Forall_forall in IH, Hl. split; constructor.
    + apply Forall_forall. intros w (v & -> & Hin)%list_elem_of_fmap. by apply IH, Hl.
    + clear Hv. induction l as [|v l IHl]; simpl; constructor.
      * apply IH; [|apply Hl]; constructor.
      * apply IHl; intros; [apply IH|apply Hl]; auto; by constructor.
  - inversion Hv as [| | | | | |? Hnd Hl]; subst.
    set (mid := map (fun kv => (fst kv, sorted_keys (snd kv))) kvs).
    assert (Hk : fst <$> mid = fst <$> kvs).
    { unfold mid. rewrite <- list_fmap_compose. by apply list_fmap_ext. }
    rewrite Forall_forall in IH, Hl. split.
    + constructor; [by rewrite sort_by_Permutation, Hk|]. rewrite sort_by_Permutation.
      apply Forall_forall. intros w (kv & -> & Hin)%list_elem_of_fmap. simpl. by apply IH, Hl.
    + apply same_obj with mid; [done| |by rewrite sort_by_Permutation].
      clear Hv Hnd Hk. subst mid. induction kvs as [|kv kvs IHl]; simpl; constructor.
      * split; [done|]. apply IH; [|apply Hl]; constructor.
      * apply IHl; intros; [apply IH|apply Hl]; auto; by constructor.
Qed.

Lemma dict_of_pairs_nodup kvs : NoDup (fst <$> kvs) -> dict_of_pairs kvs = kvs.
Proof.
  unfold dict_of_pairs.
  enough (H : forall acc : dict, NoDup (fst <$> acc ++ kvs) ->
    foldl (fun d kv => dset (fst kv) (snd kv) d) acc kvs = acc ++ kvs) by apply (H []).
  induction kvs as [|[k v] kvs IH]; intros acc Hnd; simpl; [by rewrite app_nil_r|].
  assert (Hs : forall acc : dict, k ∉ (fst <$> acc) -> dset k v acc = acc ++ [(k, v)]).
  { clear. induction acc as [|[k' v'] acc IH]; simpl; intros Hn; [done|].
    rewrite decide_False by set_solver. rewrite IH by set_solver. done. }
  rewrite fmap_app in Hnd. rewrite Hs.
  2: { apply NoDup_app in Hnd as (_ & Hd & _). intros Hin. apply (Hd k Hin). simpl. constructor. }
  rewrite IH; [by rewrite <- app_assoc|]. by rewrite <- app_assoc, fmap_app.
Qed.

Lemma number_head c : is_digit c = true \/ c = "-"%char ->
  is_json_ws c = false /\ c <> "]"%char /\ c <> dquote /\ c <> "["%char /\ c <> "{"%char.
Proof.
  intros [H| ->]; [|done].
  repeat split; [|intros ->; vm_compute in H; done..].
  destruct c as [[] [] [] [] [] [] [] []]; try done; vm_compute in H; done.
Qed.

Lemma dumps_head v : py_json v ->
  exists c t, dumps false v = String c t /\ is_json_ws c = false /\ c <> "]"%char.
Proof.
  intros [|[]|z|r Hr|s|l|kvs]; try (eexists _, _; split; [reflexivity|done]).
  - destruct (number_scalar _ _ _ _ EmptyString (number_int float_repr z) eq_refl)
      as (_ & c & t & E & (? & ? & _)%number_head). by exists c, t.
  - destruct (number_scalar _ _ _ _ EmptyString Hr eq_refl) as (_ & c & t & E & (? & ? & _)%number_head).
    by exists c, t.
Qed.

Lemma after_eq c x : after c (String c x) = Some x.
Proof. simpl. by rewrite decide_True. Qed.

Lemma after_ne c d x : c <> d -> after c (String d x) = None.
Proof. intros. simpl. by rewrite decide_False. Qed.

Lemma skip_ws_space x : skip_ws (String " " x) = skip_ws x.
Proof. done. Qed.

Lemma skip_ws_dumps v r : py_json v -> skip_ws (dumps false v +:+ r) = dumps false v +:+ r.
Proof. intros (c & t & -> & Hc & _)%dumps_head. simpl. by rewrite Hc. Qed.

Lemma value_number fuel s v rest :
  number float_repr s = Some (v, EmptyString) -> stops (str_to_list rest) = true ->
  value float_repr (S fuel) (s +:+ rest) = Some (v, rest).
Proof.
  intros H Hs. destruct (number_scalar _ _ _ _ rest H Hs) as (Hsc & c & t & -> & Hc%number_head).
  destruct Hc as (_ & _ & ? & ? & ?). cbn [String.append value]. rewrite !decide_False by done.
  exact Hsc.
Qed.

(** Reading back the text of one document, whatever follows it. *)
Definition reads_back (v : json) : Prop := forall fuel rest,
  (2 * String.length (dumps false v) <= fuel)%nat -> stops (str_to_list rest) = true ->
  value float_repr fuel (dumps false v +:+ rest) = Some (v, rest).

Lemma elements_back l rest fuel :
  Forall py_json l -> Forall reads_back l -> l <> [] ->
  (2 * String.length (join ", " (map (dumps false) l)) < fuel)%nat ->
  array_items float_repr fuel (join ", " (map (dumps false) l) +:+ String "]" rest) = Some (l, rest).
Proof.
  intros Hp Hl. revert fuel. induction Hl as [|v l Hv Hl IH]; intros [|fuel] Hne Hf; [done..|lia|].
  apply Forall_cons in Hp as [Hpv Hp]. cbn [array_items]. destruct l as [|w l].
  - cbn [map join] in *. rewrite Hv by (done || lia). done.
  - change (map (dumps false) (v :: w :: l)) with (dumps false v :: map (dumps false) (w :: l)) in *.
    assert (Hsk : forall x, skip_ws (join ", " (map (dumps false) (w :: l)) +:+ x) =
                       join ", " (map (dumps false) (w :: l)) +:+ x).
    { intros x. apply Forall_cons in Hp as [Hpw _].
      destruct l; cbn [map join]; [by apply skip_ws_dumps|]. rewrite str_app_assoc. by apply skip_ws_dumps. }
    set (ts := map (dumps false) (w :: l)) in *.
    change (join ", " (dumps false v :: ts)) with (dumps false v +:+ ", " +:+ join ", " ts) in *.
    rewrite !length_app_str in Hf. change (String.length ", ") with 2%nat in Hf. clearbody ts.
    rewrite !str_app_assoc, Hv by (done || lia). cbn [String.append mbind option_bind skip_ws].
    change (is_json_ws ",") with false. cbv iota.
    rewrite after_ne, after_eq by done. cbn [mbind option_bind].
    rewrite skip_ws_space, Hsk, IH by (done || lia). done.
Qed.

Lemma members_back kvs rest fuel :
  Forall (fun kv => py_json (snd kv)) kvs -> Forall (fun kv => reads_back (snd kv)) kvs -> kvs <> [] ->
  (2 * String.length (join ", " (map json_item (map (fun kv => (fst kv, dumps false (snd kv))) kvs)))
     < fuel)%nat ->
  object_items float_repr fuel
    (join ", " (map json_item (map (fun kv => (fst kv, dumps false (snd kv))) kvs)) +:+ String "}" rest)
  = Some (kvs, rest).
Proof.
  intros Hp Hl. revert fuel.
  induction Hl as [|[k v] kvs Hv Hl IH]; intros [|fuel] Hne Hf; [done..|lia|].
  apply Forall_cons in Hp as [Hpv Hp]. simpl in Hv, Hpv.
  assert (Hitem : forall x, json_item (k, dumps false v) +:+ x =
    String dquote (json_escapes k +:+ String dquote (": " +:+ dumps false v +:+ x))).
  { intros x. unfold json_item, json_quote. simpl. by rewrite !str_app_assoc. }
  assert (Hlen : (String.length (dumps false v) <= String.length (json_item (k, dumps false v)))%nat).
  { unfold json_item. rewrite !length_app_str. simpl. lia. }
  cbn [object_items]. destruct kvs as [|w kvs].
  - cbn [map join fst snd] in *. rewrite Hitem, after_eq. cbn [mbind option_bind]. rewrite string_literal_quote.
    cbn [String.append mbind option_bind skip_ws]. change (is_json_ws ":") with false.
    cbv iota. rewrite after_eq. cbn [mbind option_bind]. rewrite skip_ws_space, skip_ws_dumps by done.
    rewrite Hv by (done || lia). done.
  - set (text := fun kv => (fst kv, dumps false (snd kv))) in *.
    change (map json_item (map text ((k, v) :: w :: kvs)))
      with (json_item (k, dumps false v) :: map json_item (map text (w :: kvs))) in *.
    set (ts := map json_item (map text (w :: kvs))) in *.
    assert (Hsk : forall x, skip_ws (join ", " ts +:+ x) = join ", " ts +:+ x).
    { intros x. subst ts. destruct kvs; done. }
    set (i0 := json_item (k, dumps false v)) in *.
    change (join ", " (i0 :: ts)) with (i0 +:+ ", " +:+ join ", " ts) in *.
    rewrite !length_app_str in Hf. change (String.length ", ") with 2%nat in Hf. clearbody ts i0.
    rewrite !str_app_assoc, Hitem, after_eq. cbn [mbind option_bind]. rewrite string_literal_quote.
    cbn [String.append mbind option_bind skip_ws]. change (is_json_ws ":") with false.
    cbv iota. rewrite after_eq. cbn [mbind option_bind]. rewrite skip_ws_space, skip_ws_dumps by done.
    rewrite Hv by (done || lia). cbn [String.append mbind option_bind skip_ws].
    change (is_json_ws ",") with false. cbv iota.
    rewrite after_ne, after_eq by done. cbn [mbind option_bind].
    rewrite skip_ws_space, Hsk, IH by (done || lia). done.
Qed.

Lemma value_back v : py_json v -> reads_back v.
Proof.
  induction v as [| | | | |l IH|kvs IH] using json_nested_ind; intros Hv fuel rest Hf Hs.
  - destruct fuel; [simpl in Hf; lia|done].
  - destruct b, fuel; (simpl in Hf; lia) || done.
  - assert (fuel <> O) by (destruct (dumps_head _ Hv) as (c & t & E & _); rewrite E in Hf; simpl in Hf; lia).
    destruct fuel; [done|]. apply value_number; [apply number_int|done].
  - assert (fuel <> O) by (destruct (dumps_head _ Hv) as (c & t & E & _); rewrite E in Hf; simpl in Hf; lia).
    destruct fuel; [done|]. inversion Hv; subst. by apply value_number.
  - destruct fuel; [simpl in Hf; lia|]. cbn [dumps].
    assert (E : json_quote s +:+ rest = String dquote (json_escapes s +:+ String dquote rest)).
    { unfold json_quote. simpl. by rewrite str_app_assoc. }
    rewrite E. cbn [value]. by rewrite decide_True, string_literal_quote.
  - inversion Hv as [| | | | |? Hl|]; subst. destruct l as [|w l]; [destruct fuel; [simpl in Hf; lia|done]|].
    assert (Hb : Forall reads_back (w :: l)).
    { rewrite Forall_forall in *. intros v Hin. by apply IH, Hl. }
    assert (Hd : exists c t, join ", " (map (dumps false) (w :: l)) = String c t /\
                        is_json_ws c = false /\ c <> "]"%char).
    { apply Forall_cons in Hl as [(c & t & E & Hc)%dumps_head _]. cbn [map join]. rewrite E.
      destruct (map (dumps false) l); simpl; eauto. }
    pose proof (fun n => elements_back (w :: l) rest n Hl Hb ltac:(done)) as He.
    cbn [dumps] in *. rewrite !length_app_str in Hf. rewrite !str_app_assoc.
    set (text := join ", " (map (dumps false) (w :: l))) in *. clearbody text.
    change (String.length "[") with 1%nat in Hf. change (String.length "]") with 1%nat in Hf.
    destruct fuel as [|fuel]; [lia|]. change ("]" +:+ rest) with (String "]" rest).
    specialize (He fuel ltac:(lia)). destruct Hd as (c & t & -> & Hc & Hne).
    cbn [String.append value] in *. rewrite decide_False, decide_True by done.
    cbn [skip_ws]. rewrite Hc. cbv iota. cbn [after]. rewrite decide_False by done. by rewrite He.
  - inversion Hv as [| | | | | |? Hnd Hl]; subst. destruct kvs as [|w l]; [destruct fuel; [simpl in Hf; lia|done]|].
    assert (Hb : Forall (fun kv => reads_back (snd kv)) (w :: l)).
    { rewrite Forall_forall in *. intros v Hin. by apply IH, Hl. }
    pose proof (fun n => members_back (w :: l) rest n Hl Hb ltac:(done)) as He.
    cbn [dumps] in *. rewrite !length_app_str in Hf. rewrite !str_app_assoc.
    set (ts := map (fun kv : string * json => (fst kv, dumps false (snd kv))) (w :: l)) in *.
    assert (Hd : exists t, join ", " (map json_item ts) = String dquote t).
    { subst ts. simpl. destruct l; simpl; unfold json_item, json_quote; simpl; eauto. }
    clearbody ts.
    set (text := join ", " (map json_item ts)) in *. clearbody text.
    change (String.length "{") with 1%nat in Hf. change (String.length "}") with 1%nat in Hf.
    destruct fuel as [|fuel]; [lia|]. change ("}" +:+ rest) with (String "}" rest).
    specialize (He fuel ltac:(lia)). destruct Hd as (t & ->).
    cbn [String.append value] in *. rewrite !decide_False, decide_True by done.
    cbn [skip_ws]. change (is_json_ws dquote) with false. cbv iota.
    cbn [after]. rewrite decide_False by done. rewrite He. simpl. by rewrite dict_of_pairs_nodup.
Qed.

(** What is written is what is read.  The text [json.dumps] gives for a
    document is read back by [json.loads] as the same document, and with
    sorted keys as an equal one. *)
Lemma loads_dumps v :
  py_json v ->
  loads float_repr (dumps false v) = Ok v /\
  exists w, loads float_repr (dumps true v) = Ok w /\ json_same v w.
Proof.
  assert (H : forall v, py_json v -> loads float_repr (dumps false v) = Ok v).
  { clear v. intros v Hv. unfold loads.
    pose proof (skip_ws_dumps v EmptyString Hv) as Hsk. rewrite !str_app_nil_r in Hsk. rewrite Hsk.
    pose proof (value_back v Hv (loads_fuel (dumps false v)) EmptyString) as Hb.
    rewrite str_app_nil_r in Hb. rewrite Hb; [done| |done]. unfold loads_fuel. lia. }
  intros Hv. split; [by apply H|]. rewrite dumps_sorted_keys. exists (sorted_keys v).
  destruct (sorted_keys_ok v Hv) as [Hw Hs]. split; [by apply H|done].
Qed.
End RoundTrip.

(** ** The fuel is enough *)
Lemma skip_ws_length s : (String.length (skip_ws s) <= String.length s)%nat.
Proof. induction s as [|c s IH]; simpl; [done|]. destruct (is_json_ws c); simpl; lia. Qed.

Lemma escaped_length s c r : escaped s = Some (c, r) -> (String.length r < String.length s)%nat.
Proof.
  destruct s as [|e s]; [done|]. intros H. cbn [String.length].
  assert (Hd : (if decide (e = dquote \/ e = backslash) then Some (e, s) else None) = Some (c, r) ->
    (String.length r < S (String.length s))%nat) by (case_decide; intros; simplify_eq; lia).
  destruct (decide (e = "u"%char)) as [->|].
  - simpl in H. repeat (case_match; try done); subst. all: simpl in H; try done.
    repeat match type of H with context [hex_digit_val ?x] =>
      destruct (hex_digit_val x); simpl in H; [|done] end. simplify_eq. simpl. lia.
  - destruct e as [[] [] [] [] [] [] [] []]; solve [done | auto | simpl in H; simplify_eq; lia].
Qed.

Lemma string_char_length s c r : string_char s = Some (c, r) -> (String.length r < String.length s)%nat.
Proof.
  destruct s as [|e s]; [done|]. unfold string_char. intros H. cbn [String.length].
  repeat case_match; simplify_eq; [|lia]. apply escaped_length in H. lia.
Qed.

Lemma string_body_length n s t r :
  string_body n s = Some (t, r) -> (String.length r < String.length s)%nat.
Proof.
  revert s t r; induction n as [|n IH]; intros s t r H; simpl in H; [done|].
  destruct s as [|c s]; [done|]. destruct (decide _); [simplify_eq/=; lia|].
  destruct (string_char (String c s)) as [[x r1]|] eqn:E; simpl in H; [|done].
  apply string_char_length in E. destruct (string_body n r1) as [[t' r2]|] eqn:E2; simpl in H; [|done].
  apply IH in E2. simplify_eq/=. simpl in *. lia.
Qed.

(** A string literal is read the same with any fuel above its length. *)
Lemma string_body_fuel n m s :
  (String.length s < n)%nat -> (n <= m)%nat -> string_body m s = string_body n s.
Proof.
  revert m s; induction n as [|n IH]; intros [|m] s Hn Hm; [lia..|]. simpl.
  destruct s as [|c s]; [done|]. destruct (decide _); [done|].
  destruct (string_char (String c s)) as [[x r]|] eqn:E; simpl; [|done].
  apply string_char_length in E. rewrite (IH m r) by (simpl in *; lia). done.
Qed.

Lemma span_digits_split l : l = fst (span_digits l) ++ snd (span_digits l).
Proof.
  induction l as [|c l IH]; simpl; [done|]. destruct (is_digit c); [|done].
  destruct (span_digits l); simpl in *. congruence.
Qed.

Lemma match_frac_split l : l = fst (match_frac l) ++ snd (match_frac l).
Proof.
  unfold match_frac. destruct l as [|c l]; [done|].
  destruct (decide (c = "."%char)) as [->|].
  - pose proof (span_digits_split l) as H. destruct (span_digits l) as [[|d ds] r]; simpl in *; congruence.
  - destruct c as [[] [] [] [] [] [] [] []]; done.
Qed.

Lemma match_exp_split l : l = fst (match_exp l) ++ snd (match_exp l).
Proof.
  unfold match_exp. destruct l as [|e l]; [done|]. case_decide; [|done].
  destruct l as [|c l]; [done|]. case_decide.
  - pose proof (span_digits_split l) as E. destruct (span_digits l) as [[|d ds] r]; simpl in *; congruence.
  - pose proof (span_digits_split (c :: l)) as E.
    destruct (span_digits (c :: l)) as [[|d ds] r]; simpl in *; congruence.
Qed.

Lemma match_int_split l i r : match_int l = Some (i, r) -> l = i ++ r /\ i <> [].
Proof.
  assert (Hu : forall l i r, unsigned_int l = Some (i, r) -> l = i ++ r /\ i <> []).
  { clear. intros l i r H. unfold unsigned_int in H. destruct l as [|c l]; [done|].
    destruct (decide (c = "0"%char)) as [->|]; [by simplify_eq|].
    pose proof (span_digits_split (c :: l)) as E.
    destruct (span_digits (c :: l)) as [[|d ds] r']; cbn [fst snd] in E;
      destruct c as [[] [] [] [] [] [] [] []]; simplify_eq; done. }
  rewrite match_int_unsigned. intros H. destruct l as [|c l]; [done|].
  destruct (decide (c = "-"%char)) as [->|].
  - destruct (unsigned_int l) as [[i' r']|] eqn:E; simplify_eq/=. apply Hu in E as [-> _]. done.
  - apply Hu. destruct c as [[] [] [] [] [] [] [] []]; done.
Qed.

Lemma length_str_of_list l : String.length (str_of_list l) = length l.
Proof. induction l; simpl; congruence. Qed.
Lemma length_str_to_list s : length (str_to_list s) = String.length s.
Proof. induction s; simpl; congruence. Qed.

Section Fuel.
Context (float_repr : string -> string).

Lemma number_length s v r :
  number float_repr s = Some (v, r) -> (String.length r < String.length s)%nat.
Proof.
  unfold number. rewrite <- (length_str_to_list s). intros H.
  destruct (match_int (str_to_list s)) as [[i r0]|] eqn:Ei; simpl in H; [|done].
  apply match_int_split in Ei as [-> Hi]. rewrite length_app.
  pose proof (match_frac_split r0) as Ef. destruct (match_frac r0) as [f r1]. simpl in Ef.
  pose proof (match_exp_split r1) as Ee. destruct (match_exp r1) as [e r2]. simpl in Ee.
  assert (r = str_of_list r2) as -> by (destruct (f ++ e); [destruct (parse_int i)|]; by simplify_eq/=).
  rewrite length_str_of_list, Ef, Ee, !length_app. destruct i; [done|]. simpl. lia.
Qed.

Lemma strip_prefix_length p s r :
  strip_prefix p s = Some r -> String.length s = (String.length p + String.length r)%nat.
Proof.
  revert s; induction p as [|a p IH]; intros s H; simpl in H; [by simplify_eq|].
  destruct s as [|b s]; [done|]. case_decide; [|done]. simpl. by erewrite IH.
Qed.

Lemma scalar_length s v r :
  scalar float_repr s = Some (v, r) -> (String.length r < String.length s)%nat.
Proof.
  unfold scalar. assert (Hk : forall ks, Forall (fun kv => fst kv <> EmptyString) ks ->
    keyword ks s = Some (v, r) -> (String.length r < String.length s)%nat).
  { induction 1 as [|[k w] ks Hne _ IH]; simpl; [done|]. destruct (strip_prefix k s) as [r'|] eqn:E; [|done].
    intros [= <- <-]. apply strip_prefix_length in E. destruct k; [done|]. simpl in E. lia. }
  destruct (keyword keywords s) as [[]|] eqn:E; [|apply number_length].
  intros [= -> ->]. apply (Hk keywords); [by repeat constructor|done].
Qed.

Lemma after_length c s r : after c s = Some r -> String.length s = S (String.length r).
Proof. destruct s; simpl; [done|]. case_decide; naive_solver. Qed.

(** Case analysis on the parts of a successful scan, with their lengths. *)
Ltac scan_in H :=
  match type of H with
  | context [decide ?P] => destruct (decide P); simpl in H
  | context [string_literal ?s] =>
      let E := fresh "E" in destruct (string_literal s) as [[]|] eqn:E; simpl in H;
      [apply string_body_length in E|discriminate H]
  | context [after ?c (skip_ws ?s)] =>
      let E := fresh "E" in destruct (after c (skip_ws s)) eqn:E; simpl in H;
      [apply after_length in E|]; pose proof (skip_ws_length s)
  | context [after ?c ?s] =>
      let E := fresh "E" in destruct (after c s) eqn:E; simpl in H;
      [apply after_length in E|discriminate H]
  | None = Some _ => discriminate H
  end.

Lemma value_length n :
  (forall s v r, value float_repr n s = Some (v, r) -> (String.length r < String.length s)%nat) /\
  (forall s v r, array_items float_repr n s = Some (v, r) -> (String.length r < String.length s)%nat) /\
  (forall s v r, object_items float_repr n s = Some (v, r) -> (String.length r < String.length s)%nat).
Proof.
  induction n as [|n (IHv & IHe & IHm)]; [done|]. split_and!; intros s v r H.
  - cbn [value] in H. destruct s as [|c s]; [done|]. repeat scan_in H; simplify_eq; simpl; try lia.
    + destruct (array_items _ _ _) as [[]|] eqn:El; simplify_eq/=. apply IHe in El. lia.
    + destruct (object_items _ _ _) as [[]|] eqn:El; simplify_eq/=. apply IHm in El. lia.
    + by apply scalar_length in H.
  - cbn [array_items] in H. destruct (value _ _ _) as [[w r1]|] eqn:Ev; [|done]. apply IHv in Ev. simpl in H.
    repeat scan_in H; simplify_eq; [lia|]. destruct (array_items _ _ _) as [[]|] eqn:El; simplify_eq/=.
    apply IHe in El. pose proof (skip_ws_length s0). lia.
  - cbn [object_items] in H. repeat scan_in H; simplify_eq.
    destruct (value _ _ _) as [[w r1]|] eqn:Ev; [|done]. apply IHv in Ev. simpl in H.
    pose proof (skip_ws_length s3).
    repeat scan_in H; simplify_eq; [lia|]. destruct (object_items _ _ _) as [[]|] eqn:El; simplify_eq/=.
    apply IHm in El. pose proof (skip_ws_length s4). lia.
Qed.

(** Two units of fuel per character are enough: more give the same. *)
Lemma value_fuel n :
  (forall s m, (2 * String.length s < n <= m)%nat -> value float_repr m s = value float_repr n s) /\
  (forall s m, (2 * String.length s + 1 < n <= m)%nat ->
     array_items float_repr m s = array_items float_repr n s) /\
  (forall s m, (2 * String.length s + 1 < n <= m)%nat ->
     object_items float_repr m s = object_items float_repr n s).
Proof.
  induction n as [|n (IHv & IHe & IHm)]; [split_and!; intros; lia|].
  destruct (value_length n) as (Lv & Le & Lm).
  split_and!; intros s [|m] Hm; try lia.
  - cbn [value]. destruct s as [|c s]; [done|]. pose proof (skip_ws_length s). simpl in Hm.
    rewrite (IHe (skip_ws s) m), (IHm (skip_ws s) m) by lia. done.
  - cbn [array_items]. rewrite (IHv s m) by lia.
    destruct (value float_repr n s) as [[v r]|] eqn:Ev; simpl; [|done]. apply Lv in Ev.
    destruct (after "]" (skip_ws r)); [done|]. destruct (after "," (skip_ws r)) eqn:E; simpl; [|done].
    apply after_length in E. pose proof (skip_ws_length r). pose proof (skip_ws_length s0).
    by rewrite (IHe (skip_ws s0) m) by lia.
  - cbn [object_items]. destruct (after dquote s) as [s1|] eqn:E1; simpl; [|done]. apply after_length in E1.
    destruct (string_literal s1) as [[k r1]|] eqn:E2; simpl; [|done]. apply string_body_length in E2.
    destruct (after ":" (skip_ws r1)) as [r2|] eqn:E3; simpl; [|done]. apply after_length in E3.
    pose proof (skip_ws_length r1). pose proof (skip_ws_length r2).
    rewrite (IHv (skip_ws r2) m) by lia.
    destruct (value float_repr n (skip_ws r2)) as [[v r3]|] eqn:Ev; simpl; [|done]. apply Lv in Ev.
    destruct (after "}" (skip_ws r3)); [done|].
    destruct (after "," (skip_ws r3)) as [r4|] eqn:E4; simpl; [|done]. apply after_length in E4.
    pose proof (skip_ws_length r3). pose proof (skip_ws_length r4).
    by rewrite (IHm (skip_ws r4) m) by lia.
Qed.
End Fuel.
