(* ===== verification/Database.v ===== *)
(** The PostgreSQL state: one record per table row, the five tables of
    [migrations/*.sql], and the row operations the SQL statements of the
    program are made of.

    A statement reads and writes the whole state; a transaction is a sequence
    of statements run by [transaction] of the prelude.  [now()] is the start
    time of the enclosing transaction and is always an argument: no order of
    the clock between transactions is assumed.  Times are microseconds. *)

From S2P Require Import Prelude PyDecimal Json.

(** ** Column enumerations *)
Inductive task_status := Queued | Leased | Done.
Inductive run_status := Pending | Running | Succeeded | Failed | BudgetExceeded.

#[export] Instance task_status_eq_dec : EqDecision task_status.
Proof. solve_decision. Defined.
#[export] Instance run_status_eq_dec : EqDecision run_status.
Proof. solve_decision. Defined.

(** The text stored in [runs.status]. *)
Definition run_status_str (s : run_status) : string :=
  match s with
  | Pending => "pending"
  | Running => "running"
  | Succeeded => "succeeded"
  | Failed => "failed"
  | BudgetExceeded => "budget_exceeded"
  end.

(** ** Rows *)

(** [runs]: [budget_usd] is NUMERIC(10,4), [spent_usd] is NUMERIC(12,6). *)
Record run_row := RunRow {
  run_task_spec : json;
  run_status_of : run_status;
  run_budget_usd : Z;
  run_spent_usd : Z;
  run_created_at : Z;
  run_finished_at : option Z;
}.

(** [store.Event]: an [events] row without its timestamp. *)
Record event := Event {
  ev_run_id : uuid;
  ev_seq : Z;
  ev_type : string;
  ev_payload : dict;
  ev_idem_key : string;
}.

Record event_row := EventRow { er_event : event; er_created_at : Z }.

Record task_row := TaskRow {
  task_run_id : uuid;
  task_status_of : task_status;
  task_lease_owner : option string;
  task_lease_expires_at : option Z;
  task_attempt : Z;
  task_available_at : Z;
}.

(** [llm_cache]: [cost_usd] is NUMERIC(10,6). *)
Record cache_row := CacheRow {
  cache_response : dict;
  cache_input_tokens : Z;
  cache_output_tokens : Z;
  cache_cost_usd : Z;
}.

Record call_row := CallRow {
  call_run_id : uuid;
  call_step_index : Z;
  call_cache_key : string;
  call_attempt : Z;
  call_worker_id : option string;
}.

(** ** Tables.  [events] and [provider_calls] in insertion order. *)
Record db := Db {
  runs : gmap uuid run_row;
  events : list event_row;
  tasks : gmap uuid task_row;
  llm_cache : gmap string cache_row;
  provider_calls : list call_row;
}.

Definition db_empty : db := Db ∅ [] ∅ ∅ [].

Definition set_runs (r : gmap uuid run_row) (d : db) : db :=
  Db r (events d) (tasks d) (llm_cache d) (provider_calls d).
Definition set_events (e : list event_row) (d : db) : db :=
  Db (runs d) e (tasks d) (llm_cache d) (provider_calls d).
Definition set_tasks (t : gmap uuid task_row) (d : db) : db :=
  Db (runs d) (events d) t (llm_cache d) (provider_calls d).
Definition set_llm_cache (c : gmap string cache_row) (d : db) : db :=
  Db (runs d) (events d) (tasks d) c (provider_calls d).
Definition set_provider_calls (c : list call_row) (d : db) : db :=
  Db (runs d) (events d) (tasks d) (llm_cache d) c.

(** ** Statements shared by the components *)

(** The rows of [events] of one run, in table order. *)
Definition events_of (rid : uuid) (d : db) : list event :=
  filter (fun e => ev_run_id e = rid) (er_event <$> events d).

(** The [provider_calls] rows of one run, in [id] order. *)
Definition calls_of (rid : uuid) (d : db) : list call_row :=
  filter (fun c => call_run_id c = rid) (provider_calls d).

(** [INSERT INTO runs]: primary key on [id]. *)
Definition insert_run_row (rid : uuid) (r : run_row) : M db unit := fun d =>
  match runs d !! rid with
  | Some _ => (Raise UniqueViolation, d)
  | None => (Ok tt, set_runs (<[rid := r]> (runs d)) d)
  end.

(** [INSERT INTO tasks]: primary key on [id], foreign key to [runs]. *)
Definition insert_task_row (tid : uuid) (t : task_row) : M db unit := fun d =>
  match tasks d !! tid, runs d !! task_run_id t with
  | Some _, _ => (Raise UniqueViolation, d)
  | None, None => (Raise ForeignKeyViolation, d)
  | None, Some _ => (Ok tt, set_tasks (<[tid := t]> (tasks d)) d)
  end.

(** [INSERT INTO events]: the cast of the payload, primary key
    [(run_id, seq)], unique [(run_id, idem_key)], foreign key to [runs]. *)
Definition insert_event_row (now : Z) (e : event) : M db unit := fun d =>
  match jsonb (JObj (ev_payload e)) with
  | Raise x => (Raise x, d)
  | Ok _ =>
  if existsb (fun e' => (ev_seq e' =? ev_seq e) || bool_decide (ev_idem_key e' = ev_idem_key e))
       (events_of (ev_run_id e) d)
  then (Raise UniqueViolation, d)
  else match runs d !! ev_run_id e with
  | None => (Raise ForeignKeyViolation, d)
  | Some _ => (Ok tt, set_events (events d ++ [EventRow e now]) d)
  end
  end.

(** [UPDATE runs SET ... WHERE id = $1 [AND p]]: no row matched is no error. *)
Definition update_run (rid : uuid) (p : run_row -> bool) (f : run_row -> run_row) : M db unit :=
  fun d =>
  match runs d !! rid with
  | Some r => (Ok tt, if p r then set_runs (<[rid := f r]> (runs d)) d else d)
  | None => (Ok tt, d)
  end.

(** [UPDATE tasks SET ... WHERE id = $1 [AND p] RETURNING ...]: the new row. *)
Definition update_task (tid : uuid) (p : task_row -> bool) (f : task_row -> task_row) :
    M db (option task_row) := fun d =>
  match tasks d !! tid with
  | Some t =>
      if p t then (Ok (Some (f t)), set_tasks (<[tid := f t]> (tasks d)) d) else (Ok None, d)
  | None => (Ok None, d)
  end.

(** ** Lemmas *)
Lemma events_of_app rid (d : db) (e : event) now :
  events_of rid (set_events (events d ++ [EventRow e now]) d) =
    events_of rid d ++ (if decide (ev_run_id e = rid) then [e] else []).
Proof.
  unfold events_of. simpl. rewrite fmap_app, filter_app. simpl. by f_equal.
Qed.

Lemma events_of_run rid d : Forall (fun e => ev_run_id e = rid) (events_of rid d).
Proof. unfold events_of. apply Forall_forall. intros e. by intros [? _]%list_elem_of_filter. Qed.

Lemma insert_event_row_Ok now e d d' :
  insert_event_row now e d = (Ok tt, d') ->
  jsonb (JObj (ev_payload e)) = Ok tt /\ d' = set_events (events d ++ [EventRow e now]) d.
Proof.
  unfold insert_event_row. destruct (jsonb _) as [[]|]; [|done]. repeat case_match; naive_solver.
Qed.
