(* ===== verification/Store.v ===== *)
(** [store.py]: the append-only event store and the migrations.

    A step of a run commits under the idempotency key [run_id:step_index];
    [append_event] writes a key at most once and numbers the events of a run
    1, 2, 3, ... without gaps. *)

From S2P Require Import Prelude PyDecimal Json Database.

(** ** Identifiers as text *)

(** [n] lower-case hexadecimal digits, most significant first. *)
Fixpoint hex_fixed (n : nat) (x : N) : list ascii :=
  match n with
  | O => []
  | S n' => hex_fixed n' (x / 16) ++ [hex_digit (x mod 16)]
  end.

(** [str(uuid)]: 8-4-4-4-12 digits. *)
Definition uuid_str (u : uuid) : string :=
  let h := hex_fixed 32 u in
  let part i n := str_of_list (take n (drop i h)) in
  join "-" [part 0 8; part 8 4; part 12 4; part 16 4; part 20 12]%nat.

Definition step_key (run_id : uuid) (step_index : Z) : string :=
  uuid_str run_id +:+ ":" +:+ string_of_Z step_index.

(** ** The event store *)
Record AppendResult := MkAppendResult { ar_seq : Z; ar_inserted : bool }.

#[export] Instance AppendResult_eq_dec : EqDecision AppendResult.
Proof. solve_decision. Defined.

(** [Decimal(x)] for the [str | Decimal] a budget may be. *)
Definition py_decimal (x : string + dec) : res dec :=
  match x with
  | inl s => of_option InvalidOperation (dec_of_string s)
  | inr d => Ok d
  end.

(** [rid] is the identifier [uuid.uuid4()] drew. *)
Definition insert_run (now : Z) (rid : uuid) (task_spec : json) (budget_usd : string + dec) :
    M db uuid :=
  b ← lift_res (py_decimal budget_usd);
  lift_res (jsonb task_spec) ;;
  b4 ← lift_res (numeric 10 4 b);
  insert_run_row rid (RunRow task_spec Pending b4 0 now None) ;;
  mret rid.

Definition create_run (now : Z) (rid : uuid) (task_spec : json) (budget_usd : string + dec) :
    M db uuid :=
  insert_run now rid task_spec budget_usd.

(** [SELECT seq FROM events WHERE run_id=$1 AND idem_key=$2] *)
Definition select_seq (rid : uuid) (key : string) (d : db) : option Z :=
  ev_seq <$> head (filter (fun e => ev_idem_key e = key) (events_of rid d)).

(** [SELECT COALESCE(MAX(seq), 0) + 1 FROM events WHERE run_id=$1] *)
Definition max_opt (m : option Z) (z : Z) : option Z :=
  Some (match m with Some x => Z.max x z | None => z end).
Definition next_seq (rid : uuid) (d : db) : Z :=
  default 0 (foldl max_opt None (ev_seq <$> events_of rid d)) + 1.

Definition _append (now : Z) (run_id : uuid) (idem_key type : string) (payload : dict) :
    M db AppendResult :=
  locked ← gets (fun d => runs d !! run_id);
  match locked with
  | None => raise (RunNotFoundError run_id)
  | Some _ =>
      existing ← gets (select_seq run_id idem_key);
      match existing with
      | Some seq => mret (MkAppendResult seq false)
      | None =>
          seq ← gets (next_seq run_id);
          insert_event_row now (Event run_id seq type payload idem_key) ;;
          mret (MkAppendResult seq true)
      end
  end.

(** [in_transaction] is [conn.is_in_transaction()]. *)
Definition append_event (in_transaction : bool) (now : Z) (run_id : uuid)
    (idem_key type : string) (payload : dict) : M db AppendResult :=
  if in_transaction then _append now run_id idem_key type payload
  else transaction (_append now run_id idem_key type payload).

Definition seq_leb (e e' : event) : bool := ev_seq e <=? ev_seq e'.

Definition read_events (run_id : uuid) : M db (list event) :=
  gets (fun d => sort_by seq_leb (events_of run_id d)).

(** ** Migrations

    The schema itself is not modelled: [Schema] is the state the SQL scripts
    act on and [exec] runs one script. *)
Module Migrations.
Section Migrations.
Context {Schema : Type} (exec : string -> M Schema unit).

(** The database: the schema and the names in [schema_migrations]. *)
Definition migdb : Type := Schema * list string.

(** [conn.execute(path.read_text())] *)
Definition exec_script (sql : string) : M migdb unit := fun s =>
  let '(r, sch) := exec sql (fst s) in (r, (sch, snd s)).

(** One file: [None] when it was already applied. *)
Definition apply_one (file : string * string) : M migdb (option string) :=
  transaction (
    applied ← gets snd;
    if bool_decide (fst file ∈ applied) then mret None
    else
      exec_script (snd file) ;;
      modify (fun s => (fst s, snd s ++ [fst file])) ;;
      mret (Some (fst file))).

Fixpoint apply_files (files : list (string * string)) : M migdb (list string) :=
  match files with
  | [] => mret []
  | f :: fs =>
      r ← apply_one f;
      rest ← apply_files fs;
      mret (match r with Some n => n :: rest | None => rest end)
  end.

(** [directory.glob("*.sql")] as (name, text) pairs, in any order. *)
Definition apply_migrations (directory : list (string * string)) : M migdb (list string) :=
  apply_files (sort_by (fun f g => str_leb (fst f) (fst g)) directory).
End Migrations.
End Migrations.

(** ** Well-numbered logs *)

(** The sequence numbers of a run are 1..n in table order. *)
Definition gapless (rid : uuid) (d : db) : Prop :=
  ev_seq <$> events_of rid d = seqZ 1 (Z.of_nat (length (events_of rid d))).

(** The idempotency keys of a run are its steps 0..n-1 in table order. *)
Definition step_keys (rid : uuid) (n : nat) : list string :=
  (fun i => step_key rid i) <$> seqZ 0 (Z.of_nat n).
Definition keyed (rid : uuid) (d : db) : Prop :=
  ev_idem_key <$> events_of rid d = step_keys rid (length (events_of rid d)).

(** ** Keys *)
Lemma string_of_Z_inj i j : 0 <= i -> 0 <= j -> string_of_Z i = string_of_Z j -> i = j.
Proof.
  intros Hi Hj. unfold string_of_Z.
  destruct (i <? 0) eqn:?, (j <? 0) eqn:?; bool_to_prop; try lia.
  intros H%string_of_N_inj. lia.
Qed.

Lemma step_key_index rid i j : 0 <= i -> 0 <= j -> step_key rid i = step_key rid j -> i = j.
Proof.
  intros Hi Hj. unfold step_key. intros H%(inj (String.append _)).
  apply (inj (String.append ":")) in H. by apply string_of_Z_inj.
Qed.

Lemma hex_fixed_length n x : length (hex_fixed n x) = n.
Proof. revert x; induction n; intros x; simpl; [done|]. rewrite length_app, IHn. simpl. lia. Qed.

Lemma hex_digit_inj x y : (x < 16)%N -> (y < 16)%N -> hex_digit x = hex_digit y -> x = y.
Proof.
  intros Hx Hy H. apply (f_equal N_of_ascii) in H. unfold hex_digit in H.
  destruct (x <? 10)%N eqn:E1, (y <? 10)%N eqn:E2; rewrite !N_ascii_embedding in H; lia.
Qed.

Lemma hex_fixed_inj n x y :
  (x < 16 ^ N.of_nat n)%N -> (y < 16 ^ N.of_nat n)%N -> hex_fixed n x = hex_fixed n y -> x = y.
Proof.
  revert x y; induction n as [|n IH]; intros x y Hx Hy H; simpl in *; [lia|].
  assert (H16 : (16 ^ N.of_nat (S n) = 16 * 16 ^ N.of_nat n)%N)
    by (rewrite Nat2N.inj_succ, N.pow_succ_r'; done).
  apply app_inj_tail in H as [H1 H2].
  apply IH in H1; [|apply N.Div0.div_lt_upper_bound; lia..].
  apply hex_digit_inj in H2; [|apply N.mod_lt; lia..].
  rewrite (N.div_mod x 16), (N.div_mod y 16) by lia. congruence.
Qed.

(** The text of a UUID is its digits with hyphens at fixed places. *)
Lemma uuid_str_list u :
  let h := hex_fixed 32 u in
  str_to_list (uuid_str u) =
    take 8 h ++ "-"%char :: take 4 (drop 8 h) ++ "-"%char :: take 4 (drop 12 h) ++
    "-"%char :: take 4 (drop 16 h) ++ "-"%char :: take 12 (drop 20 h).
Proof.
  intros h. unfold uuid_str. fold h. cbn [join].
  rewrite !str_to_list_app, !str_to_of_list. done.
Qed.

Lemma app_inj_len {A} (l1 l2 k1 k2 : list A) :
  length l1 = length l2 -> l1 ++ k1 = l2 ++ k2 -> l1 = l2 /\ k1 = k2.
Proof. intros. by apply app_inj_1. Qed.

Lemma uuid_str_length u : length (str_to_list (uuid_str u)) = 36%nat.
Proof.
  rewrite uuid_str_list.
  repeat (rewrite length_app || rewrite length_take || rewrite length_drop ||
          rewrite hex_fixed_length || cbn [length]). done.
Qed.

Lemma uuid_str_inj u v :
  (u < 2 ^ 128)%N -> (v < 2 ^ 128)%N -> uuid_str u = uuid_str v -> u = v.
Proof.
  intros Hu Hv H. apply (f_equal str_to_list) in H. rewrite !uuid_str_list in H.
  apply (hex_fixed_inj 32); [done..|].
  pose proof (hex_fixed_length 32 u) as Hh. pose proof (hex_fixed_length 32 v) as Hk.
  revert Hh Hk H. generalize (hex_fixed 32 u) (hex_fixed 32 v). intros h k Hh Hk H.
  assert (Hlen : length h = length k) by congruence.
  assert (Hs : forall i n, length (take n (drop i h)) = length (take n (drop i k)))
    by (intros; by rewrite !length_take, !length_drop, Hlen).
  apply app_inj_len in H as [H0 H]; [|apply (Hs 0%nat 8%nat)]. injection H as H.
  apply app_inj_len in H as [H1 H]; [|apply (Hs 8%nat 4%nat)]. injection H as H.
  apply app_inj_len in H as [H2 H]; [|apply (Hs 12%nat 4%nat)]. injection H as H.
  apply app_inj_len in H as [H3 H]; [|apply (Hs 16%nat 4%nat)]. injection H as H.
  assert (Hcut : forall l : list ascii, length l = 32%nat ->
    l = take 8 l ++ take 4 (drop 8 l) ++ take 4 (drop 12 l) ++ take 4 (drop 16 l) ++
        take 12 (drop 20 l)).
  { intros l Hl. rewrite <- (take_drop 8 l) at 1. f_equal.
    rewrite <- (take_drop 4 (drop 8 l)) at 1. f_equal. rewrite drop_drop.
    rewrite <- (take_drop 4 (drop (8 + 4) l)) at 1. f_equal. rewrite drop_drop.
    rewrite <- (take_drop 4 (drop (8 + 4 + 4) l)) at 1. f_equal. rewrite drop_drop.
    symmetry. apply take_ge. rewrite length_drop. simpl. lia. }
  rewrite (Hcut h), (Hcut k) by done. congruence.
Qed.

(** ** The next sequence number *)
Lemma max_opt_seqZ m n : foldl max_opt (Some m) (seqZ (m + 1) (Z.of_nat n)) = Some (m + Z.of_nat n).
Proof.
  revert m; induction n as [|n IH]; intros m; [simpl; f_equal; lia|].
  rewrite seqZ_S. cbn [foldl].
  change (max_opt (Some m) (m + 1)) with (Some (Z.max m (m + 1))).
  replace (Z.max m (m + 1)) with (m + 1) by lia. rewrite IH. f_equal. lia.
Qed.

Lemma next_seq_gapless rid d :
  gapless rid d -> next_seq rid d = Z.of_nat (length (events_of rid d)) + 1.
Proof.
  unfold gapless, next_seq. intros ->. destruct (length (events_of rid d)) as [|n]; [done|].
  rewrite seqZ_S. simpl. rewrite (max_opt_seqZ 1). simpl. lia.
Qed.

Lemma gapless_fresh rid d :
  gapless rid d ->
  Forall (fun e => ev_seq e <> next_seq rid d) (events_of rid d).
Proof.
  intros H. rewrite next_seq_gapless by done. apply Forall_forall. intros e He.
  apply (list_elem_of_fmap_2 ev_seq) in He. rewrite H in He. apply elem_of_seqZ in He. lia.
Qed.

(** ** [_append] on every branch *)
Lemma select_seq_None rid key d :
  select_seq rid key d = None <-> Forall (fun e => ev_idem_key e <> key) (events_of rid d).
Proof.
  unfold select_seq. rewrite Forall_forall. split.
  - intros H e He Hk. destruct (filter _ _) as [|e' l] eqn:E; [|done].
    assert (e ∈ filter (fun e => ev_idem_key e = key) (events_of rid d)) as Hin
      by (by apply list_elem_of_filter).
    rewrite E in Hin. by apply not_elem_of_nil in Hin.
  - intros H. destruct (filter _ _) as [|e' l] eqn:E; [done|].
    assert (e' ∈ filter (fun e => ev_idem_key e = key) (events_of rid d)) as Hin
      by (rewrite E; constructor).
    apply list_elem_of_filter in Hin as [Hk Hin]. by apply H in Hin.
Qed.

Lemma select_seq_event rid key d s :
  select_seq rid key d = Some s -> exists e, e ∈ events_of rid d /\ ev_idem_key e = key /\ ev_seq e = s.
Proof.
  unfold select_seq. destruct (filter _ _) as [|e l] eqn:E; [done|]. intros [= <-].
  assert (e ∈ filter (fun e => ev_idem_key e = key) (events_of rid d)) as [Hk Hin]%list_elem_of_filter
    by (rewrite E; constructor). by exists e.
Qed.

(** What the row written by [_append] is. *)
Definition appended (now : Z) (rid : uuid) (key type : string) (payload : dict) (d : db) : db :=
  set_events (events d ++ [EventRow (Event rid (next_seq rid d) type payload key) now]) d.

Lemma _append_missing now rid key type payload d :
  runs d !! rid = None -> _append now rid key type payload d = (Raise (RunNotFoundError rid), d).
Proof. unfold _append. unfold_m. by intros ->. Qed.

Lemma _append_existing now rid key type payload d r seq :
  runs d !! rid = Some r -> select_seq rid key d = Some seq ->
  _append now rid key type payload d = (Ok (MkAppendResult seq false), d).
Proof. unfold _append. unfold_m. by intros -> ->. Qed.

Lemma _append_new now rid key type payload d r :
  runs d !! rid = Some r -> select_seq rid key d = None -> gapless rid d ->
  _append now rid key type payload d =
    match jsonb (JObj payload) with
    | Ok _ => (Ok (MkAppendResult (next_seq rid d) true), appended now rid key type payload d)
    | Raise e => (Raise e, d)
    end.
Proof.
  intros Hr Hk Hg. unfold _append, insert_event_row. unfold_m. rewrite Hr, Hk.
  cbn [ev_payload]. destruct (jsonb (JObj payload)) as [[]|x]; [|done]. simpl.
  destruct (existsb _ _) eqn:E; [exfalso|by rewrite Hr].
  apply existsb_exists in E as (e & He%list_elem_of_In & Hbad).
  apply orb_true_iff in Hbad as [Hbad|Hbad]; bool_to_prop.
  - pose proof (gapless_fresh rid d Hg) as Hf. rewrite Forall_forall in Hf. by apply (Hf e).
  - apply select_seq_None in Hk. rewrite Forall_forall in Hk. by apply (Hk e).
Qed.

Lemma _append_Ok_inv now rid key type payload d r d' :
  _append now rid key type payload d = (Ok r, d') ->
  (ar_inserted r = false /\ d' = d /\ select_seq rid key d = Some (ar_seq r)) \/
  (ar_inserted r = true /\ select_seq rid key d = None /\ ar_seq r = next_seq rid d /\
   jsonb (JObj payload) = Ok tt /\ d' = appended now rid key type payload d).
Proof.
  unfold _append, gets. unfold_m. destruct (runs d !! rid) eqn:Hr; [|done].
  destruct (select_seq rid key d) as [s|] eqn:Hs.
  - intros [= <- <-]. by left.
  - destruct (insert_event_row _ _ _) as [[[]|e] d1] eqn:E; [|done].
    intros [= <- <-]. right. by apply insert_event_row_Ok in E as [Hj E].
Qed.

(** A failed [_append] writes nothing. *)
Lemma _append_Raise_inv now rid key type payload d e d' :
  _append now rid key type payload d = (Raise e, d') -> d' = d.
Proof.
  unfold _append, insert_event_row. unfold_m. repeat case_match; naive_solver.
Qed.

Lemma events_of_appended now rid key type payload d rid' :
  events_of rid' (appended now rid key type payload d) =
    events_of rid' d ++
    (if decide (rid = rid') then [Event rid (next_seq rid d) type payload key] else []).
Proof. apply events_of_app. Qed.

Lemma sort_gapless rid d : gapless rid d -> sort_by seq_leb (events_of rid d) = events_of rid d.
Proof.
  intros Hg. apply sort_by_sorted_id.
  assert (Hs : Sorted (fun x y => Is_true (x <=? y)) (ev_seq <$> events_of rid d)).
  { rewrite Hg. generalize 1 as m. induction (length (events_of rid d)) as [|n IH]; intros m; [constructor|].
    rewrite seqZ_S. constructor; [apply IH|]. destruct n as [|n]; [constructor|].
    rewrite seqZ_S. constructor. by apply Is_true_true, Z.leb_le; lia. }
  revert Hs. generalize (events_of rid d). clear. intros l.
  induction l as [|e l IH]; simpl; intros Hs; [constructor|].
  apply Sorted_inv in Hs as [Hs Hd]. constructor; [auto|].
  destruct l as [|e' l]; [constructor|]. simpl in Hd. inversion Hd. by constructor.
Qed.

Lemma read_events_gapless rid d :
  gapless rid d -> read_events rid d = (Ok (events_of rid d), d).
Proof. intros Hg. unfold read_events, gets. by rewrite sort_gapless. Qed.

(** ** Properties of the event store *)
Lemma append_event_eq b now rid key type payload :
  append_event b now rid key type payload = _append now rid key type payload \/
  append_event b now rid key type payload = transaction (_append now rid key type payload).
Proof. destruct b; auto. Qed.

Lemma append_event_Ok b now rid key type payload d r d' :
  append_event b now rid key type payload d = (Ok r, d') <->
  _append now rid key type payload d = (Ok r, d').
Proof. destruct b; [done|]. apply transaction_Ok. Qed.

Lemma gapless_appended now rid key type payload d rid' :
  gapless rid' d -> gapless rid' (appended now rid key type payload d).
Proof.
  unfold gapless. intros H. rewrite events_of_appended.
  destruct (decide (rid = rid')) as [->|]; [|by rewrite app_nil_r].
  rewrite fmap_app, length_app, H. simpl.
  rewrite seqZ_snoc. do 2 f_equal. rewrite next_seq_gapless by done. lia.
Qed.

#[export] Hint Resolve gapless_appended : phx_inv.

Lemma keyed_appended now rid type payload d rid' n :
  keyed rid' d -> length (events_of rid d) = n ->
  keyed rid' (appended now rid (step_key rid (Z.of_nat n)) type payload d).
Proof.
  unfold keyed. intros H Hn. rewrite events_of_appended.
  destruct (decide (rid = rid')) as [->|]; [|by rewrite app_nil_r].
  rewrite fmap_app, length_app, H. simpl. unfold step_keys.
  by rewrite seqZ_snoc, fmap_app, <- Hn.
Qed.

(** A step index below the length of a keyed log is taken, the others are free. *)
Lemma keyed_select_None rid d i :
  keyed rid d -> 0 <= i ->
  select_seq rid (step_key rid i) d = None <-> Z.of_nat (length (events_of rid d)) <= i.
Proof.
  intros Hk Hi. rewrite select_seq_None.
  assert (Hmap : Forall (fun e => ev_idem_key e <> step_key rid i) (events_of rid d) <->
                 step_key rid i ∉ ev_idem_key <$> events_of rid d).
  { rewrite Forall_forall, list_elem_of_fmap. split; [intros H (e & Hk' & He)|intros H e He Hk'].
    - by apply (H e He).
    - apply H. by exists e. }
  rewrite Hmap, Hk. unfold step_keys. rewrite list_elem_of_fmap. split.
  - intros Hn. destruct (decide (Z.of_nat (length (events_of rid d)) <= i)) as [|Hlt]; [done|].
    exfalso. apply Hn. exists i. rewrite elem_of_seqZ. split; [done|lia].
  - intros Hle (j & Hj & Hin). apply elem_of_seqZ in Hin.
    apply step_key_index in Hj; lia.
Qed.

(** A step commits at most once.  After an append under some key has
    succeeded, appending under the same key again, whatever the event, writes
    nothing and reports the sequence number of the first. *)
Theorem append_event_idempotent b b' now now' rid key type type' payload payload' d r d1 :
  append_event b now rid key type payload d = (Ok r, d1) ->
  append_event b' now' rid key type' payload' d1 = (Ok (MkAppendResult (ar_seq r) false), d1).
Proof.
  rewrite !append_event_Ok. intros H.
  assert (exists row, runs d !! rid = Some row) as [row Hrow].
  { destruct (runs d !! rid) eqn:E; [eauto|]. by rewrite _append_missing in H. }
  apply _append_Ok_inv in H as [(_ & -> & Hs)|(_ & Hs & Hseq & _ & ->)].
  - by eapply _append_existing.
  - eapply _append_existing; [done|]. unfold select_seq. rewrite events_of_appended.
    apply select_seq_None in Hs. rewrite decide_True, filter_app by done.
    rewrite (filter_none _ _ Hs), filter_cons_True, Hseq; done.
Qed.

(** C16: an append to an existing run is refused only for what [jsonb] cannot
    store, and the log stays numbered 1..n.  The UNIQUE constraints are never
    hit.  A used key adds nothing and succeeds whatever the payload.  An
    unused key adds exactly one event, with the next number, when the payload
    can be stored; otherwise the cast's error is raised and nothing is
    written.  What it returns is the number of the event under the key.  No
    other run's log changes. *)
Theorem append_event_gapless b now rid key type payload d row :
  (forall rid', gapless rid' d) -> runs d !! rid = Some row ->
  let used := Exists (fun e => ev_idem_key e = key) (events_of rid d) in
  match append_event b now rid key type payload d with
  | (Ok r, d') =>
      (forall rid', gapless rid' d') /\
      (ar_inserted r = false <-> used) /\
      (ar_inserted r = true -> jsonb (JObj payload) = Ok tt) /\
      (exists e, e ∈ events_of rid d' /\ ev_idem_key e = key /\ ev_seq e = ar_seq r) /\
      events_of rid d' = events_of rid d ++
        (if ar_inserted r
         then [Event rid (Z.of_nat (length (events_of rid d)) + 1) type payload key] else []) /\
      (forall rid', rid' <> rid -> events_of rid' d' = events_of rid' d)
  | (Raise e, d') => d' = d /\ ~ used /\ jsonb (JObj payload) = Raise e
  end.
Proof.
  intros Hg Hrow used.
  assert (Hused : select_seq rid key d = None <-> ~ used).
  { rewrite select_seq_None. unfold used. by rewrite <- Forall_Exists_neg. }
  assert (Heq : append_event b now rid key type payload d = _append now rid key type payload d).
  { destruct b; [done|]. unfold append_event, transaction.
    destruct (_append _ _ _ _ _ _) as [[r|e] d'] eqn:E; [done|]. by apply _append_Raise_inv in E as ->. }
  rewrite Heq. destruct (select_seq rid key d) as [s|] eqn:Hs.
  - erewrite _append_existing by done. simpl. rewrite app_nil_r.
    split_and!; [done| |done|by apply select_seq_event|done|done]. split; [|done].
    intros _. destruct (decide used) as [|Hn]; [done|]. by apply Hused in Hn.
  - assert (Hfree : ~ used) by (by apply Hused). erewrite _append_new by done.
    destruct (jsonb (JObj payload)) as [[]|e] eqn:Hj; [|done]. simpl.
    rewrite events_of_appended, decide_True, next_seq_gapless by done.
    split_and!; [auto with phx_inv|by split|done| |done|].
    { eexists. split; [apply elem_of_app; right; constructor|]. by rewrite <- next_seq_gapless. }
    intros rid' Hne. rewrite events_of_appended, decide_False, app_nil_r; done.
Qed.

(** An idempotency key determines the run and the step it belongs to. *)
Theorem step_key_injective u v i j :
  (u < 2 ^ 128)%N -> (v < 2 ^ 128)%N -> 0 <= i -> 0 <= j ->
  step_key u i = step_key v j -> u = v /\ i = j.
Proof.
  intros Hu Hv Hi Hj H.
  assert (Huv : uuid_str u = uuid_str v).
  { unfold step_key in H. apply (f_equal str_to_list) in H. rewrite !str_to_list_app in H.
    apply app_inj_len in H as [H _]; [|by rewrite !uuid_str_length].
    by rewrite <- (str_of_to_list (uuid_str u)), H, str_of_to_list. }
  apply uuid_str_inj in Huv as ->; [|done..]. split; [done|]. by eapply step_key_index.
Qed.

(** ** Properties of the migrations *)
Module MigrationFacts.
Import Migrations.
Section MigrationFacts.
Context {Schema : Type} (exec : string -> M Schema unit).

Lemma apply_one_Ok_inv f s r s' :
  apply_one exec f s = (Ok r, s') ->
  (fst f ∈ snd s /\ r = None /\ s' = s) \/
  ((fst f ∉ snd s) /\ r = Some (fst f) /\ snd s' = snd s ++ [fst f]).
Proof.
  unfold apply_one. rewrite transaction_Ok. unfold exec_script. unfold_m.
  destruct (bool_decide _) eqn:E; bool_to_prop.
  - intros [= <- <-]. by left.
  - destruct (exec _ _) as [[a|e] sch]; intros [= <- <-]. by right.
Qed.

Lemma apply_files_Ok_inv fs s names s' :
  apply_files exec fs s = (Ok names, s') ->
  snd s' = snd s ++ names /\ (forall f, f ∈ fs -> fst f ∈ snd s') /\
  (NoDup (fst <$> fs) -> names = filter (fun n => n ∉ snd s) (fst <$> fs)).
Proof.
  revert s names. induction fs as [|f fs IH]; intros s names H; simpl in H.
  - injection H as <- <-. rewrite app_nil_r. split; [done|].
    split; [by intros f Hf%not_elem_of_nil|done].
  - apply bind_Ok_inv in H as (r & s1 & H1 & H). apply bind_Ok_inv in H as (rest & s2 & H2 & H).
    injection H as <- <-. apply IH in H2 as (Hsnd & Hall & Hnames).
    apply apply_one_Ok_inv in H1 as [(Hin & -> & ->)|(Hnin & -> & Hs1)].
    + split; [done|]. split.
      * intros g [->|Hg]%elem_of_cons; [rewrite Hsnd; apply elem_of_app; by left|by apply Hall].
      * intros [_ Hnd]%NoDup_cons. cbn [fmap list_fmap]. rewrite filter_cons_False by auto. auto.
    + rewrite Hs1 in *. split; [by rewrite Hsnd, <- app_assoc|]. split.
      * intros g [->|Hg]%elem_of_cons; [|by apply Hall]. rewrite Hsnd, !elem_of_app. left; right. constructor.
      * intros [Hf Hnd]%NoDup_cons. cbn [fmap list_fmap]. rewrite filter_cons_True by done.
        rewrite (Hnames Hnd). f_equal. apply filter_ext_elem.
        intros n Hn. rewrite elem_of_app, list_elem_of_singleton.
        split; [tauto|]. intros Hns [?| ->]; done.
Qed.

Lemma apply_files_done fs s :
  (forall f, f ∈ fs -> fst f ∈ snd s) -> apply_files exec fs s = (Ok [], s).
Proof.
  induction fs as [|f fs IH]; intros H; [done|]. simpl.
  assert (H1 : apply_one exec f s = (Ok None, s)).
  { unfold apply_one. unfold_m. rewrite bool_decide_eq_true_2; [done|].
    apply H. constructor. }
  unfold_m. rewrite H1, IH; [done|]. intros g Hg. apply H. by constructor.
Qed.

(** The migrations that run are exactly the ones not yet recorded, in
    name order, each is recorded once, and applying the directory again
    runs nothing. *)
Theorem apply_migrations_once directory s names s' :
  NoDup (fst <$> directory) ->
  apply_migrations exec directory s = (Ok names, s') ->
  names = filter (fun n => n ∉ snd s)
            (fst <$> sort_by (fun f g => str_leb (fst f) (fst g)) directory) /\
  snd s' = snd s ++ names /\
  apply_migrations exec directory s' = (Ok [], s').
Proof.
  intros Hnd H. unfold apply_migrations in *. apply apply_files_Ok_inv in H as (Hs & Hall & Hn).
  split; [apply Hn; by rewrite sort_by_Permutation|]. split; [done|].
  by apply apply_files_done.
Qed.
End MigrationFacts.
End MigrationFacts.
