(* ===== verification/Leases.v ===== *)
(** [leases.py]: tasks are claimed under a lease, kept alive by heartbeats,
    taken back by the reaper, and fenced by [tasks.attempt]: every claim
    increments it, and a write by an older claim is refused. *)

From S2P Require Import Prelude PyDecimal Json Database.

(** ** Environment and claims *)

Definition fencing_enabled (environ : gmap string string) : bool :=
  negb (bool_decide (environ !! "PHOENIX_UNSAFE_NO_FENCING" = Some "1")).

Record Claim := MkClaim {
  claim_task_id : uuid;
  claim_run_id : uuid;
  claim_worker_id : string;
  claim_attempt : Z;
}.

#[export] Instance Claim_eq_dec : EqDecision Claim.
Proof. solve_decision. Defined.

(** ** Row updates *)
Definition lease_row (worker : string) (expires : Z) (t : task_row) : task_row :=
  TaskRow (task_run_id t) Leased (Some worker) (Some expires) (task_attempt t + 1)
    (task_available_at t).
Definition extend_row (expires : Z) (t : task_row) : task_row :=
  TaskRow (task_run_id t) (task_status_of t) (task_lease_owner t) (Some expires) (task_attempt t)
    (task_available_at t).
Definition requeue_row (t : task_row) : task_row :=
  TaskRow (task_run_id t) Queued None None (task_attempt t) (task_available_at t).
Definition requeue_later_row (available : Z) (t : task_row) : task_row :=
  TaskRow (task_run_id t) Queued None None (task_attempt t) available.
Definition start_run_row (r : run_row) : run_row :=
  RunRow (run_task_spec r) Running (run_budget_usd r) (run_spent_usd r) (run_created_at r)
    (run_finished_at r).

(** ** Row predicates *)

(** [lease_expires_at > now()]; NULL compares to no time. *)
Definition expires_after (now : Z) (t : task_row) : bool :=
  match task_lease_expires_at t with Some x => now <? x | None => false end.
Definition expired_before (now : Z) (t : task_row) : bool :=
  match task_lease_expires_at t with Some x => x <? now | None => false end.

Definition is_leased (t : task_row) : bool := bool_decide (task_status_of t = Leased).

(** [attempt=$2 AND lease_owner=$3 AND status='leased']: the row is still held
    under this claim. *)
Definition held_by (c : Claim) (t : task_row) : bool :=
  (task_attempt t =? claim_attempt c) &&
  bool_decide (task_lease_owner t = Some (claim_worker_id c)) && is_leased t.

(** ** Operations *)
Definition enqueue_task (now : Z) (tid : uuid) (run_id : uuid) : M db uuid :=
  insert_task_row tid (TaskRow run_id Queued None None 0 now) ;;
  mret tid.

(** [SELECT ... WHERE status='queued' AND available_at <= now() ORDER BY
    available_at FOR UPDATE SKIP LOCKED LIMIT 1]; [locked] are the rows other
    transactions hold. *)
Definition claimable (now : Z) (locked : gset uuid) (p : uuid * task_row) : bool :=
  bool_decide (task_status_of (snd p) = Queued) && (task_available_at (snd p) <=? now) &&
  negb (bool_decide (fst p ∈ locked)).

Definition available_leb (p q : uuid * task_row) : bool :=
  task_available_at (snd p) <=? task_available_at (snd q).

Definition select_claimable (now : Z) (locked : gset uuid) (d : db) : option (uuid * task_row) :=
  head (sort_by available_leb (filter (fun p => claimable now locked p = true) (map_to_list (tasks d)))).

Definition is_pending (r : run_row) : bool := bool_decide (run_status_of r = Pending).

Definition claim_task (now : Z) (locked : gset uuid) (worker_id : string) (lease : Z) :
    M db (option Claim) :=
  transaction (
    row ← gets (select_claimable now locked);
    match row with
    | None => mret None
    | Some (tid, t) =>
        updated ← update_task tid (fun _ => true) (lease_row worker_id (now + lease));
        match updated with
        | None => raise RuntimeError
        | Some t' =>
            update_run (task_run_id t) is_pending start_run_row ;;
            mret (Some (MkClaim tid (task_run_id t) worker_id (task_attempt t')))
        end
    end).

Definition heartbeat (now : Z) (claim : Claim) (lease : Z) : M db bool :=
  updated ← update_task (claim_task_id claim)
              (fun t => held_by claim t && expires_after now t) (extend_row (now + lease));
  mret (bool_decide (is_Some updated)).

(** The tasks a reaper takes back: expired leases no other transaction holds. *)
Definition reapable (now : Z) (locked : gset uuid) (tid : uuid) (t : task_row) : bool :=
  is_leased t && expired_before now t && negb (bool_decide (tid ∈ locked)).

Definition reap_expired (now : Z) (locked : gset uuid) : M db nat := fun d =>
  (Ok (size (filter (fun p : uuid * task_row => reapable now locked (fst p) (snd p) = true) (tasks d))),
   set_tasks (map_imap (fun tid t => Some (if reapable now locked tid t then requeue_row t else t))
                (tasks d)) d).

Definition release_task (now : Z) (claim : Claim) (backoff : Z) : M db bool :=
  row ← update_task (claim_task_id claim) (held_by claim) (requeue_later_row (now + backoff));
  mret (bool_decide (is_Some row)).

Definition assert_lease (fencing : bool) (now : Z) (claim : Claim) : M db unit :=
  if negb fencing then mret tt
  else
    ok ← gets (fun d => match tasks d !! claim_task_id claim with
                        | Some t => held_by claim t && expires_after now t
                        | None => false
                        end);
    if (ok : bool) then mret tt else raise LeaseLostError.

(** ** What each operation does to the state *)

(** The state after a claim of task [tid], whose row was [t]. *)
Definition claimed (tid : uuid) (t : task_row) (worker : string) (expires : Z) (d : db) : db :=
  let d1 := set_tasks (<[tid := lease_row worker expires t]> (tasks d)) d in
  match runs d !! task_run_id t with
  | Some r => if is_pending r then set_runs (<[task_run_id t := start_run_row r]> (runs d)) d1 else d1
  | None => d1
  end.

Lemma select_claimable_Some now locked d tid t :
  select_claimable now locked d = Some (tid, t) ->
  tasks d !! tid = Some t /\ task_status_of t = Queued /\ task_available_at t <= now /\
  (tid ∉ locked) /\
  (forall tid' t', tasks d !! tid' = Some t' -> task_status_of t' = Queued ->
     task_available_at t' <= now -> tid' ∉ locked -> task_available_at t <= task_available_at t').
Proof.
  unfold select_claimable. set (l := filter _ _). intros Hhead.
  assert (Hin : (tid, t) ∈ l).
  { apply (elem_of_sort_by available_leb). apply head_Some_elem_of. done. }
  unfold l in Hin. apply list_elem_of_filter in Hin as [Hc Hin].
  apply elem_of_map_to_list in Hin. unfold claimable in Hc. simpl in Hc. bool_to_prop.
  split_and!; [done..|].
  intros tid' t' Hl Hq Ha Hlk.
  assert (Hin' : (tid', t') ∈ sort_by available_leb l).
  { apply elem_of_sort_by, list_elem_of_filter. split; [|by apply elem_of_map_to_list].
    unfold claimable; simpl. rewrite bool_decide_eq_true_2, bool_decide_eq_false_2 by done.
    rewrite (proj2 (Z.leb_le _ _) Ha). done. }
  assert (Hs : StronglySorted (fun x y => Is_true (available_leb x y)) (sort_by available_leb l)).
  { apply Sorted_StronglySorted.
    - intros x y z. unfold available_leb. rewrite !Is_true_true, !Z.leb_le. lia.
    - apply sort_by_Sorted. unfold available_leb. intros x y. rewrite Z.leb_gt, Z.leb_le. lia. }
  destruct (sort_by available_leb l) as [|p l']; [done|]. injection Hhead as ->.
  apply StronglySorted_inv in Hs as [_ Hall]. apply elem_of_cons in Hin' as [[= -> ->]|Hin']; [lia|].
  rewrite Forall_forall in Hall. apply Hall in Hin'. unfold available_leb in Hin'. simpl in Hin'.
  by apply Is_true_true, Z.leb_le in Hin'.
Qed.

Lemma select_claimable_None now locked d :
  select_claimable now locked d = None <->
  (forall tid t, tasks d !! tid = Some t -> task_status_of t = Queued ->
     task_available_at t <= now -> tid ∈ locked).
Proof.
  unfold select_claimable. set (l := filter _ _). split.
  - intros Hn tid t Hl Hq Ha. destruct (decide (tid ∈ locked)) as [|Hlk]; [done|exfalso].
    assert (Hin : (tid, t) ∈ sort_by available_leb l).
    { apply elem_of_sort_by, list_elem_of_filter. split; [|by apply elem_of_map_to_list].
      unfold claimable; simpl. rewrite bool_decide_eq_true_2, bool_decide_eq_false_2 by done.
      rewrite (proj2 (Z.leb_le _ _) Ha). done. }
    destruct (sort_by available_leb l); [by apply not_elem_of_nil in Hin|done].
  - intros H. destruct (sort_by available_leb l) as [|[tid t] l'] eqn:E; [done|exfalso].
    assert (Hin : (tid, t) ∈ l) by (rewrite <- (elem_of_sort_by available_leb), E; constructor).
    unfold l in Hin. apply list_elem_of_filter in Hin as [Hc Hin].
    apply elem_of_map_to_list in Hin. unfold claimable in Hc. simpl in Hc. bool_to_prop. naive_solver.
Qed.

Lemma claim_task_eq now locked w lease d :
  claim_task now locked w lease d =
    match select_claimable now locked d with
    | None => (Ok None, d)
    | Some (tid, t) =>
        (Ok (Some (MkClaim tid (task_run_id t) w (task_attempt t + 1))),
         claimed tid t w (now + lease) d)
    end.
Proof.
  unfold claim_task, update_task, update_run, claimed. unfold_m.
  destruct (select_claimable now locked d) as [[tid t]|] eqn:E; [|done].
  apply select_claimable_Some in E as (Ht & _). rewrite Ht. simpl.
  destruct (runs d !! task_run_id t); [|done]. by destruct (is_pending _).
Qed.

Lemma heartbeat_eq now c lease d :
  heartbeat now c lease d =
    match tasks d !! claim_task_id c with
    | Some t =>
        if held_by c t && expires_after now t
        then (Ok true, set_tasks (<[claim_task_id c := extend_row (now + lease) t]> (tasks d)) d)
        else (Ok false, d)
    | None => (Ok false, d)
    end.
Proof.
  unfold heartbeat, update_task. unfold_m. destruct (tasks d !! _); [|done].
  by destruct (_ && _).
Qed.

Lemma release_task_eq now c backoff d :
  release_task now c backoff d =
    match tasks d !! claim_task_id c with
    | Some t =>
        if held_by c t
        then (Ok true,
              set_tasks (<[claim_task_id c := requeue_later_row (now + backoff) t]> (tasks d)) d)
        else (Ok false, d)
    | None => (Ok false, d)
    end.
Proof.
  unfold release_task, update_task. unfold_m. destruct (tasks d !! _); [|done].
  by destruct (held_by _ _).
Qed.

Lemma assert_lease_eq fencing now c d :
  assert_lease fencing now c d =
    (if negb fencing then Ok tt
     else match tasks d !! claim_task_id c with
          | Some t => if held_by c t && expires_after now t then Ok tt else Raise LeaseLostError
          | None => Raise LeaseLostError
          end, d).
Proof.
  unfold assert_lease. unfold_m. destruct fencing; simpl; [|done].
  destruct (tasks d !! _); [|done]. by destruct (_ && _).
Qed.

Lemma reap_lookup now locked d tid :
  tasks (snd (reap_expired now locked d)) !! tid =
    (fun t => if reapable now locked tid t then requeue_row t else t) <$> tasks d !! tid.
Proof. simpl. rewrite map_lookup_imap. by destruct (tasks d !! tid). Qed.

(** Attempts and runs of the tasks are changed by claims alone. *)
Lemma requeue_row_attempt t : task_attempt (requeue_row t) = task_attempt t.
Proof. done. Qed.

Lemma held_by_spec c t :
  held_by c t = true <->
  task_attempt t = claim_attempt c /\ task_lease_owner t = Some (claim_worker_id c) /\
  task_status_of t = Leased.
Proof.
  unfold held_by, is_leased. rewrite !andb_true_iff, Z.eqb_eq, !bool_decide_eq_true. tauto.
Qed.

(** ** Attempts never go back *)

(** Every task of [d] is still there, for the same run, with at least its
    attempt. *)
Definition attempts_le (d d' : db) : Prop :=
  forall tid t, tasks d !! tid = Some t ->
    exists t', tasks d' !! tid = Some t' /\ task_run_id t' = task_run_id t /\
      task_attempt t <= task_attempt t'.

#[export] Instance attempts_le_preorder : PreOrder attempts_le.
Proof.
  split.
  - intros d tid t Ht. exists t. split_and!; [done..|lia].
  - intros d1 d2 d3 H12 H23 tid t Ht. apply H12 in Ht as (t2 & Ht2 & Hr & Ha).
    apply H23 in Ht2 as (t3 & Ht3 & Hr3 & Ha3). exists t3. split_and!; [done|congruence|lia].
Qed.

Lemma attempts_le_same d d' : tasks d' = tasks d -> attempts_le d d'.
Proof. intros H tid t Ht. exists t. rewrite H. split_and!; [done..|lia]. Qed.

Lemma attempts_le_refl d : attempts_le d d.
Proof. by apply attempts_le_same. Qed.

Lemma attempts_le_update tid t t' (d : db) :
  tasks d !! tid = Some t -> task_run_id t' = task_run_id t -> task_attempt t <= task_attempt t' ->
  attempts_le d (set_tasks (<[tid := t']> (tasks d)) d).
Proof.
  intros Ht Hr Ha tid2 t2 Ht2. simpl. destruct (decide (tid = tid2)) as [<-|].
  - exists t'. rewrite lookup_insert_eq. simplify_eq. auto.
  - exists t2. rewrite lookup_insert_ne by done. split_and!; [done..|lia].
Qed.

Lemma tasks_claimed tid t w x d : tasks (claimed tid t w x d) = <[tid := lease_row w x t]> (tasks d).
Proof. unfold claimed. destruct (runs d !! _); [|done]. by destruct (is_pending _). Qed.

Lemma events_claimed tid t w x d : events (claimed tid t w x d) = events d.
Proof. unfold claimed. destruct (runs d !! _); [|done]. by destruct (is_pending _). Qed.

Lemma calls_claimed tid t w x d : provider_calls (claimed tid t w x d) = provider_calls d.
Proof. unfold claimed. destruct (runs d !! _); [|done]. by destruct (is_pending _). Qed.

Lemma cache_claimed tid t w x d : llm_cache (claimed tid t w x d) = llm_cache d.
Proof. unfold claimed. destruct (runs d !! _); [|done]. by destruct (is_pending _). Qed.

Lemma runs_claimed tid t w x d rid r' :
  runs (claimed tid t w x d) !! rid = Some r' ->
  exists r, runs d !! rid = Some r /\ (r' = r \/ (r' = start_run_row r /\ run_status_of r = Pending)).
Proof.
  unfold claimed. destruct (runs d !! task_run_id t) as [r0|] eqn:E; [|by eauto].
  destruct (is_pending r0) eqn:Ep; [|by eauto]. simpl.
  destruct (decide (task_run_id t = rid)) as [<-|]; [|rewrite lookup_insert_ne by done; by eauto].
  rewrite lookup_insert_eq. intros [= <-]. exists r0. split; [done|]. right.
  split; [done|]. by apply bool_decide_eq_true in Ep.
Qed.

#[export] Hint Rewrite tasks_claimed events_claimed calls_claimed cache_claimed : phx.

Lemma claim_task_attempts now locked w lease d :
  attempts_le d (snd (claim_task now locked w lease d)).
Proof.
  rewrite claim_task_eq. destruct (select_claimable _ _ _) as [[tid t]|] eqn:E; simpl; [|done].
  apply select_claimable_Some in E as (Ht & _).
  trans (set_tasks (<[tid:=lease_row w (now + lease) t]> (tasks d)) d).
  - eapply attempts_le_update; [done..|simpl; lia].
  - apply attempts_le_same, tasks_claimed.
Qed.

Lemma heartbeat_attempts now c lease d : attempts_le d (snd (heartbeat now c lease d)).
Proof.
  rewrite heartbeat_eq. destruct (tasks d !! _) as [t|] eqn:E; [|done].
  destruct (_ && _); [|done]. eapply attempts_le_update; [done..|simpl; lia].
Qed.

Lemma release_task_attempts now c backoff d : attempts_le d (snd (release_task now c backoff d)).
Proof.
  rewrite release_task_eq. destruct (tasks d !! _) as [t|] eqn:E; [|done].
  destruct (held_by _ _); [|done]. eapply attempts_le_update; [done..|simpl; lia].
Qed.

Lemma reap_expired_attempts now locked d : attempts_le d (snd (reap_expired now locked d)).
Proof.
  intros tid t Ht. rewrite reap_lookup, Ht. simpl. eexists. split; [done|].
  destruct (reapable _ _ _ _); simpl; split; (done || lia).
Qed.

#[export] Hint Resolve claim_task_attempts heartbeat_attempts release_task_attempts
  reap_expired_attempts : phx_inv.

(** ** Properties of the leases *)

(** C17: claiming takes, among the queued tasks that are due and not locked by
    another transaction, one that became available first; it leases the task
    to the worker until [now + lease] under the next attempt, marks a pending
    run running, and touches nothing else.  It yields nothing exactly when
    there is no such task. *)
Theorem claim_task_correct now locked w lease d :
  match claim_task now locked w lease d with
  | (Ok None, d') =>
      d' = d /\ forall tid t, tasks d !! tid = Some t -> task_status_of t = Queued ->
        task_available_at t <= now -> tid ∈ locked
  | (Ok (Some c), d') =>
      exists t, tasks d !! claim_task_id c = Some t /\
        task_status_of t = Queued /\ task_available_at t <= now /\ (claim_task_id c ∉ locked) /\
        (forall tid' t', tasks d !! tid' = Some t' -> task_status_of t' = Queued ->
           task_available_at t' <= now -> (tid' ∉ locked) ->
           task_available_at t <= task_available_at t') /\
        claim_run_id c = task_run_id t /\ claim_worker_id c = w /\
        claim_attempt c = task_attempt t + 1 /\
        tasks d' = <[claim_task_id c := lease_row w (now + lease) t]> (tasks d) /\
        (forall r, runs d !! claim_run_id c = Some r ->
           runs d' = <[claim_run_id c := if is_pending r then start_run_row r else r]> (runs d)) /\
        events d' = events d /\ provider_calls d' = provider_calls d /\ llm_cache d' = llm_cache d
  | (Raise _, _) => False
  end.
Proof.
  rewrite claim_task_eq. destruct (select_claimable _ _ _) as [[tid t]|] eqn:E.
  - apply select_claimable_Some in E as (Ht & Hq & Ha & Hl & Hmin). exists t.
    autorewrite with phx. simpl. split_and!; try done.
    intros r Hr. unfold claimed. rewrite Hr.
    destruct (is_pending r); [done|]. simpl. by rewrite insert_id.
  - split; [done|]. by apply select_claimable_None.
Qed.

(** Fencing.  Once a task has been claimed under an attempt, every earlier
    claim of it is powerless in every later state: its heartbeat, its release
    and its commit check are refused and change nothing, whatever the clock
    says. *)
Theorem stale_claim_powerless now now' locked w lease lease' backoff d d1 c stale d2 :
  claim_task now locked w lease d = (Ok (Some c), d1) ->
  attempts_le d1 d2 ->
  claim_task_id stale = claim_task_id c -> claim_attempt stale < claim_attempt c ->
  heartbeat now' stale lease' d2 = (Ok false, d2) /\
  release_task now' stale backoff d2 = (Ok false, d2) /\
  assert_lease true now' stale d2 = (Raise LeaseLostError, d2).
Proof.
  intros Hc Hle Hid Hlt. rewrite claim_task_eq in Hc.
  destruct (select_claimable _ _ _) as [[tid t]|] eqn:E; [|done]. injection Hc as <- <-.
  destruct (Hle tid (lease_row w (now + lease) t)) as (t2 & Ht2 & _ & Ha);
    [by rewrite tasks_claimed, lookup_insert_eq|]. simpl in *.
  assert (Hnh : held_by stale t2 = false).
  { unfold held_by. rewrite (proj2 (Z.eqb_neq _ _)); [done|lia]. }
  rewrite heartbeat_eq, release_task_eq, assert_lease_eq, Hid. simpl. by rewrite Ht2, Hnh.
Qed.

(** The reaper requeues exactly the tasks whose lease has expired (and no
    other transaction holds), keeps their attempt, reports how many, leaves a
    lease that has not expired alone, and afterwards the old holder can
    neither renew nor commit. *)
Theorem reap_expired_correct now locked d :
  exists n d', reap_expired now locked d = (Ok n, d') /\
    n = size (filter (fun p : uuid * task_row => reapable now locked (fst p) (snd p) = true) (tasks d)) /\
    (forall tid t, tasks d !! tid = Some t -> reapable now locked tid t = false ->
       tasks d' !! tid = Some t) /\
    (forall tid t, tasks d !! tid = Some t -> expires_after now t = true ->
       tasks d' !! tid = Some t) /\
    (forall tid t c later lease, tasks d !! tid = Some t -> reapable now locked tid t = true ->
       tasks d' !! tid = Some (requeue_row t) /\
       (claim_task_id c = tid ->
          heartbeat later c lease d' = (Ok false, d') /\
          assert_lease true later c d' = (Raise LeaseLostError, d'))).
Proof.
  eexists _, (snd (reap_expired now locked d)). split; [reflexivity|]. split; [done|].
  assert (Hl : forall tid t, tasks d !! tid = Some t ->
    tasks (snd (reap_expired now locked d)) !! tid =
      Some (if reapable now locked tid t then requeue_row t else t))
    by (intros tid t Ht; by rewrite reap_lookup, Ht).
  split_and!.
  - intros tid t Ht Hr. by rewrite (Hl _ _ Ht), Hr.
  - intros tid t Ht Hx. rewrite (Hl _ _ Ht). unfold reapable, expires_after, expired_before in *.
    destruct (task_lease_expires_at t) as [x|]; [|done]. bool_to_prop.
    rewrite (proj2 (Z.ltb_ge _ _)), andb_false_r by lia. done.
  - intros tid t c later lease Ht Hr. apply Hl in Ht as Ht'. rewrite Hr in Ht'.
    split; [done|]. intros Hid. rewrite heartbeat_eq, assert_lease_eq, Hid, Ht'.
    unfold held_by, is_leased. simpl. by rewrite andb_false_r.
Qed.
