(* ===== verification/Engine.v ===== *)
(** [engine.py]: the durable step executor.

    A worker that holds a claim replays the run's events, computes the next
    step with the run's workflow, and commits it in one transaction: fence
    check, event, spend, and on the last step the end of the task and the run.
    Workflows are behind the class [Workflow]; the toy workflow is here, the
    agent in [Agent]. *)

From S2P Require Import Prelude PyDecimal Json Database Store Leases.

(** ** Step outcomes *)
Record StepOutcome := MkStepOutcome {
  so_type : string;
  so_payload : dict;
  so_cost_usd : dec;
  so_final : bool;
  so_final_status : run_status;
}.

(** [Workflow.next_step(claim, step_index, events)] over a world [S]. *)
Class Workflow (W S : Type) : Type :=
  next_step : W -> Claim -> Z -> list event -> M S StepOutcome.

(** A world that contains the database. *)
Class HasDb (S : Type) : Type := { get_db : S -> db; put_db : db -> S -> S }.

Class HasDbLaws (S : Type) `{HasDb S} : Prop := {
  get_put_db : forall d s, get_db (put_db d s) = d;
  put_get_db : forall s, put_db (get_db s) s = s;
  put_put_db : forall d d' s, put_db d (put_db d' s) = put_db d s;
}.

#[export] Instance db_has_db : HasDb db := {| get_db := id; put_db := fun d _ => d |}.
#[export] Instance db_has_db_laws : HasDbLaws db.
Proof. by split. Qed.

Definition on_db {S A} `{HasDb S} (m : M db A) : M S A := fun s =>
  let '(r, d) := m (get_db s) in (r, put_db d s).

(** ** Values of a run's spec *)

(** [int(v)] *)
Definition dec_trunc (d : dec) : Z :=
  if 0 <=? dexp d then dcoef d * pow10 (dexp d) else Z.quot (dcoef d) (pow10 (- dexp d)).
Definition py_int (v : json) : res Z :=
  match v with
  | JInt z => Ok z
  | JBool b => Ok (if b then 1 else 0)
  | JStr s => of_option ValueError (parse_int (str_to_list s))
  | JFloat r => d ← of_option ValueError (dec_of_string r); mret (dec_trunc d)
  | _ => Raise TypeError
  end.

(** ** The toy workflow *)
Record ToyWorkflow := MkToyWorkflow { toy_steps : Z; toy_cost : dec }.

(** [float(v)] returns *)
Definition float_ok (v : json) : res unit :=
  match v with
  | JInt _ | JBool _ | JFloat _ => Ok tt
  | JStr s => d ← of_option ValueError (dec_of_string s); mret tt
  | _ => Raise TypeError
  end.

(** The delay of a step only takes time. *)
Definition toy_init (spec : dict) : res ToyWorkflow :=
  steps ← py_int (dget_or "steps" (JInt 20) spec);
  float_ok (dget_or "step_delay" (JFloat "0.0") spec) ;;
  cost ← of_option InvalidOperation
           (dec_of_string (py_str (dget_or "step_cost" (JStr "0.0001") spec)));
  mret (MkToyWorkflow steps cost).

Definition toy_step (w : ToyWorkflow) (claim : Claim) (step_index : Z) : StepOutcome :=
  MkStepOutcome "toy_step"
    [("i", JInt step_index); ("value", JInt (step_index ^ 2));
     ("worker", JStr (claim_worker_id claim)); ("attempt", JInt (claim_attempt claim));
     ("cost_usd", JStr (string_of_dec (toy_cost w)))]
    (toy_cost w) (step_index =? toy_steps w - 1) Succeeded.

#[export] Instance toy_workflow {S} : Workflow ToyWorkflow S :=
  fun w claim step_index _ => mret (toy_step w claim step_index).

(** ** Submission *)
Definition submit_run (now : Z) (rid tid : uuid) (spec : json) (budget_usd : string + dec) :
    M db uuid :=
  transaction (
    run_id ← insert_run now rid spec budget_usd;
    enqueue_task now tid run_id ;;
    mret run_id).

(** ** Commit *)

(** [{**outcome.payload, "meta": {...}}] *)
Definition meta_of (claim : Claim) (o : StepOutcome) : json :=
  JObj [("worker", JStr (claim_worker_id claim)); ("attempt", JInt (claim_attempt claim));
        ("final", JBool (so_final o))].
Definition commit_payload (claim : Claim) (o : StepOutcome) : dict :=
  dset "meta" (meta_of claim o) (so_payload o).

(** [UPDATE runs SET spent_usd = spent_usd + $2 WHERE id=$1] *)
Definition set_spent (z : Z) (r : run_row) : run_row :=
  RunRow (run_task_spec r) (run_status_of r) (run_budget_usd r) z (run_created_at r)
    (run_finished_at r).
Definition add_spent (rid : uuid) (cost : dec) : M db unit := fun d =>
  match runs d !! rid with
  | None => (Ok tt, d)
  | Some r =>
      match numeric 12 6 (dec_exact_add (of_numeric 6 (run_spent_usd r)) cost) with
      | Ok z => (Ok tt, set_runs (<[rid := set_spent z r]> (runs d)) d)
      | Raise e => (Raise e, d)
      end
  end.

Definition finish_task_row (t : task_row) : task_row :=
  TaskRow (task_run_id t) Done (task_lease_owner t) (task_lease_expires_at t) (task_attempt t)
    (task_available_at t).
Definition finish_run_row (status : run_status) (now : Z) (r : run_row) : run_row :=
  RunRow (run_task_spec r) status (run_budget_usd r) (run_spent_usd r) (run_created_at r) (Some now).

Definition commit_step (fencing : bool) (now : Z) (claim : Claim) (step_index : Z)
    (outcome : StepOutcome) : M db bool :=
  transaction (
    assert_lease fencing now claim ;;
    res ← append_event true now (claim_run_id claim) (step_key (claim_run_id claim) step_index)
            (so_type outcome) (commit_payload claim outcome);
    if negb (ar_inserted res) then mret false
    else
      add_spent (claim_run_id claim) (so_cost_usd outcome) ;;
      if so_final outcome then
        update_task (claim_task_id claim) (fun _ => true) finish_task_row ;;
        update_run (claim_run_id claim) (fun _ => true)
          (finish_run_row (so_final_status outcome) now) ;;
        mret true
      else mret true).

(** ** Execution of a claimed task

    [clock] gives the time of the commit of each round; [None] is the model
    running out of rounds, which the code never does. *)
Section Execute.
Context {W S : Type} `{HasDb S} `{Workflow W S}.
Context (fencing : bool) (clock : nat -> Z) (w : W) (claim : Claim).

Fixpoint execute_task (rounds : nat) : M S (option unit) :=
  match rounds with
  | O => mret None
  | Datatypes.S rounds' =>
      events ← on_db (read_events (claim_run_id claim));
      let step_index := Z.of_nat (length events) in
      outcome ← next_step w claim step_index events;
      on_db (commit_step fencing (clock rounds) claim step_index outcome) ;;
      if so_final outcome then mret (Some tt) else execute_task rounds'
  end.
End Execute.

(** ** Errors *)

(** [getattr(exc, "fatal", False)] *)
Definition exn_fatal (e : exn) : bool := match e with ProviderError f => f | _ => false end.
Definition is_lease_lost (e : exn) : bool := match e with LeaseLostError => true | _ => false end.

Section HandleError.
(** [str(exc)] and [repr(exc)]. *)
Context (exc_str exc_repr : exn -> string).

Definition failure_reason (claim : Claim) (exc : exn) : string :=
  if exn_fatal exc then "fatal error: " +:+ exc_str exc
  else "worker error after " +:+ string_of_Z (claim_attempt claim) +:+ " attempts: " +:+
       exc_repr exc.

Definition failure_outcome (claim : Claim) (exc : exn) : StepOutcome :=
  MkStepOutcome "failed" [("reason", JStr (failure_reason claim exc))] dec_zero true Failed.

(** The number of the run's events ([SELECT count ... FROM events]). *)
Definition count_events (rid : uuid) (d : db) : Z := Z.of_nat (length (events_of rid d)).

(** The retry decision: give the task back, or fail the run. *)
Definition retries (claim : Claim) (exc : exn) (max_attempts : Z) : bool :=
  (claim_attempt claim <? max_attempts) && negb (exn_fatal exc).

Definition _handle_error (fencing : bool) (now : Z) (claim : Claim) (exc : exn)
    (max_attempts backoff : Z) : M db unit :=
  if retries claim exc max_attempts then release_task now claim backoff ;; mret tt
  else
    index ← gets (count_events (claim_run_id claim));
    try_except
      (commit_step fencing now claim index (failure_outcome claim exc) ;; mret tt)
      is_lease_lost (fun _ => mret tt).
End HandleError.

(** ** The commit on every branch *)

(** The fence check as a predicate. *)
Definition fence_ok (fencing : bool) (now : Z) (c : Claim) (d : db) : bool :=
  negb fencing ||
  match tasks d !! claim_task_id c with
  | Some t => held_by c t && expires_after now t
  | None => false
  end.

(** The row of the run and the state after a step was committed. *)
Definition committed_run (now : Z) (o : StepOutcome) (z : Z) (r : run_row) : run_row :=
  if so_final o then finish_run_row (so_final_status o) now (set_spent z r) else set_spent z r.

Definition committed (now : Z) (c : Claim) (i : Z) (o : StepOutcome) (r : run_row) (z : Z) (d : db) :
    db :=
  let rid := claim_run_id c in
  let d1 := appended now rid (step_key rid i) (so_type o) (commit_payload c o) d in
  let d2 := set_runs (<[rid := committed_run now o z r]> (runs d)) d1 in
  if so_final o then set_tasks (alter finish_task_row (claim_task_id c) (tasks d)) d2 else d2.

Lemma fence_ok_assert fencing now c d :
  assert_lease fencing now c d =
    (if fence_ok fencing now c d then Ok tt else Raise LeaseLostError, d).
Proof.
  rewrite assert_lease_eq. unfold fence_ok. destruct fencing; [|done]. simpl.
  destruct (tasks d !! _); [|done]. by destruct (_ && _).
Qed.

Lemma update_task_alter tid f (d : db) :
  exists r, update_task tid (fun _ => true) f d = (Ok r, set_tasks (alter f tid (tasks d)) d).
Proof.
  unfold update_task. destruct (tasks d !! tid) as [t|] eqn:E.
  - eexists. do 2 f_equal. f_equal. apply map_eq. intros j.
    rewrite lookup_insert, lookup_alter. case_decide; subst; [|done]. by rewrite E.
  - eexists. f_equal. destruct d; unfold set_tasks; simpl in *. f_equal.
    apply map_eq. intros j. rewrite lookup_alter. case_decide; subst; [|done]. by rewrite E.
Qed.

Lemma update_run_insert rid f (d : db) r :
  runs d !! rid = Some r ->
  update_run rid (fun _ => true) f d = (Ok tt, set_runs (<[rid := f r]> (runs d)) d).
Proof. unfold update_run. by intros ->. Qed.

(** The writes after the event: spend, then the end of the task and the run. *)
Definition commit_writes (now : Z) (c : Claim) (o : StepOutcome) : M db bool :=
  add_spent (claim_run_id c) (so_cost_usd o) ;;
  if so_final o then
    update_task (claim_task_id c) (fun _ => true) finish_task_row ;;
    update_run (claim_run_id c) (fun _ => true) (finish_run_row (so_final_status o) now) ;;
    mret true
  else mret true.

Lemma commit_writes_eq now c i o d r :
  runs d !! claim_run_id c = Some r ->
  let d1 := appended now (claim_run_id c) (step_key (claim_run_id c) i) (so_type o)
              (commit_payload c o) d in
  match numeric 12 6 (dec_exact_add (of_numeric 6 (run_spent_usd r)) (so_cost_usd o)) with
  | Ok z => commit_writes now c o d1 = (Ok true, committed now c i o r z d)
  | Raise e => commit_writes now c o d1 = (Raise e, d1)
  end.
Proof.
  intros Hr d1. unfold commit_writes, committed, committed_run, add_spent. unfold_m.
  change (runs d1) with (runs d). rewrite Hr.
  destruct (numeric _ _ _) as [z|e]; [|done]. destruct (so_final o); [|done].
  match goal with |- context [update_task ?t ?p ?f ?x] =>
    destruct (update_task_alter t f x) as [q ->] end.
  erewrite update_run_insert; [|simpl; apply lookup_insert_eq].
  unfold set_runs, set_tasks; simpl. by rewrite insert_insert_eq.
Qed.

Lemma commit_step_unfold fencing now c i o :
  commit_step fencing now c i o =
  transaction (
    assert_lease fencing now c ;;
    res ← append_event true now (claim_run_id c) (step_key (claim_run_id c) i)
            (so_type o) (commit_payload c o);
    if negb (ar_inserted res) then mret false else commit_writes now c o).
Proof. done. Qed.

(** What the columns make of a commit: the cast of the payload, and then the
    new spend in millionths. *)
Definition commit_values (c : Claim) (o : StepOutcome) (r : run_row) : res Z :=
  jsonb (JObj (commit_payload c o)) ;;
  numeric 12 6 (dec_exact_add (of_numeric 6 (run_spent_usd r)) (so_cost_usd o)).

(** A refused value is no lost lease. *)
Lemma commit_values_raises c o r e : commit_values c o r = Raise e -> is_lease_lost e = false.
Proof.
  unfold commit_values. unfold_m. destruct (jsonb _) as [[]|x] eqn:Hj.
  - unfold numeric. destruct (_ <? _); [done|]. by intros [= <-].
  - intros [= <-]. by destruct (jsonb_raises _ _ Hj) as [-> | ->].
Qed.

Lemma commit_step_eq fencing now c i o d :
  gapless (claim_run_id c) d ->
  commit_step fencing now c i o d =
    if negb (fence_ok fencing now c d) then (Raise LeaseLostError, d)
    else match runs d !! claim_run_id c with
    | None => (Raise (RunNotFoundError (claim_run_id c)), d)
    | Some r =>
        match select_seq (claim_run_id c) (step_key (claim_run_id c) i) d with
        | Some _ => (Ok false, d)
        | None =>
            match commit_values c o r with
            | Ok z => (Ok true, committed now c i o r z d)
            | Raise e => (Raise e, d)
            end
        end
    end.
Proof.
  intros Hg. rewrite commit_step_unfold. unfold append_event.
  unfold transaction, mbind, M_bind, mret, M_ret. rewrite fence_ok_assert.
  destruct (fence_ok _ _ _ _); [|done]. simpl.
  destruct (runs d !! claim_run_id c) as [r|] eqn:Hr; [|by rewrite _append_missing].
  destruct (select_seq _ _ _) as [s|] eqn:Hs.
  - by erewrite _append_existing by done.
  - erewrite _append_new by done. unfold commit_values. unfold_m.
    destruct (jsonb (JObj (commit_payload c o))) as [[]|e]; [|done]. simpl. pose proof (commit_writes_eq now c i o d r Hr) as Hw.
    simpl in Hw. destruct (numeric _ _ _); by rewrite Hw.
Qed.

(** ** Projections of a committed state *)
Section Committed.
Context (now : Z) (c : Claim) (i : Z) (o : StepOutcome) (r : run_row) (z : Z) (d : db).
Let d' := committed now c i o r z d.
Let rid := claim_run_id c.

Lemma events_committed rid' :
  events_of rid' d' = events_of rid' d ++
    (if decide (rid = rid')
     then [Event rid (next_seq rid d) (so_type o) (commit_payload c o) (step_key rid i)] else []).
Proof.
  unfold d', committed, events_of. destruct (so_final o); simpl; apply events_of_app.
Qed.

Lemma runs_committed : runs d' = <[rid := committed_run now o z r]> (runs d).
Proof. unfold d', committed. by destruct (so_final o). Qed.

Lemma tasks_committed :
  tasks d' = if so_final o then alter finish_task_row (claim_task_id c) (tasks d) else tasks d.
Proof. unfold d', committed. by destruct (so_final o). Qed.

Lemma calls_committed : provider_calls d' = provider_calls d.
Proof. unfold d', committed. by destruct (so_final o). Qed.

Lemma cache_committed : llm_cache d' = llm_cache d.
Proof. unfold d', committed. by destruct (so_final o). Qed.

Lemma gapless_committed rid' : gapless rid' d -> gapless rid' d'.
Proof.
  intros H. pose proof (gapless_appended now rid (step_key rid i) (so_type o)
    (commit_payload c o) d rid' H) as H'.
  unfold gapless in *. rewrite events_of_appended in H'. by rewrite events_committed.
Qed.

Lemma keyed_committed rid' :
  keyed rid' d -> Z.of_nat (length (events_of rid d)) = i -> keyed rid' d'.
Proof.
  intros H Hi. pose proof (keyed_appended now rid (so_type o)
    (commit_payload c o) d rid' (length (events_of rid d)) H eq_refl) as H'.
  rewrite Hi in H'. unfold keyed in *. rewrite events_of_appended in H'. by rewrite events_committed.
Qed.

Lemma attempts_committed : attempts_le d d'.
Proof.
  intros tid t Ht. rewrite tasks_committed. destruct (so_final o); [|eexists; split_and!; [done..|lia]].
  destruct (decide (claim_task_id c = tid)) as [<-|].
  - exists (finish_task_row t). rewrite lookup_alter_eq, Ht. split_and!; [done..|simpl; lia].
  - exists t. rewrite lookup_alter_ne by done. split_and!; [done..|lia].
Qed.
End Committed.

#[export] Hint Rewrite runs_committed tasks_committed calls_committed cache_committed : phx.
#[export] Hint Resolve gapless_committed keyed_committed attempts_committed : phx_inv.

Lemma committed_run_spent now o z r : run_spent_usd (committed_run now o z r) = z.
Proof. unfold committed_run. by destruct (so_final o). Qed.

(** C13: a commit is atomic and fenced.  On a well-numbered log of an existing
    run it either appends the event, adds the cost to the run's spend and, on
    the last step, ends the task and the run, all at once; or it changes
    nothing: because the claim no longer holds the lease, because the step is
    already committed, because [jsonb] cannot store the payload (a NUL
    character), or because the spend column would overflow.  No other
    run and no other task is touched. *)
Theorem commit_step_correct fencing now c i o d r :
  let rid := claim_run_id c in
  gapless rid d -> runs d !! rid = Some r ->
  let committed_before := Exists (fun e => ev_idem_key e = step_key rid i) (events_of rid d) in
  let storable := jsonb (JObj (commit_payload c o)) in
  let total := numeric 12 6 (dec_exact_add (of_numeric 6 (run_spent_usd r)) (so_cost_usd o)) in
  match commit_step fencing now c i o d with
  | (Ok true, d') =>
      fence_ok fencing now c d = true /\ ~ committed_before /\
      (forall rid', events_of rid' d' = events_of rid' d ++
        if decide (rid = rid')
        then [Event rid (Z.of_nat (length (events_of rid d)) + 1) (so_type o) (commit_payload c o)
                (step_key rid i)]
        else []) /\
      storable = Ok tt /\
      (exists z, total = Ok z /\ runs d' = <[rid := committed_run now o z r]> (runs d)) /\
      tasks d' = (if so_final o then alter finish_task_row (claim_task_id c) (tasks d) else tasks d)
  | (Ok false, d') => d' = d /\ fence_ok fencing now c d = true /\ committed_before
  | (Raise LeaseLostError, d') => d' = d /\ fence_ok fencing now c d = false
  | (Raise e, d') => d' = d /\ fence_ok fencing now c d = true /\ ~ committed_before /\
      (storable = Raise e \/ storable = Ok tt /\ total = Raise e)
  end.
Proof.
  intros rid Hg Hr committed_before storable total. rewrite commit_step_eq by done.
  destruct (fence_ok _ _ _ _) eqn:Hf; simpl; [|done]. fold rid. rewrite Hr.
  assert (Hsel : select_seq rid (step_key rid i) d = None <-> ~ committed_before).
  { rewrite select_seq_None. unfold committed_before.
    by rewrite <- Forall_Exists_neg. }
  destruct (select_seq _ _ _) as [s|] eqn:Hs.
  - split_and!; [done..|]. destruct (decide committed_before) as [|Hn]; [done|].
    by apply Hsel in Hn.
  - unfold commit_values. fold storable. unfold_m. destruct storable as [[]|e] eqn:Hj.
    2: { pose proof (proj1 Hsel eq_refl) as Hn. apply jsonb_raises in Hj as He.
         destruct He as [-> | ->]; split_and!; try done; by left. }
    unfold total. destruct (numeric _ _ _) as [z|e] eqn:Hz.
    + split_and!; [done|by apply Hsel| |done| |].
      * intros rid'. rewrite events_committed. fold rid. by rewrite next_seq_gapless.
      * exists z. by rewrite runs_committed.
      * by rewrite tasks_committed.
    + assert (e = NumericOverflow) as ->
        by (unfold numeric in Hz; destruct (_ <? _); congruence).
      split_and!; [done|done|by apply Hsel|by right].
Qed.

Lemma select_seq_committed now c i o r z d :
  gapless (claim_run_id c) d ->
  is_Some (select_seq (claim_run_id c) (step_key (claim_run_id c) i) (committed now c i o r z d)).
Proof.
  intros Hg. apply not_eq_None_Some. rewrite select_seq_None, Forall_forall. intros H.
  apply (H (Event (claim_run_id c) (next_seq (claim_run_id c) d) (so_type o) (commit_payload c o)
              (step_key (claim_run_id c) i))); [|done].
  rewrite events_committed, decide_True by done. apply elem_of_app. right. constructor.
Qed.

(** The log of a run only grows. *)
Definition log_grows (rid : uuid) (d d' : db) : Prop := events_of rid d `prefix_of` events_of rid d'.

Lemma select_seq_grows rid key d d' :
  log_grows rid d d' -> is_Some (select_seq rid key d) -> is_Some (select_seq rid key d').
Proof.
  intros [l Hl] Hs. apply not_eq_None_Some. apply not_eq_None_Some in Hs.
  intros H. apply Hs. rewrite select_seq_None in *. rewrite Hl in H. by apply Forall_app in H as [H _].
Qed.

(** Exactly-once effect.  After a step of a run has been committed, no
    commit of the same step, by any claim, with any outcome, with or without
    fencing, in any later state of the log, takes effect again: it changes
    nothing, so neither the event nor its cost is counted twice. *)
Theorem commit_step_at_most_once fencing fencing' now now' c c' i o o' d d1 d2 :
  gapless (claim_run_id c) d -> gapless (claim_run_id c) d2 ->
  commit_step fencing now c i o d = (Ok true, d1) ->
  log_grows (claim_run_id c) d1 d2 -> claim_run_id c' = claim_run_id c ->
  (fst (commit_step fencing' now' c' i o' d2) = Ok false \/
   exists e, fst (commit_step fencing' now' c' i o' d2) = Raise e) /\
  snd (commit_step fencing' now' c' i o' d2) = d2.
Proof.
  intros Hg Hg2 Hc Hgrow Hrid. rewrite commit_step_eq in Hc by done.
  destruct (negb _); [done|]. destruct (runs d !! _) as [r|]; [|done].
  destruct (select_seq _ _ d); [done|]. destruct (commit_values _ _ _) as [z|]; [|done].
  injection Hc as <-. pose proof (select_seq_committed now c i o r z d Hg) as Hs.
  apply (select_seq_grows _ _ _ d2 Hgrow) in Hs as [s Hs].
  rewrite commit_step_eq, Hrid, Hs by (by rewrite Hrid).
  destruct (negb _); [naive_solver|]. destruct (runs d2 !! _); naive_solver.
Qed.

(** ** Submission *)

(** A submission creates the run and its task together or nothing: on
    success the run is pending with nothing spent, its only task is queued at
    attempt 0, and the log is empty if it was; on an error the database is
    unchanged. *)
Theorem submit_run_correct now rid tid spec budget d :
  match submit_run now rid tid spec budget d with
  | (Ok rid', d') =>
      rid' = rid /\ runs d !! rid = None /\ tasks d !! tid = None /\
      (exists b, runs d' = <[rid := RunRow spec Pending b 0 now None]> (runs d) /\
         (py_decimal budget ≫= numeric 10 4) = Ok b) /\ jsonb spec = Ok tt /\
      tasks d' = <[tid := TaskRow rid Queued None None 0 now]> (tasks d) /\
      events d' = events d /\ provider_calls d' = provider_calls d /\ llm_cache d' = llm_cache d
  | (Raise e, d') => d' = d
  end.
Proof.
  destruct (submit_run now rid tid spec budget d) as [[rid'|e] d'] eqn:E.
  - unfold submit_run in E. rewrite transaction_Ok in E.
    apply bind_Ok_inv in E as (x & d1 & E1 & E). unfold insert_run in E1.
    apply bind_Ok_inv in E1 as (b & d2 & Eb & E1). injection Eb as Eb <-.
    apply bind_Ok_inv in E1 as ([] & d2' & Ej & E1). injection Ej as Ej <-.
    apply bind_Ok_inv in E1 as (b4 & d3 & Eb4 & E1). injection Eb4 as Eb4 <-.
    apply bind_Ok_inv in E1 as ([] & d4 & Er & E1). injection E1 as <- <-.
    unfold insert_run_row in Er. destruct (runs d !! rid) eqn:Hr; [done|]. injection Er as <-.
    apply bind_Ok_inv in E as (y & d5 & Et & E). injection E as <- <-. unfold enqueue_task in Et.
    apply bind_Ok_inv in Et as ([] & d6 & Et & E). injection E as <- <-.
    unfold insert_task_row in Et. simpl in Et. rewrite lookup_insert_eq in Et.
    destruct (tasks d !! tid) eqn:Ht; [done|]. injection Et as <-. simpl.
    split_and!; try done. exists b4. split; [done|]. rewrite Eb. simpl. done.
  - by apply transaction_atomic in E.
Qed.

(** ** Errors *)

(** The failure of a run can be stored unless its texts hold a NUL character. *)
Lemma failure_storable exc_str exc_repr c e :
  jsonb (JObj (commit_payload c (failure_outcome exc_str exc_repr c e))) =
    if nul_free (failure_reason exc_str exc_repr c e) && nul_free (claim_worker_id c) then Ok tt
    else Raise UntranslatableCharacterError.
Proof.
  unfold commit_payload, meta_of, failure_outcome. cbn [so_payload so_final dset]. rewrite decide_False by done.
  unfold_m. cbn [jsonb mapR fst snd]. unfold_m. unfold jsonb_text. cbn [nul_free].
  destruct (nul_free (failure_reason _ _ _ _)), (nul_free (claim_worker_id c)); reflexivity.
Qed.

(** C20: what happens to a step that raised.  Below the attempt limit a
    holder gives the task back, keeping its attempt, for at least the backoff;
    at the limit, or on a fatal error, a live holder ends the run: one last
    event, status failed, task done, nothing spent.  A claim that lost its
    lease changes nothing either way.  Nothing is raised, but for one case: a
    live holder whose reason holds a NUL character cannot store it, raises
    and changes nothing. *)
Theorem handle_error_correct exc_str exc_repr now c exc max_attempts backoff d r t :
  let rid := claim_run_id c in
  gapless rid d -> keyed rid d -> runs d !! rid = Some r -> tasks d !! claim_task_id c = Some t ->
  Z.abs (run_spent_usd r) < pow10 12 ->
  let n := Z.of_nat (length (events_of rid d)) in
  let result := fst (_handle_error exc_str exc_repr true now c exc max_attempts backoff d) in
  let d' := snd (_handle_error exc_str exc_repr true now c exc max_attempts backoff d) in
  if retries c exc max_attempts then
    result = Ok tt /\
    d' = if held_by c t
         then set_tasks (<[claim_task_id c := requeue_later_row (now + backoff) t]> (tasks d)) d
         else d
  else if held_by c t && expires_after now t then
    if nul_free (failure_reason exc_str exc_repr c exc) && nul_free (claim_worker_id c) then
      result = Ok tt /\
      (exists e, events_of rid d' = events_of rid d ++ [e] /\ ev_type e = "failed" /\
         ev_seq e = n + 1 /\ ev_idem_key e = step_key rid n) /\
      runs d' = <[rid := finish_run_row Failed now r]> (runs d) /\
      tasks d' = <[claim_task_id c := finish_task_row t]> (tasks d)
    else result = Raise UntranslatableCharacterError /\ d' = d
  else result = Ok tt /\ d' = d.
Proof.
  intros rid Hg Hk Hr Ht Hspent n result d'. unfold result, d', _handle_error.
  destruct (retries _ _ _).
  - unfold mbind, M_bind, mret, M_ret. rewrite release_task_eq, Ht. by destruct (held_by c t).
  - unfold mbind, M_bind, mret, M_ret, gets, try_except. fold rid.
    rewrite commit_step_eq by done. unfold fence_ok. rewrite Ht. simpl negb. cbn [orb].
    destruct (held_by c t && expires_after now t); [|done]. simpl negb. cbn iota. fold rid. rewrite Hr.
    rewrite (proj2 (keyed_select_None rid d (count_events rid d) Hk ltac:(unfold count_events; lia)))
      by (unfold count_events; lia).
    unfold commit_values. rewrite failure_storable.
    destruct (_ && _); [|done]. unfold_m. rewrite numeric_add_zero by done.
    cbn [fst snd]. split; [done|].
    rewrite events_committed, runs_committed, tasks_committed. fold rid. rewrite decide_True by done.
    split_and!.
    + eexists. split; [done|]. simpl. by rewrite next_seq_gapless.
    + done.
    + simpl. apply map_eq. intros j. rewrite lookup_alter, lookup_insert.
      case_decide; subst; [by rewrite Ht|done].
Qed.
