(* ===== verification/Budget.v ===== *)
(** [budget.py]: the limits of a run, decided from its replayed events. *)

From S2P Require Import Prelude PyDecimal Json Database.

Definition DEFAULT_MAX_STEPS : Z := 20.
Definition LOOP_WINDOW : nat := 3.

(** [Termination]; the reasons are the three texts of [check_limits]. *)
Inductive limit := BudgetCap | MaxSteps (n : Z) | LoopDetected.

Definition limit_status (l : limit) : run_status :=
  match l with BudgetCap => BudgetExceeded | _ => Failed end.

Definition limit_reason (l : limit) : string :=
  match l with
  | BudgetCap => "budget cap reached"
  | MaxSteps n => "max_steps (" +:+ string_of_Z n +:+ ") reached"
  | LoopDetected => "loop detected: 3 identical actions in a row"
  end.

#[export] Instance limit_eq_dec : EqDecision limit.
Proof. solve_decision. Defined.

(** ** [Decimal(v)] of a JSON value *)

(** The double nearest to a decimal number, as the exact decimal Python's
    [Decimal(float)] makes of it: [m * 2 ^ k] with 53 significant bits. *)
Definition dec_of_float (d : dec) : dec :=
  if dcoef d =? 0 then dec_zero
  else
    let num := if 0 <=? dexp d then Z.abs (dcoef d) * pow10 (dexp d) else Z.abs (dcoef d) in
    let den := if 0 <=? dexp d then 1 else pow10 (- dexp d) in
    let at_exp k := if 0 <=? k then (num, den * 2 ^ k) else (num * 2 ^ (- k), den) in
    let k0 := Z.log2 num - Z.log2 den - 52 in
    let '(n0, d0) := at_exp k0 in
    let k := Z.max (-1074) (if n0 / d0 <? 2 ^ 52 then k0 - 1 else k0) in
    let '(n, q) := at_exp k in
    let m := n / q in
    let r := n mod q in
    let m := if (q <? 2 * r) || ((2 * r =? q) && Z.odd m) then m + 1 else m in
    if 0 <=? k then Dec (Z.sgn (dcoef d) * (m * 2 ^ k)) 0
    else
      let g := Z.gcd m (2 ^ (- k)) in
      let j := - k - Z.log2 g in
      Dec (Z.sgn (dcoef d) * (m / g * 5 ^ j)) (- j).

Example dec_of_float_half : dec_of_float (Dec 5 (-1)) = Dec 5 (-1).
Proof. vm_compute. reflexivity. Qed.
Example dec_of_float_tenth :
  string_of_dec (dec_of_float (Dec 1 (-1))) =
    "0.1000000000000000055511151231257827021181583404541015625"%stdpp.
Proof. vm_compute. reflexivity. Qed.

Definition decimal_of (v : json) : res dec :=
  match v with
  | JStr s => of_option InvalidOperation (dec_of_string s)
  | JInt z => Ok (dec_of_Z z)
  | JBool b => Ok (dec_of_Z (if b then 1 else 0))
  | JFloat r => d ← of_option ValueError (dec_of_string r); mret (dec_of_float d)
  | JArr _ => Raise ValueError
  | JNull | JObj _ => Raise TypeError
  end.

(** ** Spend *)
Definition event_cost (e : event) : res dec :=
  decimal_of (dget_or "cost_usd" (JStr "0") (ev_payload e)).

Definition spent_from_events (evs : list event) : res dec :=
  costs ← mapR event_cost evs; mret (dec_sum costs).

(** ** Loops *)
Definition starts_with_underscore (s : string) : bool :=
  match s with String c _ => bool_decide (c = "_"%char) | EmptyString => false end.

Definition public_items (d : dict) : dict :=
  filter (fun kv => starts_with_underscore (fst kv) = false) d.

Definition _fingerprint (action : json) : res string :=
  d ← as_dict action;
  mret (dumps true (JObj (public_items d))).

(** [e.payload["action"] for e in events if "action" in e.payload] *)
Definition actions_of (evs : list event) : list json :=
  omap (fun e => dget "action" (ev_payload e)) evs.

(** [l[-n:]]; [l[-0:]] is all of [l]. *)
Definition last_n {A} (n : nat) (l : list A) : list A :=
  match n with O => l | _ => drop (length l - n) l end.

Definition detect_loop (evs : list event) (window : nat) : res bool :=
  let actions := actions_of evs in
  if (length actions <? window)%nat then Ok false
  else
    prints ← mapR _fingerprint (last_n window actions);
    mret (bool_decide (size (list_to_set prints : gset string) = 1%nat)).

Definition check_limits (evs : list event) (budget_usd : dec) (max_steps : Z) : res (option limit) :=
  spent ← spent_from_events evs;
  if dec_leb budget_usd spent then mret (Some BudgetCap)
  else if max_steps <=? Z.of_nat (length evs) then mret (Some (MaxSteps max_steps))
  else
    looping ← detect_loop evs LOOP_WINDOW;
    mret (if (looping : bool) then Some LoopDetected else None).

(** ** Lemmas *)
Lemma mapR_Ok_Forall2 {A B} (f : A -> res B) l k :
  mapR f l = Ok k <-> Forall2 (fun x y => f x = Ok y) l k.
Proof.
  revert k; induction l as [|x l IH]; intros k; simpl; unfold_m.
  - split; [intros [= <-]; constructor|by inversion 1].
  - destruct (f x) as [y|e] eqn:Ey; [|split; [done|inversion 1; congruence]].
    destruct (mapR f l) as [ys|e] eqn:El.
    + split; [intros [= <-]; constructor; [done|by apply IH]|].
      inversion 1 as [|? y' ? ys' Hy Hys]; subst. apply IH in Hys. congruence.
    + split; [done|]. inversion 1 as [|? ? ? ys' ? Hys]; subst. by apply IH in Hys.
Qed.

Lemma last_n_length {A} n (l : list A) : (0 < n <= length l)%nat -> length (last_n n l) = n.
Proof. intros Hn. unfold last_n. destruct n; [lia|]. rewrite length_drop. lia. Qed.

Lemma set_size_one (l : list string) :
  size (list_to_set l : gset string) = 1%nat <->
  l <> [] /\ exists x, Forall (fun y => y = x) l.
Proof.
  split.
  - intros [x Hx]%size_1_elem_of. split.
    + intros ->. specialize (Hx x). set_solver.
    + exists x. apply Forall_forall. intros y Hy. specialize (Hx y). set_solver.
  - intros [Hne [x Hall]]. rewrite <- (size_singleton (C := gset string) x). f_equal.
    apply leibniz_equiv. destruct l as [|y l]; [done|].
    rewrite Forall_forall in Hall. pose proof (Hall y ltac:(constructor)) as ->.
    intros z. rewrite elem_of_list_to_set, elem_of_singleton. split; [apply Hall|].
    intros ->. constructor.
Qed.

(** The last [n] actions have one fingerprint. *)
Definition stuck (n : nat) (actions : list json) : Prop :=
  (n <= length actions)%nat /\
  exists fp, Forall (fun a => _fingerprint a = Ok fp) (last_n n actions).

Definition is_dict (v : json) : Prop := match v with JObj _ => True | _ => False end.

Lemma fingerprint_Ok a : is_dict a -> exists fp, _fingerprint a = Ok fp.
Proof. destruct a; try done. intros _. by eexists. Qed.

Lemma fingerprints_Ok l : Forall is_dict l -> exists k, mapR _fingerprint l = Ok k.
Proof.
  induction 1 as [|a l Ha _ [k Hk]]; [by exists []|]. apply fingerprint_Ok in Ha as [fp Hfp].
  exists (fp :: k). simpl. by rewrite Hfp, Hk.
Qed.

Lemma Forall_last_n {A} (P : A -> Prop) n l : Forall P l -> Forall P (last_n n l).
Proof. intros. destruct n; [done|]. by apply Forall_drop. Qed.

Lemma detect_loop_spec evs n :
  (0 < n)%nat -> Forall is_dict (actions_of evs) ->
  exists b, detect_loop evs n = Ok b /\ (b = true <-> stuck n (actions_of evs)).
Proof.
  intros Hn Hd. unfold detect_loop, stuck. destruct (Nat.ltb_spec (length (actions_of evs)) n) as [|Hle].
  { exists false. split; [done|]. split; [done|lia]. }
  destruct (fingerprints_Ok (last_n n (actions_of evs))) as [k Hk]; [by apply Forall_last_n|].
  rewrite Hk. eexists. split; [done|]. rewrite bool_decide_eq_true, set_size_one.
  apply mapR_Ok_Forall2 in Hk.
  assert (length k = n) as Hlen by (rewrite <- (Forall2_length _ _ _ Hk); apply last_n_length; lia).
  split.
  - intros [_ [x Hx]]. split; [done|]. exists x. apply Forall_lookup. intros i a Ha.
    destruct (Forall2_lookup_l _ _ _ _ _ Hk Ha) as (y & Hy & Hfp).
    rewrite Forall_lookup in Hx. by rewrite <- (Hx _ _ Hy).
  - intros [_ [fp Hfp]]. split; [by destruct k; simpl in Hlen; [lia|]|]. exists fp.
    apply Forall_lookup. intros i y Hy. destruct (Forall2_lookup_r _ _ _ _ _ Hk Hy) as (a & Ha & Hya).
    rewrite Forall_lookup in Hfp. specialize (Hfp _ _ Ha). congruence.
Qed.

(** The limits are exactly the documented ones, in that order: the
    budget is reached when the summed costs are at least the budget, else the
    step limit when the log has that many events, else a loop when the last
    three actions have one fingerprint; otherwise the run goes on. *)
Theorem check_limits_correct evs budget max_steps spent :
  spent_from_events evs = Ok spent -> Forall is_dict (actions_of evs) ->
  exists l, check_limits evs budget max_steps = Ok l /\
    (l = Some BudgetCap <-> dec_leb budget spent = true) /\
    (l = Some (MaxSteps max_steps) <->
       dec_leb budget spent = false /\ max_steps <= Z.of_nat (length evs)) /\
    (l = Some LoopDetected <->
       dec_leb budget spent = false /\ Z.of_nat (length evs) < max_steps /\
       stuck 3 (actions_of evs)) /\
    (l = None <->
       dec_leb budget spent = false /\ Z.of_nat (length evs) < max_steps /\
       ~ stuck 3 (actions_of evs)).
Proof.
  intros Hs Hd. unfold check_limits. rewrite Hs. unfold_m.
  destruct (dec_leb budget spent). { eexists. split; [done|]. naive_solver. }
  destruct (max_steps <=? Z.of_nat (length evs)) eqn:E; bool_to_prop.
  { eexists. split; [done|]. split_and!; split; try done; lia. }
  destruct (detect_loop_spec evs LOOP_WINDOW) as (b & -> & Hb); [unfold LOOP_WINDOW; lia|done|].
  eexists. split; [done|]. destruct b; naive_solver lia.
Qed.

(** The fingerprint of an action is a function of its public value: two
    actions that differ only in underscore-prefixed provider metadata and in
    the order of their keys have the same fingerprint, so neither metadata
    that changes with every call nor a JSONB column can hide a loop. *)
Theorem fingerprint_public a b :
  json_same (JObj (public_items a)) (JObj (public_items b)) ->
  _fingerprint (JObj a) = _fingerprint (JObj b).
Proof. intros H. unfold _fingerprint. simpl as_dict. unfold_m. by rewrite (dumps_sorted_same _ _ H). Qed.

Definition micros_costs (evs : list event) (zs : list Z) : Prop :=
  Forall2 (fun e z => exists c, event_cost e = Ok c /\ whole_micros c z) evs zs.

Lemma costs_micros evs costs zs :
  mapR event_cost evs = Ok costs -> Forall2 whole_micros costs zs -> micros_costs evs zs.
Proof.
  rewrite mapR_Ok_Forall2. intros H. revert zs. induction H as [|e c evs costs Hc _ IH]; intros zs Hz;
    inversion Hz; subst; constructor; [by exists c|by apply IH].
Qed.

(** The recorded cost of an event in millionths. *)
Definition event_micros (e : event) : Z :=
  match event_cost e with Ok c => numeric_round 6 c | Raise _ => 0 end.

Lemma micros_costs_eq evs zs : micros_costs evs zs -> zs = event_micros <$> evs.
Proof.
  induction 1 as [|e z evs zs (c & Hc & Hz) _ ->]; [done|]. simpl. f_equal.
  unfold event_micros. rewrite Hc. by rewrite (whole_micros_round c z).
Qed.

Lemma spent_from_events_micros evs zs :
  micros_costs evs zs -> sumZ zs < pow10 12 ->
  exists d, spent_from_events evs = Ok d /\ whole_micros d (sumZ zs).
Proof.
  intros H Hlt. unfold spent_from_events.
  assert (exists ds, mapR event_cost evs = Ok ds /\ Forall2 whole_micros ds zs) as (ds & -> & Hds).
  { clear Hlt. induction H as [|e z evs zs (c & Hc & Hz) _ (ds & Hds & IH)]; [by exists []|].
    exists (c :: ds). simpl. rewrite Hc, Hds. split; [done|by constructor]. }
  eexists. split; [done|]. by apply dec_sum_micros.
Qed.

Lemma dec_leb_micros b d z :
  whole_micros d z -> dec_leb (of_numeric 4 b) d = true <-> b * 100 <= z.
Proof.
  intros (Hd & Hx & _).
  assert (dec_leb (of_numeric 4 b) d = true <-> dec_leb (of_numeric 4 b) (of_numeric 6 z) = true) as ->
    by (by rewrite Hd).
  unfold dec_leb, dec_align, of_numeric. cbn [dcoef dexp]. rewrite Z.leb_le.
  change (pow10 (- (4) - Z.min (- (4)) (- (6)))) with 100.
  change (pow10 (- (6) - Z.min (- (4)) (- (6)))) with 1. lia.
Qed.

Lemma check_limits_None evs budget max_steps :
  check_limits evs budget max_steps = Ok None ->
  Z.of_nat (length evs) < max_steps /\
  exists s, spent_from_events evs = Ok s /\ dec_leb budget s = false.
Proof.
  unfold check_limits. unfold_m. destruct (spent_from_events evs) as [s|]; [|done].
  destruct (dec_leb budget s) eqn:?; [done|]. destruct (max_steps <=? _) eqn:E; [done|].
  bool_to_prop. eauto.
Qed.
