(* ===== verification/Sha256.v ===== *)
(** [hashlib.sha256(text.encode()).hexdigest()] of Python's standard library
    (FIPS 180-4), executable: 32-bit words are integers below 2^32, a block is
    64 bytes, the digest is 64 hexadecimal digits. *)

From S2P Require Import Prelude Json.

Definition word (x : Z) : Z := x mod 2 ^ 32.
Definition rotr (n x : Z) : Z := Z.lor (Z.shiftr x n) (word (Z.shiftl x (32 - n))).
Definition not32 (x : Z) : Z := 2 ^ 32 - 1 - x.

(** ** Constants: the first 32 bits of the fractional parts of the square
    roots of the first 8 primes and of the cube roots of the first 64 *)
Definition prime (n : Z) : bool := forallb (fun d => negb (n mod d =? 0)) (seqZ 2 (n - 2)).
Definition sha_primes : list Z := filter (fun n => prime n = true) (seqZ 2 310).

(** The largest [r] with [r ^ 3 <= x], bit by bit from bit [n - 1] on. *)
Fixpoint cbrt_from (n : nat) (r x : Z) : Z :=
  match n with
  | O => r
  | S n' =>
      let r' := r + 2 ^ Z.of_nat n' in
      cbrt_from n' (if r' ^ 3 <=? x then r' else r) x
  end.

Definition sha_init : list Z :=
  Eval vm_compute in (fun p => word (Z.sqrt (p * 2 ^ 64))) <$> take 8 sha_primes.
Definition sha_consts : list Z :=
  Eval vm_compute in (fun p => word (cbrt_from 36 0 (p * 2 ^ 96))) <$> sha_primes.

Example sha_consts_64 : length sha_consts = 64%nat /\ last sha_consts = Some 0xc67178f2.
Proof. by vm_compute. Qed.

(** ** Padding: 0x80, zeros up to 56 modulo 64, the bit length on 8 bytes *)
Fixpoint be_bytes (n : nat) (x : Z) : list Z :=
  match n with O => [] | S n' => be_bytes n' (x / 256) ++ [x mod 256] end.

Definition sha_pad (msg : list Z) : list Z :=
  let len := Z.of_nat (length msg) in
  msg ++ [128] ++ replicate (Z.to_nat ((55 - len) mod 64)) 0 ++ be_bytes 8 (8 * len).

Fixpoint be_words (l : list Z) : list Z :=
  match l with
  | a :: b :: c :: d :: l' => (((a * 256 + b) * 256 + c) * 256 + d) :: be_words l'
  | _ => []
  end.

(** ** One block *)

(** The schedule, newest word first. *)
Definition sha_extend (w : list Z) : list Z :=
  let at_ i := default 0 (w !! i) in
  let s0 x := Z.lxor (Z.lxor (rotr 7 x) (rotr 18 x)) (Z.shiftr x 3) in
  let s1 x := Z.lxor (Z.lxor (rotr 17 x) (rotr 19 x)) (Z.shiftr x 10) in
  word (at_ 15%nat + s0 (at_ 14%nat) + at_ 6%nat + s1 (at_ 1%nat)) :: w.

Definition sha_schedule (block : list Z) : list Z :=
  reverse (Nat.iter 48 sha_extend (reverse (be_words block))).

Definition sha_round (st : list Z) (kw : Z * Z) : list Z :=
  match st with
  | [a; b; c; d; e; f; g; h] =>
      let s1 := Z.lxor (Z.lxor (rotr 6 e) (rotr 11 e)) (rotr 25 e) in
      let ch := Z.lxor (Z.land e f) (Z.land (not32 e) g) in
      let t1 := h + s1 + ch + fst kw + snd kw in
      let s0 := Z.lxor (Z.lxor (rotr 2 a) (rotr 13 a)) (rotr 22 a) in
      let maj := Z.lxor (Z.lxor (Z.land a b) (Z.land a c)) (Z.land b c) in
      [word (t1 + s0 + maj); a; b; c; word (d + t1); e; f; g]
  | _ => st
  end.

Definition sha_block (st : list Z) (block : list Z) : list Z :=
  zip_with (fun x y => word (x + y)) st
    (foldl sha_round st (zip sha_consts (sha_schedule block))).

Fixpoint sha_blocks (n : nat) (st : list Z) (l : list Z) : list Z :=
  match n with O => st | S n' => sha_blocks n' (sha_block st (take 64 l)) (drop 64 l) end.

(** ** The digest *)
Definition hex_byte (b : Z) : string := hex2 (Z.to_N b).

Definition sha256 (text : string) : string :=
  let msg := sha_pad ((fun c => Z.of_N (N_of_ascii c)) <$> str_to_list text) in
  let st := sha_blocks (length msg / 64) sha_init msg in
  foldr (fun w acc => foldr (fun b s => hex_byte b +:+ s) acc (be_bytes 4 w)) EmptyString st.

Example sha256_abc :
  sha256 "abc" = "ba7816bf8f01cfea414140de5dae2223b00361a396177a9cb410ff61f20015ad"%stdpp.
Proof. vm_compute. reflexivity. Qed.

Example sha256_two_blocks :
  sha256 "abcdbcdecdefdefgefghfghighijhijkijkljklmklmnlmnomnopnopq" =
  "248d6a61d20638b8e5c026930c3e6039a33ce45964ff2167f6ecedd419db06c1"%stdpp.
Proof. vm_compute. reflexivity. Qed.
