(* ===== verification/LlmCache.v ===== *)
(** [llm/base.py], [llm/cache.py] and [llm/mock.py]: providers, the cost of a
    call, and the cache that closes the window between an answer and the
    commit of its step. *)

From S2P Require Import Prelude PyDecimal Json Database Store Engine Sha256.

(** ** Responses and providers *)
Record LLMResponse := MkLLMResponse {
  resp_action : dict;
  resp_input_tokens : Z;
  resp_output_tokens : Z;
  resp_cost_usd : dec;
}.

(** [LLMProvider]: a name and a call that may raise and may change the world. *)
Class Provider (P S : Type) : Type := {
  provider_name : P -> string;
  complete : P -> list json -> M S LLMResponse;
}.

(** A provider does not write to the program's database. *)
Class ProviderLaws (P S : Type) `{HasDb S} `{Provider P S} : Prop :=
  complete_db : forall (p : P) messages (s : S), get_db (snd (complete p messages s)) = get_db s.

Definition token_cost (input_tokens output_tokens : Z) (usd_per_mtok_in usd_per_mtok_out : string) :
    res dec :=
  price_in ← of_option InvalidOperation (dec_of_string usd_per_mtok_in);
  price_out ← of_option InvalidOperation (dec_of_string usd_per_mtok_out);
  mret (dec_div (dec_add (dec_mul (dec_of_Z input_tokens) price_in)
                         (dec_mul (dec_of_Z output_tokens) price_out))
                (dec_of_Z 1000000)).

(** ** The cache key *)
Definition key_blob (provider : string) (run_id : uuid) (step_index : Z) (messages : list json) :
    string :=
  dumps true (JArr [JStr provider; JStr (uuid_str run_id); JInt step_index; JArr messages]).

Definition cache_key (provider : string) (run_id : uuid) (step_index : Z) (messages : list json) :
    string :=
  sha256 (key_blob provider run_id step_index messages).

(** ** Cached calls *)

(** A value for an INT column. *)
Definition int4 (z : Z) : res Z :=
  if (- 2 ^ 31 <=? z) && (z <? 2 ^ 31) then Ok z else Raise NumericOverflow.

Definition insert_call (run_id : uuid) (step_index : Z) (key : string) (attempt : Z)
    (worker_id : option string) : M db unit :=
  i ← lift_res (int4 step_index);
  a ← lift_res (int4 attempt);
  modify (fun d => set_provider_calls (provider_calls d ++ [CallRow run_id i key a worker_id]) d).

(** [INSERT ... ON CONFLICT (key) DO NOTHING] *)
Definition insert_cache (key : string) (resp : LLMResponse) : M db unit :=
  tin ← lift_res (int4 (resp_input_tokens resp));
  tout ← lift_res (int4 (resp_output_tokens resp));
  lift_res (jsonb (JObj (resp_action resp))) ;;
  cost ← lift_res (numeric 10 6 (resp_cost_usd resp));
  modify (fun d =>
    match llm_cache d !! key with
    | Some _ => d
    | None => set_llm_cache (<[key := CacheRow (resp_action resp) tin tout cost]> (llm_cache d)) d
    end).

Definition cached_response (row : cache_row) : LLMResponse :=
  MkLLMResponse (cache_response row) (cache_input_tokens row) (cache_output_tokens row)
    (of_numeric 6 (cache_cost_usd row)).

Section Complete.
Context {P S : Type} `{HasDb S} `{Provider P S}.

Definition complete_cached (provider : P) (run_id : uuid) (step_index : Z) (messages : list json)
    (attempt : Z) (worker_id : option string) : M S LLMResponse :=
  let key := cache_key (provider_name provider) run_id step_index messages in
  row ← on_db (gets (fun d => llm_cache d !! key));
  match row with
  | Some row => mret (cached_response row)
  | None =>
      on_db (insert_call run_id step_index key attempt worker_id) ;;
      resp ← complete provider messages;
      on_db (insert_cache key resp) ;;
      mret resp
  end.
End Complete.

(** ** The mock provider *)
Definition MOCK_IN_TOKENS : Z := 100.
Definition MOCK_OUT_TOKENS : Z := 50.
Definition MOCK_COST : res dec := token_cost MOCK_IN_TOKENS MOCK_OUT_TOKENS "1" "5".

Definition write (path content : string) : dict :=
  [("tool", JStr "write_file"); ("args", JObj [("path", JStr path); ("content", JStr content)])].
Definition run (path : string) : dict :=
  [("tool", JStr "run_code"); ("args", JObj [("path", JStr path)])].
Definition finish (summary : string) : dict :=
  [("tool", JStr "finish"); ("args", JObj [("summary", JStr summary)])].

Record MockProvider := MkMockProvider { mock_script : list dict }.

(** [m["role"] == "assistant"] for every message. *)
Definition is_assistant (m : json) : res bool :=
  match m with
  | JObj d => role ← dindex "role" d; mret (bool_decide (role = JStr "assistant"))
  | _ => Raise TypeError
  end.

(** [l[i]] for [i] below the length; a negative index counts from the end. *)
Definition py_index {A} (i : Z) (l : list A) : option A :=
  let j := if i <? 0 then i + Z.of_nat (length l) else i in
  if j <? 0 then None else l !! Z.to_nat j.

Definition mock_answer (p : MockProvider) (messages : list json) : res LLMResponse :=
  roles ← mapR is_assistant messages;
  let turn := Z.of_nat (length (filter (fun b : bool => b = true) roles)) in
  let last := Z.of_nat (length (mock_script p)) - 1 in
  action ← of_option IndexError (py_index (Z.min turn last) (mock_script p));
  cost ← MOCK_COST;
  mret (MkLLMResponse action MOCK_IN_TOKENS MOCK_OUT_TOKENS cost).

#[export] Instance mock_provider {S} : Provider MockProvider S := {|
  provider_name _ := "mock";
  complete p messages := lift_res (mock_answer p messages)
|}.

#[export] Instance mock_provider_laws {S} `{HasDb S} : ProviderLaws MockProvider S.
Proof. done. Qed.

Definition SCENARIOS (name : string) : option (list dict) :=
  if decide (name = "fail_twice_then_fix") then
    Some [write "main.py" "print(1 / 0)"; run "main.py";
          write "main.py" "print(undefined_name)"; run "main.py";
          write "main.py" "print('hello')"; run "main.py";
          finish "fixed after two failures"]
  else if decide (name = "stuck_loop") then
    Some (write "main.py" "print(1 / 0)" :: replicate 50 (run "main.py"))
  else if decide (name = "endless_progress") then
    Some ((fun i => write ("f" +:+ string_of_Z i +:+ ".py")
                      ("print(" +:+ string_of_Z i +:+ ")")) <$> seqZ 0 200)
  else if decide (name = "write_outside") then
    Some [write "../evil.txt" "x"; finish "done"]
  else None.

Definition get_scenario (name : string) : res MockProvider :=
  script ← of_option (KeyError name) (SCENARIOS name);
  mret (MkMockProvider script).

Example mock_cost_value : MOCK_COST = Ok (Dec 35 (-5)).
Proof. vm_compute. reflexivity. Qed.

Example cache_key_value :
  cache_key "mock" 1 0 [JObj [("role", JStr "user"); ("content", JStr "hi")]] =
    sha256 ("[" +:+ json_quote "mock" +:+ ", " +:+
            json_quote "00000000-0000-0000-0000-000000000001" +:+ ", 0, [{" +:+
            json_quote "content" +:+ ": " +:+ json_quote "hi" +:+ ", " +:+
            json_quote "role" +:+ ": " +:+ json_quote "user" +:+ "}]]").
Proof. vm_compute. reflexivity. Qed.

(** ** The key names its run and its step *)
Lemma string_of_N_comma n m x y :
  string_of_N n +:+ String "," x = string_of_N m +:+ String "," y -> n = m.
Proof.
  intros H. apply (f_equal str_to_list) in H. rewrite !str_to_list_app in H. simpl in H.
  assert (Hd : forall k, Forall (fun c => is_digit c = true) (str_to_list (string_of_N k))).
  { intros k. pose proof (digits_of_digit (Z.of_N k)) as Hk. unfold digits_of in Hk.
    by rewrite Zabs2N.abs_N_nonneg, N2Z.id in Hk by lia. }
  apply (f_equal span_digits) in H.
  rewrite !span_digits_app in H by (apply Hd || by intros ? ? [= <- _]).
  injection H as H _. apply string_of_N_inj.
  by rewrite <- (str_of_to_list (string_of_N n)), H, str_of_to_list.
Qed.

Lemma key_blob_scoped provider r r' i i' m m' :
  (r < 2 ^ 128)%N -> (r' < 2 ^ 128)%N -> 0 <= i -> 0 <= i' ->
  key_blob provider r i m = key_blob provider r' i' m' -> r = r' /\ i = i'.
Proof.
  intros Hr Hr' Hi Hi' H. unfold key_blob in H. cbn [dumps map join] in H.
  rewrite !str_app_assoc in H. apply (inj (String.append "[")) in H.
  apply (inj (String.append _)) in H. apply (inj (String.append ", ")) in H.
  apply json_quote_app_inj in H as [Hu H]. apply uuid_str_inj in Hu; [|done..].
  apply (inj (String.append ", ")) in H. unfold string_of_Z in H.
  rewrite !(proj2 (Z.ltb_ge _ _)) in H by done. cbn [String.append] in H.
  apply string_of_N_comma in H. split; [done|lia].
Qed.

(** The cache never shares an answer between runs or steps: two keys of
    one provider are equal only for the same run and the same step, or else
    the two texts collide under SHA-256. *)
Theorem cache_key_scoped provider r r' i i' m m' :
  (r < 2 ^ 128)%N -> (r' < 2 ^ 128)%N -> 0 <= i -> 0 <= i' ->
  cache_key provider r i m = cache_key provider r' i' m' ->
  (r = r' /\ i = i') \/
  (key_blob provider r i m <> key_blob provider r' i' m' /\
   sha256 (key_blob provider r i m) = sha256 (key_blob provider r' i' m')).
Proof.
  intros Hr Hr' Hi Hi' H.
  destruct (decide (key_blob provider r i m = key_blob provider r' i' m')) as [E|]; [|by right].
  left. by apply key_blob_scoped in E.
Qed.

(** The key depends on the value of the messages, not on the order of keys. *)
Lemma cache_key_same provider r i m m' :
  Forall2 json_same m m' -> cache_key provider r i m = cache_key provider r i m'.
Proof.
  intros H. unfold cache_key, key_blob. f_equal. apply dumps_sorted_same.
  apply same_arr. repeat (constructor; [apply same_refl|]). constructor; [by apply same_arr|constructor].
Qed.

(** ** A cached call on every branch *)
Definition call_of (run_id : uuid) (i : Z) (key : string) (attempt : Z) (w : option string) : call_row :=
  CallRow run_id i key attempt w.

(** The cost as stored, when the response fits the columns of [llm_cache]. *)
Definition stored_cost (resp : LLMResponse) : res Z :=
  int4 (resp_input_tokens resp) ;;
  int4 (resp_output_tokens resp) ;;
  jsonb (JObj (resp_action resp)) ;;
  numeric 10 6 (resp_cost_usd resp).

Definition cache_row_of (resp : LLMResponse) (cost : Z) : cache_row :=
  CacheRow (resp_action resp) (resp_input_tokens resp) (resp_output_tokens resp) cost.

Lemma int4_Ok_inv z x : int4 z = Ok x -> x = z.
Proof. unfold int4. destruct (_ && _); congruence. Qed.

Lemma insert_call_Ok rid i key a w d :
  int4 i = Ok i -> int4 a = Ok a ->
  insert_call rid i key a w d =
    (Ok tt, set_provider_calls (provider_calls d ++ [CallRow rid i key a w]) d).
Proof. intros Hi Ha. unfold insert_call, lift_res. unfold_m. by rewrite Hi, Ha. Qed.

Lemma insert_cache_new key resp d :
  llm_cache d !! key = None ->
  insert_cache key resp d =
    match stored_cost resp with
    | Ok cost => (Ok tt, set_llm_cache (<[key := cache_row_of resp cost]> (llm_cache d)) d)
    | Raise e => (Raise e, d)
    end.
Proof.
  intros Hk. unfold insert_cache, stored_cost, cache_row_of, lift_res. unfold_m.
  destruct (int4 (resp_input_tokens resp)) eqn:Hi; [|done]. apply int4_Ok_inv in Hi as ->.
  destruct (int4 (resp_output_tokens resp)) eqn:Ho; [|done]. apply int4_Ok_inv in Ho as ->.
  destruct (jsonb _); [|done]. destruct (numeric _ _ _); [|done]. by rewrite Hk.
Qed.

Section CompleteFacts.
Context {P S : Type} `{HasDbLaws S} `{!Provider P S} `{!ProviderLaws P S}.

Lemma complete_cached_hit (p : P) rid i msgs a w s row :
  llm_cache (get_db s) !! cache_key (provider_name p) rid i msgs = Some row ->
  complete_cached p rid i msgs a w s = (Ok (cached_response row), s).
Proof.
  intros Hrow. unfold complete_cached, on_db, gets. unfold_m. by rewrite Hrow, put_get_db.
Qed.

(** A cached call asks the provider at most once and counts the
    question before asking it.  On a hit nothing is asked and nothing
    written; on a miss one row is added to [provider_calls], whatever the
    provider then does; an answer that fits the columns is cached under the
    step's key and returned as it is, an exception caches nothing. *)
Theorem complete_cached_correct (p : P) rid i msgs a w (s : S) :
  int4 i = Ok i -> int4 a = Ok a ->
  let key := cache_key (provider_name p) rid i msgs in
  let d := get_db s in
  let d1 := set_provider_calls (provider_calls d ++ [CallRow rid i key a w]) d in
  complete_cached p rid i msgs a w s =
  match llm_cache d !! key with
  | Some row => (Ok (cached_response row), s)
  | None =>
      match complete p msgs (put_db d1 s) with
      | (Raise e, s') => (Raise e, s')
      | (Ok resp, s') =>
          match stored_cost resp with
          | Ok cost =>
              (Ok resp,
               put_db (set_llm_cache (<[key := cache_row_of resp cost]> (llm_cache d)) d1) s')
          | Raise e => (Raise e, s')
          end
      end
  end /\ get_db (snd (complete p msgs (put_db d1 s))) = d1.
Proof.
  intros Hi Ha key d d1.
  pose proof (complete_db p msgs (put_db d1 s)) as Hdb. rewrite get_put_db in Hdb.
  split; [|done]. destruct (llm_cache d !! key) as [row|] eqn:Hrow.
  { by apply complete_cached_hit. }
  unfold complete_cached, on_db, gets. fold key d. unfold mbind, M_bind, mret, M_ret.
  cbn beta iota zeta.
  rewrite put_get_db. unfold d1, d in *. rewrite Hrow, insert_call_Ok by done.
  destruct (complete p msgs _) as [[resp|e] s'] eqn:E; simpl in Hdb; [|done].
  rewrite Hdb, insert_cache_new by done. destruct (stored_cost resp); [done|].
  by rewrite <- Hdb, put_get_db.
Qed.

Lemma complete_cached_miss_inv (p : P) rid i msgs a w s s1 resp :
  int4 i = Ok i -> int4 a = Ok a ->
  let key := cache_key (provider_name p) rid i msgs in
  llm_cache (get_db s) !! key = None ->
  complete_cached p rid i msgs a w s = (Ok resp, s1) ->
  exists cost, stored_cost resp = Ok cost /\
    llm_cache (get_db s1) = <[key := cache_row_of resp cost]> (llm_cache (get_db s)).
Proof.
  intros Hi Ha key Hmiss Hc. unfold complete_cached, on_db, gets in Hc. fold key in Hc.
  unfold mbind, M_bind, mret, M_ret in Hc.
  cbn beta iota zeta in Hc. rewrite Hmiss, put_get_db, insert_call_Ok in Hc by done.
  match type of Hc with context [complete p msgs ?x] =>
    pose proof (complete_db p msgs x) as Hdb;
    destruct (complete p msgs x) as [[resp'|e] s'] eqn:E; [|done] end.
  simpl in Hdb. rewrite get_put_db in Hdb. rewrite insert_cache_new in Hc.
  2: by rewrite Hdb.
  destruct (stored_cost resp') as [cost|] eqn:Hst; [|done]. injection Hc as <- <-.
  exists cost. split; [done|]. by rewrite get_put_db, Hdb.
Qed.

Lemma numeric_whole_micros c z x : whole_micros c z -> numeric 10 6 c = Ok x -> x = z.
Proof.
  intros (Hc & _ & _). rewrite Hc. unfold numeric, of_numeric. rewrite numeric_round_exact. destruct (_ <? _); congruence.
Qed.

(** C18: no second call for an answered step.  Once a call for a step has
    been answered, a retry with the same messages (up to key order), by any
    attempt and in any later state that kept the cache row, does not ask
    the provider: it writes nothing and returns the same action and token
    counts, at the same cost when the cost is a whole number of
    millionths. *)
Theorem answered_step_not_asked_again (p : P) rid i msgs msgs' a a' w w' (s s1 s2 : S) resp :
  int4 i = Ok i -> int4 a = Ok a ->
  let key := cache_key (provider_name p) rid i msgs in
  llm_cache (get_db s) !! key = None ->
  complete_cached p rid i msgs a w s = (Ok resp, s1) ->
  llm_cache (get_db s2) !! key = llm_cache (get_db s1) !! key ->
  Forall2 json_same msgs msgs' ->
  exists resp', complete_cached p rid i msgs' a' w' s2 = (Ok resp', s2) /\
    resp_action resp' = resp_action resp /\
    resp_input_tokens resp' = resp_input_tokens resp /\
    resp_output_tokens resp' = resp_output_tokens resp /\
    (forall z, whole_micros (resp_cost_usd resp) z -> whole_micros (resp_cost_usd resp') z).
Proof.
  intros Hi Ha key Hmiss Hc Hkeep Hm.
  apply complete_cached_miss_inv in Hc as (cost & Hst & Hcache); [|done..].
  rewrite Hcache in Hkeep. fold key in Hkeep. rewrite lookup_insert_eq in Hkeep.
  eexists. split; [apply complete_cached_hit; by rewrite <- (cache_key_same _ _ _ _ _ Hm)|].
  split_and!; [done..|]. intros z Hz. clear Hi Ha. unfold stored_cost in Hst. unfold_m.
  destruct (int4 _); [|done]. destruct (int4 _); [|done]. destruct (jsonb _); [|done].
  pose proof (numeric_whole_micros _ _ _ Hz Hst) as ->.
  split; [|split; [simpl; lia|apply Hz]]. reflexivity.
Qed.
End CompleteFacts.
