(* ===== verification/Workspace.v ===== *)
(** [agent.py], the files: the workspace of a run, the confinement of the
    paths a model supplies ([safe_join]), and the rebuilding of a workspace
    from the run's events ([materialize_workspace]).

    A file system maps absolute resolved paths to nodes.  Permissions, and
    links inside the path of the workspace root itself, are not modelled. *)

From S2P Require Import Prelude Json Database.

(** ** File systems *)
Inductive node := NFile (content : string) | NDir | NLink (target : string).

#[export] Instance node_eq_dec : EqDecision node.
Proof. solve_decision. Defined.

(** An absolute path is the list of its components; [[]] is the root directory. *)
Abbreviation path := (list string).
Abbreviation fs := (gmap path node).

(** ** Paths as text ([pathlib.PurePosixPath]) *)
Fixpoint split_slash (s : string) : string * list string :=
  match s with
  | EmptyString => (EmptyString, [])
  | String c s' =>
      let '(w, ws) := split_slash s' in
      if bool_decide (c = "/"%char) then (EmptyString, w :: ws) else (String c w, ws)
  end.

(** The components of a path: empty ones and ["."] are dropped. *)
Definition path_parts (s : string) : list string :=
  let '(w, ws) := split_slash s in
  filter (fun p => p <> "" /\ p <> ".")%stdpp (w :: ws).

Definition is_absolute (s : string) : bool :=
  match s with String c _ => bool_decide (c = "/"%char) | EmptyString => false end.

(** [str(p)] of a relative path. *)
Definition path_str (p : path) : string := match p with [] => "."%stdpp | _ => join "/" p end.

(** ** [Path.resolve()] *)

(** A symbolic link is resolved before what follows it; [links] bounds how many
    can be in progress at once.  No link is in progress twice unless there is
    a loop, so the number of links of the file system is enough
    ([resolve_enough]), and when it is used up [resolve] meets a loop. *)
Fixpoint resolve_from (f : fs) (links : nat) : path -> list string -> res path :=
  fix go (base : path) (rest : list string) : res path :=
    match rest with
    | [] => Ok base
    | c :: rest' =>
        if decide (c = "..")%stdpp then go (removelast base) rest'
        else match f !! (base ++ [c]) with
        | Some (NLink target) =>
            match links with
            | O => Raise RuntimeError
            | S links' =>
                base' ← resolve_from f links' (if is_absolute target then [] else base) (path_parts target);
                go base' rest'
            end
        | _ => go (base ++ [c]) rest'
        end
    end.

Definition resolve (f : fs) (p : path) : res path := resolve_from f (size f) [] p.

(** ** [safe_join] *)
Definition in_range (lo hi : N) (c : ascii) : bool :=
  let n := N_of_ascii c in (lo <=? n)%N && (n <=? hi)%N.
Definition is_word (c : ascii) : bool :=
  in_range 65 90 c || in_range 97 122 c || in_range 48 57 c || bool_decide (c = "_"%char).
Definition is_path_char (c : ascii) : bool :=
  is_word c || bool_decide (c = "."%char) || bool_decide (c = "/"%char) || bool_decide (c = "-"%char).

(** The tail of the pattern: [[A-Za-z0-9_./-]*$]; [$] also matches before a
    newline that ends the text. *)
Fixpoint match_tail (s : string) : bool :=
  match s with
  | EmptyString => true
  | String c s' =>
      if is_path_char c then match_tail s'
      else bool_decide (c = ascii_of_N 10) && bool_decide (s' = EmptyString)
  end.

Definition _PATH_RE (s : string) : bool :=
  match s with String c s' => is_word c && match_tail s' | EmptyString => false end.

(** The two checks on the text alone. *)
Definition path_ok (rel : string) : bool :=
  _PATH_RE rel && negb (bool_decide (".."%stdpp ∈ path_parts rel)).

Definition is_prefix (p q : path) : bool := bool_decide (p `prefix_of` q).

Definition safe_join (root : path) (rel : json) : M fs path := fun f =>
  match rel with
  | JStr rel =>
      if negb (path_ok rel) then (Raise UnsafePathError, f)
      else
        match resolve f (root ++ path_parts rel), resolve f root with
        | Ok target, Ok root' => (if is_prefix root' target then Ok target else Raise UnsafePathError, f)
        | Ok _, Raise e => (Raise e, f)
        | Raise e, _ => (Raise e, f)
        end
  | _ => (Raise UnsafePathError, f)
  end.

(** ** Directories and files *)

(** [p.mkdir(parents=True, exist_ok=True)], from the directory [base] on. *)
Fixpoint mkdir_from (base : path) (rest : list string) : M fs unit :=
  match rest with
  | [] => mret tt
  | c :: rest' =>
      n ← gets (fun f => f !! (base ++ [c]));
      match n with
      | Some NDir => mkdir_from (base ++ [c]) rest'
      | None => modify (insert (base ++ [c]) NDir) ;; mkdir_from (base ++ [c]) rest'
      | Some _ => raise OSError
      end
  end.
Definition mkdir (p : path) : M fs unit := mkdir_from [] p.

(** [p.write_text(content)] *)
Definition write_text (p : path) (content : string) : M fs unit :=
  n ← gets (fun f => f !! p);
  match n with
  | Some NDir => raise OSError
  | _ => modify (insert p (NFile content))
  end.

(** [target.parent.mkdir(...); target.write_text(content)] *)
Definition write_file (target : path) (content : string) : M fs unit :=
  mkdir (removelast target) ;; write_text target content.

(** [if root.exists(): shutil.rmtree(root, ignore_errors=True)]: only a
    directory is removed. *)
Definition rmtree (root : path) : M fs unit := fun f =>
  match f !! root with
  | Some NDir => (Ok tt, filter (fun pn => ~ root `prefix_of` fst pn) f)
  | _ => (Ok tt, f)
  end.

(** ** JSON values used as Python objects *)

(** [v.get(k)]; [None] and a missing key are the same. *)
Definition get_attr (k : string) (v : json) : res json :=
  d ← as_dict v; mret (dget_or k JNull d).

(** The text [write_text] accepts. *)
Definition as_text (v : json) : res string :=
  match v with JStr s => Ok s | _ => Raise TypeError end.

(** ** [materialize_workspace] *)
Definition replay_event (root : path) (e : event) : M fs unit :=
  let action := dget_or "action" (JObj []) (ev_payload e) in
  tool ← lift_res (get_attr "tool" action);
  if negb (bool_decide (tool = JStr "write_file")) then mret tt
  else
    failed ← lift_res (py_in "error" (dget_or "observation" (JObj []) (ev_payload e)));
    if (failed : bool) then mret tt
    else
      args ← lift_res (subscript "args" action);
      rel ← lift_res (subscript "path" args);
      target ← safe_join root rel;
      mkdir (removelast target) ;;
      content ← lift_res (subscript "content" args);
      text ← lift_res (as_text content);
      write_text target text.

Fixpoint replay_events (root : path) (evs : list event) : M fs unit :=
  match evs with
  | [] => mret tt
  | e :: evs' => replay_event root e ;; replay_events root evs'
  end.

Definition materialize_workspace (root : path) (evs : list event) : M fs unit :=
  rmtree root ;; mkdir root ;; replay_events root evs.

(** ** Facts of paths *)
Lemma prefix_cases (p l l' : path) : p `prefix_of` l ++ l' -> p `prefix_of` l \/ l `prefix_of` p.
Proof.
  intros [k Hk]. revert p Hk. induction l as [|x l IH]; intros [|y p] Hk; simpl in *.
  - left. by exists [].
  - right. by exists (y :: p).
  - left. by exists (x :: l).
  - injection Hk as <- Hk. destruct (IH _ Hk) as [H|H]; [left|right]; by apply prefix_cons.
Qed.

Lemma removelast_app_ne (l l' : path) : l' <> [] -> removelast (l ++ l') = l ++ removelast l'.
Proof. apply removelast_app. Qed.

Lemma split_slash_word c s :
  is_word c = true -> exists w ws, split_slash (String c s) = (String c w, ws).
Proof.
  intros Hc. simpl. destruct (split_slash s) as [w ws]. destruct (bool_decide _) eqn:E; [|eauto].
  bool_to_prop. by subst.
Qed.

Lemma path_ok_parts s : path_ok s = true -> path_parts s <> [] /\ (".."%stdpp ∉ path_parts s).
Proof.
  unfold path_ok. intros [Hre Hdd]%andb_true_iff. bool_to_prop. split; [|done].
  destruct s as [|c s]; [done|]. simpl in Hre. apply andb_true_iff in Hre as [Hc _].
  destruct (split_slash_word c s Hc) as (w & ws & Hs). unfold path_parts. rewrite Hs.
  rewrite filter_cons_True; [done|]. split; [done|]. by intros [= ->].
Qed.

(** ** Workspaces: existing directories without links *)
Definition ws_ok (f : fs) (root : path) : Prop :=
  (".."%stdpp ∉ root) /\ (forall p, p `prefix_of` root -> p <> [] -> f !! p = Some NDir) /\
  (forall p t, f !! (root ++ p) <> Some (NLink t)).

Lemma resolve_from_error f links base rest e : resolve_from f links base rest = Raise e -> e = RuntimeError.
Proof.
  revert base rest. induction links as [|links IHl]; intros base rest;
    revert base; induction rest as [|c rest IH]; intros base; simpl; try done;
    (destruct (decide (c = "..")%stdpp); [apply IH|]);
    destruct (f !! (base ++ [c])) as [[| |t]|]; try apply IH; unfold_m; [congruence|].
  destruct (resolve_from f links _ _) as [base'|e'] eqn:E; [apply IH|]. intros [= <-]. by eapply IHl.
Qed.

(** *** Enough depth *)

(** What a link leads to, with the given depth left. *)
Definition through (f : fs) (links : nat) (base : path) (target : string) : res path :=
  match links with
  | O => Raise RuntimeError
  | S links' => resolve_from f links' (if is_absolute target then [] else base) (path_parts target)
  end.

Lemma resolve_from_cons f links base c rest :
  resolve_from f links base (c :: rest) =
    if decide (c = "..")%stdpp then resolve_from f links (removelast base) rest
    else match f !! (base ++ [c]) with
    | Some (NLink target) => base' ← through f links base target; resolve_from f links base' rest
    | _ => resolve_from f links (base ++ [c]) rest
    end.
Proof. by destruct links. Qed.

(** Two depths that agree on the links agree on every path. *)
Lemma resolve_from_agree f m n base rest p :
  (forall b c t q, f !! (b ++ [c]) = Some (NLink t) -> through f m b t = Ok q -> through f n b t = Ok q) ->
  resolve_from f m base rest = Ok p -> resolve_from f n base rest = Ok p.
Proof.
  intros Ht. revert base. induction rest as [|c rest IH]; intros base; [by destruct m, n|].
  rewrite !resolve_from_cons. destruct (decide _); [apply IH|].
  destruct (f !! (base ++ [c])) as [[| |t]|] eqn:Hc; try apply IH. unfold_m.
  destruct (through f m base t) as [q|] eqn:E; [|done]. rewrite (Ht _ _ _ _ Hc E). apply IH.
Qed.

(** More depth does not change what was resolved. *)
Lemma through_mono f n b t q : through f n b t = Ok q -> through f (S n) b t = Ok q.
Proof.
  revert b t q. induction n as [|n IH]; intros b t q; [done|]. apply resolve_from_agree.
  intros b' c t' q' _. apply IH.
Qed.

(** The links that lead somewhere at a depth; once no link is added none is
    added any more, and there are no more of them than nodes. *)
Definition links_solved (f : fs) (n : nat) : gset path :=
  dom (filter (fun pn : path * node => match snd pn with
    | NLink t => match through f n (removelast (fst pn)) t with Ok _ => true | Raise _ => false end
    | _ => false
    end = true) f).

Lemma elem_of_solved f n b c t :
  f !! (b ++ [c]) = Some (NLink t) -> (b ++ [c] ∈ links_solved f n) <-> exists q, through f n b t = Ok q.
Proof.
  intros Hl. unfold links_solved. rewrite elem_of_dom. split.
  - intros [x [Hx H]%map_lookup_filter_Some]. rewrite Hl in Hx. injection Hx as <-. simpl in H.
    rewrite removelast_last in H. destruct (through f n b t); [by eexists|done].
  - intros [q Hq]. exists (NLink t). apply map_lookup_filter_Some. split; [done|]. simpl.
    by rewrite removelast_last, Hq.
Qed.

Definition links_stable (f : fs) (n : nat) : Prop :=
  forall b c t q, f !! (b ++ [c]) = Some (NLink t) -> through f (S n) b t = Ok q -> through f n b t = Ok q.

Lemma links_stable_S f n : links_stable f n -> links_stable f (S n).
Proof. intros Hs b c t q _. by apply resolve_from_agree. Qed.

Lemma solved_links_stable f n : links_solved f (S n) ⊆ links_solved f n -> links_stable f n.
Proof.
  intros Hsub b c t q Hl Hq. assert (Hin : b ++ [c] ∈ links_solved f (S n)) by (apply (elem_of_solved f (S n) b c t Hl); by exists q).
  apply Hsub, (elem_of_solved f n b c t Hl) in Hin as [q' Hq']. pose proof (through_mono _ _ _ _ _ Hq'). congruence.
Qed.

Lemma solved_mono f n : links_solved f n ⊆ links_solved f (S n).
Proof.
  intros p Hp. unfold links_solved in Hp |- *. apply elem_of_dom in Hp as [x [Hx H]%map_lookup_filter_Some].
  apply elem_of_dom. exists x. apply map_lookup_filter_Some. split; [done|]. cbn [fst snd] in *. destruct x as [| |t]; try done.
  destruct (through f n _ t) as [q|] eqn:E; [|done]. by rewrite (through_mono _ _ _ _ _ E).
Qed.

Lemma links_stable_size f : links_stable f (size f).
Proof.
  assert (Hgrow : forall n, links_stable f n \/ (n <= size (links_solved f n))%nat).
  { induction n as [|n IH]; [right; lia|]. destruct IH as [IH|IH]; [left; by apply links_stable_S|].
    destruct (decide (links_solved f (S n) ⊆ links_solved f n)) as [Hsub|Hsub]; [left; by apply links_stable_S, solved_links_stable|].
    right. pose proof (solved_mono f n). assert (size (links_solved f n) < size (links_solved f (S n)))%nat
      by (apply subset_size; set_solver). lia. }
  assert (Hdom : forall n, links_solved f n ⊆ dom f) by (intros n; apply dom_filter_subseteq).
  destruct (Hgrow (size f)) as [|Hfull]; [done|]. apply solved_links_stable.
  assert (links_solved f (size f) ≡ dom f) as ->; [|apply Hdom].
  apply set_subseteq_size_equiv; [apply Hdom|]. by rewrite size_dom.
Qed.

(** The depth of [resolve] is enough: what any depth resolves, it resolves. *)
Lemma resolve_enough f n p q : resolve_from f n [] p = Ok q -> resolve f p = Ok q.
Proof.
  apply resolve_from_agree. assert (Hall : forall m, links_stable f (size f + m)).
  { induction m as [|m IH]; [rewrite Nat.add_0_r; apply links_stable_size|]. rewrite Nat.add_succ_r. by apply links_stable_S. }
  destruct (le_ge_dec n (size f)) as [Hle|Hge]; intros b c t r Hl.
  - clear -Hle. induction Hle as [|m _ IH]; [done|]. intros H. by apply through_mono, IH.
  - replace n with (size f + (n - size f))%nat by lia. generalize (n - size f)%nat as m.
    induction m as [|m IH]; [by rewrite Nat.add_0_r|]. rewrite Nat.add_succ_r. intros H. apply IH.
    by apply (Hall m b c t r).
Qed.

Lemma resolve_from_plain f links base rest :
  (".."%stdpp ∉ rest) ->
  (forall p t, p `prefix_of` rest -> p <> [] -> f !! (base ++ p) <> Some (NLink t)) ->
  resolve_from f links base rest = Ok (base ++ rest).
Proof.
  revert base. induction rest as [|c rest IH]; intros base Hdd Hl.
  { destruct links; simpl; by rewrite app_nil_r. }
  apply not_elem_of_cons in Hdd as [Hc Hdd].
  assert (Hstep : resolve_from f links (base ++ [c]) rest = Ok (base ++ c :: rest)).
  { rewrite IH; [by rewrite <- app_assoc|done|]. intros p t Hp _. rewrite <- app_assoc.
    apply Hl; [by apply prefix_cons|done]. }
  assert (Hc1 : forall t, f !! (base ++ [c]) <> Some (NLink t))
    by (intros t; apply Hl; [apply prefix_cons, prefix_nil|done]).
  destruct links; simpl; (rewrite decide_False by done);
    (destruct (f !! (base ++ [c])) as [[| |t]|]; [apply Hstep..|by destruct (Hc1 t)|apply Hstep]).
Qed.

Lemma ws_no_link f root q p t :
  ws_ok f root -> p `prefix_of` root ++ q -> p <> [] -> f !! p <> Some (NLink t).
Proof.
  intros (_ & Hd & Hl) [Hp|[k ->]]%prefix_cases Hne; [by rewrite Hd|apply Hl].
Qed.

Lemma resolve_ws f root q :
  ws_ok f root -> (".."%stdpp ∉ q) -> resolve f (root ++ q) = Ok (root ++ q).
Proof.
  intros Hw Hq. unfold resolve. rewrite resolve_from_plain; [done| |].
  - rewrite elem_of_app. destruct Hw as (Hr & _). tauto.
  - intros p t Hp Hne. by apply (ws_no_link _ root q).
Qed.

(** In a workspace without links the path is accepted on its text alone. *)
Lemma safe_join_ws f root s :
  ws_ok f root ->
  safe_join root (JStr s) f =
    (if path_ok s then Ok (root ++ path_parts s) else Raise UnsafePathError, f).
Proof.
  intros Hw. unfold safe_join. destruct (path_ok s) eqn:Hs; simpl; [|done].
  rewrite resolve_ws; [|done|by apply path_ok_parts].
  pose proof (resolve_ws f root [] Hw (not_elem_of_nil _)) as Hr. rewrite app_nil_r in Hr. rewrite Hr.
  unfold is_prefix. rewrite bool_decide_eq_true_2; [done|]. by eexists.
Qed.

(** ** Twin workspaces: the same tree under two roots

    [twin_run] relates two computations that, on twin workspaces, raise the
    same exception or return related values, and leave twins. *)
Definition twin (ra rb : path) (f g : fs) : Prop :=
  ws_ok f ra /\ ws_ok g rb /\ forall p, f !! (ra ++ p) = g !! (rb ++ p).

Definition twin_run {A} (ra rb : path) (R : A -> A -> Prop) (m n : M fs A) : Prop :=
  forall f g, twin ra rb f g ->
  match m f, n g with
  | (Ok a, f'), (Ok b, g') => R a b /\ twin ra rb f' g'
  | (Raise e, f'), (Raise e', g') => e = e' /\ twin ra rb f' g'
  | _, _ => False
  end.

Section Twins.
Context (ra rb : path).
Local Abbreviation sim := (twin_run ra rb).

(** Paths at the same place below the roots. *)
Definition twin_path (p q : path) : Prop := exists r, p = ra ++ r /\ q = rb ++ r.

Lemma twin_bind {A B} (R : A -> A -> Prop) (Q : B -> B -> Prop) m n k k' :
  sim R m n -> (forall a b, R a b -> sim Q (k a) (k' b)) -> sim Q (m ≫= k) (n ≫= k').
Proof.
  intros Hm Hk f g Hfg. specialize (Hm f g Hfg). unfold mbind, M_bind.
  destruct (m f) as [[a|e] f'], (n g) as [[b|e'] g']; try done.
  destruct Hm as [HR Ht]. by apply (Hk a b HR).
Qed.

Lemma twin_ret {A} (R : A -> A -> Prop) a b : R a b -> sim R (mret a) (mret b).
Proof. by intros ? f g ?. Qed.

Lemma twin_raise {A} (R : A -> A -> Prop) e : sim R (raise e) (raise e).
Proof. by intros f g ?. Qed.

Lemma twin_lift {A} (r : res A) : sim eq (lift_res r) (lift_res r).
Proof. intros f g ?. unfold lift_res. by destruct r. Qed.

(** Values computed from JSON alone. *)
Lemma twin_lift_bind {A B} (Q : B -> B -> Prop) (r : res A) k k' :
  (forall a, sim Q (k a) (k' a)) -> sim Q (lift_res r ≫= k) (lift_res r ≫= k').
Proof. intros Hk. eapply twin_bind; [apply twin_lift|]. by intros a ? <-. Qed.

Lemma twin_get p q : twin_path p q -> sim eq (gets (fun f => f !! p)) (gets (fun g => g !! q)).
Proof. intros (r & -> & ->) f g Ht. split; [apply Ht|done]. Qed.

Lemma ws_ok_insert f root p n :
  ws_ok f root -> p <> [] -> n = NDir \/ (exists c, n = NFile c) ->
  ws_ok (<[root ++ p := n]> f) root.
Proof.
  intros (Hr & Hd & Hl) Hp Hn. split_and!; [done| |].
  - intros q Hq Hne. rewrite lookup_insert_ne; [auto|]. intros <-.
    apply prefix_length in Hq. rewrite length_app in Hq. destruct p; simpl in *; [done|lia].
  - intros q t. rewrite lookup_insert. case_decide; [|apply Hl]. naive_solver.
Qed.

Lemma twin_insert r n :
  r <> [] -> n = NDir \/ (exists c, n = NFile c) ->
  sim eq (modify (insert (ra ++ r) n)) (modify (insert (rb ++ r) n)).
Proof.
  intros Hr Hn f g (Hf & Hg & Hs). split; [done|]. split_and!; [by apply ws_ok_insert..|].
  intros p. rewrite !lookup_insert, Hs. do 2 case_decide; [done| | |done];
    exfalso; naive_solver.
Qed.

Lemma twin_mkdir_from r rest : sim eq (mkdir_from (ra ++ r) rest) (mkdir_from (rb ++ r) rest).
Proof.
  revert r. induction rest as [|c rest IH]; intros r; simpl; [by apply twin_ret|].
  rewrite <- !app_assoc.
  eapply twin_bind; [apply twin_get; by exists (r ++ [c])|]. intros n ? <-.
  destruct n as [[| |]|]; try apply twin_raise; [apply IH|].
  eapply twin_bind; [apply twin_insert; [by destruct r|by left]|]. intros ? ? _. apply IH.
Qed.
End Twins.

Lemma mkdir_from_ws f base rest q :
  (forall p, p `prefix_of` rest -> p <> [] -> f !! (base ++ p) = Some NDir) ->
  mkdir_from base (rest ++ q) f = mkdir_from (base ++ rest) q f.
Proof.
  revert base. induction rest as [|c rest IH]; intros base Hd; simpl.
  { by rewrite app_nil_r. }
  unfold mbind, M_bind, gets. cbn beta iota.
  rewrite Hd by (done || apply prefix_cons, prefix_nil). rewrite IH, <- app_assoc; [done|].
  intros p Hp _. rewrite <- app_assoc. apply Hd; [by apply prefix_cons|done].
Qed.

Lemma mkdir_ws f root q : ws_ok f root -> mkdir (root ++ q) f = mkdir_from root q f.
Proof.
  intros (_ & Hd & _). unfold mkdir. rewrite mkdir_from_ws; [done|]. intros p Hp Hne. by apply Hd.
Qed.

Section TwinReplay.
Context (ra rb : path).
Local Abbreviation sim := (twin_run ra rb).

Lemma twin_mkdir q : sim eq (mkdir (ra ++ q)) (mkdir (rb ++ q)).
Proof.
  intros f g Ht. rewrite !mkdir_ws by apply Ht.
  pose proof (twin_mkdir_from ra rb [] q f g Ht) as H. by rewrite !app_nil_r in H.
Qed.

Lemma twin_write_text q c :
  q <> [] -> sim eq (write_text (ra ++ q) c) (write_text (rb ++ q) c).
Proof.
  intros Hq. unfold write_text. eapply twin_bind; [apply twin_get; by exists q|]. intros n ? <-.
  destruct n as [[| |]|]; try apply twin_raise; apply twin_insert; eauto.
Qed.

(** An accepted path lies at the same place below both roots. *)
Lemma twin_safe_join v :
  sim (fun p q => exists r, r <> [] /\ p = ra ++ r /\ q = rb ++ r) (safe_join ra v) (safe_join rb v).
Proof.
  intros f g Ht. destruct v; try done. rewrite !safe_join_ws by apply Ht.
  destruct (path_ok s) eqn:Hs; [|done]. split; [|done]. exists (path_parts s).
  by split; [apply path_ok_parts|].
Qed.

Lemma twin_mkdir_parent p q r :
  r <> [] -> p = ra ++ r -> q = rb ++ r -> sim eq (mkdir (removelast p)) (mkdir (removelast q)).
Proof. intros Hr -> ->. rewrite !removelast_app_ne by done. apply twin_mkdir. Qed.

Lemma twin_replay_event e : sim eq (replay_event ra e) (replay_event rb e).
Proof.
  unfold replay_event. apply twin_lift_bind. intros tool.
  destruct (negb _); [by apply twin_ret|]. apply twin_lift_bind. intros failed.
  destruct failed; [by apply twin_ret|]. do 2 (apply twin_lift_bind; intros ?).
  eapply twin_bind; [apply twin_safe_join|]. intros p q (r & Hr & Hp & Hq).
  eapply twin_bind; [by eapply twin_mkdir_parent|]. intros _ _ _.
  do 2 (apply twin_lift_bind; intros ?). subst. by apply twin_write_text.
Qed.

Lemma twin_replay_events evs : sim eq (replay_events ra evs) (replay_events rb evs).
Proof.
  induction evs as [|e evs IH]; simpl; [by apply twin_ret|].
  eapply twin_bind; [apply twin_replay_event|]. by intros _ _ _.
Qed.
End TwinReplay.

(** ** A fresh workspace *)

(** [root] is absent, or a directory that is removed first; the directories
    above it are directories or absent. *)
Definition fresh_root (f : fs) (root : path) : Prop :=
  root <> [] /\ (".."%stdpp ∉ root) /\
  (forall p, p `prefix_of` root -> f !! p = None \/ f !! p = Some NDir) /\
  (f !! root = None -> forall p, f !! (root ++ p) = None).

Lemma mkdir_from_fresh f base rest :
  (forall p, p `prefix_of` rest -> p <> [] -> f !! (base ++ p) = None \/ f !! (base ++ p) = Some NDir) ->
  exists f', mkdir_from base rest f = (Ok tt, f') /\
    (forall q, q `prefix_of` rest -> q <> [] -> f' !! (base ++ q) = Some NDir) /\
    (forall p, (forall q, q `prefix_of` rest -> q <> [] -> p <> base ++ q) -> f' !! p = f !! p).
Proof.
  revert base f. induction rest as [|c rest IH]; intros base f Hd.
  { exists f. split; [done|]. split; [|done]. by intros q Hq%prefix_nil_inv Hne. }
  assert (Hd1 : forall f1 : fs, (forall p, p <> base ++ [c] -> f1 !! p = f !! p) ->
    forall p, p `prefix_of` rest -> p <> [] ->
      f1 !! ((base ++ [c]) ++ p) = None \/ f1 !! ((base ++ [c]) ++ p) = Some NDir).
  { intros f1 Hf1 p Hp Hne. rewrite Hf1.
    - rewrite <- app_assoc. apply Hd; [by apply prefix_cons|done].
    - rewrite <- (app_nil_r (base ++ [c])) at 2. by intros ?%app_inv_head. }
  assert (Hex : exists f1 : fs, mkdir_from base (c :: rest) f = mkdir_from (base ++ [c]) rest f1 /\
    f1 !! (base ++ [c]) = Some NDir /\ forall p, p <> base ++ [c] -> f1 !! p = f !! p).
  { destruct (Hd [c]) as [Hc|Hc]; [apply prefix_cons, prefix_nil|done| |];
      simpl; unfold mbind, M_bind, gets, modify; cbn beta iota; rewrite Hc.
    - exists (<[base ++ [c] := NDir]> f). split; [done|]. rewrite lookup_insert_eq. split; [done|].
      intros p Hp. by rewrite lookup_insert_ne.
    - by exists f. }
  destruct Hex as (f1 & -> & Hc & Hf1).
  destruct (IH (base ++ [c]) f1) as (f' & Hm & Hin & Hout); [auto|].
  exists f'. split; [done|]. split.
  - intros q Hq Hne. destruct q as [|c' q]; [done|].
    pose proof (prefix_cons_inv_1 _ _ _ _ Hq) as ->. apply prefix_cons_inv_2 in Hq.
    destruct q as [|d q].
    + rewrite Hout; [done|]. intros q _ Hq0. rewrite <- (app_nil_r (base ++ [c])) at 1.
      by intros ?%app_inv_head.
    + specialize (Hin (d :: q) Hq). rewrite <- app_assoc in Hin. by apply Hin.
  - intros p Hp. rewrite Hout.
    + apply Hf1, Hp; [apply prefix_cons, prefix_nil|done].
    + intros q Hq _. rewrite <- app_assoc. apply Hp; [by apply prefix_cons|done].
Qed.

Lemma materialize_empty f root :
  fresh_root f root ->
  exists f', materialize_workspace root [] f = (Ok tt, f') /\ ws_ok f' root /\
    (forall p, f' !! (root ++ p) = if decide (p = []) then Some NDir else None) /\
    (forall p, ~ root `prefix_of` p -> ~ p `prefix_of` root -> f' !! p = f !! p).
Proof.
  intros (Hne & Hdd & Hpre & Habs). unfold materialize_workspace.
  set (f1 := snd (rmtree root f)).
  assert (Hrm : rmtree root f = (Ok tt, f1)) by (unfold f1, rmtree; by repeat case_match).
  assert (Hu : forall p, p <> [] -> f1 !! (root ++ p) = None).
  { intros p Hp. unfold f1, rmtree. destruct (Hpre root) as [Hn|Hn]; [done| |]; rewrite Hn; simpl.
    - by apply Habs.
    - apply map_lookup_filter_None. right. intros x _ Hx. apply Hx. by exists p. }
  assert (Ho : forall p, ~ root `prefix_of` p -> f1 !! p = f !! p).
  { intros p Hp. unfold f1, rmtree. destruct (f !! root) as [[| |]|]; try done. simpl.
    apply option_eq. intros x. rewrite map_lookup_filter_Some. simpl. tauto. }
  destruct (mkdir_from_fresh f1 [] root) as (f' & Hm & Hin & Hout).
  { intros p Hp _. simpl. destruct (decide (root `prefix_of` p)) as [Hr|Hr].
    - assert (p = root) as -> by (apply prefix_length_eq; [done|by apply prefix_length]).
      unfold f1, rmtree. destruct (Hpre root) as [Hn|Hn]; [done| |]; rewrite Hn; simpl; [by left|].
      left. apply map_lookup_filter_None. right. intros x _ Hx. by apply Hx.
    - rewrite Ho by done. by apply Hpre. }
  exists f'. unfold mbind, M_bind. rewrite Hrm. unfold mkdir. rewrite Hm. simpl in *.
  assert (Htree : forall p, f' !! (root ++ p) = if decide (p = []) then Some NDir else None).
  { intros p. case_decide; [subst; rewrite app_nil_r; by apply Hin|]. rewrite Hout; [by apply Hu|].
    intros q Hq _ <-. apply prefix_length in Hq. rewrite length_app in Hq. destruct p; simpl in *; [done|lia]. }
  split; [done|]. split; [|split; [done|]].
  - split_and!; [done|done|]. intros p t. rewrite Htree. by case_decide.
  - intros p Hr Hp. rewrite Hout; [by apply Ho|]. by intros q Hq _ ->.
Qed.

(** Two fresh workspaces are twins. *)
Lemma materialize_empty_twin ra rb f g :
  fresh_root f ra -> fresh_root g rb ->
  exists f' g', materialize_workspace ra [] f = (Ok tt, f') /\
    materialize_workspace rb [] g = (Ok tt, g') /\ twin ra rb f' g'.
Proof.
  intros Ha Hb. apply materialize_empty in Ha as (f' & Hfm & Hfw & Hft & _).
  apply materialize_empty in Hb as (g' & Hgm & Hgw & Hgt & _).
  exists f', g'. split; [done|]. split; [done|]. split; [done|]. split; [done|].
  intros p. by rewrite Hft, Hgt.
Qed.

Lemma replay_events_app root evs e f :
  replay_events root (evs ++ [e]) f = (replay_events root evs ;; replay_event root e) f.
Proof.
  revert f. induction evs as [|e' evs IH]; intros f; simpl; unfold mbind, M_bind.
  - cbn beta. destruct (replay_event root e f) as [[[]|] f'] eqn:E; unfold mret, M_ret; by rewrite ?E.
  - destruct (replay_event root e' f) as [[[]|] f']; [|done]. rewrite IH. done.
Qed.

Lemma materialize_app root evs e f :
  materialize_workspace root (evs ++ [e]) f =
    (materialize_workspace root evs ;; replay_event root e) f.
Proof.
  unfold materialize_workspace. unfold mbind, M_bind.
  destruct (rmtree root f) as [[[]|] f1]; [|done]. destruct (mkdir root f1) as [[[]|] f2]; [|done].
  rewrite replay_events_app. done.
Qed.

Lemma write_text_Ok p c f f' : write_text p c f = (Ok tt, f') -> f' !! p = Some (NFile c).
Proof.
  unfold write_text. unfold_m. destruct (f !! p) as [[| |]|]; intros [= <-]; apply lookup_insert_eq.
Qed.

(** ** Confinement *)

(** The computation keeps the workspace and changes nothing outside it. *)
Definition confined {A} (root : path) (m : M fs A) : Prop :=
  forall f, ws_ok f root ->
    ws_ok (snd (m f)) root /\ forall p, ~ root `prefix_of` p -> snd (m f) !! p = f !! p.

Section Confined.
Context (root : path).

Lemma confined_bind {A B : Type} (m : M fs A) (k : A -> M fs B) :
  confined root m -> (forall a f f', m f = (Ok a, f') -> ws_ok f root -> confined root (k a)) ->
  confined root (m ≫= k).
Proof.
  intros Hm Hk f Hf. destruct (Hm f Hf) as [H1 H2]. unfold mbind, M_bind.
  destruct (m f) as [[a|e] f'] eqn:E; simpl in *; [|done].
  destruct (Hk a f f' E Hf f' H1) as [H3 H4]. split; [done|]. intros p Hp. by rewrite H4, H2.
Qed.

Lemma confined_pure {A} (m : M fs A) : (forall f, snd (m f) = f) -> confined root m.
Proof. intros H f Hf. by rewrite H. Qed.

Lemma confined_insert r n :
  r <> [] -> n = NDir \/ (exists c, n = NFile c) -> confined root (modify (insert (root ++ r) n)).
Proof.
  intros Hr Hn f Hf. split; [by apply ws_ok_insert|]. intros p Hp. simpl.
  rewrite lookup_insert_ne; [done|]. intros <-. apply Hp. by eexists.
Qed.

Lemma confined_mkdir_from r rest : confined root (mkdir_from (root ++ r) rest).
Proof.
  revert r. induction rest as [|c rest IH]; intros r; simpl; [by apply confined_pure|].
  rewrite <- !app_assoc. apply confined_bind; [by apply confined_pure|]. intros n f f' _ _.
  destruct n as [[| |]|]; try (by apply confined_pure); [apply IH|].
  apply confined_bind; [apply confined_insert; [by destruct r|by left]|]. intros _ _ _ _ _. apply IH.
Qed.

Lemma confined_mkdir q : confined root (mkdir (root ++ q)).
Proof.
  intros f Hf. rewrite mkdir_ws by done.
  pose proof (confined_mkdir_from [] q f Hf) as H. by rewrite app_nil_r in H.
Qed.

Lemma confined_write_text q c : q <> [] -> confined root (write_text (root ++ q) c).
Proof.
  intros Hq. unfold write_text. apply confined_bind; [by apply confined_pure|]. intros n _ _ _ _.
  destruct n as [[| |]|]; try (by apply confined_pure); apply confined_insert; eauto.
Qed.

Lemma safe_join_state v f : snd (safe_join root v f) = f.
Proof. unfold safe_join. by repeat case_match. Qed.

(** What an accepted path is, in a workspace. *)
Lemma safe_join_Ok_inv v f f' p :
  ws_ok f root -> safe_join root v f = (Ok p, f') ->
  f' = f /\ exists s, v = JStr s /\ path_ok s = true /\ p = root ++ path_parts s /\ path_parts s <> [].
Proof.
  intros Hf. destruct v; try done. rewrite safe_join_ws by done.
  destruct (path_ok s) eqn:Hs; [|done]. intros [= <- <-]. split; [done|]. exists s.
  by split_and!; [..|apply path_ok_parts].
Qed.

Lemma confined_write_at q c :
  q <> [] -> confined root (mkdir (removelast (root ++ q)) ;; write_text (root ++ q) c).
Proof.
  intros Hq. rewrite removelast_app_ne by done. apply confined_bind; [apply confined_mkdir|].
  intros _ _ _ _ _. by apply confined_write_text.
Qed.

Lemma confined_replay_event e : confined root (replay_event root e).
Proof.
  unfold replay_event. apply confined_bind; [by apply confined_pure|]. intros tool _ _ _ _.
  destruct (negb _); [by apply confined_pure|].
  apply confined_bind; [by apply confined_pure|]. intros failed _ _ _ _.
  destruct failed; [by apply confined_pure|].
  do 2 (apply confined_bind; [by apply confined_pure|]; intros ? _ _ _ _).
  apply confined_bind; [apply confined_pure, safe_join_state|].
  intros p f f' Hp Hf. apply safe_join_Ok_inv in Hp as (_ & s & _ & _ & -> & Hne); [|done].
  rewrite removelast_app_ne by done. apply confined_bind; [apply confined_mkdir|]. intros _ _ _ _ _.
  do 2 (apply confined_bind; [by apply confined_pure|]; intros ? _ _ _ _).
  by apply confined_write_text.
Qed.

Lemma confined_replay_events evs : confined root (replay_events root evs).
Proof.
  induction evs as [|e evs IH]; simpl; [by apply confined_pure|].
  apply confined_bind; [apply confined_replay_event|]. intros _ _ _ _ _. apply IH.
Qed.
End Confined.

(** C22: a path the model supplies never leaves the workspace.  Whatever the
    file system holds, links included, an accepted path matches the pattern,
    has no parent component, and resolves below the resolved workspace;
    everything else raises and nothing is written.  In a workspace without
    links acceptance depends on the text alone. *)
Theorem safe_join_confined root rel f :
  match safe_join root rel f with
  | (Ok target, f') => f' = f /\ exists s root', rel = JStr s /\ path_ok s = true /\
      resolve f root = Ok root' /\ resolve f (root ++ path_parts s) = Ok target /\
      root' `prefix_of` target
  | (Raise e, f') => f' = f /\ (e = UnsafePathError \/ e = RuntimeError)
  end /\
  (ws_ok f root -> forall s, rel = JStr s ->
     safe_join root rel f = (if path_ok s then Ok (root ++ path_parts s) else Raise UnsafePathError, f)).
Proof.
  pose proof (resolve_from_error f) as Hres.
  split; [|intros Hw s ->; by apply safe_join_ws].
  unfold safe_join. destruct rel as [| | | |s| |]; try (by auto).
  destruct (path_ok s) eqn:Hs; simpl; [|by auto].
  destruct (resolve f (root ++ path_parts s)) as [target|e] eqn:Ht; [|eauto].
  destruct (resolve f root) as [root'|e] eqn:Hr; [|eauto].
  unfold is_prefix. destruct (bool_decide _) eqn:E; [|by auto]. bool_to_prop.
  split; [done|]. by exists s, root'.
Qed.

(** Rebuilding a workspace touches nothing outside it: every path that is
    neither below the root nor an ancestor of it is as before, whatever the
    events ask for and whether or not the rebuild raises. *)
Theorem materialize_confined root evs f :
  fresh_root f root ->
  let f' := snd (materialize_workspace root evs f) in
  ws_ok f' root /\
  forall p, ~ root `prefix_of` p -> ~ p `prefix_of` root -> f' !! p = f !! p.
Proof.
  intros Hf. apply materialize_empty in Hf as (f1 & Hm & Hw & _ & Ho).
  assert (Heq : materialize_workspace root evs f = replay_events root evs f1).
  { unfold materialize_workspace in *. unfold mbind, M_bind in *.
    destruct (rmtree root f) as [[[]|] g]; [|done]. destruct (mkdir root g) as [[[]|] g']; [|done].
    simpl in Hm. by injection Hm as ->. }
  rewrite Heq. destruct (confined_replay_events root evs f1 Hw) as [Hw' Hc].
  split; [done|]. intros p Hr Hp. rewrite Hc by done. by apply Ho.
Qed.
