(* ===== verification/Agent.v ===== *)
(** [agent.py]: the agent workflow: one model call and one tool execution per
    step, everything else rebuilt from the replayed events. *)

From S2P Require Import Prelude PyDecimal Json Database Store Leases Engine Budget LlmCache.
From S2P Require Import Workspace.

Definition OBSERVATION_CHARS : nat := 2000.

(** ** The sandbox *)
Record SandboxResult := MkSandboxResult {
  sb_exit_code : Z;
  sb_stdout : string;
  sb_stderr : string;
  sb_timed_out : bool;
  sb_oom_killed : bool;
  sb_duration_ms : Z;
  sb_truncated : bool;
}.

(** [Sandbox.run(workspace, cmd)]: untrusted code, free to change the files. *)
Class Sandbox (B : Type) : Type := sandbox_run : B -> path -> list string -> M fs SandboxResult.

(** The code in the container sees only the mounted workspace. *)
Class SandboxLaws (B : Type) `{Sandbox B} : Prop :=
  sandbox_confined : forall (b : B) ws cmd f p,
    ~ ws `prefix_of` p -> snd (sandbox_run b ws cmd f) !! p = f !! p.

(** ** Messages and observations *)
Definition build_messages (spec : dict) (evs : list event) : res (list json) :=
  prompt ← dindex "prompt" spec;
  mret (JObj [("role", JStr "user"); ("content", prompt)] ::
        concat (omap (fun e =>
          action ← dget "action" (ev_payload e);
          Some [JObj [("role", JStr "assistant"); ("action", action)];
                JObj [("role", JStr "user");
                      ("observation", dget_or "observation" (JObj []) (ev_payload e))]]) evs)).

Definition _clip (text : string) : string :=
  if (String.length text <=? OBSERVATION_CHARS)%nat then text
  else str_of_list (take OBSERVATION_CHARS (str_to_list text)) +:+ "...[truncated]".

Definition run_observation (r : SandboxResult) : dict :=
  [("exit_code", JInt (sb_exit_code r)); ("stdout", JStr (_clip (sb_stdout r)));
   ("stderr", JStr (_clip (sb_stderr r))); ("timed_out", JBool (sb_timed_out r));
   ("oom_killed", JBool (sb_oom_killed r))].

(** [except (UnsafePathError, KeyError, TypeError)] *)
Definition is_tool_error (e : exn) : bool :=
  match e with UnsafePathError | KeyError _ | TypeError => true | _ => false end.

(** ** The workflow *)

(** The database, the files, and the directory [self._workspace]. *)
Record world := World { w_db : db; w_fs : fs; w_workspace : option path }.

#[export] Instance world_has_db : HasDb world := {|
  get_db := w_db;
  put_db d w := World d (w_fs w) (w_workspace w)
|}.
#[export] Instance world_has_db_laws : HasDbLaws world.
Proof. split; [done| |done]. by intros []. Qed.

Definition on_fs {A} (m : M fs A) : M world A := fun w =>
  let '(r, f) := m (w_fs w) in (r, World (w_db w) f (w_workspace w)).

Record AgentWorkflow (P B : Type) := MkAgentWorkflow {
  aw_spec : dict;
  aw_provider : P;
  aw_sandbox : B;
  aw_workspace_root : path;
  aw_max_steps : Z;
}.
Arguments MkAgentWorkflow {P B}.
Arguments aw_spec {P B}.
Arguments aw_provider {P B}.
Arguments aw_sandbox {P B}.
Arguments aw_workspace_root {P B}.
Arguments aw_max_steps {P B}.

Definition agent_init {P B} (spec : dict) (provider : P) (sandbox : B) (root : path) :
    res (AgentWorkflow P B) :=
  max_steps ← py_int (dget_or "max_steps" (JInt DEFAULT_MAX_STEPS) spec);
  mret (MkAgentWorkflow spec provider sandbox root max_steps).

Section Agent.
Context {P B : Type} `{Provider P world} `{Sandbox B}.

(** [str(exc)] *)
Context (exc_str : exn -> string).

Definition workspace (w : AgentWorkflow P B) (claim : Claim) : path :=
  aw_workspace_root w ++ [uuid_str (claim_run_id claim); "a" +:+ string_of_Z (claim_attempt claim)].

Definition run_tool (sandbox : B) (ws : path) (tool : json) (args : json) : M fs dict :=
  if decide (tool = JStr "write_file") then
    rel ← lift_res (subscript "path" args);
    target ← safe_join ws rel;
    mkdir (removelast target) ;;
    content ← lift_res (subscript "content" args);
    write_text target (py_str content) ;;
    mret [("ok", JBool true)]
  else if decide (tool = JStr "run_code") then
    rel ← lift_res (subscript "path" args);
    target ← safe_join ws rel;
    root ← (fun f => (resolve f ws, f));
    result ← sandbox_run sandbox ws ["python"%stdpp; path_str (drop (length root) target)];
    mret (run_observation result)
  else if decide (tool = JStr "finish") then
    d ← lift_res (as_dict args);
    mret [("summary", JStr (py_str (dget_or "summary" (JStr "") d)))]
  else if decide (tool = JStr "invalid") then
    mret [("error", JStr "no tool call. Call exactly one of: write_file, run_code, finish")]
  else
    mret [("error", JStr ("unknown tool " +:+ py_repr tool))].

Definition _execute (sandbox : B) (ws : path) (action : dict) : M fs dict :=
  try_except
    (run_tool sandbox ws (dget_or "tool" JNull action) (dget_or "args" (JObj []) action))
    is_tool_error (fun e => mret [("error", JStr (exc_str e))]).

(** [self._workspace], materialized on the first step of the claim. *)
Definition ensure_workspace (w : AgentWorkflow P B) (claim : Claim) (evs : list event) :
    M world path :=
  current ← gets w_workspace;
  match current with
  | Some ws => mret ws
  | None =>
      let ws := workspace w claim in
      modify (fun s => World (w_db s) (w_fs s) (Some ws)) ;;
      on_fs (materialize_workspace ws evs) ;;
      mret ws
  end.

Definition agent_payload (resp : LLMResponse) (observation : dict) : dict :=
  [("action", JObj (resp_action resp)); ("observation", JObj observation);
   ("input_tokens", JInt (resp_input_tokens resp));
   ("output_tokens", JInt (resp_output_tokens resp));
   ("cost_usd", JStr (string_of_dec (resp_cost_usd resp)))].

Definition stop_outcome (l : limit) : StepOutcome :=
  MkStepOutcome (run_status_str (limit_status l)) [("reason", JStr (limit_reason l))]
    dec_zero true (limit_status l).

Definition action_outcome (resp : LLMResponse) (observation : dict) : StepOutcome :=
  let finished := bool_decide (dget "tool" (resp_action resp) = Some (JStr "finish")) in
  MkStepOutcome (if finished then "finish" else "agent_step") (agent_payload resp observation)
    (resp_cost_usd resp) finished Succeeded.

Definition agent_workflow : Workflow (AgentWorkflow P B) world :=
  fun w claim step_index evs =>
  ws ← ensure_workspace w claim evs;
  run ← on_db (gets (fun d => runs d !! claim_run_id claim));
  budget ← lift_res (of_option TypeError (run_budget_usd <$> run));
  stop ← lift_res (check_limits evs (of_numeric 4 budget) (aw_max_steps w));
  match stop with
  | Some l => mret (stop_outcome l)
  | None =>
      messages ← lift_res (build_messages (aw_spec w) evs);
      resp ← complete_cached (aw_provider w) (claim_run_id claim) step_index messages
               (claim_attempt claim) (Some (claim_worker_id claim));
      observation ← on_fs (_execute (aw_sandbox w) ws (resp_action resp));
      mret (action_outcome resp observation)
  end.
End Agent.

(** ** Taking over a workspace *)

Lemma run_tool_finish_state {B} `{Sandbox B} (b : B) ws tool args f :
  tool <> JStr "write_file" -> tool <> JStr "run_code" -> snd (run_tool b ws tool args f) = f.
Proof.
  intros H1 H2. unfold run_tool. rewrite !decide_False by done. unfold_m. unfold lift_res.
  repeat case_decide; simpl; try done. by destruct (as_dict args).
Qed.

Section Takeover.
Context {B : Type} `{Sandbox B} (exc_str : exn -> string) (b : B).

Definition tool_of (action : dict) : json := dget_or "tool" JNull action.

(** The step left nothing in the workspace that its event does not show:
    code that ran wrote no file, and text was written as text. *)
Definition rebuildable (action : dict) (f f' : fs) : Prop :=
  (tool_of action = JStr "run_code" -> f' = f) /\
  (tool_of action = JStr "write_file" -> exists args text,
     dget "args" action = Some (JObj args) /\ dget "content" args = Some (JStr text)).

(** [worked root f0 evs f]: executing the actions recorded in [evs], one
    after the other, in a fresh workspace at [root], leaves [f]. *)
Inductive worked (root : path) (f0 : fs) : list event -> fs -> Prop :=
  | worked_start f :
      materialize_workspace root [] f0 = (Ok tt, f) -> worked root f0 [] f
  | worked_step evs f e action obs f' :
      worked root f0 evs f ->
      _execute exc_str b root action f = (Ok obs, f') ->
      dget "action" (ev_payload e) = Some (JObj action) ->
      dget "observation" (ev_payload e) = Some (JObj obs) ->
      rebuildable action f f' ->
      worked root f0 (evs ++ [e]) f'.

(** Replaying the event of a step does to the files what the step did. *)
Lemma execute_replay root action obs e f f' :
  ws_ok f root ->
  _execute exc_str b root action f = (Ok obs, f') ->
  dget "action" (ev_payload e) = Some (JObj action) ->
  dget "observation" (ev_payload e) = Some (JObj obs) ->
  rebuildable action f f' ->
  replay_event root e f = (Ok tt, f').
Proof.
  intros Hw Hx Ha Ho [Hrun Hwr]. unfold replay_event, dget_or. rewrite Ha, Ho. simpl.
  unfold mbind, M_bind, lift_res, get_attr, res_bind. simpl.
  change (dget_or "tool" JNull action) with (tool_of action).
  unfold _execute, try_except in Hx.
  change (dget_or "tool" JNull action) with (tool_of action) in Hx.
  destruct (bool_decide (tool_of action = JStr "write_file")) eqn:Ht; bool_to_prop; simpl.
  - destruct (Hwr Ht) as (args & text & Hargs & Hc).
    unfold run_tool in Hx. rewrite decide_True in Hx by done.
    unfold dget_or in Hx. rewrite Hargs in *. simpl in *.
    unfold mbind, M_bind, lift_res, subscript, dindex in *. rewrite Hc in *. simpl in *.
    destruct (dget "path" args) as [rel|] eqn:Hp; simpl in *; [|by injection Hx as <- <-].
    destruct (safe_join root rel f) as [[target|ex] f1] eqn:Hs.
    2: { assert (f1 = f) as -> by (change f1 with (snd (Raise (A := path) ex, f1)); rewrite <- Hs; apply safe_join_state).
         destruct (is_tool_error ex); [|done]. by injection Hx as <- <-. }
    destruct (mkdir (removelast target) f1) as [[[]|ex] f2] eqn:Hm.
    + destruct (write_text target text f2) as [[[]|ex] f3] eqn:Hwt.
      * injection Hx as <- <-. simpl. rewrite Hargs. simpl. rewrite Hp. simpl.
        by rewrite Hs, Hm, Hc.
      * assert (ex = OSError) as -> by (revert Hwt; unfold write_text; unfold_m; repeat case_match; congruence).
        done.
    + assert (ex = OSError) as ->; [|done].
      clear -Hm. unfold mkdir in Hm. revert Hm. generalize ([] : path) (removelast target) f1.
      intros base rest. revert base. induction rest as [|c rest IH]; intros base f; simpl; [done|].
      unfold_m. destruct (f !! _) as [[| |]|]; try congruence; apply IH.
  - unfold mret, M_ret. f_equal. symmetry.
    destruct (decide (tool_of action = JStr "run_code")) as [Hr|Hr]; [by apply Hrun|].
    pose proof (run_tool_finish_state b root (tool_of action) (dget_or "args" (JObj []) action) f Ht Hr) as Hst.
    destruct (run_tool b root _ _ f) as [[r|ex] f1]; simpl in Hst; subst; [by injection Hx|].
    destruct (is_tool_error ex); [by injection Hx|done].
Qed.

(** C15: a worker that takes over continues with the files of the one it
    replaces.  Whatever steps were executed in one workspace, rebuilding
    another from the recorded events succeeds and gives the same tree, as
    long as each step was rebuildable. *)
Theorem takeover_workspace ra rb f g evs f1 :
  worked ra f evs f1 -> fresh_root f ra -> fresh_root g rb ->
  exists g', materialize_workspace rb evs g = (Ok tt, g') /\
    forall p, g' !! (rb ++ p) = f1 !! (ra ++ p).
Proof.
  intros Hwk Hfa Hgb.
  cut (exists g', materialize_workspace rb evs g = (Ok tt, g') /\ twin ra rb f1 g').
  { intros (g' & Hm & _ & _ & Ht). exists g'. by split. }
  induction Hwk as [f1 Hm|evs f1 e action obs f2 Hwk IH Hx Ha Ho Hr].
  - destruct (materialize_empty_twin ra rb f g Hfa Hgb) as (f' & g' & Hf & Hg & Ht).
    exists g'. split; [done|]. congruence.
  - destruct IH as (g1 & Hm & Ht). rewrite materialize_app.
    assert (Hre : replay_event ra e f1 = (Ok tt, f2)) by (eapply execute_replay; [apply Ht|done..]).
    pose proof (twin_replay_event ra rb e f1 g1 Ht) as Hsim. rewrite Hre in Hsim.
    unfold mbind, M_bind. rewrite Hm.
    destruct (replay_event rb e g1) as [[[]|ex] g2]; [|done]. exists g2. by split; [|apply Hsim].
Qed.
End Takeover.

#[local] Opaque safe_join mkdir write_text.

(** Content that is not text breaks the takeover.  A step whose
    [write_file] content is any JSON value other than a string is executed,
    with the text of the value, and recorded as done; rebuilding a workspace
    from its event raises [TypeError]. *)
Theorem non_text_content_not_rebuilt {B} `{Sandbox B} exc_str (b : B) ra s v e f f1 root g g1 :
  ws_ok f ra -> path_ok s = true -> (forall t, v <> JStr t) ->
  let action := [("tool", JStr "write_file"); ("args", JObj [("path", JStr s); ("content", v)])] in
  _execute exc_str b ra action f = (Ok [("ok", JBool true)], f1) ->
  ev_payload e = [("action", JObj action); ("observation", JObj [("ok", JBool true)])] ->
  materialize_workspace root [] g = (Ok tt, g1) -> ws_ok g1 root -> 
  (exists g2, mkdir (removelast (root ++ path_parts s)) g1 = (Ok tt, g2)) ->
  f1 !! (ra ++ path_parts s) = Some (NFile (py_str v)) /\
  fst (materialize_workspace root [e] g) = Raise TypeError.
Proof.
  intros Hw Hs Hv action Hx He Hm Hg1 (g2 & Hmk). split.
  - unfold _execute, try_except in Hx. unfold run_tool in Hx. simpl in Hx.
    unfold mbind, M_bind, lift_res in Hx. simpl in Hx. rewrite safe_join_ws, Hs in Hx by done.
    destruct (mkdir _ f) as [[[]|ex] f2]; [|by destruct (is_tool_error ex)].
    destruct (write_text _ _ f2) as [[[]|ex] f3] eqn:Hwt; [|by destruct (is_tool_error ex)].
    injection Hx as <-. by eapply write_text_Ok.
  - change [e] with ([] ++ [e]). rewrite materialize_app. unfold mbind, M_bind. rewrite Hm.
    unfold replay_event. rewrite He. simpl. unfold mbind, M_bind, lift_res. simpl.
    rewrite safe_join_ws, Hs by done. rewrite Hmk.
    destruct v as [| | | |t| |]; try done. by destruct (Hv t).
Qed.
