(* ===== verification/Anthropic.v ===== *)
(** [llm/anthropic.py]: the tools offered to the model, the translation of the
    conversation to the Messages API and the reading of its answer. *)

From S2P Require Import Prelude PyString Json Env PyDecimal Database Store Engine LlmCache Agent.

Definition USD_PER_MTOK_IN : string := "1".
Definition USD_PER_MTOK_OUT : string := "5".

Definition SYSTEM : string :=
  "You are a coding agent. Solve the task by calling exactly one tool per turn: write_file " +:+
  "to create or overwrite files in the workspace, run_code to run a Python file in a network-" +:+
  "less sandbox and see its output, finish when the task is done and verified.".

(** A tool whose arguments are all strings and all required. *)
Definition tool_spec (name description : string) (args : list string) : dict :=
  [("name", JStr name); ("description", JStr description);
   ("input_schema", JObj
     [("type", JStr "object");
      ("properties", JObj ((fun a => (a, JObj [("type", JStr "string")])) <$> args));
      ("required", JArr (JStr <$> args))])].

Definition TOOL_SPECS : list dict :=
  [tool_spec "write_file" "Create or overwrite a file in the workspace." ["path"; "content"];
   tool_spec "run_code" "Run a Python file from the workspace in the sandbox." ["path"];
   tool_spec "finish" "Declare the task complete." ["summary"]].

(** ** The conversation *)

(** [v or dflt] *)
Definition py_or (v dflt : json) : json := if truthy v then v else dflt.

(** [f"{prefix}{n}"] *)
Definition call_id (prefix : string) (n : Z) : string := prefix +:+ string_of_Z n.

Definition user_message (content : json) : json :=
  JObj [("role", JStr "user"); ("content", content)].

(** [isinstance(m["content"], str)] of an assistant message *)
Definition is_text_reply (m : json) : res bool :=
  role ← subscript "role" m;
  if bool_decide (role = JStr "assistant") then
    content ← subscript "content" m;
    mret (match content with JStr _ => true | _ => false end)
  else mret false.

Definition anthropic_observation (out : list json) (n : Z) (observation : json) : res (list json * Z) :=
  prev ← of_option IndexError (last out);
  text_reply ← is_text_reply prev;
  let content :=
    if (text_reply : bool) then JStr (dumps false observation)
    else JArr [JObj [("type", JStr "tool_result"); ("tool_use_id", JStr (call_id "toolu_" n));
                     ("content", JStr (dumps false observation))]] in
  mret (out ++ [user_message content], n + 1).

Definition anthropic_assistant (out : list json) (n : Z) (m : json) : res (list json * Z) :=
  action ← subscript "action" m;
  tool ← subscript "tool" action;
  args ← subscript "args" action;
  if decide (tool = JStr "invalid") then
    d ← as_dict args;
    mret (out ++ [JObj [("role", JStr "assistant");
                        ("content", py_or (dget_or "text" JNull d) (JStr "-"))]], n)
  else
    mret (out ++ [JObj [("role", JStr "assistant");
      ("content", JArr [JObj [("type", JStr "tool_use"); ("id", JStr (call_id "toolu_" n));
                              ("name", tool); ("input", args)]])]], n).

Definition anthropic_message (acc : list json * Z) (m : json) : res (list json * Z) :=
  let '(out, n) := acc in
  role ← subscript "role" m;
  if decide (role = JStr "assistant") then anthropic_assistant out n m
  else
    observed ← py_in "observation" m;
    if (observed : bool) then
      observation ← subscript "observation" m;
      anthropic_observation out n observation
    else
      content ← subscript "content" m;
      mret (out ++ [user_message content], n).

(** A loop whose body may raise. *)
Fixpoint foldR {A B} (f : A -> B -> res A) (acc : A) (l : list B) : res A :=
  match l with
  | [] => Ok acc
  | x :: l' => acc' ← f acc x; foldR f acc' l'
  end.

Definition to_anthropic_messages (messages : list json) : res (list json) :=
  '(out, _) ← foldR anthropic_message ([], 0) messages;
  mret out.

(** ** The provider *)

(** A block of the answer's content. *)
Record block := MkBlock { block_type : string; block_name : string; block_input : dict }.

Record message := MkMessage {
  msg_content : list block;
  msg_input_tokens : Z;
  msg_output_tokens : Z;
}.

(** [anthropic.AsyncAnthropic]: [messages.create] with the model, the token
    limit, the system text, the tools, the tool choice and the messages. *)
Class AnthropicClient (C S : Type) : Type :=
  messages_create : C -> string -> Z -> string -> list dict -> dict -> list json -> M S message.

Record AnthropicProvider (C : Type) := MkAnthropicProvider {
  ap_model : string;
  ap_client : C;
}.
Arguments MkAnthropicProvider {C}.
Arguments ap_model {C}.
Arguments ap_client {C}.

(** [client] is what [anthropic.AsyncAnthropic()] returns. *)
Definition anthropic_init {C} (env : environ) (client : res C) (model : option string) :
    res (AnthropicProvider C) :=
  if negb (env_is "PHOENIX_REAL_LLM" "1" env) then Raise RuntimeError
  else
    let model := match model with
      | Some m => if bool_decide (m = "") then getenv_or "PHOENIX_MODEL" DEFAULT_MODEL env else m
      | None => getenv_or "PHOENIX_MODEL" DEFAULT_MODEL env
      end in
    client ← client;
    mret (MkAnthropicProvider model client).

(** The first tool call of the answer. *)
Fixpoint first_tool_use (blocks : list block) : dict :=
  match blocks with
  | [] => [("tool", JStr "invalid"); ("args", JObj [])]
  | b :: blocks' =>
      if bool_decide (block_type b = "tool_use")
      then [("tool", JStr (block_name b)); ("args", JObj (block_input b))]
      else first_tool_use blocks'
  end.

Section Complete.
Context {C S : Type} `{AnthropicClient C S}.

Definition anthropic_complete (p : AnthropicProvider C) (messages : list json) : M S LLMResponse :=
  translated ← lift_res (to_anthropic_messages messages);
  resp ← messages_create (ap_client p) (ap_model p) 2048 SYSTEM TOOL_SPECS
           [("type", JStr "any")] translated;
  cost ← lift_res (token_cost (msg_input_tokens resp) (msg_output_tokens resp)
           USD_PER_MTOK_IN USD_PER_MTOK_OUT);
  mret (MkLLMResponse (first_tool_use (msg_content resp)) (msg_input_tokens resp)
          (msg_output_tokens resp) cost).

#[export] Instance anthropic_provider : Provider (AnthropicProvider C) S := {|
  provider_name p := "anthropic:" +:+ ap_model p;
  complete := anthropic_complete
|}.
End Complete.

(** ** The conversation turn by turn *)

(** One step of the agent as a conversation shows it: a reply in text, or a
    tool call, and what came back. *)
Inductive turn :=
  | TextTurn (text : string) (observation : json)
  | ToolTurn (tool args : json) (ext : option json) (observation : json).

Definition turn_of_action (action observation : json) : option turn :=
  match action with
  | JObj a =>
      tool ← dget "tool" a;
      args ← dget "args" a;
      if decide (tool = JStr "invalid") then
        match args with
        | JObj d =>
            match dget_or "text" (JStr "") d with
            | JStr t => Some (TextTurn (if decide (t = "") then "-" else t) observation)
            | _ => None
            end
        | _ => None
        end
      else
        let ext := dget_or "_ext" JNull a in
        Some (ToolTurn tool args (if truthy ext then Some ext else None) observation)
  | _ => None
  end.

(** The turn an event records; [None] for an event that is no agent step. *)
Definition turn_of (e : event) : option turn :=
  action ← dget "action" (ev_payload e);
  turn_of_action action (dget_or "observation" (JObj []) (ev_payload e)).

(** Every agent step recorded is a turn: its action has the fields the
    providers give it. *)
Definition all_turns (evs : list event) : Prop :=
  Forall (fun e => is_Some (dget "action" (ev_payload e)) -> is_Some (turn_of e)) evs.

Definition anthropic_turn (i : nat) (t : turn) : list json :=
  let id := JStr (call_id "toolu_" (Z.of_nat i)) in
  match t with
  | TextTurn text observation =>
      [JObj [("role", JStr "assistant"); ("content", JStr text)];
       user_message (JStr (dumps false observation))]
  | ToolTurn tool args _ observation =>
      [JObj [("role", JStr "assistant");
             ("content", JArr [JObj [("type", JStr "tool_use"); ("id", id); ("name", tool);
                                     ("input", args)]])];
       user_message (JArr [JObj [("type", JStr "tool_result"); ("tool_use_id", id);
                                 ("content", JStr (dumps false observation))]])]
  end.

(** A translation that adds to the conversation, for each action and its
    observation, the messages [render] gives for the turn. *)
Definition renders (step : list json * Z -> json -> res (list json * Z))
    (render : nat -> turn -> list json) : Prop :=
  forall out i action observation t,
    turn_of_action action observation = Some t ->
    foldR step (out, Z.of_nat i)
      [JObj [("role", JStr "assistant"); ("action", action)];
       JObj [("role", JStr "user"); ("observation", observation)]]
    = Ok (out ++ render i t, Z.of_nat (S i)).

Lemma foldR_app {A B} (f : A -> B -> res A) acc l l' :
  foldR f acc (l ++ l') = (acc' ← foldR f acc l; foldR f acc' l').
Proof. revert acc; induction l as [|x l IH]; intros acc; simpl; [done|]. destruct (f acc x); simpl; auto. Qed.

Lemma foldR_turns step render evs out i :
  renders step render -> all_turns evs ->
  foldR step (out, Z.of_nat i)
    (concat (omap (fun e =>
       action ← dget "action" (ev_payload e);
       Some [JObj [("role", JStr "assistant"); ("action", action)];
             JObj [("role", JStr "user");
                   ("observation", dget_or "observation" (JObj []) (ev_payload e))]]) evs))
  = Ok (out ++ concat (imap (fun j => render (i + j)%nat) (omap turn_of evs)),
        Z.of_nat (i + length (omap turn_of evs))).
Proof.
  intros Hr. revert out i. induction evs as [|e evs IH]; intros out i Hall.
  { simpl. by rewrite app_nil_r, Nat.add_0_r. }
  apply Forall_cons in Hall as [He Hall].
  assert (Hc : forall A (f : event -> option A), omap f (e :: evs) =
    match f e with Some y => y :: omap f evs | None => omap f evs end) by done.
  rewrite !Hc. destruct (dget "action" (ev_payload e)) as [action|] eqn:Ea; cbn [mbind option_bind].
  - destruct (He ltac:(eauto)) as [t Ht]. rewrite Ht. unfold turn_of in Ht. rewrite Ea in Ht.
    cbn [concat]. rewrite foldR_app, (Hr _ _ _ _ _ Ht). cbn [mbind res_bind].
    rewrite IH by done. cbn [imap length concat]. rewrite <- app_assoc, Nat.add_0_r.
    do 2 f_equal; [|lia]. do 2 f_equal. f_equal. apply imap_ext. intros j x _. simpl. f_equal. lia.
  - assert (turn_of e = None) as -> by (unfold turn_of; by rewrite Ea). by apply IH.
Qed.

(** The text of a reply that called no tool. *)
Lemma text_or_dash d t :
  dget_or "text" (JStr "") d = JStr t ->
  forall dflt, (dflt = JNull \/ dflt = JStr "") ->
  py_or (dget_or "text" dflt d) (JStr "-") = JStr (if decide (t = "") then "-" else t).
Proof.
  unfold dget_or, py_or. intros H dflt Hd. destruct (dget "text" d) as [v|]; simpl in *.
  - subst v. simpl. case_bool_decide; [by rewrite decide_True|by rewrite decide_False].
  - injection H as <-. by destruct Hd as [-> | ->].
Qed.

(** The two ways a recorded action shows as a turn. *)
Lemma turn_of_action_inv action observation t :
  turn_of_action action observation = Some t ->
  exists a tool args, action = JObj a /\ dget "tool" a = Some tool /\ dget "args" a = Some args /\
    ((tool = JStr "invalid" /\ exists d text, args = JObj d /\
        (forall dflt, (dflt = JNull \/ dflt = JStr "") ->
         py_or (dget_or "text" dflt d) (JStr "-") = JStr text) /\
        t = TextTurn text observation) \/
     (tool <> JStr "invalid" /\
        t = ToolTurn tool args (let ext := dget_or "_ext" JNull a in
                                if truthy ext then Some ext else None) observation)).
Proof.
  unfold turn_of_action. intros H. destruct action as [| | | | | |a]; try done.
  destruct (dget "tool" a) as [tool|] eqn:Et; [|done]. simpl in H.
  destruct (dget "args" a) as [args|] eqn:Ea; [|done]. simpl in H.
  exists a, tool, args. split_and!; [done..|]. case_decide.
  - left. split; [done|]. destruct args as [| | | | | |d]; try done.
    destruct (dget_or "text" (JStr "") d) as [| | | |text| |] eqn:E; try done.
    injection H as <-. eexists d, _. split_and!; [done|by apply text_or_dash|done].
  - right. by injection H as <-.
Qed.

Lemma anthropic_renders : renders anthropic_message anthropic_turn.
Proof.
  intros out i action observation t Ht.
  apply turn_of_action_inv in Ht as (a & tool & args & -> & Et & Ea & Hcase).
  set (m := JObj [("role", JStr "assistant"); ("action", JObj a)]).
  cbn [foldR]. change (anthropic_message (out, Z.of_nat i) m) with (anthropic_assistant out (Z.of_nat i) m).
  unfold anthropic_assistant, subscript, m, dindex. simpl (dget "action" _).
  cbn [of_option mbind res_bind]. rewrite Et, Ea. cbn [of_option mbind res_bind].
  destruct Hcase as [(-> & d & text & -> & Htext & ->)|[Hne ->]].
  - rewrite decide_True by done. simpl. rewrite (Htext JNull) by tauto.
    unfold anthropic_observation. rewrite last_snoc. simpl. rewrite <- app_assoc. do 2 f_equal. lia.
  - rewrite decide_False by done. simpl.
    unfold anthropic_observation. rewrite last_snoc. simpl. rewrite <- app_assoc. do 2 f_equal. lia.
Qed.

(** The whole conversation: the task, then each turn of the run. *)
Lemma anthropic_conversation spec evs msgs prompt :
  build_messages spec evs = Ok msgs -> dget "prompt" spec = Some prompt -> all_turns evs ->
  to_anthropic_messages msgs =
    Ok (user_message prompt :: concat (imap anthropic_turn (omap turn_of evs))).
Proof.
  intros Hm Hp Hall. unfold build_messages, dindex in Hm. rewrite Hp in Hm.
  cbn [of_option mbind res_bind mret res_ret] in Hm. injection Hm as <-.
  unfold to_anthropic_messages. cbn [foldR].
  change (anthropic_message ([], 0) _) with (Ok ([user_message prompt], 0)).
  pose proof (foldR_turns _ _ evs [user_message prompt] 0 anthropic_renders Hall) as H.
  cbn [mbind res_bind]. change (Z.of_nat 0) with 0 in H. rewrite H. done.
Qed.
