(* ===== verification/OpenAI.v ===== *)
(** [llm/openai_compat.py]: the provider for an OpenAI-compatible endpoint.

    The endpoint is a parameter: the response to the k-th request of the
    process, the time it takes, and how late a sleep wakes up.  Times are exact
    rationals; the rounding of floats is not modelled. *)

From Stdlib Require Import QArith Lqa.
From S2P Require Import Prelude PyString PyDecimal Json Env JsonParse Database Store Engine LlmCache.
From S2P Require Import Workspace Agent Anthropic.

Definition RETRY_STATUS : list Z := [429; 500; 502; 503; 504].
Definition MAX_ATTEMPTS : nat := 6.
Definition MAX_BACKOFF_S : Q := 60#1.

Definition TOOLS : list json :=
  (fun t => JObj
    [("type", JStr "function");
     ("function", JObj
       (omap (fun k => v ← dget k t; Some (k, v)) ["name"; "description"] ++
        [("parameters", dget_or "input_schema" JNull t)]))]) <$> TOOL_SPECS.

(** ** Responses and retry delays *)
Record HttpResponse := MkHttpResponse {
  status_code : Z;
  retry_after : string;  (** the header, [""] when it is absent *)
  resp_text : string;
}.

(** 4xx or 5xx *)
Definition is_error (r : HttpResponse) : bool := (400 <=? status_code r) && (status_code r <=? 599).

Definition Q_of_dec (d : dec) : Q :=
  if 0 <=? dexp d then inject_Z (dcoef d * pow10 (dexp d))
  else dcoef d # Z.to_pos (pow10 (- dexp d)).

(** [float(text)] *)
Definition py_float (text : string) : res Q :=
  d ← of_option ValueError (dec_of_string (strip text)); mret (Q_of_dec d).

(** [s.replace(c, "", 1)] *)
Fixpoint remove_first (c : ascii) (s : string) : string :=
  match s with
  | EmptyString => EmptyString
  | String d r => if decide (c = d) then r else String d (remove_first c r)
  end.

(** [s.isdigit()]: superscripts count. *)
Definition isdigit_char (c : ascii) : bool :=
  let n := N_of_ascii c in
  ((48 <=? n)%N && (n <=? 57)%N) || (n =? 178)%N || (n =? 179)%N || (n =? 185)%N.
Definition isdigit (s : string) : bool :=
  negb (bool_decide (s = "")) && forallb isdigit_char (str_to_list s).

Fixpoint lstrip_str (s : string) : string :=
  match s with
  | String c r => if is_space c then lstrip_str r else s
  | EmptyString => EmptyString
  end.

(** [[0-9.]*] *)
Fixpoint span_number (s : string) : string * string :=
  match s with
  | String c r =>
      if is_digit c || bool_decide (c = "."%char) then
        let '(a, b) := span_number r in (String c a, b)
      else (EmptyString, s)
  | EmptyString => (EmptyString, EmptyString)
  end.

(** The group of the pattern for [retryDelay] at the start of [s]. *)
Definition match_retry_delay (s : string) : option string :=
  r ← strip_prefix (json_quote "retryDelay" +:+ ":") s;
  r1 ← after dquote (lstrip_str r);
  let '(num, r2) := span_number r1 in
  r3 ← strip_prefix (String "s" (String dquote EmptyString)) r2;
  if decide (num = "") then None else Some num.

(** [re.search] of that pattern *)
Fixpoint search_retry_delay (s : string) : option string :=
  match match_retry_delay s with
  | Some num => Some num
  | None => match s with EmptyString => None | String _ r => search_retry_delay r end
  end.

Definition retry_delay (resp : HttpResponse) (attempt : nat) : res Q :=
  if isdigit (remove_first "." (retry_after resp)) then py_float (retry_after resp)
  else
    match search_retry_delay (resp_text resp) with
    | Some num => q ← py_float num; mret (q + 1)%Q
    | None => mret (inject_Z (2 ^ Z.of_nat attempt))
    end.

(** ** The conversation *)
Definition openai_assistant (out : list json) (n : Z) (m : json) : res (list json * Z) :=
  action ← subscript "action" m;
  tool ← subscript "tool" action;
  if decide (tool = JStr "invalid") then
    args ← subscript "args" action;
    d ← as_dict args;
    mret (out ++ [JObj [("role", JStr "assistant");
                        ("content", py_or (dget_or "text" (JStr "") d) (JStr "-"))]], n)
  else
    args ← subscript "args" action;
    a ← as_dict action;
    let ext := dget_or "_ext" JNull a in
    mret (out ++ [JObj [("role", JStr "assistant"); ("content", JNull);
      ("tool_calls", JArr [JObj
        ([("id", JStr (call_id "call_" n)); ("type", JStr "function");
          ("function", JObj [("name", tool); ("arguments", JStr (dumps false args))])] ++
         (if truthy ext then [("extra_content", ext)] else []))])]], n).

Definition openai_observation (out : list json) (n : Z) (observation : json) : res (list json * Z) :=
  prev ← of_option IndexError (last out);
  role ← subscript "role" prev;
  called ← py_in "tool_calls" prev;
  let content := JStr (dumps false observation) in
  mret (out ++ [if bool_decide (role = JStr "assistant") && called then
                  JObj [("role", JStr "tool"); ("tool_call_id", JStr (call_id "call_" n));
                        ("content", content)]
                else user_message content], n + 1).

Definition openai_message (acc : list json * Z) (m : json) : res (list json * Z) :=
  let '(out, n) := acc in
  role ← subscript "role" m;
  if decide (role = JStr "assistant") then openai_assistant out n m
  else
    observed ← py_in "observation" m;
    if (observed : bool) then
      observation ← subscript "observation" m;
      openai_observation out n observation
    else
      content ← subscript "content" m;
      mret (out ++ [user_message content], n).

Definition system_message : json := JObj [("role", JStr "system"); ("content", JStr SYSTEM)].

Definition to_openai_messages (messages : list json) : res (list json) :=
  '(out, _) ← foldR openai_message ([system_message], 0) messages;
  mret out.

(** ** The answer *)

(** [iter(v)] *)
Definition py_iter (v : json) : res (list json) :=
  match v with
  | JArr l => Ok l
  | JObj d => Ok (JStr ∘ fst <$> d)
  | JStr s => Ok ((fun c => JStr (String c EmptyString)) <$> str_to_list s)
  | _ => Raise TypeError
  end.

(** [v[:n]] *)
Definition py_take (n : nat) (v : json) : res json :=
  match v with
  | JStr s => Ok (JStr (str_take n s))
  | JArr l => Ok (JArr (take n l))
  | JObj _ => Raise (KeyError "slice")
  | _ => Raise TypeError
  end.

Section ParseAction.
Context (float_repr : string -> string).

(** [json.loads(args or "{}")], [{}] on text that is no JSON. *)
Definition parse_arguments (text : string) : json :=
  match loads float_repr (if decide (text = "") then "{}" else text) with
  | Ok v => v
  | Raise _ => JObj []
  end.

Definition parse_call (call : json) : res dict :=
  call ← as_dict call;
  fn ← as_dict (dget_or "function" (JObj []) call);
  let args := match dget_or "arguments" (JObj []) fn with
    | JStr text => parse_arguments text
    | v => v
    end in
  let args := match args with JObj _ => args | _ => JObj [] end in
  let action := [("tool", dget_or "name" (JStr "invalid") fn); ("args", args)] in
  let ext := dget_or "extra_content" JNull call in
  mret (if truthy ext then dset "_ext" ext action else action).

Definition parse_action (message : dict) : res dict :=
  calls ← py_iter (py_or (dget_or "tool_calls" JNull message) (JArr []));
  match calls with
  | call :: _ => parse_call call
  | [] =>
      text ← py_take 500 (py_or (dget_or "content" JNull message) (JStr ""));
      mret [("tool", JStr "invalid"); ("args", JObj [("text", text)])]
  end.
End ParseAction.

(** ** Requests *)

(** What the process did on the network and what its clock shows: the time and
    body of each request, newest first, and [self._next_ok]. *)
Record net := Net {
  net_sent : list (Q * json);
  net_clock : Q;
  net_next_ok : Q;
}.

(** A world that contains a network. *)
Class HasNet (S : Type) : Type := { get_net : S -> net; put_net : net -> S -> S }.

#[export] Instance net_has_net : HasNet net := {| get_net := id; put_net := fun n _ => n |}.

Definition on_net {S A} `{HasNet S} (m : M net A) : M S A := fun s =>
  let '(r, n) := m (get_net s) in (r, put_net n s).

Record OpenAICompatProvider := MkOpenAICompatProvider {
  oc_model : string;
  oc_usd_in : string;
  oc_usd_out : string;
  oc_min_interval : Q;
}.

Definition openai_init (env : environ) (api_key_env : string) (model : option string) :
    res OpenAICompatProvider :=
  if negb (env_is "PHOENIX_REAL_LLM" "1" env) then Raise RuntimeError
  else if bool_decide (getenv_or api_key_env "" env = "") then Raise RuntimeError
  else
    let default_model := getenv_or "PHOENIX_MODEL" DEFAULT_GEMINI_MODEL env in
    let model := match model with
      | Some m => if bool_decide (m = "") then default_model else m
      | None => default_model
      end in
    interval ← py_float (getenv_or "PHOENIX_MIN_REQUEST_INTERVAL_S" "0" env);
    mret (MkOpenAICompatProvider model (getenv_or "PHOENIX_USD_PER_MTOK_IN" "0" env)
            (getenv_or "PHOENIX_USD_PER_MTOK_OUT" "0" env) interval).

(** [dict(v)] of a decoded document *)
Definition py_dict (v : json) : res dict :=
  match v with
  | JObj d => Ok d
  | JArr [] | JStr EmptyString => Ok []
  | JArr _ | JStr _ => Raise ValueError
  | _ => Raise TypeError
  end.

(** The endpoint and the clock. *)
Section Endpoint.
Context (float_repr : string -> string).
Context (respond : nat -> res HttpResponse).
Context (took late : nat -> Q).

Definition monotonic : M net Q := gets net_clock.

(** [await asyncio.sleep(delay)] *)
Definition sleep (delay : Q) : M net unit :=
  modify (fun n =>
    let waited := if Qle_bool delay 0 then 0%Q else delay in
    Net (net_sent n) (net_clock n + waited + late (length (net_sent n)))%Q (net_next_ok n)).

(** [await self.client.post("/chat/completions", json=body)] *)
Definition post_request (body : json) : M net HttpResponse := fun n =>
  let k := length (net_sent n) in
  (respond k, Net ((net_clock n, body) :: net_sent n) (net_clock n + took k)%Q (net_next_ok n)).

Definition _pace (p : OpenAICompatProvider) : M net unit :=
  if Qle_bool (oc_min_interval p) 0 then mret tt
  else
    now ← monotonic;
    next_ok ← gets net_next_ok;
    (if negb (Qle_bool (next_ok - now) 0) then sleep (next_ok - now)%Q else mret tt) ;;
    now ← monotonic;
    modify (fun n => Net (net_sent n) (net_clock n) (now + oc_min_interval p)%Q).

(** [resp.status_code == 429 and "PerDay" in resp.text] *)
Definition daily_quota (r : HttpResponse) : bool :=
  (status_code r =? 429) && is_substring "PerDay" (resp_text r).

(** The body of the loop after a response: the result of the call, or the
    wait before the next attempt. *)
Definition after_response (r : HttpResponse) (attempt : nat) : res (dict + Q) :=
  if daily_quota r then Raise (ProviderError true)
  else if negb (bool_decide (status_code r ∈ RETRY_STATUS)) ||
          bool_decide (S attempt = MAX_ATTEMPTS) then
    if is_error r then Raise (ProviderError false)
    else
      document ← loads float_repr (resp_text r);
      data ← py_dict document;
      mret (inl data)
  else
    delay ← retry_delay r attempt;
    mret (inr (if Qle_bool delay MAX_BACKOFF_S then delay else MAX_BACKOFF_S)).

(** [for attempt in range(MAX_ATTEMPTS)], with [left] iterations to go. *)
Fixpoint post_attempts (p : OpenAICompatProvider) (body : json) (left attempt : nat) : M net dict :=
  match left with
  | O => raise RuntimeError
  | S left' =>
      _pace p ;;
      resp ← post_request body;
      next ← lift_res (after_response resp attempt);
      match next with
      | inl data => mret data
      | inr delay => sleep delay ;; post_attempts p body left' (S attempt)
      end
  end.

Definition _post (p : OpenAICompatProvider) (body : json) : M net dict :=
  post_attempts p body MAX_ATTEMPTS 0.

(** ** One completion *)
Definition request_body (env : environ) (p : OpenAICompatProvider) (translated : list json) : json :=
  JObj [("model", JStr (oc_model p)); ("messages", JArr translated); ("tools", JArr TOOLS);
        ("tool_choice", JStr (getenv_or "PHOENIX_TOOL_CHOICE" "auto" env));
        ("max_tokens", JInt 2048)].

(** [v[0]] *)
Definition py_first (v : json) : res json :=
  match v with
  | JArr l => of_option IndexError (head l)
  | JStr (String c _) => Ok (JStr (String c EmptyString))
  | JStr EmptyString => Raise IndexError
  | JObj _ => Raise (KeyError "0")
  | _ => Raise TypeError
  end.

(** The input and output tokens of [data["usage"]]. *)
Definition usage_tokens (data : dict) : res (Z * Z) :=
  usage ← as_dict (py_or (dget_or "usage" JNull data) (JObj []));
  tin ← py_int (dget_or "prompt_tokens" (JInt 0) usage);
  total ← py_int (py_or (dget_or "total_tokens" JNull usage) (JInt 0));
  if total - tin <=? 0 then
    tout ← py_int (dget_or "completion_tokens" (JInt 0) usage);
    mret (tin, tout)
  else mret (tin, total - tin).

Definition read_answer (p : OpenAICompatProvider) (data : dict) : res LLMResponse :=
  choices ← dindex "choices" data;
  choice ← py_first choices;
  message ← subscript "message" choice;
  message ← as_dict message;
  action ← parse_action float_repr message;
  '(tin, tout) ← usage_tokens data;
  cost ← token_cost tin tout (oc_usd_in p) (oc_usd_out p);
  mret (MkLLMResponse action tin tout cost).

Definition openai_complete {S} `{HasNet S} (env : environ) (p : OpenAICompatProvider)
    (messages : list json) : M S LLMResponse :=
  translated ← lift_res (to_openai_messages messages);
  data ← on_net (_post p (request_body env p translated));
  lift_res (read_answer p data).

#[local] Instance openai_provider {S} `{HasNet S} (env : environ) :
    Provider OpenAICompatProvider S := {|
  provider_name p := "openai-compat:" +:+ oc_model p;
  complete := openai_complete env
|}.

(** Requests do not touch the database. *)
Lemma openai_provider_laws {S} `{HasNet S} `{HasDb S} (env : environ) :
  (forall n s, get_db (put_net n s) = get_db s) ->
  ProviderLaws OpenAICompatProvider S (H0 := openai_provider env).
Proof.
  intros Hl p messages s. unfold complete. simpl. unfold openai_complete, on_net, lift_res. unfold_m.
  destruct (to_openai_messages messages); [|done].
  destruct (_post p _ (get_net s)) as [[data|e] n]; simpl; by rewrite Hl.
Qed.

(** ** What a call does on the network *)

(** What the response to request [k], made as attempt [attempt], ends the
    call with; [None] when the call goes on. *)
Definition verdict (k attempt : nat) : option (res dict) :=
  match respond k with
  | Raise e => Some (Raise e)
  | Ok r =>
      match after_response r attempt with
      | Ok (inl data) => Some (Ok data)
      | Ok (inr _) => None
      | Raise e => Some (Raise e)
      end
  end.

(** Only an overloaded endpoint is asked again, and not on the last attempt. *)
Lemma verdict_None k attempt :
  verdict k attempt = None ->
  S attempt <> MAX_ATTEMPTS /\
  exists r, respond k = Ok r /\ status_code r ∈ RETRY_STATUS /\ daily_quota r = false.
Proof.
  unfold verdict, after_response. destruct (respond k) as [r|]; [|done].
  destruct (daily_quota r) eqn:Eq; [done|].
  destruct (bool_decide (status_code r ∈ RETRY_STATUS)) eqn:E1; simpl;
    [|by destruct (is_error r); [|destruct (loads _ _) as [v|]; simpl; [destruct (py_dict v)|]]].
  destruct (bool_decide (S attempt = MAX_ATTEMPTS)) eqn:E2;
    [by destruct (is_error r); [|destruct (loads _ _) as [v|]; simpl; [destruct (py_dict v)|]]|].
  bool_to_prop. split; [done|]. by exists r.
Qed.

(** Requests, newest first, at least [interval] apart. *)
Fixpoint spaced (interval : Q) (sent : list (Q * json)) : Prop :=
  match sent with
  | x :: (y :: _) as rest => (fst y + interval <= fst x)%Q /\ spaced interval rest
  | _ => True
  end.

(** The requests are paced, and the next one may go out at [net_next_ok]. *)
Definition paced (interval : Q) (n : net) : Prop :=
  spaced interval (net_sent n) /\
  match net_sent n with x :: _ => (fst x + interval <= net_next_ok n)%Q | [] => True end.

Context (Hlate : forall k, (0 <= late k)%Q).

Lemma pace_spec p n :
  (0 < oc_min_interval p)%Q -> paced (oc_min_interval p) n ->
  exists now, _pace p n = (Ok tt, Net (net_sent n) now (now + oc_min_interval p)%Q) /\
    (net_next_ok n <= now)%Q.
Proof.
  intros Hi _. unfold _pace, monotonic, sleep. unfold_m.
  destruct (Qle_bool (oc_min_interval p) 0) eqn:E; [apply Qle_bool_iff in E; lra|].
  destruct (Qle_bool (net_next_ok n - net_clock n) 0) eqn:E2; simpl.
  - apply Qle_bool_iff in E2. eexists. split; [done|]. lra.
  - eexists. split; [done|]. specialize (Hlate (length (net_sent n))). lra.
Qed.

Lemma pace_off p n : (oc_min_interval p <= 0)%Q -> _pace p n = (Ok tt, n).
Proof. intros H. unfold _pace. apply Qle_bool_iff in H. by rewrite H. Qed.

(** What one attempt sends. *)
Lemma attempt_sends p n :
  exists n1, _pace p n = (Ok tt, n1) /\ net_sent n1 = net_sent n.
Proof.
  unfold _pace, monotonic, sleep. unfold_m. destruct (Qle_bool _ 0); [by eexists|].
  destruct (negb _); by eexists.
Qed.

Lemma paced_request p body n n1 :
  paced (oc_min_interval p) n -> _pace p n = (Ok tt, n1) -> (0 < oc_min_interval p)%Q ->
  paced (oc_min_interval p) (snd (post_request body n1)).
Proof.
  intros Hp Hn1 Hi. destruct (pace_spec p n Hi Hp) as (now & E & Hnow). rewrite E in Hn1.
  injection Hn1 as <-. destruct Hp as [Hs Hl]. unfold paced. simpl. split; [|lra].
  destruct (net_sent n) as [|y l]; [done|]. split; [simpl in *; lra|done].
Qed.

(** A call that ends with its request number [k], the first one being made as
    attempt [attempt] in state [n]. *)
Definition ends_after (p : OpenAICompatProvider) (body : json) (k attempt : nat) (n : net)
    (r : res dict) (n' : net) : Prop :=
  let first := length (net_sent n) in
  (exists times, net_sent n' = map (fun t => (t, body)) times ++ net_sent n /\ length times = S k) /\
  (forall j, (j < k)%nat -> verdict (first + j) (attempt + j) = None) /\
  verdict (first + k) (attempt + k) = Some r /\
  ((0 < oc_min_interval p)%Q -> paced (oc_min_interval p) n -> paced (oc_min_interval p) n').

Lemma post_attempts_spec p body left attempt n :
  (left + attempt)%nat = MAX_ATTEMPTS -> (0 < left)%nat ->
  exists k r n', post_attempts p body left attempt n = (r, n') /\ (k < left)%nat /\
    ends_after p body k attempt n r n'.
Proof.
  revert attempt n. induction left as [|left IH]; intros attempt n Ha Hl; [lia|]. cbn [post_attempts].
  destruct (attempt_sends p n) as (n1 & E1 & Es).
  pose proof (fun Hp Hi => paced_request p body n n1 Hp E1 Hi) as Hpr.
  set (n2 := snd (post_request body n1)) in *.
  assert (E2 : post_request body n1 = (respond (length (net_sent n)), n2)).
  { unfold n2, post_request. by rewrite Es. }
  assert (Hs2 : net_sent n2 = (net_clock n1, body) :: net_sent n) by (unfold n2; simpl; by rewrite Es).
  clearbody n2. unfold mbind, M_bind. rewrite E1, E2.
  assert (Hstop : forall r, verdict (length (net_sent n)) attempt = Some r ->
    exists k r0 n', (r, n2) = (r0, n') /\ (k < S left)%nat /\ ends_after p body k attempt n r0 n').
  { intros r Hr. exists 0%nat, r, n2. unfold ends_after. rewrite !Nat.add_0_r.
    split_and!; [done|lia| |lia|done|tauto]. by exists [net_clock n1]. }
  pose proof (eq_refl (verdict (length (net_sent n)) attempt)) as Hv. unfold verdict in Hv at 2.
  destruct (respond (length (net_sent n))) as [resp|e] eqn:Er; [|by apply Hstop].
  unfold lift_res. destruct (after_response resp attempt) as [[data|delay]|e] eqn:Ea; [by apply Hstop| |by apply Hstop].
  pose proof (verdict_None _ _ Hv) as [Hm _].
  set (n3 := snd (sleep delay n2)).
  assert (E3 : sleep delay n2 = (Ok tt, n3)) by done.
  assert (Hs3 : net_sent n3 = net_sent n2 /\ net_next_ok n3 = net_next_ok n2) by done.
  rewrite E3. clearbody n3. clear E3.
  destruct (IH (S attempt) n3) as (k & r & n' & E & Hk & (times & Ht & Hlen) & Hj & Hr & Hp); [lia..|].
  destruct Hs3 as [Hs3 Hok]. rewrite Hs3, Hs2 in *. simpl in Hj, Hr.
  exists (S k), r, n'. split; [done|]. split; [lia|]. unfold ends_after. split_and!.
  - exists (times ++ [net_clock n1]). rewrite map_app, <- app_assoc, length_app, Hlen. simpl.
    split; [done|lia].
  - intros [|j] Hlt; [by rewrite !Nat.add_0_r|]. rewrite !Nat.add_succ_r. apply (Hj j). lia.
  - by rewrite !Nat.add_succ_r.
  - intros Hi Hpn. apply Hp; [done|]. unfold paced in *. rewrite Hs3, Hok.
    specialize (Hpr Hpn Hi). by rewrite Hs2 in Hpr.
Qed.

(** C26: a call makes at most [MAX_ATTEMPTS] requests and always ends.  It asks
    again exactly while the endpoint answers that it is overloaded and no daily
    quota is exhausted, its result is the verdict on the last response, and
    with a minimum interval set, all requests of the process are at least that
    far apart. *)
Theorem post_correct p body n :
  exists k r n', _post p body n = (r, n') /\ (k < MAX_ATTEMPTS)%nat /\
    let first := length (net_sent n) in
    (exists times, net_sent n' = map (fun t => (t, body)) times ++ net_sent n /\ length times = S k) /\
    (forall j, (j < k)%nat ->
       exists resp, respond (first + j) = Ok resp /\ status_code resp ∈ RETRY_STATUS /\
         daily_quota resp = false) /\
    verdict (first + k) k = Some r /\
    (forall resp, respond (first + k) = Ok resp ->
       (daily_quota resp = true -> r = Raise (ProviderError true)) /\
       (daily_quota resp = false -> is_error resp = true ->
          r = Raise (ProviderError false) \/ exists e, retry_delay resp k = Raise e /\ r = Raise e)) /\
    ((0 < oc_min_interval p)%Q -> paced (oc_min_interval p) n -> paced (oc_min_interval p) n').
Proof.
  destruct (post_attempts_spec p body MAX_ATTEMPTS 0 n) as (k & r & n' & E & Hk & Ht & Hj & Hr & Hp);
    [done|unfold MAX_ATTEMPTS; lia|].
  exists k, r, n'. cbv zeta. split_and!; [done..| |done| |done].
  - intros j Hlt. by destruct (verdict_None _ _ (Hj j Hlt)) as [_ ?].
  - intros resp Hresp. unfold verdict in Hr. rewrite Hresp in Hr. unfold after_response in Hr.
    simpl in Hr. split; intros Hq; rewrite Hq in Hr; [by injection Hr as <-|]. intros He. rewrite He in Hr.
    destruct (_ || _); [left; by injection Hr as <-|].
    destruct (retry_delay resp k) as [d|e]; [done|]. right. exists e. simpl in Hr. split; congruence.
Qed.
End Endpoint.

(** ** The conversation turn by turn *)
Definition openai_turn (i : nat) (t : turn) : list json :=
  let id := JStr (call_id "call_" (Z.of_nat i)) in
  match t with
  | TextTurn text observation =>
      [JObj [("role", JStr "assistant"); ("content", JStr text)];
       user_message (JStr (dumps false observation))]
  | ToolTurn tool args ext observation =>
      [JObj [("role", JStr "assistant"); ("content", JNull);
             ("tool_calls", JArr [JObj
               ([("id", id); ("type", JStr "function");
                 ("function", JObj [("name", tool); ("arguments", JStr (dumps false args))])] ++
                match ext with Some v => [("extra_content", v)] | None => [] end)])];
       JObj [("role", JStr "tool"); ("tool_call_id", id); ("content", JStr (dumps false observation))]]
  end.

Lemma openai_renders : renders openai_message openai_turn.
Proof.
  intros out i action observation t Ht.
  apply turn_of_action_inv in Ht as (a & tool & args & -> & Et & Ea & Hcase).
  set (m := JObj [("role", JStr "assistant"); ("action", JObj a)]).
  cbn [foldR]. change (openai_message (out, Z.of_nat i) m) with (openai_assistant out (Z.of_nat i) m).
  unfold openai_assistant, subscript, m, dindex. simpl (dget "action" _).
  cbn [of_option mbind res_bind]. rewrite Et, Ea. cbn [of_option mbind res_bind].
  destruct Hcase as [(-> & d & text & -> & Htext & ->)|[Hne ->]].
  - rewrite decide_True by done. simpl. rewrite (Htext (JStr "")) by tauto.
    unfold openai_observation. rewrite last_snoc. simpl. rewrite <- app_assoc. do 2 f_equal. lia.
  - rewrite decide_False by done. simpl.
    unfold openai_observation. rewrite last_snoc. simpl. rewrite <- app_assoc. simpl.
    destruct (truthy _); do 2 f_equal; lia.
Qed.

(** C25: both providers show the model the same conversation.  The recorded
    steps of a run become turns of two messages each, an answer and what came
    back: a tool call is followed at once by its result under the same call id,
    numbered by the turn, and a reply in text by a user message. *)
Theorem conversation_correct spec evs msgs prompt :
  build_messages spec evs = Ok msgs -> dget "prompt" spec = Some prompt -> all_turns evs ->
  let turns := omap turn_of evs in
  to_openai_messages msgs =
    Ok (system_message :: user_message prompt :: concat (imap openai_turn turns)) /\
  to_anthropic_messages msgs = Ok (user_message prompt :: concat (imap anthropic_turn turns)).
Proof.
  intros Hm Hp Hall turns. split; [|by eapply anthropic_conversation].
  unfold build_messages, dindex in Hm. rewrite Hp in Hm.
  cbn [of_option mbind res_bind mret res_ret] in Hm. injection Hm as <-.
  unfold to_openai_messages. cbn [foldR].
  change (openai_message ([system_message], 0) _)
    with (Ok ([system_message; user_message prompt], 0)).
  pose proof (foldR_turns _ _ evs [system_message; user_message prompt] 0 openai_renders Hall) as H.
  cbn [mbind res_bind]. change (Z.of_nat 0) with 0 in H. by rewrite H.
Qed.

(** ** What the agent does with an answer *)

(** An action the agent can execute: it has a tool and a dict of arguments. *)
Definition usable (action : dict) : Prop :=
  is_Some (dget "tool" action) /\ exists args, dget "args" action = Some (JObj args).

Lemma parse_call_usable float_repr call action :
  parse_call float_repr call = Ok action -> usable action.
Proof.
  unfold parse_call. destruct (as_dict call) as [c|]; [|done]. simpl.
  destruct (as_dict _) as [fn|]; [|done]. simpl. set (args := match dget_or "arguments" _ fn with
    JStr text => _ | v => v end). intros [= <-].
  assert (H : exists d, match args with JObj _ => args | _ => JObj [] end = JObj d)
    by (destruct args; eauto). destruct H as [d ->].
  unfold usable. destruct (truthy _); simpl; eauto.
Qed.

Lemma parse_action_has_args float_repr message action :
  parse_action float_repr message = Ok action -> usable action.
Proof.
  unfold parse_action. destruct (py_iter _) as [[|call calls]|]; simpl; [|apply parse_call_usable|done].
  destruct (py_take _ _) as [text|]; simpl; [|done]. intros [= <-]. unfold usable. simpl. eauto.
Qed.

Lemma safe_join_error root rel f e f' :
  safe_join root rel f = (Raise e, f') -> e = UnsafePathError \/ e = RuntimeError.
Proof.
  unfold safe_join. destruct rel; try naive_solver. destruct (negb _); [naive_solver|].
  destruct (resolve f (root ++ _)) as [t|e1] eqn:E1; [destruct (resolve f root) as [r|e2] eqn:E2|].
  - destruct (is_prefix r t); naive_solver.
  - apply resolve_from_error in E2. naive_solver.
  - apply resolve_from_error in E1. naive_solver.
Qed.

Lemma mkdir_from_error base rest f e f' : mkdir_from base rest f = (Raise e, f') -> e = OSError.
Proof.
  revert base f. induction rest as [|c rest IH]; intros base f; simpl; [done|].
  unfold_m. destruct (f !! _) as [[| |]|]; try apply IH; congruence.
Qed.

Lemma write_text_error p c f e f' : write_text p c f = (Raise e, f') -> e = OSError.
Proof. unfold write_text. unfold_m. destruct (f !! p) as [[| |]|]; congruence. Qed.

Lemma subscript_error {S} k args (s s' : S) e :
  lift_res (subscript k (JObj args)) s = (Raise e, s') -> is_tool_error e = true.
Proof.
  unfold lift_res, subscript, dindex. destruct (dget k args); simpl; [done|]. by intros [= <- _].
Qed.

(** The exceptions that get out of a tool are the file system's and the sandbox's. *)
Definition tool_exn {B} `{Sandbox B} (b : B) (ws : path) (e : exn) : Prop :=
  e = OSError \/ e = RuntimeError \/ exists cmd f, fst (sandbox_run b ws cmd f) = Raise e.

Lemma run_tool_error {B} `{Sandbox B} (b : B) ws tool args f e f' :
  run_tool b ws tool (JObj args) f = (Raise e, f') -> is_tool_error e = true \/ tool_exn b ws e.
Proof.
  unfold run_tool, tool_exn. intros Hr.
  destruct (decide (tool = JStr "write_file")); [|destruct (decide (tool = JStr "run_code"))].
  - apply bind_Raise_inv in Hr as [Hr|(rel & f1 & _ & Hr)].
    { left. by eapply subscript_error. }
    apply bind_Raise_inv in Hr as [Hr|(target & f2 & _ & Hr)].
    { apply safe_join_error in Hr as [-> | ->]; [by left|tauto]. }
    apply bind_Raise_inv in Hr as [Hr|(? & f3 & _ & Hr)]; [apply mkdir_from_error in Hr; tauto|].
    apply bind_Raise_inv in Hr as [Hr|(content & f4 & _ & Hr)].
    { left. by eapply subscript_error. }
    apply bind_Raise_inv in Hr as [Hr|(? & f5 & _ & Hr)]; [apply write_text_error in Hr; tauto|done].
  - apply bind_Raise_inv in Hr as [Hr|(rel & f1 & _ & Hr)].
    { left. by eapply subscript_error. }
    apply bind_Raise_inv in Hr as [Hr|(target & f2 & _ & Hr)].
    { apply safe_join_error in Hr as [-> | ->]; [by left|tauto]. }
    apply bind_Raise_inv in Hr as [Hr|(root & f3 & _ & Hr)].
    { injection Hr as Hr _. apply resolve_from_error in Hr. tauto. }
    apply bind_Raise_inv in Hr as [Hr|(result & f4 & _ & Hr)]; [|done].
    right. right. right. exists ["python"%stdpp; path_str (drop (length root) target)], f3. by rewrite Hr.
  - repeat case_decide; done.
Qed.

(** C27: every answer of the endpoint that parses is an action the agent can
    execute: it has a tool and a dict of arguments, and executing it raises
    nothing but what the file system or the sandbox raises. *)
Theorem parse_action_executable {B} `{Sandbox B} float_repr message action exc_str (b : B) ws f :
  parse_action float_repr message = Ok action ->
  usable action /\
  forall e, fst (_execute exc_str b ws action f) = Raise e -> tool_exn b ws e.
Proof.
  intros Hp. apply parse_action_has_args in Hp as [Ht [args Ha]]. split; [by split; [|exists args]|].
  intros e. unfold _execute, try_except, dget_or. rewrite Ha. simpl.
  destruct (run_tool b ws _ (JObj args) f) as [[r|e'] f'] eqn:E; [done|].
  apply run_tool_error in E as [->|E]; [done|]. destruct (is_tool_error e'); [done|]. by intros [= <-].
Qed.

(** ** Actions survive the conversation *)

(** The form of an action the endpoint asked for. *)
Lemma parse_action_form float_repr message a :
  parse_action float_repr message = Ok a -> dget "tool" a <> Some (JStr "invalid") ->
  exists tool args ext, tool <> JStr "invalid" /\
    a = [("tool", tool); ("args", JObj args)] ++ (if truthy ext then [("_ext", ext)] else []).
Proof.
  unfold parse_action. intros H Hne. destruct (py_iter _) as [[|call calls]|]; simpl in H; [| |done].
  { destruct (py_take _ _); simpl in H; [|done]. by injection H as <-. }
  unfold parse_call in H. destruct (as_dict call) as [c|]; [|done]. simpl in H.
  destruct (as_dict _) as [fn|]; [|done]. simpl in H.
  set (args := match dget_or "arguments" _ fn with JStr text => _ | v => v end) in H.
  assert (Ha : exists d, match args with JObj _ => args | _ => JObj [] end = JObj d)
    by (destruct args; eauto). destruct Ha as [d Ha]. rewrite Ha in H. injection H as <-.
  exists (dget_or "name" (JStr "invalid") fn), d, (dget_or "extra_content" JNull c). split.
  - intros E. apply Hne. destruct (truthy _); simpl; by rewrite E.
  - by destruct (truthy _).
Qed.

(** C24: an action survives the conversation.  The tool call that stands for a
    recorded action in the messages sent to the endpoint, its arguments printed
    as JSON text, is parsed back as the same action, with its opaque signature. *)
Theorem action_roundtrip float_repr message a out n :
  parse_action float_repr message = Ok a -> dget "tool" a <> Some (JStr "invalid") ->
  (forall args, dget "args" a = Some args -> py_json float_repr args) ->
  exists m,
    openai_assistant out n (JObj [("role", JStr "assistant"); ("action", JObj a)]) =
      Ok (out ++ [JObj m], n) /\
    parse_action float_repr m = Ok a.
Proof.
  intros Hp Hne Hargs. destruct (parse_action_form _ _ _ Hp Hne) as (tool & args & ext & Ht & ->).
  specialize (Hargs (JObj args) eq_refl). destruct (loads_dumps float_repr _ Hargs) as [Hl _].
  exists [("role", JStr "assistant"); ("content", JNull);
    ("tool_calls", JArr [JObj
      ([("id", JStr (call_id "call_" n)); ("type", JStr "function");
        ("function", JObj [("name", tool); ("arguments", JStr (dumps false (JObj args)))])] ++
       (if truthy ext then [("extra_content", ext)] else []))])].
  split.
  - unfold openai_assistant, subscript, dindex, dget_or. simpl. rewrite decide_False by done.
    simpl. destruct (truthy ext) eqn:Ee; simpl; by rewrite ?Ee.
  - assert (Hpa : parse_arguments float_repr (dumps false (JObj args)) = JObj args).
    { unfold parse_arguments. destruct (decide _) as [E|_]; [discriminate E|]. by rewrite Hl. }
    remember (dumps false (JObj args)) as text eqn:Etext. clear Etext.
    unfold parse_action, py_or, dget_or. simpl. unfold parse_call, dget_or. simpl.
    destruct (truthy ext) eqn:Ee; simpl; rewrite ?Ee; simpl; rewrite Hpa; simpl; rewrite ?Ee; reflexivity.
Qed.
