(* ===== verification/Invariants.v ===== *)
(** [chaos/invariants.py]: the four invariants a chaos run is judged by, as
    executable checks of the database.

    Each check reads the rows of the given runs and reports whether it passed,
    its violations (capped) and, for the third, the crash-window retries.  A
    violation keeps the values its text shows; [violation_text] is the text,
    for attempts that are whole numbers. *)

From S2P Require Import Prelude PyDecimal Json Database Store Budget.

(** ** Reports *)
Inductive violation :=
  | StuckRun (rid : uuid) (status : run_status)
  | SeqGaps (rid : uuid) (seqs : list Z)
  | KeyGaps (rid : uuid)
  | AfterFinal (rid : uuid) (seq : Z)
  | StaleWriter (rid : uuid) (seq : Z) (attempt : dec) (worker : json) (last : dec)
  | RepeatedCall (rid : uuid) (step : Z) (attempts : list Z)
  | SpendMismatch (rid : uuid) (spent total : dec)
  | More (extra : Z).

Record InvariantResult := MkInvariantResult {
  ir_name : string;
  ir_passed : bool;
  ir_summary : string;
  ir_violations : list violation;
  ir_retries : list (uuid * Z * list Z);
}.

Definition text_of_nat (n : nat) : string := string_of_Z (Z.of_nat n).

(** [str] of a list of integers *)
Definition ints_text (l : list Z) : string := "[" +:+ join ", " (string_of_Z <$> l) +:+ "]".

Definition violation_text (v : violation) : string :=
  let run rid := "run " +:+ uuid_str rid in
  match v with
  | StuckRun rid status => run rid +:+ " stuck in '" +:+ run_status_str status +:+ "'"
  | SeqGaps rid seqs => run rid +:+ ": seq gaps/dups " +:+ ints_text seqs
  | KeyGaps rid => run rid +:+ ": idem_key duplicates or gaps"
  | AfterFinal rid seq =>
      run rid +:+ ": event seq=" +:+ string_of_Z seq +:+ " written after the final event"
  | StaleWriter rid seq attempt worker last =>
      run rid +:+ ": seq=" +:+ string_of_Z seq +:+ " written by stale attempt " +:+
      string_of_dec attempt +:+ " (" +:+ py_str worker +:+ ") after attempt " +:+ string_of_dec last
  | RepeatedCall rid step attempts =>
      run rid +:+ " step " +:+ string_of_Z step +:+ ": repeated call within attempts " +:+
      ints_text attempts
  | SpendMismatch rid spent total =>
      run rid +:+ ": spent_usd=" +:+ string_of_dec spent +:+ " but events sum to " +:+
      string_of_dec total
  | More extra => "... and " +:+ string_of_Z extra +:+ " more"
  end.

Definition retry_text (r : uuid * Z * list Z) : string :=
  "run " +:+ uuid_str (fst (fst r)) +:+ " step " +:+ string_of_Z (snd (fst r)) +:+
  ": attempts " +:+ ints_text (snd r).

Definition TERMINAL (s : run_status) : bool :=
  match s with Succeeded | Failed | BudgetExceeded => true | Pending | Running => false end.
Definition MAX_LISTED : nat := 5.

Definition _cap (items : list violation) : list violation :=
  let extra := Z.of_nat (length items) - Z.of_nat MAX_LISTED in
  take MAX_LISTED items ++ (if 0 <? extra then [More extra] else []).

Definition no_violation (bad : list violation) : bool := match bad with [] => true | _ => false end.

(** [SELECT ... FROM runs WHERE id = ANY($1)] *)
Definition select_runs (run_ids : list uuid) (d : db) : list (uuid * run_row) :=
  filter (fun p => fst p ∈ run_ids) (map_to_list (runs d)).

(** ** 1. Termination *)
Definition termination (run_ids : list uuid) (d : db) : InvariantResult :=
  let rows := select_runs run_ids d in
  let bad := omap (fun p : uuid * run_row =>
    if TERMINAL (run_status_of (snd p)) then None
    else Some (StuckRun (fst p) (run_status_of (snd p)))) rows in
  MkInvariantResult "termination" (no_violation bad && (length rows =? length run_ids)%nat)
    (text_of_nat (length rows - length bad) +:+ "/" +:+ text_of_nat (length run_ids) +:+ " terminal")
    (_cap bad) [].

(** ** 2. Log integrity *)

(** The keys of a grouping, in order. *)
Definition distinct_runs (l : list uuid) : list uuid := sort_by N.leb (remove_dups l).

(** [by_run]: the runs that have events, each with its events by [seq]. *)
Definition by_run (run_ids : list uuid) (d : db) : list (uuid * list event) :=
  (fun rid => (rid, sort_by seq_leb (events_of rid d))) <$>
    distinct_runs (filter (fun rid => rid ∈ run_ids) (ev_run_id ∘ er_event <$> events d)).

(** A JSON value used as a number in a comparison. *)
Definition as_number (v : json) : res dec :=
  match v with
  | JInt z => Ok (dec_of_Z z)
  | JBool b => Ok (dec_of_Z (if b then 1 else 0))
  | JFloat r => d ← of_option ValueError (dec_of_string r); mret (dec_of_float d)
  | _ => Raise TypeError
  end.

(** [payload.get("meta", {})], used as a dict. *)
Definition event_meta (e : event) : res dict := as_dict (dget_or "meta" (JObj []) (ev_payload e)).
Definition meta_attempt (meta : dict) : res dec := as_number (dget_or "attempt" (JInt 0) meta).
Definition meta_final (meta : dict) : bool := truthy (dget_or "final" JNull meta).

(** The loop over a run's events, up to its first violation. *)
Fixpoint scan_events (rid : uuid) (last_attempt : dec) (finals : bool) (evs : list event) :
    res (list violation) :=
  match evs with
  | [] => Ok []
  | e :: evs' =>
      if finals then Ok [AfterFinal rid (ev_seq e)]
      else
        meta ← event_meta e;
        attempt ← meta_attempt meta;
        if dec_ltb attempt last_attempt
        then Ok [StaleWriter rid (ev_seq e) attempt (dget_or "worker" JNull meta) last_attempt]
        else scan_events rid (if dec_ltb last_attempt attempt then attempt else last_attempt)
               (meta_final meta) evs'
  end.

Definition check_log (rid : uuid) (evs : list event) : res (list violation) :=
  let n := length evs in
  let seqs := ev_seq <$> evs in
  let keys := ev_idem_key <$> evs in
  let gaps := if decide (seqs = seqZ 1 (Z.of_nat n)) then [] else [SeqGaps rid (take 12 seqs)] in
  let bad_keys :=
    if decide (NoDup keys /\ keys = ((fun i => uuid_str rid +:+ ":" +:+ string_of_Z i) <$> seqZ 0 (Z.of_nat n)))
    then [] else [KeyGaps rid] in
  stale ← scan_events rid dec_zero false evs;
  mret (gaps ++ bad_keys ++ stale).

Definition log_integrity (run_ids : list uuid) (d : db) : res InvariantResult :=
  bads ← mapR (fun p => check_log (fst p) (snd p)) (by_run run_ids d);
  let bad := concat bads in
  mret (MkInvariantResult "log integrity" (no_violation bad)
          (text_of_nat (length (by_run run_ids d)) +:+ " logs checked, " +:+
           text_of_nat (length bad) +:+ " violation(s)")
          (_cap bad) []).

(** ** 3. No double billing *)
Definition call_key (c : call_row) : uuid * Z := (call_run_id c, call_step_index c).
Definition key_leb (x y : uuid * Z) : bool :=
  (fst x <? fst y)%N || ((fst x =? fst y)%N && (snd x <=? snd y)).

Definition call_groups (run_ids : list uuid) (d : db) : list (uuid * Z * list Z) :=
  let rows := filter (fun c => call_run_id c ∈ run_ids) (provider_calls d) in
  (fun k => (k, call_attempt <$> filter (fun c => call_key c = k) rows)) <$>
    sort_by key_leb (remove_dups (call_key <$> rows)).

Definition no_double_billing (run_ids : list uuid) (d : db) : InvariantResult :=
  let groups := filter (fun g => length (snd g) <> 1%nat) (call_groups run_ids d) in
  let distinct (g : uuid * Z * list Z) := bool_decide (NoDup (snd g)) in
  let retries := filter (fun g => distinct g = true) groups in
  let bad := (fun g => RepeatedCall (fst (fst g)) (snd (fst g)) (snd g)) <$>
               filter (fun g => distinct g = false) groups in
  MkInvariantResult "no double billing" (no_violation bad)
    (text_of_nat (length (filter (fun c => call_run_id c ∈ run_ids) (provider_calls d))) +:+
     " provider calls, " +:+ text_of_nat (length retries) +:+ " crash-window retries")
    (_cap bad) retries.

(** ** 4. Spend consistency *)
Definition run_total (rid : uuid) (d : db) : res dec :=
  costs ← mapR event_cost (events_of rid d); mret (dec_sum costs).

Definition spend_consistency (run_ids : list uuid) (d : db) : res InvariantResult :=
  mapR event_cost (filter (fun e => ev_run_id e ∈ run_ids) (er_event <$> events d)) ;;
  checked ← mapR (fun p : uuid * run_row =>
    total ← run_total (fst p) d;
    let spent := of_numeric 6 (run_spent_usd (snd p)) in
    mret (if dec_eqb spent total then [] else [SpendMismatch (fst p) spent total]))
    (select_runs run_ids d);
  let bad := concat checked in
  mret (MkInvariantResult "spend consistency" (no_violation bad)
          (text_of_nat (length (select_runs run_ids d)) +:+ " runs checked, " +:+
           text_of_nat (length bad) +:+ " mismatch(es)")
          (_cap bad) []).

Definition check_all (run_ids : list uuid) (d : db) : res (list InvariantResult) :=
  log ← log_integrity run_ids d;
  spend ← spend_consistency run_ids d;
  mret [termination run_ids d; log; no_double_billing run_ids d; spend].

(** [ChaosReport.passed] *)
Definition passed (results : list InvariantResult) : bool := forallb ir_passed results.

(** ** What the checks decide *)

(** The writer's attempt and the final flag of an event of the engine. *)
Definition ev_meta (e : event) : dict :=
  match dget "meta" (ev_payload e) with Some (JObj m) => m | _ => [] end.
Definition ev_attempt (e : event) : Z :=
  match dget "attempt" (ev_meta e) with Some (JInt a) => a | _ => 0 end.
Definition ev_final (e : event) : bool :=
  match dget "final" (ev_meta e) with Some (JBool b) => b | _ => false end.

(** The event carries the metadata [commit_step] writes. *)
Definition engine_event (e : event) : Prop := exists w a f,
  dget "meta" (ev_payload e) =
    Some (JObj [("worker", JStr w); ("attempt", JInt a); ("final", JBool f)]).

(** At most the last event is final. *)
Definition final_last (evs : list event) : Prop :=
  forall before e, before ++ [e] `prefix_of` evs -> ev_final e = true -> evs = before ++ [e].

Definition sound_log (rid : uuid) (evs : list event) : Prop :=
  ev_seq <$> evs = seqZ 1 (Z.of_nat (length evs)) /\
  ev_idem_key <$> evs = step_keys rid (length evs) /\
  Sorted Z.le (0 :: (ev_attempt <$> evs)) /\ final_last evs.

Lemma engine_event_meta e :
  engine_event e ->
  event_meta e = Ok (ev_meta e) /\ meta_attempt (ev_meta e) = Ok (dec_of_Z (ev_attempt e)) /\
  meta_final (ev_meta e) = ev_final e.
Proof.
  intros (w & a & f & Hm). unfold event_meta, ev_attempt, ev_final, ev_meta, dget_or. rewrite Hm.
  by destruct f.
Qed.

Lemma final_last_nil : final_last [].
Proof. intros before e [k Hk]. by destruct before. Qed.

Lemma final_last_cons e evs :
  final_last (e :: evs) <-> (ev_final e = true -> evs = []) /\ final_last evs.
Proof.
  split.
  - intros H. split.
    + intros He. specialize (H [] e). simpl in H. assert (e :: evs = [e]) as [= ->]; [|done].
      apply H; [apply prefix_cons, prefix_nil|done].
    + intros before e' Hp He'. specialize (H (e :: before) e').
      assert (e :: evs = (e :: before) ++ [e']) as [= ->]; [|done].
      apply H; [by apply prefix_cons|done].
  - intros [H1 H2] before e' Hp He'. destruct before as [|b before]; simpl in *.
    + pose proof (prefix_cons_inv_1 _ _ _ _ Hp) as ->. by rewrite H1.
    + pose proof (prefix_cons_inv_1 _ _ _ _ Hp) as ->. apply prefix_cons_inv_2 in Hp.
      f_equal. by apply H2.
Qed.

Lemma dec_ltb_Z a b : dec_ltb (dec_of_Z a) (dec_of_Z b) = (a <? b).
Proof. unfold dec_ltb, dec_align, dec_of_Z. simpl. unfold pow10. simpl. by rewrite !Z.mul_1_r. Qed.

Lemma scan_events_spec rid last finals evs :
  Forall engine_event evs ->
  exists bad, scan_events rid (dec_of_Z last) finals evs = Ok bad /\
    (bad = [] <-> (finals = true -> evs = []) /\ Sorted Z.le (last :: (ev_attempt <$> evs)) /\ final_last evs).
Proof.
  intros Hev. revert last finals. induction Hev as [|e evs He Hev IH]; intros last finals.
  { exists []. split; [done|]. split; [|done]. intros _. split_and!; [done| |apply final_last_nil].
    repeat constructor. }
  apply engine_event_meta in He as (Hm & Ha & Hf). simpl. destruct finals.
  { eexists. split; [done|]. split; [done|]. intros [H _]. by specialize (H eq_refl). }
  rewrite Hm. unfold_m. rewrite Ha, dec_ltb_Z. destruct (ev_attempt e <? last) eqn:El; bool_to_prop.
  { eexists. split; [done|]. split; [done|]. intros (_ & Hs & _).
    apply Sorted_inv in Hs as [_ Hs]. apply HdRel_inv in Hs. lia. }
  rewrite dec_ltb_Z, Hf.
  assert ((if last <? ev_attempt e then dec_of_Z (ev_attempt e) else dec_of_Z last) =
          dec_of_Z (ev_attempt e)) as ->.
  { destruct (last <? ev_attempt e) eqn:E; [done|]. bool_to_prop. f_equal. lia. }
  destruct (IH (ev_attempt e) (ev_final e)) as (bad & -> & Hbad). exists bad. split; [done|].
  rewrite Hbad, final_last_cons. split.
  - intros (H1 & H2 & H3). split_and!; [done| |done|done]. constructor; [done|by constructor].
  - intros (_ & Hs & H3 & H4). split_and!; [done| |done]. by apply Sorted_inv in Hs as [Hs _].
Qed.

Lemma step_keys_NoDup rid n : NoDup (step_keys rid n).
Proof.
  unfold step_keys. apply NoDup_fmap_2_strong; [|apply NoDup_seqZ].
  intros i j Hi Hj. apply elem_of_seqZ in Hi, Hj. apply step_key_index; lia.
Qed.

Lemma check_log_spec rid evs :
  Forall engine_event evs ->
  exists bad, check_log rid evs = Ok bad /\ (bad = [] <-> sound_log rid evs).
Proof.
  intros Hev. destruct (scan_events_spec rid 0 false evs Hev) as (stale & Hs & Hstale).
  unfold check_log. change dec_zero with (dec_of_Z 0). rewrite Hs. eexists. split; [done|].
  unfold sound_log.
  change ((fun i => uuid_str rid +:+ ":" +:+ string_of_Z i) <$> seqZ 0 (Z.of_nat (length evs)))
    with (step_keys rid (length evs)).
  split.
  - intros H. apply app_eq_nil in H as [H1 H]. apply app_eq_nil in H as [H2 H3].
    repeat case_decide; try done. apply Hstale in H3 as (_ & H3 & H4). naive_solver.
  - intros (H1 & H2 & H3 & H4). rewrite decide_True, decide_True; [simpl; by apply Hstale| |done].
    split; [rewrite H2; apply step_keys_NoDup|done].
Qed.

Lemma elem_of_distinct_runs rid l : rid ∈ distinct_runs l <-> rid ∈ l.
Proof. unfold distinct_runs. by rewrite elem_of_sort_by, elem_of_remove_dups. Qed.

Lemma no_violation_nil bad : no_violation bad = true <-> bad = [].
Proof. by destruct bad. Qed.

Lemma concat_nil_Forall {A} (l : list (list A)) : concat l = [] <-> Forall (fun x => x = []) l.
Proof.
  induction l as [|x l IH]; simpl; [done|]. rewrite Forall_cons, <- IH. split.
  - by intros [-> ->]%app_eq_nil.
  - by intros [-> ->].
Qed.

Lemma log_integrity_iff run_ids d :
  Forall engine_event (er_event <$> events d) ->
  exists r, log_integrity run_ids d = Ok r /\
    (ir_passed r = true <->
     forall rid, rid ∈ run_ids -> events_of rid d <> [] ->
       sound_log rid (sort_by seq_leb (events_of rid d))).
Proof.
  intros Hev. unfold log_integrity.
  assert (Hrid : forall rid, Forall engine_event (sort_by seq_leb (events_of rid d))).
  { intros rid. apply Forall_forall. intros e He. apply elem_of_sort_by in He.
    rewrite Forall_forall in Hev. apply Hev. unfold events_of in He.
    by apply list_elem_of_filter in He as [_ He]. }
  assert (Hall : forall l : list (uuid * list event),
    Forall (fun p => exists rid, p = (rid, sort_by seq_leb (events_of rid d))) l ->
    exists bads, mapR (fun p => check_log (fst p) (snd p)) l = Ok bads /\
      (Forall (fun x => x = []) bads <-> Forall (fun p => sound_log (fst p) (snd p)) l)).
  { induction 1 as [|p l (rid & ->) _ (bads & IH1 & IH2)]; [by exists []|]. simpl.
    destruct (check_log_spec rid _ (Hrid rid)) as (bad & -> & Hb). unfold_m. rewrite IH1.
    eexists. split; [done|]. by rewrite !Forall_cons, IH2, Hb. }
  destruct (Hall (by_run run_ids d)) as (bads & -> & Hb).
  { unfold by_run. apply Forall_fmap, Forall_forall. intros rid _. by exists rid. }
  eexists. split; [done|]. simpl. rewrite no_violation_nil, concat_nil_Forall, Hb.
  unfold by_run. rewrite Forall_fmap, Forall_forall. simpl. split.
  - intros H rid Hin Hne. apply (H rid). rewrite elem_of_distinct_runs, list_elem_of_filter.
    split; [done|]. destruct (events_of rid d) as [|e l] eqn:E; [done|].
    assert (He : e ∈ events_of rid d) by (rewrite E; constructor). unfold events_of in He.
    apply list_elem_of_filter in He as [<- He]. apply list_elem_of_fmap in He as (row & -> & Hrow).
    apply list_elem_of_fmap. by exists row.
  - intros H rid Hin. rewrite elem_of_distinct_runs, list_elem_of_filter in Hin.
    destruct Hin as [Hin He]. apply H; [done|].
    apply list_elem_of_fmap in He as (row & -> & Hrow). intros Hnil.
    assert (Hx : er_event row ∈ events_of (ev_run_id (er_event row)) d).
    { unfold events_of. apply list_elem_of_filter. split; [done|]. by apply list_elem_of_fmap_2. }
    unfold compose in Hnil. rewrite Hnil in Hx. by apply not_elem_of_nil in Hx.
Qed.

(** C23: the log check passes exactly on sound logs: for every run that has
    events, the numbers are 1..n, the keys are the steps 0..n-1 of the run,
    the writers' attempts never go back and nothing follows a final event.
    On logs written by the engine it never raises. *)
Theorem log_integrity_correct run_ids d :
  Forall engine_event (er_event <$> events d) ->
  exists r, log_integrity run_ids d = Ok r /\
    (ir_passed r = true <->
     forall rid, rid ∈ run_ids -> events_of rid d <> [] ->
       sound_log rid (sort_by seq_leb (events_of rid d))).
Proof. apply log_integrity_iff. Qed.

(** ** Calls *)
Definition call_id (c : call_row) : uuid * Z * Z := (call_key c, call_attempt c).

(** Rows grouped by a key are pairwise different when the keyed rows are. *)
Lemma NoDup_groups {A K V} `{EqDecision K} (f : A -> K) (g : A -> V) (l : list A) :
  NoDup ((fun x => (f x, g x)) <$> l) <-> forall k, NoDup (g <$> filter (fun x => f x = k) l).
Proof.
  induction l as [|x l IH]; [split; [constructor|constructor]|]. rewrite fmap_cons, NoDup_cons, IH.
  assert (Hin : (f x, g x) ∈ (fun y => (f y, g y)) <$> l <-> g x ∈ g <$> filter (fun y => f y = f x) l).
  { rewrite !list_elem_of_fmap. split.
    - intros (y & [= Hf Hg] & Hy). exists y. by rewrite list_elem_of_filter.
    - intros (y & Hg & [Hf Hy]%list_elem_of_filter). exists y. split; [congruence|done]. }
  rewrite Hin. split.
  - intros [Hx Hl] k. rewrite filter_cons. case_decide as Hk; [|done]. subst k.
    rewrite fmap_cons, NoDup_cons. by split.
  - intros H. split.
    + specialize (H (f x)). rewrite filter_cons_True, fmap_cons, NoDup_cons in H by done. by destruct H.
    + intros k. specialize (H k). rewrite filter_cons in H. case_decide; [|done].
      rewrite fmap_cons, NoDup_cons in H. by destruct H.
Qed.

(** The calls of the given runs. *)
Definition calls_among (run_ids : list uuid) (d : db) : list call_row :=
  filter (fun c => call_run_id c ∈ run_ids) (provider_calls d).

Lemma elem_of_call_groups run_ids d k atts :
  (k, atts) ∈ call_groups run_ids d <->
  k ∈ call_key <$> calls_among run_ids d /\
  atts = call_attempt <$> filter (fun c => call_key c = k) (calls_among run_ids d).
Proof.
  unfold call_groups. rewrite list_elem_of_fmap. split.
  - intros (k' & [= -> ->] & Hk). by rewrite elem_of_sort_by, elem_of_remove_dups in Hk.
  - intros [Hk ->]. exists k. by rewrite elem_of_sort_by, elem_of_remove_dups.
Qed.

Lemma no_double_billing_iff run_ids d :
  ir_passed (no_double_billing run_ids d) = true <-> NoDup (call_id <$> calls_among run_ids d).
Proof.
  unfold no_double_billing. simpl. rewrite no_violation_nil. unfold call_id.
  rewrite (NoDup_groups call_key call_attempt). split.
  - intros Hnil k. destruct (decide (k ∈ call_key <$> calls_among run_ids d)) as [Hk|Hk].
    2: { rewrite filter_none; [constructor|]. apply Forall_forall. intros c Hc <-. apply Hk.
         by apply list_elem_of_fmap_2. }
    set (atts := call_attempt <$> _). destruct (decide (NoDup atts)) as [|Hnd]; [done|exfalso].
    apply fmap_nil_inv in Hnil.
    assert (Hin : (k, atts) ∈ filter (fun g => bool_decide (NoDup (snd g)) = false)
                    (filter (fun g : uuid * Z * list Z => length (snd g) <> 1%nat) (call_groups run_ids d))).
    { rewrite !list_elem_of_filter. split; [by apply bool_decide_eq_false|]. split; [|by apply elem_of_call_groups].
      simpl. intros Hlen. apply Hnd. destruct atts as [|a [|]]; [done| |done]. apply NoDup_singleton. }
    rewrite Hnil in Hin. by apply not_elem_of_nil in Hin.
  - intros H. rewrite filter_none; [done|]. apply Forall_forall. intros [k atts] Hin.
    apply list_elem_of_filter in Hin as [_ [_ ->]%elem_of_call_groups]. simpl.
    by rewrite bool_decide_eq_true_2.
Qed.

(** The billing check passes exactly when no attempt asked twice for one
    step: no two calls of the runs agree on run, step and attempt.  The
    crash-window retries it lists are exactly the steps asked more than once,
    each time by a different attempt. *)
Theorem no_double_billing_correct run_ids d :
  (ir_passed (no_double_billing run_ids d) = true <-> NoDup (call_id <$> calls_among run_ids d)) /\
  (forall k atts, (k, atts) ∈ ir_retries (no_double_billing run_ids d) <->
     k ∈ call_key <$> calls_among run_ids d /\
     atts = call_attempt <$> filter (fun c => call_key c = k) (calls_among run_ids d) /\
     length atts <> 1%nat /\ NoDup atts).
Proof.
  split.
  - apply no_double_billing_iff.
  - intros k atts. unfold no_double_billing. simpl. rewrite !list_elem_of_filter, elem_of_call_groups.
    simpl. rewrite bool_decide_eq_true. tauto.
Qed.

(** ** Spend *)
Lemma elem_of_select_runs run_ids d rid r :
  (rid, r) ∈ select_runs run_ids d <-> rid ∈ run_ids /\ runs d !! rid = Some r.
Proof. unfold select_runs. rewrite list_elem_of_filter, elem_of_map_to_list. done. Qed.

Lemma dec_eqb_micros s t z : whole_micros t z -> of_numeric 6 s =d= t <-> s = z.
Proof.
  intros (Ht & _ & _). rewrite Ht.
  unfold dec_equiv, dec_eqb, dec_align, of_numeric. cbn [dcoef dexp]. rewrite Z.eqb_eq.
  rewrite Z.min_id, Z.sub_diag. change (pow10 0) with 1. lia.
Qed.

Lemma mapR_total {A B} (f : A -> res B) l :
  (forall x, x ∈ l -> exists y, f x = Ok y) -> exists k, mapR f l = Ok k.
Proof.
  induction l as [|x l IH]; intros H; [by exists []|].
  destruct (H x) as [y Hy]; [constructor|]. destruct IH as [k Hk]; [intros; apply H; by constructor|].
  exists (y :: k). simpl. by rewrite Hy, Hk.
Qed.

(** The spend check passes exactly when every run's stored spend is the sum
    the program makes of the costs its events record ([costs]). *)
Lemma spend_consistency_iff run_ids d (costs : uuid -> list dec) :
  (forall rid, rid ∈ run_ids -> mapR event_cost (events_of rid d) = Ok (costs rid)) ->
  exists r, spend_consistency run_ids d = Ok r /\
    (ir_passed r = true <->
     forall rid row, rid ∈ run_ids -> runs d !! rid = Some row ->
       of_numeric 6 (run_spent_usd row) =d= dec_sum (costs rid)).
Proof.
  intros Hc. unfold spend_consistency.
  destruct (mapR_total event_cost (filter (fun e => ev_run_id e ∈ run_ids) (er_event <$> events d))) as [k Hk].
  { intros e [Hin He]%list_elem_of_filter. specialize (Hc _ Hin). apply mapR_Ok_Forall2 in Hc.
    assert (e ∈ events_of (ev_run_id e) d) as [i Hi]%list_elem_of_lookup
      by (unfold events_of; by apply list_elem_of_filter).
    destruct (Forall2_lookup_l _ _ _ _ _ Hc Hi) as (x & _ & Hx). eauto. }
  unfold_m. rewrite Hk.
  assert (Hall : forall l : list (uuid * run_row), (forall p, p ∈ l -> fst p ∈ run_ids) -> exists checked,
    mapR (fun p : uuid * run_row =>
      match run_total (fst p) d with
      | Ok total => Ok (if dec_eqb (of_numeric 6 (run_spent_usd (snd p))) total then []
                        else [SpendMismatch (fst p) (of_numeric 6 (run_spent_usd (snd p))) total])
      | Raise e => Raise e
      end) l = Ok checked /\
    (Forall (fun x => x = []) checked <->
     Forall (fun p => of_numeric 6 (run_spent_usd (snd p)) =d= dec_sum (costs (fst p))) l)).
  { induction l as [|[rid row] l IH]; intros Hin; [by exists []|].
    destruct IH as (checked & IH1 & IH2); [intros p Hp; apply Hin; by constructor|].
    assert (Ht : run_total rid d = Ok (dec_sum (costs rid))).
    { unfold run_total. by rewrite (Hc rid (Hin (rid, row) ltac:(constructor))). }
    simpl in *. rewrite Ht. unfold_m. rewrite IH1. eexists. split; [done|]. rewrite !Forall_cons, IH2.
    unfold dec_equiv. destruct (dec_eqb _ _); naive_solver. }
  destruct (Hall (select_runs run_ids d)) as (checked & -> & Hb).
  { intros [rid row] [Hin _]%elem_of_select_runs. done. }
  eexists. split; [done|]. simpl. rewrite no_violation_nil, concat_nil_Forall, Hb, Forall_forall. split.
  - intros H rid row Hin Hr. apply (H (rid, row)). by apply elem_of_select_runs.
  - intros H [rid row] [Hin Hr]%elem_of_select_runs. by apply H.
Qed.

Lemma termination_iff run_ids d :
  NoDup run_ids ->
  ir_passed (termination run_ids d) = true <->
  forall rid, rid ∈ run_ids -> exists r, runs d !! rid = Some r /\ TERMINAL (run_status_of r) = true.
Proof.
  intros Hnd. unfold termination. simpl. rewrite andb_true_iff, no_violation_nil, Nat.eqb_eq.
  assert (Hnd2 : NoDup (fst <$> select_runs run_ids d)).
  { unfold select_runs. eapply sublist_NoDup; [apply (NoDup_fst_map_to_list (runs d))|].
    apply fmap_sublist, sublist_filter. }
  assert (Hsub : forall rid, rid ∈ fst <$> select_runs run_ids d <-> rid ∈ run_ids /\ is_Some (runs d !! rid)).
  { intros rid. rewrite list_elem_of_fmap. split.
    - intros ([rid' r] & -> & [Hin Hr]%elem_of_select_runs). simpl. eauto.
    - intros [Hin [r Hr]]. exists (rid, r). by rewrite elem_of_select_runs. }
  split.
  - intros [Hbad Hlen] rid Hin.
    assert (Hperm : fst <$> select_runs run_ids d ≡ₚ run_ids).
    { apply submseteq_length_Permutation; [|by rewrite length_fmap, Hlen].
      apply NoDup_submseteq; [done|]. intros x Hx. by apply Hsub. }
    rewrite <- Hperm in Hin. apply list_elem_of_fmap in Hin as ([rid' r] & -> & Hr). simpl.
    exists r. split; [by apply elem_of_select_runs in Hr as [_ Hr]|].
    destruct (TERMINAL (run_status_of r)) eqn:Ht; [done|exfalso].
    assert (StuckRun rid' (run_status_of r) ∈ omap (fun p : uuid * run_row =>
      if TERMINAL (run_status_of (snd p)) then None
      else Some (StuckRun (fst p) (run_status_of (snd p)))) (select_runs run_ids d)) as Hx.
    { apply list_elem_of_omap. exists (rid', r). simpl. rewrite Ht. by split. }
    rewrite Hbad in Hx. by apply not_elem_of_nil in Hx.
  - intros H. split.
    + match goal with |- ?l = [] => destruct l as [|x l'] eqn:E; [done|exfalso] end.
      assert (Hx : x ∈ x :: l') by constructor. rewrite <- E in Hx.
      apply list_elem_of_omap in Hx as ([rid r] & Hr & Hx). simpl in Hx.
      apply elem_of_select_runs in Hr as [Hin Hr]. destruct (H rid Hin) as (r' & Hr' & Ht).
      assert (r' = r) as -> by congruence. by rewrite Ht in Hx.
    + rewrite <- (length_fmap fst). apply Permutation_length, NoDup_Permutation; [done..|].
      intros rid. rewrite Hsub. split; [by intros [? _]|]. intros Hin. split; [done|].
      destruct (H rid Hin) as (r & -> & _). eauto.
Qed.

(** The termination check passes exactly when all the given runs exist,
    each named once, and have ended. *)
Theorem termination_correct run_ids d :
  NoDup run_ids ->
  ir_passed (termination run_ids d) = true <->
  forall rid, rid ∈ run_ids -> exists r, runs d !! rid = Some r /\ TERMINAL (run_status_of r) = true.
Proof. apply termination_iff. Qed.
