(* ===== verification/Execution.v ===== *)
(** What the engine relies on in a workflow, that the two workflows provide
    it, and what [execute_task] does with it. *)

From S2P Require Import Prelude PyDecimal Json Database Store Leases Engine Budget LlmCache.
From S2P Require Import Workspace Agent Invariants.

(** ** The contract between the engine and a workflow *)

(** The cost recorded in a payload. *)
Definition payload_cost (payload : dict) : res dec :=
  decimal_of (dget_or "cost_usd" (JStr "0") payload).

(** The tables the engine alone writes. *)
Definition same_engine_tables (d d' : db) : Prop :=
  runs d' = runs d /\ events d' = events d /\ tasks d' = tasks d.

(** A step computes without writing to the engine's tables, the cost it
    charges is the cost its committed event will show, and the status it gives
    the run at the end is a final one. *)
Class WorkflowLaws (W S : Type) `{HasDb S} `{Workflow W S} : Prop := {
  next_step_frame : forall (w : W) c i evs (s : S),
    same_engine_tables (get_db s) (get_db (snd (next_step w c i evs s)));
  next_step_billed : forall (w : W) c i evs (s s' : S) o,
    next_step w c i evs s = (Ok o, s') ->
    payload_cost (commit_payload c o) = Ok (so_cost_usd o);
  next_step_terminal : forall (w : W) c i evs (s s' : S) o,
    next_step w c i evs s = (Ok o, s') -> TERMINAL (so_final_status o) = true;
}.

#[export] Instance same_engine_tables_preorder : PreOrder same_engine_tables.
Proof.
  split; [by intros d|]. intros d1 d2 d3 (? & ? & ?) (? & ? & ?). split_and!; congruence.
Qed.

Lemma same_tables_events_of rid d d' : same_engine_tables d d' -> events_of rid d' = events_of rid d.
Proof. intros (_ & He & _). unfold events_of. by rewrite He. Qed.

Lemma same_tables_gapless rid d d' : same_engine_tables d d' -> gapless rid d -> gapless rid d'.
Proof. intros H. unfold gapless. by rewrite (same_tables_events_of rid d d' H). Qed.

Lemma same_tables_keyed rid d d' : same_engine_tables d d' -> keyed rid d -> keyed rid d'.
Proof. intros H. unfold keyed. by rewrite (same_tables_events_of rid d d' H). Qed.

#[export] Hint Resolve same_tables_gapless same_tables_keyed : phx_inv.

Lemma payload_cost_commit c o : payload_cost (commit_payload c o) = payload_cost (so_payload o).
Proof. unfold payload_cost, commit_payload, dget_or. by rewrite dget_dset_ne. Qed.

Lemma payload_cost_dec p d : dget "cost_usd" p = Some (JStr (string_of_dec d)) -> payload_cost p = Ok d.
Proof. unfold payload_cost, dget_or. intros ->. simpl. by rewrite dec_of_string_of_dec. Qed.

(** ** Both workflows keep the contract *)
#[export] Instance toy_laws {S} `{HasDb S} : WorkflowLaws ToyWorkflow S.
Proof.
  split; [done| |].
  - intros w c i evs s s' o [= <- <-]. rewrite payload_cost_commit. by apply payload_cost_dec.
  - by intros w c i evs s s' o [= <- <-].
Qed.

Section AgentLaws.
Context {P B : Type} `{Provider P world} `{!ProviderLaws P world} `{Sandbox B}.
Context (exc_str : exn -> string).
#[local] Instance agent_step : Workflow (AgentWorkflow P B) world := agent_workflow exc_str.

Lemma ensure_workspace_db (w : AgentWorkflow P B) c evs s :
  w_db (snd (ensure_workspace w c evs s)) = w_db s.
Proof.
  unfold ensure_workspace, on_fs. unfold_m. destruct (w_workspace s); [done|]. simpl.
  by destruct (materialize_workspace _ _ _) as [[[]|] ?].
Qed.

Lemma insert_call_frame rid i k a wk d :
  same_engine_tables d (snd (insert_call rid i k a wk d)).
Proof. unfold insert_call. unfold_m. by repeat case_match. Qed.

Lemma insert_cache_frame k resp d : same_engine_tables d (snd (insert_cache k resp d)).
Proof. unfold insert_cache. unfold_m. repeat case_match; simplify_eq; try done; by simpl; case_match. Qed.

Lemma complete_cached_frame (p : P) rid i msgs a wk s :
  same_engine_tables (w_db s) (w_db (snd (complete_cached p rid i msgs a wk s))).
Proof.
  unfold complete_cached, on_db, gets. unfold mbind, M_bind, mret, M_ret. simpl.
  destruct (llm_cache _ !! _); [done|].
  match goal with |- context [insert_call ?r ?i ?k ?a ?w ?d] =>
    pose proof (insert_call_frame r i k a w d) as H1;
    destruct (insert_call r i k a w d) as [[[]|] d1]; simpl in *; [|done] end.
  match goal with |- context [complete p msgs ?x] =>
    pose proof (complete_db p msgs x) as Hc;
    destruct (complete p msgs x) as [[resp|] s1]; simpl in *; [|by rewrite Hc] end.
  match goal with |- context [insert_cache ?k ?r ?d] =>
    pose proof (insert_cache_frame k r d) as H2;
    destruct (insert_cache k r d) as [[[]|] d2]; simpl in *; rewrite Hc in H2; by trans d1 end.
Qed.

Lemma agent_laws : WorkflowLaws (AgentWorkflow P B) world.
Proof.
  split.
  - intros w c i evs s. unfold next_step, agent_step, agent_workflow. unfold mbind at 1, M_bind.
    pose proof (ensure_workspace_db w c evs s) as Hd.
    destruct (ensure_workspace w c evs s) as [[ws|] s1]; simpl in *; [|by rewrite Hd].
    unfold on_db, gets, lift_res. unfold mbind, M_bind, mret, M_ret. simpl.
    destruct (of_option _ _) as [b|]; simpl; [|by rewrite Hd].
    destruct (check_limits _ _ _) as [[l|]|]; simpl; try by rewrite Hd.
    destruct (build_messages _ _) as [msgs|]; simpl; [|by rewrite Hd].
    match goal with |- context [complete_cached ?p ?r ?i ?m ?a ?w ?x] =>
      pose proof (complete_cached_frame p r i m a w x) as Hf;
      destruct (complete_cached p r i m a w x) as [[resp|] s2]; simpl in *; rewrite Hd in Hf end; [|done].
    unfold on_fs. destruct (_execute _ _ _ _ _) as [[obs|] f]; done.
  - intros w c i evs s s' o. unfold next_step, agent_step, agent_workflow. rewrite payload_cost_commit.
    intros Ho. apply bind_Ok_inv in Ho as (ws & s1 & _ & Ho).
    apply bind_Ok_inv in Ho as (r & s2 & _ & Ho). apply bind_Ok_inv in Ho as (b & s3 & _ & Ho).
    apply bind_Ok_inv in Ho as (stop & s4 & _ & Ho).
    destruct stop as [l|]; [by injection Ho as <- _|].
    apply bind_Ok_inv in Ho as (m & s5 & _ & Ho). apply bind_Ok_inv in Ho as (resp & s6 & _ & Ho).
    apply bind_Ok_inv in Ho as (obs & s7 & _ & Ho). injection Ho as <- _.
    by apply payload_cost_dec.
  - intros w c i evs s s' o. unfold next_step, agent_step, agent_workflow.
    intros Ho. apply bind_Ok_inv in Ho as (ws & s1 & _ & Ho).
    apply bind_Ok_inv in Ho as (r & s2 & _ & Ho). apply bind_Ok_inv in Ho as (b & s3 & _ & Ho).
    apply bind_Ok_inv in Ho as (stop & s4 & _ & Ho).
    destruct stop as [l|]; [injection Ho as <- _; by destruct l|].
    apply bind_Ok_inv in Ho as (m & s5 & _ & Ho). apply bind_Ok_inv in Ho as (resp & s6 & _ & Ho).
    by apply bind_Ok_inv in Ho as (obs & s7 & _ & [= <- _]).
Qed.
End AgentLaws.

Lemma failure_billed exc_str exc_repr c exc :
  payload_cost (commit_payload c (failure_outcome exc_str exc_repr c exc)) = Ok dec_zero.
Proof. by rewrite payload_cost_commit. Qed.

(** ** [execute_task] *)
Section Execute.
Context {W S : Type} `{HasDbLaws S} `{!Workflow W S} `{!WorkflowLaws W S}.
Context (fencing : bool) (clock : nat -> Z) (w : W) (claim : Claim).
Let rid := claim_run_id claim.

(** A log of the claimed run that can be replayed. *)
Definition replayable (rid : uuid) (d : db) : Prop :=
  gapless rid d /\ keyed rid d /\ exists r, runs d !! rid = Some r.

Lemma same_tables_replayable d d' : same_engine_tables d d' -> replayable rid d -> replayable rid d'.
Proof.
  intros Hs (Hg & Hk & r & Hr). split_and!; eauto with phx_inv. exists r.
  destruct Hs as (-> & _). done.
Qed.

Lemma on_db_read s :
  gapless rid (get_db s) -> on_db (read_events rid) s = (Ok (events_of rid (get_db s)), s).
Proof. intros Hg. unfold on_db. rewrite read_events_gapless by done. by rewrite put_get_db. Qed.

(** One round: read, compute, commit.  Either something raised, or the
    outcome was committed as the event numbered after the replayed ones. *)
Lemma execute_round rounds s :
  replayable rid (get_db s) ->
  let d := get_db s in
  let n := Z.of_nat (length (events_of rid d)) in
  match execute_task fencing clock w claim (Datatypes.S rounds) s with
  | (Raise e, _) => True
  | r => exists o s1 s2 row z,
      next_step w claim n (events_of rid d) s = (Ok o, s1) /\
      same_engine_tables d (get_db s1) /\ runs d !! rid = Some row /\
      fence_ok fencing (clock (Datatypes.S rounds)) claim (get_db s1) = true /\
      commit_values claim o row = Ok z /\
      s2 = put_db (committed (clock (Datatypes.S rounds)) claim n o row z (get_db s1)) s1 /\
      r = (if so_final o then (Ok (Some tt), s2) else execute_task fencing clock w claim rounds s2)
  end.
Proof.
  intros Hrep d n. cbn [execute_task]. unfold mbind, M_bind. fold rid.
  rewrite on_db_read by apply Hrep. fold d. fold n.
  pose proof (next_step_frame w claim n (events_of rid d) s) as Hf. fold d in Hf.
  destruct (next_step w claim n (events_of rid d) s) as [[o|e] s1] eqn:E; [|done].
  simpl in Hf. pose proof (same_tables_replayable _ _ Hf Hrep) as (Hg & Hk & row & Hrow).
  unfold on_db. rewrite commit_step_eq by done. fold rid. rewrite Hrow.
  rewrite (proj2 (keyed_select_None rid (get_db s1) n Hk ltac:(lia)))
    by (by rewrite (same_tables_events_of rid _ _ Hf)).
  destruct (fence_ok _ _ _ _) eqn:Hfence; simpl; [|done].
  destruct (commit_values _ _ _) as [z|e] eqn:Hz; [|done].
  set (s2 := put_db _ s1).
  assert (Hrow' : runs d !! rid = Some row) by (destruct Hf as (Hr & _); by rewrite <- Hr).
  destruct (so_final o) eqn:Hfin.
  - exists o, s1, s2, row, z. by rewrite Hfin.
  - destruct (execute_task fencing clock w claim rounds s2) as [[r|e] s3] eqn:E3; [|done].
    exists o, s1, s2, row, z. by rewrite Hfin.
Qed.

Lemma committed_replayable now o row z d :
  replayable rid d ->
  replayable rid (committed now claim (Z.of_nat (length (events_of rid d))) o row z d).
Proof.
  intros (Hg & Hk & _). split_and!; [by apply gapless_committed|by apply keyed_committed|].
  rewrite runs_committed. fold rid. rewrite lookup_insert_eq. eauto.
Qed.

Lemma committed_length now i o row z d :
  length (events_of rid (committed now claim i o row z d)) = Datatypes.S (length (events_of rid d)).
Proof. rewrite events_committed. fold rid. rewrite decide_True, length_app by done. simpl. lia. Qed.

(** A claimed task terminates.  If the step at index [last] is final
    whenever the workflow computes it, then from any replayable log of at
    most [last] events [execute_task] stops after at most one round per
    missing event and one more: it returns, or an exception ends it.  It
    never runs out of rounds. *)
Lemma execute_task_stops (last : nat) rounds s :
  (forall evs s o s', length evs = last ->
     next_step w claim (Z.of_nat last) evs s = (Ok o, s') -> so_final o = true) ->
  replayable rid (get_db s) ->
  (length (events_of rid (get_db s)) <= last)%nat ->
  (last - length (events_of rid (get_db s)) < rounds)%nat ->
  match fst (execute_task fencing clock w claim rounds s) with
  | Ok r => r = Some tt
  | Raise _ => True
  end.
Proof.
  intros Hfin. revert s. induction rounds as [|rounds IH]; intros s Hrep Hle Hlt; [lia|].
  pose proof (execute_round rounds s Hrep) as Hr. cbn zeta in Hr.
  destruct (execute_task fencing clock w claim (Datatypes.S rounds) s) as [[r|e] s'] eqn:E; [|done].
  destruct Hr as (o & s1 & s2 & row & z & Ho & Hf & _ & _ & _ & Hs2 & Heq).
  destruct (so_final o) eqn:Hfo; [by injection Heq as ->|].
  assert (Hlen : length (events_of rid (get_db s1)) = length (events_of rid (get_db s)))
    by (by rewrite (same_tables_events_of rid _ _ Hf)).
  assert (Hlen2 : length (events_of rid (get_db s2)) = Datatypes.S (length (events_of rid (get_db s))))
    by (by rewrite Hs2, get_put_db, committed_length, Hlen).
  assert (Hrep2 : replayable rid (get_db s2)).
  { rewrite Hs2, get_put_db, <- Hlen. apply committed_replayable.
    by apply (same_tables_replayable (get_db s)). }
  assert (length (events_of rid (get_db s)) <> last).
  { intros Hl. rewrite Hl in Ho. by rewrite (Hfin _ _ _ _ Hl Ho) in Hfo. }
  specialize (IH s2 Hrep2). rewrite Hlen2, <- Heq in IH. apply IH; lia.
Qed.
End Execute.

(** ** The agent *)
Section AgentExecution.
Context {P B : Type} `{Provider P world} `{!ProviderLaws P world} `{Sandbox B}.
Context (exc_str : exn -> string).
#[local] Instance agent_step' : Workflow (AgentWorkflow P B) world := agent_workflow exc_str.
#[local] Instance agent_laws' : WorkflowLaws (AgentWorkflow P B) world := agent_laws exc_str.

Lemma agent_final_at_max_steps (w : AgentWorkflow P B) c i evs s o s' :
  aw_max_steps w <= Z.of_nat (length evs) -> next_step w c i evs s = (Ok o, s') -> so_final o = true.
Proof.
  intros Hn Ho. apply bind_Ok_inv in Ho as (ws & s1 & _ & Ho).
  apply bind_Ok_inv in Ho as (r & s2 & _ & Ho). apply bind_Ok_inv in Ho as (b & s3 & _ & Ho).
  apply bind_Ok_inv in Ho as (stop & s4 & Hc & Ho).
  destruct stop as [l|]; [by injection Ho as <- _|].
  injection Hc as Hc _. apply check_limits_None in Hc as [Hlt _]. lia.
Qed.

(** C19: an agent run cannot go on forever.  From any replayable log,
    executing its task stops after at most [max_steps] further rounds and
    one more, with or without fencing, whatever the model answers and the
    sandbox does: it returns or an exception ends it. *)
Theorem agent_task_terminates fencing clock (w : AgentWorkflow P B) c rounds s :
  replayable (claim_run_id c) (get_db s) ->
  Z.of_nat (length (events_of (claim_run_id c) (get_db s))) <= aw_max_steps w ->
  aw_max_steps w < Z.of_nat rounds ->
  fst (execute_task fencing clock w c rounds s) = Ok (Some tt) \/
  exists e, fst (execute_task fencing clock w c rounds s) = Raise e.
Proof.
  intros Hrep Hle Hlt.
  assert (Hs : match fst (execute_task fencing clock w c rounds s) with
               | Ok r => r = Some tt | Raise _ => True end).
  { apply (execute_task_stops fencing clock w c (Z.to_nat (aw_max_steps w))); [|done|lia|lia].
    intros evs s1 o s2 Hl. apply agent_final_at_max_steps. lia. }
  destruct (fst _) as [r|e]; [left; by subst|right; eauto].
Qed.
End AgentExecution.

(** ** A cost is stored as text without a NUL *)
Lemma digits_nul_free l :
  Forall (fun c => is_digit c = true) l -> Forall (fun c => c <> "000"%char) l.
Proof. intros H. eapply Forall_impl; [exact H|]. by intros c Hc ->. Qed.

Lemma string_of_Z_nul_free z : nul_free (string_of_Z z) = true.
Proof.
  assert (Hn : forall n, nul_free (string_of_N n) = true).
  { intros n. apply nul_free_list, digits_nul_free. pose proof (digits_of_digit (Z.of_N n)) as H.
    unfold digits_of in H. by rewrite Zabs2N.abs_N_nonneg, N2Z.id in H by lia. }
  unfold string_of_Z. destruct (z <? 0); simpl; apply Hn.
Qed.

Lemma string_of_dec_nul_free d : nul_free (string_of_dec d) = true.
Proof.
  apply nul_free_list. unfold string_of_dec. rewrite str_to_of_list. unfold list_of_dec, zeros, signed_digits.
  pose proof (digits_nul_free _ (digits_of_digit (dcoef d))) as Hd.
  repeat first [apply Forall_app; split | case_match | apply Forall_take | apply Forall_drop
    | apply Forall_replicate | done | apply Forall_cons; split
    | apply digits_nul_free, digits_of_digit | constructor].
Qed.

(** ** The toy workflow under a live lease *)
Section ToyExecution.
Context (clock : nat -> Z) (w : ToyWorkflow) (c : Claim) (z : Z).
Context (Hcost : whole_micros (toy_cost w) z) (Hworker : nul_free (claim_worker_id c) = true).
Local Abbreviation rid := (claim_run_id c).
Local Abbreviation exec := (execute_task (S := db) true clock w c).

(** The claim holds the lease at every commit of the next rounds. *)
Definition live_for (rounds : nat) (d : db) : Prop :=
  exists t, tasks d !! claim_task_id c = Some t /\ held_by c t = true /\
    forall r, (r <= rounds)%nat -> expires_after (clock r) t = true.

Lemma toy_storable i : jsonb (JObj (commit_payload c (toy_step w c i))) = Ok tt.
Proof.
  apply jsonb_obj_Ok, dset_Forall.
  - split; [done|]. apply jsonb_obj_Ok. repeat (apply Forall_cons_2; [split; [done|by try apply jsonb_text_Ok]|]).
    apply Forall_nil_2.
  - pose proof (string_of_dec_nul_free (toy_cost w)) as Hs. cbn [toy_step so_payload].
    repeat (apply Forall_cons_2; [split; [done|by try apply jsonb_text_Ok]|]). apply Forall_nil_2.
Qed.

Lemma live_fence rounds d r :
  live_for rounds d -> (r <= rounds)%nat -> fence_ok true (clock r) c d = true.
Proof. intros (t & Ht & Hh & He) Hr. unfold fence_ok. rewrite Ht, Hh, (He r Hr). done. Qed.

(** One round of the toy workflow commits its step. *)
Lemma toy_round rounds d row :
  let n := Z.of_nat (length (events_of rid d)) in
  live_for (Datatypes.S rounds) d -> gapless rid d -> keyed rid d -> runs d !! rid = Some row ->
  0 <= run_spent_usd row -> run_spent_usd row + z < pow10 12 ->
  let o := toy_step w c n in
  let d' := committed (clock (Datatypes.S rounds)) c n o row (run_spent_usd row + z) d in
  exec (Datatypes.S rounds) d = if so_final o then (Ok (Some tt), d') else exec rounds d'.
Proof.
  intros n Hlive Hg Hk Hrow H0 Hlt o d'. cbn [execute_task]. unfold mbind, M_bind.
  rewrite (on_db_read c) by done. simpl get_db. unfold id, next_step, toy_workflow, mret, M_ret.
  fold n. fold o. unfold on_db. simpl get_db. unfold id. rewrite commit_step_eq by done.
  rewrite (live_fence (Datatypes.S rounds)), Hrow by done.
  rewrite (proj2 (keyed_select_None rid d n Hk ltac:(lia))) by lia.
  unfold commit_values. unfold o at 2. rewrite toy_storable. unfold_m.
  rewrite (numeric_add_micros _ _ z) by done. cbn beta iota. fold d'. by destruct (so_final o).
Qed.

Lemma toy_round_keeps rounds now d row o :
  let n := Z.of_nat (length (events_of rid d)) in
  let d' := committed now c n o row (run_spent_usd row + z) d in
  live_for (Datatypes.S rounds) d -> gapless rid d -> keyed rid d -> so_final o = false ->
  live_for rounds d' /\ gapless rid d' /\ keyed rid d' /\
  length (events_of rid d') = Datatypes.S (length (events_of rid d)) /\
  runs d' !! rid = Some (set_spent (run_spent_usd row + z) row).
Proof.
  intros n d' (t & Ht & Hh & He) Hg Hk Hf. unfold d'. split_and!.
  - exists t. rewrite tasks_committed, Hf. split_and!; [done..|]. intros r Hr. apply He. lia.
  - by apply gapless_committed.
  - by apply keyed_committed.
  - by apply committed_length.
  - rewrite runs_committed. rewrite lookup_insert_eq. unfold committed_run. by rewrite Hf.
Qed.

(** A toy run finishes with exactly the work that was missing.  With a
    live lease, [n] of [steps] events committed, and enough rounds, the task
    returns; the log has [steps] events, the run succeeded and is charged
    the cost once per missing step, and the task is done. *)
Theorem toy_execute_completes rounds d row :
  let n := Z.of_nat (length (events_of rid d)) in
  live_for rounds d -> gapless rid d -> keyed rid d -> runs d !! rid = Some row ->
  n < toy_steps w <= n + Z.of_nat rounds ->
  0 <= run_spent_usd row -> run_spent_usd row + (toy_steps w - n) * z < pow10 12 ->
  exists d', exec rounds d = (Ok (Some tt), d') /\
    Z.of_nat (length (events_of rid d')) = toy_steps w /\ gapless rid d' /\ keyed rid d' /\
    (exists row', runs d' !! rid = Some row' /\ run_status_of row' = Succeeded /\
       run_spent_usd row' = run_spent_usd row + (toy_steps w - n) * z) /\
    (exists t, tasks d' !! claim_task_id c = Some t /\ task_status_of t = Done).
Proof.
  revert d row. induction rounds as [|rounds IH]; intros d row n Hl Hg Hk Hrow Hn H0 Hlt; [lia|].
  assert (Hz : 0 <= z) by apply Hcost.
  rewrite (toy_round rounds d row) by (done || nia). fold n.
  destruct (so_final (toy_step w c n)) eqn:Hf.
  - simpl in Hf. bool_to_prop. eexists. split; [done|]. split_and!.
    + rewrite committed_length. lia.
    + by apply gapless_committed.
    + by apply keyed_committed.
    + rewrite runs_committed. rewrite lookup_insert_eq. eexists. split; [done|].
      unfold committed_run. simpl. rewrite (proj2 (Z.eqb_eq _ _)) by done. split; [done|].
      simpl. replace (toy_steps w - n) with 1 by lia. lia.
    + destruct Hl as (t & Ht & _). exists (finish_task_row t).
      rewrite tasks_committed. simpl. rewrite (proj2 (Z.eqb_eq _ _)) by done.
      by rewrite lookup_alter_eq, Ht.
  - destruct (toy_round_keeps rounds (clock (Datatypes.S rounds)) d row (toy_step w c n)) as
      (Hl' & Hg' & Hk' & Hlen & Hrow'); [done..|]. fold n in Hl', Hg', Hk', Hlen, Hrow'.
    simpl in Hf. bool_to_prop.
    destruct (IH _ _ Hl' Hg' Hk' Hrow') as (d' & He & Hlen' & Hg2 & Hk2 & (row' & Hr' & Hst & Hsp) & Ht');
      [rewrite Hlen; lia|simpl; nia|rewrite Hlen; simpl; nia|].
    exists d'. split_and!; [done..| |done]. exists row'. split_and!; [done..|].
    rewrite Hsp, Hlen. simpl. nia.
Qed.

(** A toy run whose [steps] are not more than the events it has, such
    as one submitted with zero steps, never finishes: no number of rounds
    is enough, each commits one more event. *)
Theorem toy_never_finishes rounds d row :
  let n := Z.of_nat (length (events_of rid d)) in
  live_for rounds d -> gapless rid d -> keyed rid d -> runs d !! rid = Some row ->
  toy_steps w <= n -> 0 <= run_spent_usd row ->
  run_spent_usd row + Z.of_nat rounds * z < pow10 12 ->
  exists d', exec rounds d = (Ok None, d') /\
    Z.of_nat (length (events_of rid d')) = n + Z.of_nat rounds.
Proof.
  revert d row. induction rounds as [|rounds IH]; intros d row n Hl Hg Hk Hrow Hn H0 Hlt.
  { exists d. split; [done|]. fold n. lia. }
  assert (Hz : 0 <= z) by apply Hcost.
  rewrite (toy_round rounds d row) by (done || nia). fold n.
  assert (Hf : so_final (toy_step w c n) = false) by (simpl; apply Z.eqb_neq; lia).
  rewrite Hf.
  destruct (toy_round_keeps rounds (clock (Datatypes.S rounds)) d row (toy_step w c n)) as
    (Hl' & Hg' & Hk' & Hlen & Hrow'); [done..|]. fold n in Hl', Hg', Hk', Hlen, Hrow'.
  destruct (IH _ _ Hl' Hg' Hk' Hrow') as (d' & He & Hlen');
    [rewrite Hlen; lia|simpl; nia|simpl; nia|].
  exists d'. split; [done|]. rewrite Hlen', Hlen. lia.
Qed.
End ToyExecution.
