(* ===== verification/System.v ===== *)
(** The whole system as a transition system: the database and the worker
    threads that act on it, interleaved statement by statement.

    A worker thread is a claim with its position in [execute_task]:
    [complete_cached] is split where the code awaits, so that a thread can be
    overtaken, or die, between reading the log, missing the cache, recording
    the call, getting the answer and committing.  Every transaction is one
    step.  The clock value and the rows locked by others are arbitrary in
    every step. *)

From S2P Require Import Prelude PyDecimal Json Database Store Leases Engine Budget LlmCache.
From S2P Require Import Execution Invariants.

(** ** States *)
Inductive pc :=
  | Replaying                                      (* about to read the events *)
  | Replayed (evs : list event)                    (* about to compute *)
  | Missed (evs : list event) (key : string)       (* not in the cache: about to record the call *)
  | Asked (evs : list event) (key : string)        (* recorded: the provider is running *)
  | Answered (evs : list event)                    (* cached: about to run the tool *)
  | Ready (i : Z) (o : StepOutcome)                (* about to commit *)
  | Failing (e : exn)                              (* [_handle_error] *)
  | FailReady (i : Z) (e : exn).                   (* about to commit the failure *)

Record thread := Thread { th_claim : Claim; th_pc : pc }.

Record sys := Sys { sys_db : db; threads : gmap N thread }.

Definition sys_init : sys := Sys db_empty ∅.

(** An outcome a workflow may compute: the event shows the cost charged, and a
    final status is terminal.  Both workflows compute no other
    ([Execution.toy_laws], [Execution.agent_laws]), whatever the cost. *)
Definition billed (o : StepOutcome) : Prop :=
  payload_cost (so_payload o) = Ok (so_cost_usd o) /\ TERMINAL (so_final_status o) = true.

(** A thread's claim is of a task of its run, under an attempt already drawn. *)
Definition claim_ok (d : db) (c : Claim) : Prop := exists t,
  tasks d !! claim_task_id c = Some t /\ task_run_id t = claim_run_id c /\
  1 <= claim_attempt c <= task_attempt t.

(** ** Transitions *)
Section Step.
Context (fencing : bool) (exc_str exc_repr : exn -> string).

Definition set_pc (k : N) (c : Claim) (p : pc) (ths : gmap N thread) : gmap N thread :=
  <[k := Thread c p]> ths.

Inductive step : sys -> sys -> Prop :=
  | step_submit now rid tid spec budget d d' ths :
      submit_run now rid tid spec budget d = (Ok rid, d') ->
      step (Sys d ths) (Sys d' ths)
  | step_claim k now locked worker lease c d d' ths :
      ths !! k = None ->
      claim_task now locked worker lease d = (Ok (Some c), d') ->
      step (Sys d ths) (Sys d' (set_pc k c Replaying ths))
  | step_read k c evs d d' ths :
      ths !! k = Some (Thread c Replaying) ->
      read_events (claim_run_id c) d = (Ok evs, d') ->
      step (Sys d ths) (Sys d' (set_pc k c (Replayed evs) ths))
  | step_miss k c evs key d ths :
      ths !! k = Some (Thread c (Replayed evs)) ->
      llm_cache d !! key = None ->
      step (Sys d ths) (Sys d (set_pc k c (Missed evs key) ths))
  | step_ask k c evs key d d' ths :
      ths !! k = Some (Thread c (Missed evs key)) ->
      insert_call (claim_run_id c) (Z.of_nat (length evs)) key (claim_attempt c)
        (Some (claim_worker_id c)) d = (Ok tt, d') ->
      step (Sys d ths) (Sys d' (set_pc k c (Asked evs key) ths))
  | step_answer k c evs key resp d d' ths :
      ths !! k = Some (Thread c (Asked evs key)) ->
      insert_cache key resp d = (Ok tt, d') ->
      step (Sys d ths) (Sys d' (set_pc k c (Answered evs) ths))
  | step_compute k c evs p o d ths :
      ths !! k = Some (Thread c p) -> p = Replayed evs \/ p = Answered evs ->
      billed o ->
      step (Sys d ths) (Sys d (set_pc k c (Ready (Z.of_nat (length evs)) o) ths))
  | step_raise k c p e d ths :
      ths !! k = Some (Thread c p) ->
      step (Sys d ths) (Sys d (set_pc k c (Failing e) ths))
  | step_commit k c i o now b d d' ths :
      ths !! k = Some (Thread c (Ready i o)) ->
      commit_step fencing now c i o d = (Ok b, d') ->
      step (Sys d ths)
           (Sys d' (if so_final o then delete k ths else set_pc k c Replaying ths))
  | step_commit_raise k c i o now e d d' ths :
      ths !! k = Some (Thread c (Ready i o)) ->
      commit_step fencing now c i o d = (Raise e, d') ->
      step (Sys d ths)
           (Sys d' (if is_lease_lost e then delete k ths else set_pc k c (Failing e) ths))
  | step_release k c e now backoff max_attempts r d d' ths :
      ths !! k = Some (Thread c (Failing e)) ->
      retries c e max_attempts = true ->
      release_task now c backoff d = (r, d') ->
      step (Sys d ths) (Sys d' (delete k ths))
  | step_count k c e max_attempts d ths :
      ths !! k = Some (Thread c (Failing e)) ->
      retries c e max_attempts = false ->
      step (Sys d ths) (Sys d (set_pc k c (FailReady (count_events (claim_run_id c) d) e) ths))
  | step_fail k c i e now r d d' ths :
      ths !! k = Some (Thread c (FailReady i e)) ->
      commit_step fencing now c i (failure_outcome exc_str exc_repr c e) d = (r, d') ->
      step (Sys d ths) (Sys d' (delete k ths))
  | step_heartbeat c now lease r d d' ths :
      (* a claim's heartbeat may outlive its thread *)
      claim_ok d c ->
      heartbeat now c lease d = (r, d') ->
      step (Sys d ths) (Sys d' ths)
  | step_reap now locked n d d' ths :
      reap_expired now locked d = (Ok n, d') ->
      step (Sys d ths) (Sys d' ths)
  | step_crash k d ths :
      (* killed, suspended for ever, or cancelled by its heartbeat *)
      step (Sys d ths) (Sys d (delete k ths)).

Definition reachable (s : sys) : Prop := rtc step sys_init s.
End Step.

(** ** The state invariant, with or without fencing *)
Record db_inv (d : db) : Prop := {
  di_gapless : forall rid, gapless rid d;
  di_keyed : forall rid, keyed rid d;
  di_engine : Forall engine_event (er_event <$> events d);
  di_spend : forall rid r, runs d !! rid = Some r ->
    exists costs, mapR event_cost (events_of rid d) = Ok costs /\
      run_spent_usd r = stored_spend costs /\ Z.abs (run_spent_usd r) < pow10 12;
  di_orphan : forall rid, runs d !! rid = None -> events_of rid d = [];
  di_task : forall tid t, tasks d !! tid = Some t ->
    0 <= task_attempt t /\ is_Some (runs d !! task_run_id t);
  di_owner : forall rid, is_Some (runs d !! rid) ->
    exists tid t, tasks d !! tid = Some t /\ task_run_id t = rid;
  di_one : forall tid tid' t t', tasks d !! tid = Some t -> tasks d !! tid' = Some t' ->
    task_run_id t = task_run_id t' -> tid = tid';
  di_calls : Forall (fun cr => exists tid t, tasks d !! tid = Some t /\
    task_run_id t = call_run_id cr /\ call_attempt cr <= task_attempt t) (provider_calls d);
  di_billing : NoDup (call_id <$> provider_calls d);
}.

Definition log_len (rid : uuid) (d : db) : Z := Z.of_nat (length (events_of rid d)).

(** What a thread knows of the log never runs ahead of it. *)
Definition pc_ok (d : db) (c : Claim) (p : pc) : Prop :=
  match p with
  | Replaying | Failing _ => True
  | Replayed evs | Missed evs _ | Asked evs _ | Answered evs =>
      Z.of_nat (length evs) <= log_len (claim_run_id c) d
  | Ready i o => 0 <= i <= log_len (claim_run_id c) d /\ billed o
  | FailReady i _ => 0 <= i <= log_len (claim_run_id c) d
  end.

(** The steps below this one may have been asked under the claim's attempt. *)
Definition ask_bound (d : db) (c : Claim) (p : pc) : option Z :=
  match p with
  | Replaying => Some (log_len (claim_run_id c) d)
  | Replayed evs | Missed evs _ => Some (Z.of_nat (length evs))
  | Asked evs _ | Answered evs => Some (Z.of_nat (length evs) + 1)
  | Ready i _ => Some (i + 1)
  | Failing _ | FailReady _ _ => None
  end.

Definition asked_below (d : db) (c : Claim) (b : option Z) : Prop :=
  match b with
  | Some n => Forall (fun cr => call_run_id cr = claim_run_id c -> call_attempt cr = claim_attempt c ->
                        call_step_index cr < n) (provider_calls d)
  | None => True
  end.

Definition thread_ok (d : db) (th : thread) : Prop :=
  claim_ok d (th_claim th) /\ pc_ok d (th_claim th) (th_pc th) /\
  asked_below d (th_claim th) (ask_bound d (th_claim th) (th_pc th)).

(** No two threads work under the same attempt of a task. *)
Definition unique_claims (ths : gmap N thread) : Prop :=
  forall k k' th th', ths !! k = Some th -> ths !! k' = Some th' ->
    claim_task_id (th_claim th) = claim_task_id (th_claim th') ->
    claim_attempt (th_claim th) = claim_attempt (th_claim th') -> k = k'.

Record inv (s : sys) : Prop := {
  inv_db : db_inv (sys_db s);
  inv_threads : map_Forall (fun _ th => thread_ok (sys_db s) th) (threads s);
  inv_unique : unique_claims (threads s);
}.

(** ** Database changes that keep the invariant *)

(** Only leases, attempts, availability, run status or the cache changed. *)
Record lease_change (d d' : db) : Prop := {
  lc_events : events d' = events d;
  lc_calls : provider_calls d' = provider_calls d;
  lc_runs : forall rid, run_spent_usd <$> runs d' !! rid = run_spent_usd <$> runs d !! rid;
  lc_attempts : attempts_le d d';
  lc_tasks : forall tid t', tasks d' !! tid = Some t' -> exists t, tasks d !! tid = Some t /\
    task_run_id t = task_run_id t' /\ task_attempt t <= task_attempt t';
}.

Lemma lease_change_refl d : lease_change d d.
Proof. split; try done. intros tid t Ht. exists t. split_and!; [done..|lia]. Qed.

Lemma lease_change_row (d : db) tid t t' :
  tasks d !! tid = Some t -> task_run_id t' = task_run_id t -> task_attempt t <= task_attempt t' ->
  lease_change d (set_tasks (<[tid := t']> (tasks d)) d).
Proof.
  intros Ht Hr Ha. split; try done.
  - by eapply attempts_le_update.
  - intros tid' u. simpl. rewrite lookup_insert. case_decide; subst.
    + intros [= <-]. by exists t.
    + intros Hu. exists u. split_and!; [done..|lia].
Qed.

Lemma claim_lease_change now locked w lease d :
  lease_change d (snd (claim_task now locked w lease d)).
Proof.
  split; [| | | apply claim_task_attempts |]; rewrite claim_task_eq;
    destruct (select_claimable _ _ _) as [[tid t]|] eqn:E; simpl; try done;
    autorewrite with phx; try done.
  - intros rid. unfold claimed. destruct (runs d !! task_run_id t) as [r|] eqn:Hr; [|done].
    destruct (is_pending r); [|done]. simpl. rewrite lookup_insert. case_decide; subst; [|done].
    by rewrite Hr.
  - apply select_claimable_Some in E as (Ht & _). intros tid' u. rewrite lookup_insert.
    case_decide; subst; [intros [= <-]; exists t; split_and!; [done..|simpl; lia]|].
    intros Hu. exists u. split_and!; [done..|lia].
  - intros tid t Ht. exists t. split_and!; [done..|lia].
Qed.

Lemma heartbeat_lease_change now c lease d : lease_change d (snd (heartbeat now c lease d)).
Proof.
  rewrite heartbeat_eq. destruct (tasks d !! _) as [t|] eqn:E; [|apply lease_change_refl].
  destruct (_ && _); [|apply lease_change_refl]. eapply lease_change_row; [done..|simpl; lia].
Qed.

Lemma release_lease_change now c backoff d : lease_change d (snd (release_task now c backoff d)).
Proof.
  rewrite release_task_eq. destruct (tasks d !! _) as [t|] eqn:E; [|apply lease_change_refl].
  destruct (held_by _ _); [|apply lease_change_refl]. eapply lease_change_row; [done..|simpl; lia].
Qed.

Lemma reap_lease_change now locked d : lease_change d (snd (reap_expired now locked d)).
Proof.
  split; try done; [apply reap_expired_attempts|].
  intros tid t'. rewrite reap_lookup. destruct (tasks d !! tid) as [t|]; [|done]. simpl.
  intros [= <-]. exists t. by destruct (reapable _ _ _ _).
Qed.

Lemma insert_cache_lease_change key resp d : lease_change d (snd (insert_cache key resp d)).
Proof.
  unfold insert_cache, lift_res, modify. unfold_m.
  destruct (int4 _); [|apply lease_change_refl]. destruct (int4 _); [|apply lease_change_refl].
  destruct (jsonb _); [|apply lease_change_refl].
  destruct (numeric _ _ _); [|apply lease_change_refl]. simpl.
  destruct (llm_cache d !! key); [apply lease_change_refl|].
  split; try done; [by apply attempts_le_same|]. intros tid t Ht. exists t. split_and!; [done..|lia].
Qed.

#[export] Hint Resolve claim_lease_change heartbeat_lease_change release_lease_change
  reap_lease_change insert_cache_lease_change : phx_inv.

Lemma events_of_same rid d d' : events d' = events d -> events_of rid d' = events_of rid d.
Proof. unfold events_of. by intros ->. Qed.

Lemma lease_change_inv d d' : lease_change d d' -> db_inv d -> db_inv d'.
Proof.
  intros [He Hc Hr Ha Ht] [I1 I2 I3 I4 I5 I6 I10 I7 I8 I9].
  assert (Hev : forall rid, events_of rid d' = events_of rid d) by (intros; by apply events_of_same).
  assert (Hrun : forall rid, runs d' !! rid = None <-> runs d !! rid = None).
  { intros rid. specialize (Hr rid). destruct (runs d' !! rid), (runs d !! rid); simpl in *; naive_solver. }
  split.
  - intros rid. unfold gapless. rewrite Hev. apply I1.
  - intros rid. unfold keyed. rewrite Hev. apply I2.
  - by rewrite He.
  - intros rid r Hrid. rewrite Hev. specialize (Hr rid). rewrite Hrid in Hr. simpl in Hr.
    destruct (runs d !! rid) as [r0|] eqn:E; [|done]. injection Hr as ->. by apply I4.
  - intros rid Hn. rewrite Hev. by apply I5, Hrun.
  - intros tid t' Ht'. destruct (Ht _ _ Ht') as (t & Htt & Hrt & Hat).
    destruct (I6 _ _ Htt) as [H0 Hs]. split; [lia|]. rewrite <- Hrt. apply not_eq_None_Some.
    rewrite Hrun. by apply not_eq_None_Some.
  - intros rid Hs. destruct (I10 rid) as (tid & t & Htt & <-).
    { apply not_eq_None_Some. rewrite <- Hrun. by apply not_eq_None_Some. }
    destruct (Ha _ _ Htt) as (t' & Htt' & Hrt' & _). eauto.
  - intros tid tid' u u' Hu Hu' Heq. destruct (Ht _ _ Hu) as (t & Htt & Hrt & _).
    destruct (Ht _ _ Hu') as (t' & Htt' & Hrt' & _). eapply I7; [done..|congruence].
  - rewrite Hc. eapply Forall_impl; [exact I8|]. intros cr (tid & t & Htt & Hrt & Hat).
    destruct (Ha _ _ Htt) as (t' & Htt' & Hrt' & Hat'). exists tid, t'. split_and!; [done|congruence|lia].
  - by rewrite Hc.
Qed.

(** ** Threads while others act *)

(** Attempts and logs only grew, and no call was added. *)
Record later (d d' : db) : Prop := {
  lt_attempts : attempts_le d d';
  lt_logs : forall rid, log_len rid d <= log_len rid d';
  lt_calls : provider_calls d' = provider_calls d;
}.

Lemma lease_change_later d d' : lease_change d d' -> later d d'.
Proof.
  intros [He Hc _ Ha _]. split; [done| |done]. intros rid. unfold log_len.
  rewrite (events_of_same rid d d' He). lia.
Qed.

Lemma claim_ok_le d d' c : attempts_le d d' -> claim_ok d c -> claim_ok d' c.
Proof.
  intros Ha (t & Ht & Hr & Hb). destruct (Ha _ _ Ht) as (t' & Ht' & Hr' & Hb').
  exists t'. split_and!; [done|congruence|lia|lia].
Qed.

Lemma pc_ok_le d d' c p :
  (forall rid, log_len rid d <= log_len rid d') -> pc_ok d c p -> pc_ok d' c p.
Proof. intros Hl. specialize (Hl (claim_run_id c)). destruct p; simpl; try done; try lia. intros [? ?]; split; [lia|done]. Qed.

Lemma asked_below_weaken d c m n :
  m <= n -> asked_below d c (Some m) -> asked_below d c (Some n).
Proof. intros Hmn H. simpl in *. eapply Forall_impl; [exact H|]. intros cr Hcr ? ?. specialize (Hcr ltac:(done) ltac:(done)). lia. Qed.

Lemma asked_below_later d d' c p :
  later d d' -> asked_below d c (ask_bound d c p) -> asked_below d' c (ask_bound d' c p).
Proof.
  intros [_ Hl Hc]. unfold asked_below at 2. rewrite Hc. destruct p; try done.
  apply asked_below_weaken, Hl.
Qed.

Lemma thread_ok_later d d' th : later d d' -> thread_ok d th -> thread_ok d' th.
Proof.
  intros Hl (Hc & Hp & Ha). split_and!.
  - by eapply claim_ok_le; [apply Hl|].
  - by eapply pc_ok_le; [apply Hl|].
  - by eapply asked_below_later.
Qed.

Lemma threads_later d d' (ths : gmap N thread) :
  later d d' -> map_Forall (fun _ th => thread_ok d th) ths ->
  map_Forall (fun _ th => thread_ok d' th) ths.
Proof. intros Hl H k th Hk. eapply thread_ok_later; [done|by eapply H]. Qed.

Lemma unique_set_pc ths k c p p' :
  ths !! k = Some (Thread c p) -> unique_claims ths -> unique_claims (set_pc k c p' ths).
Proof.
  intros Hk Hu k1 k2 th1 th2. unfold set_pc. rewrite !lookup_insert.
  repeat case_decide; subst; try (intros [= <-]); try (intros Hk1); try (intros [= <-]);
    try done; simpl; intros.
  - by eapply (Hu _ _ (Thread c p)).
  - by eapply (Hu _ _ _ (Thread c p)).
  - by eapply Hu.
Qed.

Lemma unique_delete ths k : unique_claims ths -> unique_claims (delete k ths).
Proof. intros Hu k1 k2 th1 th2 H1%lookup_delete_Some H2%lookup_delete_Some. naive_solver. Qed.

#[export] Hint Resolve unique_delete : phx_inv.

(** ** Submission, calls and commits keep the invariant *)
Lemma submit_run_Ok now rid tid spec budget d rid' d' :
  submit_run now rid tid spec budget d = (Ok rid', d') ->
  runs d !! rid = None /\ tasks d !! tid = None /\ events d' = events d /\
  provider_calls d' = provider_calls d /\
  tasks d' = <[tid := TaskRow rid Queued None None 0 now]> (tasks d) /\
  exists b, runs d' = <[rid := RunRow spec Pending b 0 now None]> (runs d).
Proof.
  intros E. unfold submit_run in E. rewrite transaction_Ok in E.
  apply bind_Ok_inv in E as (x & d1 & E1 & E). unfold insert_run in E1.
  apply bind_Ok_inv in E1 as (b & d2 & Eb & E1). injection Eb as _ <-.
  apply bind_Ok_inv in E1 as ([] & d2' & Ej & E1). injection Ej as _ <-.
  apply bind_Ok_inv in E1 as (b4 & d3 & Eb4 & E1). injection Eb4 as _ <-.
  apply bind_Ok_inv in E1 as ([] & d4 & Er & E1). injection E1 as <- <-.
  unfold insert_run_row in Er. destruct (runs d !! rid) eqn:Hr; [done|]. injection Er as <-.
  apply bind_Ok_inv in E as (y & d5 & Et & E). injection E as <- <-. unfold enqueue_task in Et.
  apply bind_Ok_inv in Et as ([] & d6 & Et & E). injection E as <- <-.
  unfold insert_task_row in Et. simpl in Et. rewrite lookup_insert_eq in Et.
  destruct (tasks d !! tid) eqn:Ht; [done|]. injection Et as <-. simpl. split_and!; try done. eauto.
Qed.

Lemma submit_later now rid tid spec budget d rid' d' :
  submit_run now rid tid spec budget d = (Ok rid', d') -> later d d'.
Proof.
  intros (_ & Ht & He & Hc & Htasks & _)%submit_run_Ok. split; [| |done].
  - intros tid' t Ht'. exists t. rewrite Htasks, lookup_insert_ne by congruence. split_and!; [done..|lia].
  - intros r. unfold log_len. by rewrite (events_of_same r d d' He).
Qed.

Lemma submit_inv now rid tid spec budget d rid' d' :
  submit_run now rid tid spec budget d = (Ok rid', d') -> db_inv d -> db_inv d'.
Proof.
  intros E [I1 I2 I3 I4 I5 I6 I10 I7 I8 I9]. pose proof (submit_later _ _ _ _ _ _ _ _ E) as [Ha _ _].
  apply submit_run_Ok in E as (Hr & Ht & He & Hc & Htasks & b & Hruns).
  assert (Hev : forall r, events_of r d' = events_of r d) by (intros; by apply events_of_same).
  split.
  - intros r. unfold gapless. rewrite Hev. apply I1.
  - intros r. unfold keyed. rewrite Hev. apply I2.
  - by rewrite He.
  - intros r row. rewrite Hev, Hruns, lookup_insert. case_decide; subst; [|apply I4].
    intros [= <-]. exists []. by rewrite (I5 r Hr).
  - intros r. rewrite Hev, Hruns, lookup_insert. case_decide; [done|apply I5].
  - intros t' row. rewrite Htasks, Hruns, lookup_insert. case_decide; subst.
    + intros [= <-]. simpl. rewrite lookup_insert_eq. split; [lia|eauto].
    + intros [? [x Hx]]%I6. split; [done|]. rewrite lookup_insert. case_decide; eauto.
  - intros r. rewrite Hruns, lookup_insert. case_decide as Hd; subst.
    + intros _. exists tid, (TaskRow r Queued None None 0 now). rewrite Htasks, lookup_insert_eq. done.
    + intros Hs. destruct (I10 r Hs) as (t1 & t & Htt & <-). destruct (Ha _ _ Htt) as (t' & Htt' & Hrt' & _). eauto.
  - intros t1 t2 u1 u2. rewrite Htasks, !lookup_insert. repeat case_decide; subst; [done| | |apply I7].
    + intros [= <-] Hu2 Heq. simpl in Heq. apply I6 in Hu2 as [_ [x Hx]]. congruence.
    + intros Hu1 [= <-] Heq. simpl in Heq. apply I6 in Hu1 as [_ [x Hx]]. congruence.
  - rewrite Hc. eapply Forall_impl; [exact I8|]. intros cr (tid1 & t & Htt & Hrt & Hat).
    destruct (Ha _ _ Htt) as (t' & Htt' & Hrt' & Hat'). exists tid1, t'. split_and!; [done|congruence|lia].
  - by rewrite Hc.
Qed.

Lemma insert_call_Ok_inv rid i key a w d d' :
  insert_call rid i key a w d = (Ok tt, d') ->
  d' = set_provider_calls (provider_calls d ++ [CallRow rid i key a w]) d.
Proof.
  unfold insert_call, lift_res, modify. unfold_m.
  destruct (int4 i) as [x|] eqn:Hi; [|done]. apply int4_Ok_inv in Hi as ->.
  destruct (int4 a) as [y|] eqn:Ha; [|done]. apply int4_Ok_inv in Ha as ->. by intros [= <-].
Qed.

(** Recording the call of a step whose earlier calls under this attempt were
    all for earlier steps. *)
Lemma ask_inv c n key w d :
  db_inv d -> claim_ok d c -> asked_below d c (Some n) ->
  db_inv (set_provider_calls (provider_calls d ++ [CallRow (claim_run_id c) n key (claim_attempt c) w]) d).
Proof.
  intros [I1 I2 I3 I4 I5 I6 I10 I7 I8 I9] (t & Ht & Hr & Hb) Hask. split; try done; simpl.
  - apply Forall_app. split; [done|]. apply Forall_singleton. exists (claim_task_id c), t. simpl.
    split_and!; [done..|lia].
  - rewrite fmap_app. apply NoDup_app. split_and!; [done| |apply NoDup_singleton].
    intros x Hx Hx'%list_elem_of_singleton. subst x. apply list_elem_of_fmap in Hx as (cr & Heq & Hcr).
    unfold call_id, call_key in Heq. simpl in Heq. injection Heq as H1 H2 H3.
    simpl in Hask. rewrite Forall_forall in Hask. specialize (Hask cr Hcr ltac:(done) ltac:(done)). lia.
Qed.

Lemma ask_other_thread c n key w d th :
  db_inv d -> claim_ok d c -> thread_ok d th ->
  (claim_task_id (th_claim th) = claim_task_id c -> claim_attempt (th_claim th) <> claim_attempt c) ->
  thread_ok (set_provider_calls (provider_calls d ++ [CallRow (claim_run_id c) n key (claim_attempt c) w]) d) th.
Proof.
  intros Hinv (t & Ht & Hr & _) (Hc & Hp & Ha) Hdiff. split_and!; [done|done|].
  destruct Hc as (t' & Ht' & Hr' & _).
  change (ask_bound _ (th_claim th) (th_pc th)) with (ask_bound d (th_claim th) (th_pc th)).
  destruct (ask_bound d _ _) as [b|]; [|done]. simpl in *. apply Forall_app. split; [done|].
  apply Forall_singleton. simpl. intros Hrun Hatt. exfalso. apply Hdiff; [|done].
  eapply (di_one d Hinv); [done..|congruence].
Qed.

Lemma engine_event_commit rid seq ty c o key :
  engine_event (Event rid seq ty (commit_payload c o) key).
Proof.
  exists (claim_worker_id c), (claim_attempt c), (so_final o). simpl. unfold commit_payload.
  by rewrite dget_dset_eq.
Qed.

Lemma commit_values_Ok c o r z :
  commit_values c o r = Ok z ->
  jsonb (JObj (commit_payload c o)) = Ok tt /\ z = add_cost (run_spent_usd r) (so_cost_usd o) /\
  Z.abs z < pow10 12.
Proof.
  unfold commit_values. unfold_m. destruct (jsonb _) as [[]|]; [|done]. intros H. split; [done|].
  by apply numeric_add_cost.
Qed.

(** A commit as it happens: nothing, or the next event of its run. *)
Lemma commit_step_Ok_inv fencing now c i o d b d' :
  gapless (claim_run_id c) d -> commit_step fencing now c i o d = (Ok b, d') ->
  fence_ok fencing now c d = true /\
  ((b = false /\ d' = d /\ select_seq (claim_run_id c) (step_key (claim_run_id c) i) d <> None) \/
   (b = true /\ exists r z, runs d !! claim_run_id c = Some r /\
      select_seq (claim_run_id c) (step_key (claim_run_id c) i) d = None /\
      commit_values c o r = Ok z /\ d' = committed now c i o r z d)).
Proof.
  intros Hg. rewrite commit_step_eq by done. destruct (fence_ok _ _ _ _); [|done]. simpl.
  destruct (runs d !! _) as [r|]; [|done]. destruct (select_seq _ _ d).
  - intros [= <- <-]. split; [done|]. by left.
  - destruct (commit_values _ _ _) as [z|] eqn:Hz; [|done]. intros [= <- <-]. split; [done|]. right.
    split; [done|]. by exists r, z.
Qed.

Lemma commit_step_Raise_inv fencing now c i o d e d' :
  commit_step fencing now c i o d = (Raise e, d') -> d' = d.
Proof. apply transaction_atomic. Qed.

Lemma committed_later now c i o r z d : later d (committed now c i o r z d).
Proof.
  split; [apply attempts_committed| |apply calls_committed].
  intros rid. unfold log_len. rewrite events_committed, length_app. lia.
Qed.

Lemma committed_inv now c o r z d :
  db_inv d -> runs d !! claim_run_id c = Some r -> billed o -> commit_values c o r = Ok z ->
  db_inv (committed now c (log_len (claim_run_id c) d) o r z d).
Proof.
  intros Hinv Hr (Hbill & _) Hz. pose proof Hinv as [I1 I2 I3 I4 I5 I6 I10 I7 I8 I9].
  set (d' := committed _ _ _ _ _ _ _). set (rid := claim_run_id c) in *.
  apply commit_values_Ok in Hz as (_ & Hz & Hlt).
  assert (Hpres : lease_change d (set_tasks (tasks d') d)).
  { unfold d'. rewrite tasks_committed. destruct (so_final o).
    - destruct (tasks d !! claim_task_id c) as [t|] eqn:Et.
      + assert (alter finish_task_row (claim_task_id c) (tasks d) =
                <[claim_task_id c := finish_task_row t]> (tasks d)) as ->.
        { apply map_eq. intros j. rewrite lookup_alter, lookup_insert. case_decide; [subst; by rewrite Et|done]. }
        eapply lease_change_row; [done..|simpl; lia].
      + assert (alter finish_task_row (claim_task_id c) (tasks d) = tasks d) as ->.
        { apply map_eq. intros j. rewrite lookup_alter. case_decide; [subst; by rewrite Et|done]. }
        destruct d. apply lease_change_refl.
    - destruct d. apply lease_change_refl. }
  apply lease_change_inv in Hpres as [_ _ _ _ _ J6 J10 J7 J8 _]; [|done]. simpl in J6, J7, J8, J10.
  assert (Hruns : forall rid', runs d' !! rid' = None <-> runs d !! rid' = None).
  { intros rid'. unfold d'. rewrite runs_committed. fold rid. rewrite lookup_insert.
    case_decide; [subst; by rewrite Hr|done]. }
  split.
  - intros rid'. by apply gapless_committed.
  - intros rid'. by apply keyed_committed.
  - unfold d', committed. destruct (so_final o); simpl; rewrite fmap_app; apply Forall_app;
      (split; [done|apply Forall_singleton, engine_event_commit]).
  - intros rid' row. unfold d'. rewrite runs_committed, events_committed. fold rid. rewrite lookup_insert.
    case_decide; subst.
    + intros [= <-]. rewrite committed_run_spent. destruct (I4 _ _ Hr) as (costs & Hcosts & Hs & _).
      exists (costs ++ [so_cost_usd o]). rewrite stored_spend_snoc, <- Hs. split_and!; [|done|done].
      apply mapR_Ok_Forall2. apply mapR_Ok_Forall2 in Hcosts. apply Forall2_app; [done|].
      constructor; [|constructor]. unfold event_cost. simpl. by rewrite <- payload_cost_commit with (c := c) in Hbill.
    + rewrite app_nil_r. apply I4.
  - intros rid' Hn. apply Hruns in Hn. unfold d'. rewrite events_committed. fold rid.
    rewrite decide_False by congruence. rewrite app_nil_r. by apply I5.
  - intros tid t Htt. destruct (J6 _ _ Htt) as [H0 Hs]. split; [done|]. apply not_eq_None_Some.
    rewrite Hruns. by apply not_eq_None_Some.
  - intros rid' Hs. apply J10. apply not_eq_None_Some. rewrite <- Hruns. by apply not_eq_None_Some.
  - exact J7.
  - unfold d' at 2. rewrite calls_committed. exact J8.
  - unfold d'. by rewrite calls_committed.
Qed.

(** ** Every step keeps the invariant *)
Section Preservation.
Context (fencing : bool) (exc_str exc_repr : exn -> string).
Local Abbreviation step := (step fencing exc_str exc_repr).

Lemma inv_init : inv sys_init.
Proof.
  split; simpl; [|by apply map_Forall_empty|by intros k k' th th' H].
  split; try done; try constructor. by intros rid [x Hx].
Qed.

(** A step that moves one thread and leaves the database. *)
Lemma inv_move d ths k c p p' :
  inv (Sys d ths) -> ths !! k = Some (Thread c p) ->
  (claim_ok d c -> pc_ok d c p -> asked_below d c (ask_bound d c p) ->
   pc_ok d c p' /\ asked_below d c (ask_bound d c p')) ->
  inv (Sys d (set_pc k c p' ths)).
Proof.
  intros [Hdb Hth Hu] Hk Hmove. simpl in *. split; simpl; [done| |by eapply unique_set_pc].
  unfold set_pc. apply map_Forall_insert_2; [|done]. destruct (Hth k _ Hk) as (Hc & Hp & Ha).
  split; [done|]. by apply Hmove.
Qed.

(** A step that changes the database under the threads. *)
Lemma inv_later d d' ths ths' :
  inv (Sys d ths) -> db_inv d' -> later d d' -> ths' ⊆ ths -> inv (Sys d' ths').
Proof.
  intros [_ Hth Hu] Hdb Hl Hsub. simpl in *. split; simpl; [done| |].
  - intros k th Hk. eapply thread_ok_later; [done|]. apply (Hth k). by eapply lookup_weaken.
  - intros k k' th th' Hk Hk'. apply Hu; by eapply lookup_weaken.
Qed.

Lemma inv_lease d d' ths ths' :
  inv (Sys d ths) -> lease_change d d' -> ths' ⊆ ths -> inv (Sys d' ths').
Proof.
  intros Hinv Hl. apply (inv_later d d' ths); [done| |by apply lease_change_later].
  by eapply lease_change_inv; [|apply Hinv].
Qed.

Lemma claim_fresh now locked worker lease c d d' ths :
  inv (Sys d ths) -> claim_task now locked worker lease d = (Ok (Some c), d') ->
  claim_ok d' c /\ asked_below d' c (Some (log_len (claim_run_id c) d')) /\
  forall k th, ths !! k = Some th -> claim_task_id (th_claim th) = claim_task_id c ->
    claim_attempt (th_claim th) <> claim_attempt c.
Proof.
  intros [Hdb Hth _] E. pose proof (claim_lease_change now locked worker lease d) as Hlc.
  rewrite E in Hlc. simpl in Hlc. rewrite claim_task_eq in E.
  destruct (select_claimable _ _ _) as [[tid t]|] eqn:Es; [|done]. injection E as <- <-.
  apply select_claimable_Some in Es as (Ht & _). simpl.
  destruct (di_task d Hdb _ _ Ht) as [H0 _]. split_and!.
  - exists (lease_row worker (now + lease) t). simpl. rewrite tasks_claimed, lookup_insert_eq.
    split_and!; [done..|lia|lia].
  - rewrite (lc_calls _ _ Hlc). eapply Forall_impl; [apply (di_calls d Hdb)|].
    intros cr (tid' & t' & Ht' & Hr' & Ha') Hrun Hatt. simpl in *.
    assert (tid' = tid) as -> by (eapply (di_one d Hdb); [done..|congruence]).
    assert (t' = t) as -> by congruence. lia.
  - intros k th Hk Htid Hatt. simpl in *. destruct (Hth k th Hk) as ((t' & Ht' & _ & Hb) & _).
    rewrite Htid in Ht'. assert (t' = t) as -> by congruence. lia.
Qed.

Lemma commit_db_inv now c i o b d d' :
  db_inv d -> 0 <= i <= log_len (claim_run_id c) d -> billed o ->
  commit_step fencing now c i o d = (Ok b, d') ->
  db_inv d' /\ later d d' /\ i + 1 <= log_len (claim_run_id c) d'.
Proof.
  intros Hdb Hi Hbill E. apply commit_step_Ok_inv in E as [_ E]; [|apply Hdb].
  pose proof (keyed_select_None (claim_run_id c) d i (di_keyed d Hdb _) ltac:(lia)) as Hsel.
  fold (log_len (claim_run_id c) d) in Hsel.
  destruct E as [(_ & -> & Hs)|(_ & r & zt & Hr & Hs & Hz & ->)].
  - split; [done|]. split; [by apply lease_change_later, lease_change_refl|].
    rewrite Hsel in Hs. lia.
  - apply Hsel in Hs. assert (i = log_len (claim_run_id c) d) as -> by lia.
    split; [by eapply committed_inv|]. split; [apply committed_later|].
    unfold log_len at 2. rewrite events_committed, decide_True, length_app by done. unfold log_len. simpl. lia.
Qed.

Lemma inv_commit now k c i o b d d' ths :
  inv (Sys d ths) -> ths !! k = Some (Thread c (Ready i o)) ->
  0 <= i <= log_len (claim_run_id c) d -> billed o ->
  asked_below d c (Some (i + 1)) ->
  commit_step fencing now c i o d = (Ok b, d') ->
  inv (Sys d' (if so_final o then delete k ths else set_pc k c Replaying ths)).
Proof.
  intros Hinv Hk Hi Hbill Hask E.
  destruct (commit_db_inv _ _ _ _ _ _ _ (inv_db _ Hinv) Hi Hbill E) as (Hdb' & Hl & Hlen).
  destruct (so_final o); [by apply (inv_later d _ ths); [..|apply delete_subseteq]|].
  apply (inv_move d' ths k c (Ready i o)); [by apply (inv_later d _ ths)|done|].
  intros _ _ _. split; [done|]. simpl. rewrite (lt_calls _ _ Hl).
  apply (asked_below_weaken d c (i + 1)); [lia|done].
Qed.

Lemma failure_outcome_billed c e : billed (failure_outcome exc_str exc_repr c e).
Proof. done. Qed.

Lemma step_inv s s' : inv s -> step s s' -> inv s'.
Proof.
  intros Hinv Hst. destruct Hst.
  - apply (inv_later d _ ths); [done|by eapply submit_inv; [|apply Hinv]|by eapply submit_later|done].
  - pose proof (claim_fresh _ _ _ _ _ _ _ _ Hinv H0) as (Hc & Ha & Hu).
    pose proof (claim_lease_change now locked worker lease d) as Hlc. rewrite H0 in Hlc. simpl in Hlc.
    pose proof (inv_lease d d' ths ths Hinv Hlc ltac:(done)) as [Hdb Hth Hun]. simpl in *.
    split; simpl; [done|by apply map_Forall_insert_2|].
    intros k1 k2 th1 th2. unfold set_pc. rewrite !lookup_insert.
    repeat case_decide; subst; try done; intros Hk1 Hk2; simplify_eq; simpl; intros.
    + by destruct (Hu _ _ Hk2).
    + by destruct (Hu _ _ Hk1).
    + by eapply Hun.
  - rewrite read_events_gapless in H0 by apply Hinv. injection H0 as <- <-.
    eapply inv_move; [done..|]. intros _ _ Ha. split; [simpl; unfold log_len; lia|done].
  - by eapply inv_move.
  - apply insert_call_Ok_inv in H0 as ->. pose proof Hinv as [Hdb Hth Hu]. simpl in *.
    destruct (Hth _ _ H) as (Hc & Hp & Ha). simpl in Hc, Hp, Ha. split; simpl.
    + by apply ask_inv.
    + apply map_Forall_lookup_2. intros k' th. unfold set_pc. rewrite lookup_insert. case_decide as Hne; subst.
      * intros [= <-]. split_and!; [done|done|]. simpl. apply Forall_app. split.
        -- by apply (asked_below_weaken d c (Z.of_nat (length evs))); [lia|].
        -- apply Forall_singleton. simpl. lia.
      * intros Hk'. apply ask_other_thread; [done..|by eapply Hth|].
        intros Ht1 Ha1. apply Hne. symmetry. by eapply (Hu _ _ _ (Thread c (Missed evs key))).
    + by eapply unique_set_pc.
  - pose proof (insert_cache_lease_change key resp d) as Hlc. rewrite H0 in Hlc.
    apply (inv_move d' ths k c (Asked evs key)); [by apply (inv_lease d _ ths)|done|].
    by intros _ Hp Ha.
  - eapply inv_move; [done..|]. intros _ Hp Ha. simpl. destruct H0 as [-> | ->]; simpl in Hp, Ha.
    + split; [split; [lia|done]|]. eapply asked_below_weaken; [|done]. lia.
    + split; [split; [lia|done]|]. eapply asked_below_weaken; [|done]. lia.
  - by eapply inv_move.
  - destruct (inv_threads _ Hinv k _ H) as (_ & (Hi & Hb) & Ha). simpl in *.
    by eapply inv_commit.
  - apply commit_step_Raise_inv in H0 as ->. destruct (is_lease_lost e).
    + apply (inv_lease d _ ths); [done|apply lease_change_refl|apply delete_subseteq].
    + by eapply inv_move.
  - apply (inv_lease d _ ths); [done| |apply delete_subseteq].
    pose proof (release_lease_change now c backoff d) as Hlc. by rewrite H1 in Hlc.
  - eapply inv_move; [done..|]. intros _ _ _. split; [|done]. simpl. unfold count_events, log_len. lia.
  - destruct r as [b|ex].
    + destruct (inv_threads _ Hinv k _ H) as (_ & Hi & _). simpl in *.
      destruct (commit_db_inv _ _ _ _ _ _ _ (inv_db _ Hinv) Hi (failure_outcome_billed c e) H0)
        as (Hdb' & Hl & _). by apply (inv_later d _ ths); [..|apply delete_subseteq].
    + apply commit_step_Raise_inv in H0 as ->.
      apply (inv_lease d _ ths); [done|apply lease_change_refl|apply delete_subseteq].
  - apply (inv_lease d _ ths); [done| |done].
    pose proof (heartbeat_lease_change now c lease d) as Hlc. by rewrite H0 in Hlc.
  - apply (inv_lease d _ ths); [done| |done].
    pose proof (reap_lease_change now locked d) as Hlc. by rewrite H in Hlc.
  - apply (inv_lease d _ ths); [done|apply lease_change_refl|apply delete_subseteq].
Qed.
End Preservation.
