(* ===== verification/Safety.v ===== *)
(** What holds in every reachable state of the system: the properties that do
    not need fencing, those that do, and when the checks of the chaos report
    pass. *)

From S2P Require Import Prelude PyDecimal Json Database Store Leases Engine Budget LlmCache.
From S2P Require Import Execution Invariants System.

(** ** With fencing *)
Record fenced_inv (d : db) : Prop := {
  fi_writer : forall rid e, e ∈ events_of rid d -> exists tid t, tasks d !! tid = Some t /\
    task_run_id t = rid /\ ev_attempt e <= task_attempt t /\
    (ev_final e = true -> task_status_of t = Done);
  fi_sorted : forall rid, Sorted Z.le (0 :: (ev_attempt <$> events_of rid d));
  fi_final : forall rid, final_last (events_of rid d);
  fi_done : forall tid t, tasks d !! tid = Some t -> task_status_of t = Done ->
    exists r, runs d !! task_run_id t = Some r /\ TERMINAL (run_status_of r) = true;
  fi_ended : forall rid r, runs d !! rid = Some r -> TERMINAL (run_status_of r) = true ->
    exists tid t, tasks d !! tid = Some t /\ task_run_id t = rid /\ task_status_of t = Done;
}.

(** The change starts or ends no task and no run. *)
Record same_ends (d d' : db) : Prop := {
  se_tasks : forall tid t', tasks d' !! tid = Some t' -> exists t, tasks d !! tid = Some t /\
    task_run_id t = task_run_id t' /\ (task_status_of t = Done <-> task_status_of t' = Done);
  se_runs : forall rid, TERMINAL ∘ run_status_of <$> runs d' !! rid =
                        TERMINAL ∘ run_status_of <$> runs d !! rid;
}.

Lemma same_ends_refl d : same_ends d d.
Proof. split; [|done]. intros tid t Ht. by exists t. Qed.

Lemma same_ends_row (d : db) tid t t' :
  tasks d !! tid = Some t -> task_run_id t' = task_run_id t ->
  (task_status_of t = Done <-> task_status_of t' = Done) ->
  same_ends d (set_tasks (<[tid := t']> (tasks d)) d).
Proof.
  intros Ht Hr Hs. split; [|done]. intros tid' u. simpl. rewrite lookup_insert. case_decide; subst.
  - intros [= <-]. by exists t.
  - intros Hu. by exists u.
Qed.

Lemma claim_same_ends now locked w lease d : same_ends d (snd (claim_task now locked w lease d)).
Proof.
  rewrite claim_task_eq. destruct (select_claimable _ _ _) as [[tid t]|] eqn:E; [|apply same_ends_refl].
  apply select_claimable_Some in E as (Ht & Hq & _). simpl.
  pose proof (same_ends_row d tid t (lease_row w (now + lease) t) Ht eq_refl) as Hrow.
  unfold claimed. destruct (runs d !! task_run_id t) as [r|] eqn:Hr; [|apply Hrow; by rewrite Hq].
  destruct (is_pending r) eqn:Hp; [|apply Hrow; by rewrite Hq].
  split; [apply Hrow; by rewrite Hq|]. intros rid. simpl. rewrite lookup_insert. case_decide; subst; [|done].
  rewrite Hr. unfold is_pending in Hp. bool_to_prop. simpl. unfold compose. simpl. by rewrite Hp.
Qed.

Lemma heartbeat_same_ends now c lease d : same_ends d (snd (heartbeat now c lease d)).
Proof.
  rewrite heartbeat_eq. destruct (tasks d !! _) as [t|] eqn:E; [|apply same_ends_refl].
  destruct (_ && _); [|apply same_ends_refl]. by eapply same_ends_row.
Qed.

Lemma release_same_ends now c backoff d : same_ends d (snd (release_task now c backoff d)).
Proof.
  rewrite release_task_eq. destruct (tasks d !! _) as [t|] eqn:E; [|apply same_ends_refl].
  destruct (held_by _ _) eqn:Hh; [|apply same_ends_refl]. apply held_by_spec in Hh as (_ & _ & Hl).
  eapply same_ends_row; [done..|]. by rewrite Hl.
Qed.

Lemma reap_same_ends now locked d : same_ends d (snd (reap_expired now locked d)).
Proof.
  split; [|done]. intros tid t'. rewrite reap_lookup. destruct (tasks d !! tid) as [t|]; [|done]. simpl.
  intros [= <-]. exists t. destruct (reapable now locked tid t) eqn:Hr; [|done]. split_and!; [done..|].
  unfold reapable, is_leased in Hr. bool_to_prop. rewrite H. done.
Qed.

Lemma insert_cache_same_ends key resp d : same_ends d (snd (insert_cache key resp d)).
Proof.
  assert (Hx : tasks (snd (insert_cache key resp d)) = tasks d /\ runs (snd (insert_cache key resp d)) = runs d).
  { unfold insert_cache, lift_res, modify. unfold_m. destruct (int4 _); [|done]. destruct (int4 _); [|done].
    destruct (jsonb _); [|done]. destruct (numeric _ _ _); [|done]. simpl. by destruct (llm_cache d !! key). }
  destruct Hx as [Ht Hr]. split; [|by rewrite Hr]. rewrite Ht. intros tid t Htt. by exists t.
Qed.

Lemma same_ends_fenced d d' :
  db_inv d -> lease_change d d' -> same_ends d d' -> fenced_inv d -> fenced_inv d'.
Proof.
  intros Hdb [He _ _ Ha _] [Ht Hr] [F1 F2 F3 F4 F5].
  assert (Hev : forall rid, events_of rid d' = events_of rid d) by (intros; by apply events_of_same).
  split.
  - intros rid e Hin. rewrite Hev in Hin. destruct (F1 _ _ Hin) as (tid & t & Htt & Hrt & Hat & Hf).
    destruct (Ha _ _ Htt) as (t' & Htt' & Hrt' & Hat'). exists tid, t'.
    split_and!; [done|congruence|lia|]. intros Hfin. destruct (Ht _ _ Htt') as (t2 & Ht2 & _ & Hd).
    assert (t2 = t) as -> by congruence. by apply Hd, Hf.
  - intros rid. by rewrite Hev.
  - intros rid. by rewrite Hev.
  - intros tid t' Htt' Hd. destruct (Ht _ _ Htt') as (t & Htt & Hrt & Hdd). apply Hdd in Hd.
    destruct (F4 _ _ Htt Hd) as (r & Hrr & Hterm). specialize (Hr (task_run_id t')). rewrite <- Hrt in *.
    rewrite Hrr in Hr. destruct (runs d' !! task_run_id t) as [r'|]; [|done]. simpl in Hr.
    injection Hr as Hr. exists r'. split; [done|]. unfold compose in Hr. congruence.
  - intros rid r' Hr' Hterm. specialize (Hr rid). rewrite Hr' in Hr. simpl in Hr.
    destruct (runs d !! rid) as [r|] eqn:Hrr; [|done]. injection Hr as Hr. unfold compose in Hr.
    destruct (F5 rid r Hrr) as (tid & t & Htt & Hrt & Hd); [congruence|].
    destruct (Ha _ _ Htt) as (t' & Htt' & Hrt' & _). destruct (Ht _ _ Htt') as (t2 & Ht2 & _ & Hdd).
    assert (t2 = t) as -> by congruence. exists tid, t'. split_and!; [done|congruence|]. by apply Hdd.
Qed.

Lemma submit_fenced now rid tid spec budget d rid' d' :
  submit_run now rid tid spec budget d = (Ok rid', d') -> db_inv d -> fenced_inv d -> fenced_inv d'.
Proof.
  intros E Hdb [F1 F2 F3 F4 F5]. pose proof (submit_later _ _ _ _ _ _ _ _ E) as [Ha _ _].
  apply submit_run_Ok in E as (Hr & Ht & He & Hc & Htasks & b & Hruns).
  assert (Hev : forall r, events_of r d' = events_of r d) by (intros; by apply events_of_same).
  assert (Hkeep : forall tid' t, tasks d !! tid' = Some t -> tasks d' !! tid' = Some t)
    by (intros; rewrite Htasks, lookup_insert_ne by congruence; done).
  split.
  - intros r e Hin. rewrite Hev in Hin. destruct (F1 _ _ Hin) as (t1 & t & Htt & ?). exists t1, t. auto.
  - intros r. by rewrite Hev.
  - intros r. by rewrite Hev.
  - intros t1 t. rewrite Htasks, lookup_insert. case_decide; subst; [by intros [= <-]|]. intros Htt Hd.
    destruct (F4 _ _ Htt Hd) as (r & Hrr & Hterm). exists r. rewrite Hruns, lookup_insert_ne by congruence. done.
  - intros r row. rewrite Hruns, lookup_insert. case_decide; subst; [by intros [= <-]|]. intros Hrr Hterm.
    destruct (F5 _ _ Hrr Hterm) as (t1 & t & Htt & ?). exists t1, t. auto.
Qed.

Lemma same_tables_fenced d d' : same_engine_tables d d' -> fenced_inv d -> fenced_inv d'.
Proof.
  intros (Hr & He & Ht) [F1 F2 F3 F4 F5].
  assert (Hev : forall r, events_of r d' = events_of r d) by (intros; by apply events_of_same).
  split; intros *; rewrite ?Hev, ?Hr, ?Ht; eauto.
Qed.

(** ** Fenced commits *)
Lemma Sorted_Zle_snoc l a : Sorted Z.le l -> Forall (fun x => x <= a) l -> Sorted Z.le (l ++ [a]).
Proof.
  induction 1 as [|x l Hs IH Hd]; simpl; intros Hle; [repeat constructor|].
  apply Forall_cons in Hle as [Hx Hle]. constructor; [auto|].
  destruct l as [|y l]; constructor; [lia|]. by apply HdRel_inv in Hd.
Qed.

Lemma final_last_snoc evs e : Forall (fun e => ev_final e = false) evs -> final_last (evs ++ [e]).
Proof.
  induction 1 as [|x evs Hx _ IH]; simpl.
  - apply final_last_cons. split; [done|apply final_last_nil].
  - apply final_last_cons. split; [congruence|done].
Qed.

Lemma committed_event_meta rid seq ty c o key :
  ev_attempt (Event rid seq ty (commit_payload c o) key) = claim_attempt c /\
  ev_final (Event rid seq ty (commit_payload c o) key) = so_final o.
Proof.
  unfold ev_attempt, ev_final, ev_meta. simpl. unfold commit_payload. rewrite dget_dset_eq. done.
Qed.

(** What the fence check tells about the task. *)
Lemma fence_ok_task now c d :
  fence_ok true now c d = true -> exists t, tasks d !! claim_task_id c = Some t /\
    task_attempt t = claim_attempt c /\ task_status_of t = Leased.
Proof.
  unfold fence_ok. simpl. destruct (tasks d !! _) as [t|]; [|done]. intros [Hh _]%andb_true_iff.
  apply held_by_spec in Hh as (? & _ & ?). eauto.
Qed.

(** The run of a leased task has no final event and has not ended. *)
Lemma leased_not_ended d c t :
  db_inv d -> fenced_inv d -> tasks d !! claim_task_id c = Some t -> task_run_id t = claim_run_id c ->
  task_status_of t = Leased ->
  Forall (fun e => ev_final e = false /\ ev_attempt e <= task_attempt t) (events_of (claim_run_id c) d) /\
  (forall r, runs d !! claim_run_id c = Some r -> TERMINAL (run_status_of r) = false).
Proof.
  intros Hdb Hf Ht Hr Hl. split.
  - apply Forall_forall. intros e He. destruct (fi_writer d Hf _ _ He) as (tid & t' & Ht' & Hr' & Ha & Hfin).
    assert (tid = claim_task_id c) as -> by (eapply (di_one d Hdb); [done..|congruence]).
    assert (t' = t) as -> by congruence. split; [|done].
    destruct (ev_final e); [|done]. rewrite Hfin in Hl; done.
  - intros r Hrr. destruct (TERMINAL (run_status_of r)) eqn:Hterm; [|done].
    destruct (fi_ended d Hf _ _ Hrr Hterm) as (tid & t' & Ht' & Hr' & Hd).
    assert (tid = claim_task_id c) as -> by (eapply (di_one d Hdb); [done..|congruence]). congruence.
Qed.

Lemma committed_tasks_lookup now c i o r z d tid t :
  tasks d !! claim_task_id c = Some t ->
  tasks (committed now c i o r z d) !! tid =
    if so_final o then (if decide (claim_task_id c = tid) then Some (finish_task_row t) else tasks d !! tid)
    else tasks d !! tid.
Proof.
  intros Ht. rewrite tasks_committed. destruct (so_final o); [|done]. rewrite lookup_alter.
  case_decide; subst; by rewrite ?Ht.
Qed.

Lemma committed_fenced now c i o r z d :
  db_inv d -> fenced_inv d -> claim_ok d c -> billed o ->
  fence_ok true now c d = true -> runs d !! claim_run_id c = Some r ->
  fenced_inv (committed now c i o r z d).
Proof.
  intros Hdb Hf (t0 & Ht0 & Hrun0 & Hatt0) (_ & Hterm) Hfence Hr.
  destruct (fence_ok_task _ _ _ Hfence) as (t & Ht & Hatt & Hl).
  assert (t0 = t) as -> by congruence.
  destruct (leased_not_ended d c t Hdb Hf Ht Hrun0 Hl) as [Hevs Hopen]. pose proof Hf as [F1 F2 F3 F4 F5].
  pose proof (fun tid => committed_tasks_lookup now c i o r z d tid t Ht) as Htasks.
  split.
  - intros rid e. rewrite events_committed, elem_of_app. intros [He|He].
    + destruct (F1 _ _ He) as (tid & t' & Ht' & Hr' & Ha & Hfin).
      destruct (decide (so_final o = true /\ claim_task_id c = tid)) as [[Ho <-]|Hn].
      * exists (claim_task_id c), (finish_task_row t). rewrite Htasks, Ho, decide_True by done.
        assert (t' = t) as -> by congruence. done.
      * exists tid, t'. rewrite Htasks. destruct (so_final o); [|done]. rewrite decide_False by tauto. done.
    + case_decide; subst; [|by apply not_elem_of_nil in He]. apply list_elem_of_singleton in He as ->.
      match goal with |- context [ev_attempt ?e] => destruct (committed_event_meta (claim_run_id c)
        (next_seq (claim_run_id c) d) (so_type o) c o (step_key (claim_run_id c) i)) as [-> ->] end.
      exists (claim_task_id c), (if so_final o then finish_task_row t else t). rewrite Htasks, decide_True by done.
      destruct (so_final o); simpl; split_and!; (done || lia).
  - intros rid. rewrite events_committed. case_decide; subst; [|by rewrite app_nil_r].
    rewrite fmap_app. simpl.
    match goal with |- context [ev_attempt ?e] => destruct (committed_event_meta (claim_run_id c)
      (next_seq (claim_run_id c) d) (so_type o) c o (step_key (claim_run_id c) i)) as [-> _] end.
    apply (Sorted_Zle_snoc (0 :: _)); [apply F2|]. constructor; [lia|]. rewrite Forall_fmap.
    eapply Forall_impl; [exact Hevs|]. simpl. intros e [_ ?]. lia.
  - intros rid. rewrite events_committed. case_decide; subst; [|by rewrite app_nil_r].
    apply final_last_snoc. eapply Forall_impl; [exact Hevs|]. by intros e [? _].
  - intros tid u. rewrite Htasks, runs_committed. unfold committed_run. destruct (so_final o).
    + case_decide; subst.
      * intros [= <-] _. simpl. rewrite Hrun0, lookup_insert_eq. eexists. split; [done|]. done.
      * intros Hu Hd. destruct (F4 _ _ Hu Hd) as (ru & Hru & Htu). exists ru. split; [|done].
        rewrite lookup_insert_ne; [done|]. intros Heq. rewrite <- Heq in Hru.
        by rewrite (Hopen _ Hru) in Htu.
    + intros Hu Hd. destruct (F4 _ _ Hu Hd) as (ru & Hru & Htu). exists ru. split; [|done].
      rewrite lookup_insert_ne; [done|]. intros Heq. rewrite <- Heq in Hru. by rewrite (Hopen _ Hru) in Htu.
  - intros rid row. rewrite runs_committed, lookup_insert. unfold committed_run. case_decide; subst.
    + intros [= <-] Hrow. destruct (so_final o) eqn:Ho.
      * exists (claim_task_id c), (finish_task_row t). rewrite Htasks, decide_True by done. done.
      * simpl in Hrow. by rewrite (Hopen _ Hr) in Hrow.
    + intros Hrow Hrt. destruct (F5 _ _ Hrow Hrt) as (tid & u & Hu & Hru & Hd). exists tid, u.
      split; [|done]. rewrite Htasks. destruct (so_final o); [|done]. rewrite decide_False; [done|].
      intros <-. congruence.
Qed.

(** ** Reachable states *)
Section Reachable.
Context (exc_str exc_repr : exn -> string).

Lemma path_inv fencing s s' : inv s -> rtc (step fencing exc_str exc_repr) s s' -> inv s'.
Proof. intros Hi H. induction H; [done|]. eapply IHrtc, step_inv; eauto. Qed.

Lemma reachable_inv fencing s : reachable fencing exc_str exc_repr s -> inv s.
Proof. by apply path_inv, inv_init. Qed.

Lemma commit_fenced now c i o b d d' :
  db_inv d -> fenced_inv d -> claim_ok d c -> billed o ->
  commit_step true now c i o d = (Ok b, d') -> fenced_inv d'.
Proof.
  intros Hdb Hf Hc Hb E. apply commit_step_Ok_inv in E as [Hfence E]; [|apply Hdb].
  destruct E as [(_ & -> & _)|(_ & r & z & Hr & _ & _ & ->)]; [done|]. by eapply committed_fenced.
Qed.

Lemma step_fenced s s' :
  inv s -> fenced_inv (sys_db s) -> step true exc_str exc_repr s s' -> fenced_inv (sys_db s').
Proof.
  intros Hinv Hf Hst. pose proof (inv_db _ Hinv) as Hdb. destruct Hst; simpl in *; try done.
  - by eapply submit_fenced.
  - pose proof (claim_lease_change now locked worker lease d) as H1.
    pose proof (claim_same_ends now locked worker lease d) as H2. rewrite H0 in H1, H2.
    by eapply same_ends_fenced.
  - rewrite read_events_gapless in H0 by apply Hdb. by injection H0 as _ <-.
  - apply insert_call_Ok_inv in H0 as ->. by eapply same_tables_fenced; [|exact Hf].
  - pose proof (insert_cache_lease_change key resp d) as H1.
    pose proof (insert_cache_same_ends key resp d) as H2. rewrite H0 in H1, H2.
    by eapply same_ends_fenced.
  - destruct (inv_threads _ Hinv k _ H) as (Hc & (_ & Hb) & _). by eapply commit_fenced.
  - by apply commit_step_Raise_inv in H0 as ->.
  - pose proof (release_lease_change now c backoff d) as H2.
    pose proof (release_same_ends now c backoff d) as H3. rewrite H1 in H2, H3.
    by eapply same_ends_fenced.
  - destruct (inv_threads _ Hinv k _ H) as (Hc & _). destruct r as [b|ex].
    + by eapply commit_fenced; [..|apply failure_outcome_billed|].
    + by apply commit_step_Raise_inv in H0 as ->.
  - pose proof (heartbeat_lease_change now c lease d) as H1.
    pose proof (heartbeat_same_ends now c lease d) as H2. rewrite H0 in H1, H2.
    by eapply same_ends_fenced.
  - pose proof (reap_lease_change now locked d) as H1.
    pose proof (reap_same_ends now locked d) as H2. rewrite H in H1, H2.
    by eapply same_ends_fenced.
Qed.

Lemma fenced_inv_init : fenced_inv db_empty.
Proof.
  split; intros *; unfold events_of; simpl; try done.
  - by intros ?%not_elem_of_nil.
  - repeat constructor.
  - apply final_last_nil.
Qed.

Lemma reachable_fenced s : reachable true exc_str exc_repr s -> fenced_inv (sys_db s).
Proof.
  unfold reachable. intros H.
  assert (Hgen : forall s0 s1, rtc (step true exc_str exc_repr) s0 s1 ->
    inv s0 -> fenced_inv (sys_db s0) -> fenced_inv (sys_db s1)).
  { induction 1 as [|x y z Hxy Hyz IH]; [done|]. intros Hi Hfx.
    apply IH; [by eapply step_inv|by eapply step_fenced]. }
  eapply Hgen; [done|apply inv_init|apply fenced_inv_init].
Qed.
End Reachable.

(** ** The properties of every reachable state *)

(** The costs a run's events show are whole millionths. *)
Definition whole_costs (rid : uuid) (d : db) : Prop := exists zs, micros_costs (events_of rid d) zs.

Lemma recorded_micros evs costs zs :
  mapR event_cost evs = Ok costs -> micros_costs evs zs -> Forall2 whole_micros costs zs.
Proof.
  rewrite mapR_Ok_Forall2. intros H. revert zs.
  induction H as [|e c evs costs Hc _ IH]; intros zs Hz; inversion Hz as [|? z ? zs' (c' & Hc' & Hm)]; subst;
    constructor; [by assert (c = c') as -> by congruence|by apply IH].
Qed.

Lemma inv_spend_micros d rid r zs :
  db_inv d -> runs d !! rid = Some r -> micros_costs (events_of rid d) zs ->
  run_spent_usd r = sumZ zs /\ sumZ zs < pow10 12.
Proof.
  intros Hdb Hr Hz. destruct (di_spend d Hdb rid r Hr) as (costs & Hc & Hs & Hlt).
  rewrite (stored_spend_micros costs zs) in Hs by (by eapply recorded_micros). rewrite Hs in *. split; [done|lia].
Qed.

Lemma inv_recorded d rid : db_inv d -> exists costs, mapR event_cost (events_of rid d) = Ok costs.
Proof.
  intros Hdb. destruct (runs d !! rid) as [r|] eqn:E.
  - destruct (di_spend d Hdb rid r E) as (costs & Hc & _). eauto.
  - rewrite (di_orphan d Hdb _ E). by exists [].
Qed.

Lemma inv_billing_passes ids d : db_inv d -> ir_passed (no_double_billing ids d) = true.
Proof.
  intros Hdb. apply no_double_billing_iff. eapply sublist_NoDup; [apply (di_billing d Hdb)|].
  apply fmap_sublist, sublist_filter.
Qed.

(** The spend check never raises, and passes on runs with whole costs. *)
Lemma inv_spend_passes ids d :
  db_inv d -> exists r, spend_consistency ids d = Ok r /\
    ((forall rid, rid ∈ ids -> whole_costs rid d) -> ir_passed r = true).
Proof.
  intros Hdb.
  set (costs rid := match mapR event_cost (events_of rid d) with Ok l => l | Raise _ => [] end).
  destruct (spend_consistency_iff ids d costs) as (r & Hr & Hp).
  { intros rid _. unfold costs. by destruct (inv_recorded d rid Hdb) as [l ->]. }
  exists r. split; [done|]. intros Hw. apply Hp. intros rid row Hin Hrow. destruct (Hw rid Hin) as [zs Hz].
  destruct (inv_spend_micros d rid row zs Hdb Hrow Hz) as [-> Hlt].
  destruct (inv_recorded d rid Hdb) as [l Hl]. unfold costs. rewrite Hl.
  refine (proj2 (dec_eqb_micros _ _ _ _) eq_refl). apply dec_sum_micros; [by eapply recorded_micros|done].
Qed.

Lemma inv_log_passes ids d :
  db_inv d -> fenced_inv d -> exists r, log_integrity ids d = Ok r /\ ir_passed r = true.
Proof.
  intros Hdb Hf. destruct (log_integrity_iff ids d (di_engine d Hdb)) as (r & Hr & Hp).
  exists r. split; [done|]. apply Hp. intros rid _ _. rewrite sort_gapless by apply Hdb.
  split_and!; [apply Hdb|apply Hdb|apply (fi_sorted d Hf)|apply (fi_final d Hf)].
Qed.

Lemma db_checks_pass d ids :
  db_inv d -> fenced_inv d -> NoDup ids ->
  exists log spend, check_all ids d = Ok [termination ids d; log; no_double_billing ids d; spend] /\
    ir_passed log = true /\ ir_passed (no_double_billing ids d) = true /\
    ((forall rid, rid ∈ ids -> whole_costs rid d) -> ir_passed spend = true) /\
    (passed [termination ids d; log; no_double_billing ids d; spend] = true <->
     ir_passed spend = true /\
     forall rid, rid ∈ ids -> exists r, runs d !! rid = Some r /\ TERMINAL (run_status_of r) = true).
Proof.
  intros Hdb Hf Hnd. destruct (inv_log_passes ids _ Hdb Hf) as (log & Hlog & Hlp).
  destruct (inv_spend_passes ids _ Hdb) as (spend & Hsp & Hspp).
  pose proof (inv_billing_passes ids _ Hdb) as Hb. exists log, spend.
  unfold check_all. rewrite Hlog. unfold_m. rewrite Hsp. split_and!; [done..|].
  unfold passed. cbn [forallb]. rewrite Hlp, Hb, andb_true_r. simpl. rewrite andb_true_iff, (termination_iff ids d) by done.
  apply and_comm.
Qed.

Section Properties.
Context (exc_str exc_repr : exn -> string).

(** C1: what needs no fencing.  In every reachable state, however workers
    crash, stall, overtake each other and are reaped, with fencing or
    without it, and whatever the steps cost: the log of every run is numbered
    1..n and keyed by the steps 0..n-1; the costs its events show can all be
    read, and the stored spend is what NUMERIC(12,6) makes of adding them one
    by one - within half a millionth for each event of their exact sum, and
    that sum exactly when the costs are whole millionths; the spend check
    raises nothing and, on runs with such costs, passes; no attempt has asked
    a provider twice for one step; and no run is without a task, no task
    without a run. *)
Theorem reachable_consistent fencing s :
  reachable fencing exc_str exc_repr s ->
  let d := sys_db s in
  (forall rid, gapless rid d /\ keyed rid d) /\
  (forall rid r, runs d !! rid = Some r -> exists costs,
     mapR event_cost (events_of rid d) = Ok costs /\
     run_spent_usd r = stored_spend costs /\ near_sum (run_spent_usd r) costs) /\
  (forall rid r zs, runs d !! rid = Some r -> micros_costs (events_of rid d) zs ->
     run_spent_usd r = sumZ zs) /\
  (forall ids, exists r, spend_consistency ids d = Ok r /\
     ((forall rid, rid ∈ ids -> whole_costs rid d) -> ir_passed r = true)) /\
  (forall ids, ir_passed (no_double_billing ids d) = true) /\
  (forall rid, is_Some (runs d !! rid) <->
     exists tid t, tasks d !! tid = Some t /\ task_run_id t = rid).
Proof.
  intros Hr d. pose proof (inv_db _ (reachable_inv _ _ _ _ Hr)) as Hdb. fold d in Hdb. split_and!.
  - intros rid. split; apply Hdb.
  - intros rid r Hrow. destruct (di_spend d Hdb rid r Hrow) as (costs & Hc & Hs & _).
    exists costs. split_and!; [done..|]. rewrite Hs. apply stored_spend_near.
  - intros rid r zs Hrow Hz. by eapply inv_spend_micros.
  - intros ids. by apply inv_spend_passes.
  - intros ids. by apply inv_billing_passes.
  - intros rid. split; [apply (di_owner d Hdb)|]. intros (tid & t & Ht & <-). by apply (di_task d Hdb tid).
Qed.

(** C2: with fencing, a chaos run can only fail by not finishing or by the
    rounding of its spend.  In every reachable state no check raises, and the
    log and billing checks pass for any choice of runs; the spend check passes
    when the costs the runs' events show are whole millionths; and the whole
    report passes exactly when the spend check does and all the runs have
    ended. *)
Theorem fenced_chaos_passes s ids :
  reachable true exc_str exc_repr s -> NoDup ids ->
  let d := sys_db s in
  exists log spend, check_all ids d = Ok [termination ids d; log; no_double_billing ids d; spend] /\
    ir_passed log = true /\ ir_passed (no_double_billing ids d) = true /\
    ((forall rid, rid ∈ ids -> whole_costs rid d) -> ir_passed spend = true) /\
    (passed [termination ids d; log; no_double_billing ids d; spend] = true <->
     ir_passed spend = true /\
     forall rid, rid ∈ ids -> exists r, runs d !! rid = Some r /\ TERMINAL (run_status_of r) = true).
Proof.
  intros Hr Hnd d.
  exact (db_checks_pass d ids (inv_db _ (reachable_inv _ _ _ _ Hr)) (reachable_fenced _ _ _ Hr) Hnd).
Qed.

(** With fencing no step changes the row or the log of an ended run. *)
Lemma step_ended s s' rid r :
  reachable true exc_str exc_repr s -> step true exc_str exc_repr s s' ->
  runs (sys_db s) !! rid = Some r -> TERMINAL (run_status_of r) = true ->
  runs (sys_db s') !! rid = Some r /\ events_of rid (sys_db s') = events_of rid (sys_db s).
Proof.
  intros Hreach Hst Hrow Hterm. pose proof (reachable_inv _ _ _ _ Hreach) as Hinv.
  pose proof (reachable_fenced _ _ _ Hreach) as Hf. pose proof (inv_db _ Hinv) as Hdb.
  assert (Hcommit : forall now c i o b d d', d = sys_db s -> claim_ok d c ->
    commit_step true now c i o d = (Ok b, d') ->
    runs d' !! rid = Some r /\ events_of rid d' = events_of rid d).
  { intros now c i o b d d' -> (t0 & Ht0 & Hrun & _) E.
    apply commit_step_Ok_inv in E as [Hfence [(_ & -> & _)|(_ & r' & z & Hr' & _ & _ & ->)]]; [done| |apply Hdb].
    destruct (fence_ok_task _ _ _ Hfence) as (t & Ht & _ & Hl). assert (t0 = t) as -> by congruence.
    destruct (leased_not_ended _ c t Hdb Hf Ht Hrun Hl) as [_ Hopen].
    assert (claim_run_id c <> rid) as Hne by (intros <-; by rewrite (Hopen _ Hrow) in Hterm).
    rewrite runs_committed, events_committed, lookup_insert_ne, decide_False, app_nil_r by done. done. }
  destruct Hst; simpl in *; try done.
  - apply submit_run_Ok in H as (Hr & _ & He & _ & _ & b & Hruns).
    rewrite Hruns, lookup_insert_ne, (events_of_same rid d d' He) by congruence. done.
  - rewrite claim_task_eq in H0. destruct (select_claimable _ _ _) as [[tid t]|]; [|done].
    injection H0 as _ <-. rewrite (events_of_same rid d) by apply events_claimed. split; [|done].
    unfold claimed. destruct (runs d !! task_run_id t) as [r'|] eqn:Hr'; [|done].
    destruct (is_pending r') eqn:Hp; [|done]. simpl. rewrite lookup_insert_ne; [done|].
    intros Heq. rewrite Heq in Hr'. assert (r' = r) as -> by congruence.
    unfold is_pending in Hp. bool_to_prop. by rewrite Hp in Hterm.
  - rewrite read_events_gapless in H0 by apply Hdb. by injection H0 as _ <-.
  - by apply insert_call_Ok_inv in H0 as ->.
  - pose proof (insert_cache_frame key resp d) as Hfr. rewrite H0 in Hfr. simpl in Hfr.
    rewrite (same_tables_events_of rid _ _ Hfr). destruct Hfr as (-> & _). done.
  - destruct (inv_threads _ Hinv k _ H) as (Hc & _). by eapply Hcommit.
  - by apply commit_step_Raise_inv in H0 as ->.
  - rewrite release_task_eq in H1. repeat case_match; by injection H1 as _ <-.
  - destruct (inv_threads _ Hinv k _ H) as (Hc & _). destruct r0 as [b|ex]; [by eapply Hcommit|].
    by apply commit_step_Raise_inv in H0 as ->.
  - rewrite heartbeat_eq in H0. repeat case_match; by injection H0 as _ <-.
  - by injection H as _ <-.
Qed.

(** Attempts only grow. *)
Lemma step_attempts fencing s s' :
  inv s -> step fencing exc_str exc_repr s s' -> attempts_le (sys_db s) (sys_db s').
Proof.
  intros Hinv Hst. pose proof (inv_db _ Hinv) as Hdb.
  assert (Hcommit : forall now c i o r d d', d = sys_db s -> commit_step fencing now c i o d = (r, d') ->
    attempts_le d d').
  { intros now c i o r d d' -> E. destruct r as [b|e]; [|apply commit_step_Raise_inv in E as ->; apply attempts_le_refl].
    apply commit_step_Ok_inv in E as [_ [(_ & -> & _)|(_ & r' & z & _ & _ & _ & ->)]];
      [apply attempts_le_refl|apply attempts_committed|apply Hdb]. }
  destruct Hst; simpl in *; try apply attempts_le_refl; try by eapply Hcommit.
  - by apply submit_later in H as [? _ _].
  - pose proof (claim_lease_change now locked worker lease d) as Hl. rewrite H0 in Hl. apply Hl.
  - rewrite read_events_gapless in H0 by apply Hdb. injection H0 as _ <-. apply attempts_le_refl.
  - apply insert_call_Ok_inv in H0 as ->. by apply attempts_le_same.
  - pose proof (insert_cache_lease_change key resp d) as Hl. rewrite H0 in Hl. apply Hl.
  - pose proof (release_lease_change now c backoff d) as Hl. rewrite H1 in Hl. apply Hl.
  - pose proof (heartbeat_lease_change now c lease d) as Hl. rewrite H0 in Hl. apply Hl.
  - pose proof (reap_lease_change now locked d) as Hl. rewrite H in Hl. apply Hl.
Qed.

(** C12: an ended run is never touched again.  With fencing, no step of any
    worker, however late, changes the row or the log of a run that has
    succeeded, failed or exceeded its budget. *)
Theorem ended_run_frozen s s' rid r :
  reachable true exc_str exc_repr s -> step true exc_str exc_repr s s' ->
  runs (sys_db s) !! rid = Some r -> TERMINAL (run_status_of r) = true ->
  runs (sys_db s') !! rid = Some r /\ events_of rid (sys_db s') = events_of rid (sys_db s).
Proof. apply step_ended. Qed.
End Properties.
