(* ===== verification/Progress.v ===== *)
(** Progress of the system: an unfinished run can always be claimed again, the
    failure of a run can be committed, what goes wrong without fencing, and a
    cost the spend column rounds. *)

From S2P Require Import Prelude PyDecimal Json Database Store Leases Engine Budget LlmCache.
From S2P Require Import Execution Invariants System Safety.

(** ** Leased tasks have a lease that expires *)
Definition timed (d : db) : Prop := forall tid t, tasks d !! tid = Some t ->
  task_status_of t = Leased -> is_Some (task_lease_expires_at t).

Lemma timed_row (d : db) tid t' :
  timed d -> (task_status_of t' = Leased -> is_Some (task_lease_expires_at t')) ->
  timed (set_tasks (<[tid := t']> (tasks d)) d).
Proof. intros Hd Ht' tid' u. simpl. rewrite lookup_insert. case_decide; [by intros [= <-]|apply Hd]. Qed.

Lemma timed_same d d' : tasks d' = tasks d -> timed d -> timed d'.
Proof. intros Ht Hd tid t. rewrite Ht. apply Hd. Qed.

Lemma timed_committed now c i o r z d : timed d -> timed (committed now c i o r z d).
Proof.
  intros Hd tid u. rewrite tasks_committed. destruct (so_final o); [|apply Hd].
  rewrite lookup_alter. case_decide; [|apply Hd]. destruct (tasks d !! _); [|done]. by intros [= <-].
Qed.

Section Timed.
Context (fencing : bool) (exc_str exc_repr : exn -> string).

Lemma commit_timed now c i o r d d' :
  db_inv d -> commit_step fencing now c i o d = (r, d') -> timed d -> timed d'.
Proof.
  intros Hdb E Hd. destruct r as [b|e]; [|by apply commit_step_Raise_inv in E as ->].
  apply commit_step_Ok_inv in E as [_ [(_ & -> & _)|(_ & r & z & _ & _ & _ & ->)]];
    [done|by apply timed_committed|apply Hdb].
Qed.

Lemma step_timed s s' :
  inv s -> timed (sys_db s) -> step fencing exc_str exc_repr s s' -> timed (sys_db s').
Proof.
  intros Hinv Hd Hst. pose proof (inv_db _ Hinv) as Hdb. destruct Hst; simpl in *; try done.
  - apply submit_run_Ok in H as (_ & _ & _ & _ & Ht & _). intros tid' t. rewrite Ht, lookup_insert.
    case_decide; [by intros [= <-]|apply Hd].
  - rewrite claim_task_eq in H0. destruct (select_claimable _ _ _) as [[tid t]|]; [|done].
    injection H0 as _ <-. eapply timed_same; [|by apply (timed_row d tid (lease_row worker (now + lease) t)); [|eauto]].
    apply tasks_claimed.
  - rewrite read_events_gapless in H0 by apply Hdb. by injection H0 as _ <-.
  - by apply insert_call_Ok_inv in H0 as ->.
  - pose proof (insert_cache_frame key resp d) as Hfr. rewrite H0 in Hfr. destruct Hfr as (_ & _ & Ht).
    by eapply timed_same.
  - by eapply commit_timed.
  - by eapply commit_timed.
  - rewrite release_task_eq in H1. destruct (tasks d !! _); [|by injection H1 as _ <-].
    destruct (held_by _ _); injection H1 as _ <-; [by apply timed_row|done].
  - by eapply commit_timed.
  - rewrite heartbeat_eq in H0. destruct (tasks d !! _); [|by injection H0 as _ <-].
    destruct (_ && _); injection H0 as _ <-; [apply timed_row; [done|eauto]|done].
  - injection H as _ <-. intros tid t'. pose proof (reap_lookup now locked d tid) as Hl. simpl in Hl.
    simpl. rewrite Hl. destruct (tasks d !! tid) as [t|] eqn:E; [|done]. simpl. intros [= <-].
    destruct (reapable now locked tid t); [done|by apply Hd with tid].
Qed.

Lemma reachable_timed s : reachable fencing exc_str exc_repr s -> timed (sys_db s).
Proof.
  unfold reachable. intros H.
  assert (Hgen : forall s0 s1, rtc (step fencing exc_str exc_repr) s0 s1 ->
    inv s0 -> timed (sys_db s0) -> timed (sys_db s1)).
  { induction 1 as [|x y z Hxy Hyz IH]; [done|]. intros Hi Ht. apply IH; [by eapply step_inv|by eapply step_timed]. }
  eapply Hgen; [done|apply inv_init|by intros tid t].
Qed.
End Timed.

(** ** The failure of a run *)
Section Fail.
Context (exc_str exc_repr : exn -> string).

(** With a valid lease the commit of a failure goes through, if its texts can
    be stored. *)
Lemma failure_commits now c e row d :
  db_inv d -> runs d !! claim_run_id c = Some row -> fence_ok true now c d = true ->
  nul_free (failure_reason exc_str exc_repr c e) = true -> nul_free (claim_worker_id c) = true ->
  let n := count_events (claim_run_id c) d in
  let o := failure_outcome exc_str exc_repr c e in
  commit_step true now c n o d = (Ok true, committed now c n o row (run_spent_usd row) d).
Proof.
  intros Hdb Hrow Hf Hreason Hworker n o. destruct (di_spend d Hdb _ _ Hrow) as (_ & _ & _ & Hlt).
  rewrite commit_step_eq by apply Hdb. rewrite Hf, Hrow. cbn [negb].
  rewrite (proj2 (keyed_select_None (claim_run_id c) d n (di_keyed d Hdb _) ltac:(unfold n, count_events; lia)))
    by (unfold n, count_events; lia).
  unfold commit_values, o. rewrite failure_storable, Hreason, Hworker. cbn [andb]. unfold_m.
  by rewrite numeric_add_zero.
Qed.

(** The reason holds no NUL when the texts of exceptions do not. *)
Definition texts_nul_free : Prop :=
  forall e, nul_free (exc_str e) = true /\ nul_free (exc_repr e) = true.

Lemma failure_reason_nul_free c e :
  texts_nul_free -> nul_free (failure_reason exc_str exc_repr c e) = true.
Proof.
  intros Ht. destruct (Ht e) as [H1 H2]. unfold failure_reason.
  destruct (exn_fatal e); rewrite !nul_free_app; [by rewrite H1|]. rewrite H2, string_of_Z_nul_free. done.
Qed.
End Fail.

(** No run is stuck behind a dead worker: the task of a run that has not
    ended is queued, or is leased until some time, and the first pass of a
    reaper after that time that finds it unlocked queues it again. *)
Theorem unfinished_run_claimable exc_str exc_repr s rid r :
  reachable true exc_str exc_repr s -> runs (sys_db s) !! rid = Some r ->
  TERMINAL (run_status_of r) = false ->
  exists tid t, tasks (sys_db s) !! tid = Some t /\ task_run_id t = rid /\
    (task_status_of t = Queued \/
     exists x, task_lease_expires_at t = Some x /\ forall now locked, x < now -> tid ∉ locked ->
       tasks (snd (reap_expired now locked (sys_db s))) !! tid = Some (requeue_row t)).
Proof.
  intros Hreach Hr Hterm. pose proof (inv_db _ (reachable_inv _ _ _ _ Hreach)) as Hdb.
  pose proof (reachable_fenced _ _ _ Hreach) as Hf. pose proof (reachable_timed _ _ _ _ Hreach) as Htimed.
  destruct (di_owner _ Hdb rid) as (tid & t & Ht & Hrun); [eauto|]. exists tid, t. split_and!; [done..|].
  destruct (task_status_of t) eqn:Hs; [by left| |].
  - right. destruct (Htimed _ _ Ht Hs) as [x Hx]. exists x. split; [done|]. intros now locked Hlt Hl.
    rewrite reap_lookup, Ht. unfold reapable, is_leased, expired_before. simpl.
    rewrite Hs, Hx, bool_decide_eq_true_2, bool_decide_eq_false_2, (proj2 (Z.ltb_lt _ _)) by done. done.
  - destruct (fi_done _ Hf _ _ Ht Hs) as (r' & Hr' & Hterm'). rewrite Hrun in Hr'. congruence.
Qed.

(** ** Without fencing *)

(** The schedule of the counterexample: worker A claims the run of two steps
    and computes step 0; its lease expires and is reaped; worker B claims and
    commits step 0; A's commit of step 0 is the idempotent no-op, and A goes
    on to commit step 1 under its old attempt. *)
Definition race_toy : ToyWorkflow := MkToyWorkflow 3 (Dec 1 (-4)).
Definition race_A : Claim := MkClaim 1 1 "A" 1.
Definition race_B : Claim := MkClaim 1 1 "B" 2.

Lemma race_billed c i : billed (toy_step race_toy c i).
Proof.
  split; [|done].
  rewrite <- payload_cost_commit with (c := c).
  by apply (next_step_billed (S := db) race_toy c i [] db_empty db_empty).
Qed.

(** The database after each of its transactions. *)
Definition race_d1 : db := snd (submit_run 0 1%N 1%N (JObj []) (inl "1.0"%stdpp) db_empty).
Definition race_d2 : db := snd (claim_task 0 ∅ "A" 10 race_d1).
Definition race_d3 : db := snd (reap_expired 11 ∅ race_d2).
Definition race_d4 : db := snd (claim_task 12 ∅ "B" 10 race_d3).
Definition race_d5 : db := snd (commit_step false 13 race_B 0 (toy_step race_toy race_B 0) race_d4).
Definition race_d6 : db := snd (commit_step false 15 race_A 1 (toy_step race_toy race_A 1) race_d5).

(** The thread of A and, once it has claimed, that of B. *)
Definition race_ths (pa : pc) (pb : option pc) : gmap N thread :=
  let ths := set_pc 0%N race_A pa ∅ in
  match pb with Some p => set_pc 1%N race_B p ths | None => ths end.

(** Up to B's commit the schedule is possible with fencing too. *)
Lemma race_prefix fencing exc_str exc_repr :
  reachable fencing exc_str exc_repr
    (Sys race_d5 (race_ths (Ready 0 (toy_step race_toy race_A 0)) (Some Replaying))).
Proof.
  set (o := toy_step race_toy). unfold reachable.
  apply rtc_trans with (Sys race_d2 (race_ths (Ready 0 (o race_A 0)) None)).
  - eapply rtc_l; [by apply (step_submit _ _ _ 0 1%N 1%N (JObj []) (inl "1.0"%stdpp) db_empty race_d1)|].
    eapply rtc_l; [by apply (step_claim _ _ _ 0%N 0 ∅ "A" 10 race_A race_d1 race_d2)|].
    eapply rtc_l; [by apply (step_read _ _ _ 0%N race_A [] race_d2 race_d2)|].
    eapply rtc_l; [by apply (step_compute _ _ _ 0%N race_A [] (Replayed []) (o race_A 0));
      [|left|apply race_billed]|]. apply rtc_refl.
  - eapply rtc_l; [by apply (step_reap _ _ _ 11 ∅ 1 race_d2 race_d3)|].
    eapply rtc_l; [by apply (step_claim _ _ _ 1%N 12 ∅ "B" 10 race_B race_d3 race_d4)|].
    eapply rtc_l; [by apply (step_read _ _ _ 1%N race_B [] race_d4 race_d4)|].
    eapply rtc_l; [by apply (step_compute _ _ _ 1%N race_B [] (Replayed []) (o race_B 0));
      [|left|apply race_billed]|].
    eapply rtc_l; [|apply rtc_refl]. destruct fencing;
      by apply (step_commit _ _ _ 1%N race_B 0 (o race_B 0) 13 true race_d4 race_d5).
Qed.

(** Fencing is needed.  Without it a reachable state fails the log check:
    the log of one run holds an event written under attempt 1 after one
    written under attempt 2. *)
Theorem unfenced_zombie_writes exc_str exc_repr :
  exists s r e1 e2, reachable false exc_str exc_repr s /\
    log_integrity [1%N] (sys_db s) = Ok r /\ ir_passed r = false /\
    events_of 1 (sys_db s) = [e1; e2] /\ ev_attempt e1 = 2 /\ ev_attempt e2 = 1.
Proof.
  set (o := toy_step race_toy). set (evs := events_of 1 race_d5).
  exists (Sys race_d6 (race_ths Replaying (Some Replaying))).
  eexists _, _, _. split; [|split_and!; vm_compute; reflexivity].
  unfold reachable. etrans; [apply race_prefix|].
  eapply rtc_l; [by apply (step_commit _ _ _ 0%N race_A 0 (o race_A 0) 14 false race_d5 race_d5)|].
  eapply rtc_l; [by apply (step_read _ _ _ 0%N race_A evs race_d5 race_d5)|].
  eapply rtc_l; [by apply (step_compute _ _ _ 0%N race_A evs (Replayed evs) (o race_A 1));
    [|left|apply race_billed]|].
  eapply rtc_l; [by apply (step_commit _ _ _ 0%N race_A 1 (o race_A 1) 15 true race_d5 race_d6)|].
  apply rtc_refl.
Qed.

(** ** A cost the spend column rounds *)
Definition tiny_spec : json :=
  JObj [("kind", JStr "toy"); ("steps", JInt 3); ("step_cost", JStr "0.0000001")].
Definition tiny_toy : ToyWorkflow := MkToyWorkflow 3 (Dec 1 (-7)).
Definition tiny_d1 : db := snd (submit_run 0 1%N 1%N tiny_spec (inl "1.0"%stdpp) db_empty).
Definition tiny_d2 : db := snd (claim_task 0 ∅ "A" 10 tiny_d1).
Definition tiny_d3 : db := snd (commit_step true 1 race_A 0 (toy_step tiny_toy race_A 0) tiny_d2).

(** The spend check can fail although nothing went wrong.  A toy run whose
    step costs a tenth of a millionth commits that step: its event shows the
    cost, NUMERIC(12,6) rounds the run's spend to zero, and the spend check
    reports a mismatch. *)
Theorem tiny_cost_mismatch exc_str exc_repr :
  toy_init [("kind", JStr "toy"); ("steps", JInt 3); ("step_cost", JStr "0.0000001")] = Ok tiny_toy /\
  exists s r row, reachable true exc_str exc_repr s /\
    runs (sys_db s) !! 1%N = Some row /\ run_spent_usd row = 0 /\
    mapR event_cost (events_of 1 (sys_db s)) = Ok [Dec 1 (-7)] /\
    spend_consistency [1%N] (sys_db s) = Ok r /\ ir_passed r = false.
Proof.
  split; [by vm_compute|].
  exists (Sys tiny_d3 (set_pc 0%N race_A Replaying ∅)). eexists _, _.
  split; [|split_and!; vm_compute; reflexivity].
  unfold reachable.
  eapply rtc_l; [by apply (step_submit _ _ _ 0 1%N 1%N tiny_spec (inl "1.0"%stdpp) db_empty tiny_d1)|].
  eapply rtc_l; [by apply (step_claim _ _ _ 0%N 0 ∅ "A" 10 race_A tiny_d1 tiny_d2)|].
  eapply rtc_l; [by apply (step_read _ _ _ 0%N race_A [] tiny_d2 tiny_d2)|].
  eapply rtc_l.
  { apply (step_compute _ _ _ 0%N race_A [] (Replayed []) (toy_step tiny_toy race_A 0)); [done|by left|].
    split; [by apply payload_cost_dec|done]. }
  unfold set_pc. rewrite !insert_insert_eq. eapply rtc_l; [|apply rtc_refl].
  by apply (step_commit _ _ _ 0%N race_A 0 (toy_step tiny_toy race_A 0) 1 true tiny_d2 tiny_d3).
Qed.
