(* ===== verification/Runner.v ===== *)
(** [sandbox/policy.py] and [sandbox/runner.py]: one run of untrusted code in a
    container.

    Docker is a parameter (the class [Docker]): creating, starting, waiting
    for, killing and removing a container, reading its output streams and its
    OOM flag.  [DockerLaws] says which of them change the set of containers.
    File permissions are not modelled. *)

From Stdlib Require Import QArith Qround.
From S2P Require Import Prelude PyString PyDecimal Json Database Store Engine LlmCache Workspace Agent.

(** ** The policy *)
Record SandboxPolicy := MkSandboxPolicy {
  image : string;
  timeout_s : Q;
  memory_mb : Z;
  cpus : Q;
  pids_limit : Z;
  max_output_bytes : Z;
  tmpfs_mb : Z;
  network : bool;
  user : string;
}.

Definition default_policy : SandboxPolicy := {|
  image := "python:3.12-slim"; timeout_s := 10#1; memory_mb := 128; cpus := 1#2; pids_limit := 64;
  max_output_bytes := 64 * 1024; tmpfs_mb := 16; network := false; user := "65534:65534"
|}.

Definition LABEL : string := "phoenix.sandbox".
Definition OOM_RECHECKS : nat := 10.

(** What the container is created with. *)
Record config := Config {
  c_image : string;
  c_cmd : list string;
  c_name : string;
  c_label : string;
  c_working_dir : string;
  c_user : string;
  c_network_mode : string;
  c_read_only : bool;
  c_tmpfs : list (string * string);
  c_volumes : list (path * string * string);
  c_mem_limit : string;
  c_memswap_limit : string;
  c_nano_cpus : Z;
  c_pids_limit : Z;
  c_cap_drop : list string;
  c_security_opt : list string;
  c_log_max_size : string;
  c_log_max_file : string;
}.

(** [name] is the random part of the container's name. *)
Definition container_config (policy : SandboxPolicy) (workspace : path) (cmd : list string)
    (name : string) : config := {|
  c_image := image policy; c_cmd := cmd; c_name := "phoenix-sbx-" +:+ name; c_label := LABEL;
  c_working_dir := "/workspace"; c_user := user policy;
  c_network_mode := if network policy then "bridge" else "none";
  c_read_only := true;
  c_tmpfs := [("/tmp", "rw,noexec,nosuid,size=" +:+ string_of_Z (tmpfs_mb policy) +:+ "m")];
  c_volumes := [(workspace, "/workspace", "rw")];
  c_mem_limit := string_of_Z (memory_mb policy) +:+ "m";
  c_memswap_limit := string_of_Z (memory_mb policy) +:+ "m";
  c_nano_cpus := Qfloor (cpus policy * (1000000000#1))%Q;
  c_pids_limit := pids_limit policy; c_cap_drop := ["ALL"];
  c_security_opt := ["no-new-privileges"];
  c_log_max_size := string_of_Z (max_output_bytes policy * 4 `max` 10000000);
  c_log_max_file := "1"
|}.

(** ** Docker *)
Class Docker (S : Type) : Type := {
  containers_create : config -> M S string;
  container_start : string -> M S unit;
  (** the exit code; [ReadTimeout] or [RequestsConnectionError] after the given time *)
  container_wait : string -> option Q -> M S Z;
  container_kill : string -> M S unit;
  container_remove : string -> M S unit;
  (** the chunks of a stream ([true]: stdout), until the container ends *)
  container_logs : string -> bool -> M S (list (list ascii));
  (** [reload(); attrs["State"].get("OOMKilled")] *)
  container_oom : string -> M S bool;
  (** the names of the containers with a label, running or not *)
  containers_list : string -> M S (list string);
  images_get : string -> M S unit;
  images_pull : string -> M S unit;
  clock : M S Q;
}.

(** A world that contains files. *)
Class HasFs (S : Type) : Type := { get_fs : S -> fs; put_fs : fs -> S -> S }.

Definition with_fs {S A} `{HasFs S} (m : M fs A) : M S A := fun s =>
  let '(r, f) := m (get_fs s) in (r, put_fs f s).

(** ** Output *)
Section Capture.
(** [bytes.decode("utf8", "replace")] *)
Context (decode : list ascii -> string).

(** The loop over the chunks: the bytes kept and the number of bytes seen. *)
Fixpoint drain (limit : Z) (chunks : list (list ascii)) (buf : list ascii) (total : Z) :
    list ascii * Z :=
  match chunks with
  | [] => (buf, total)
  | chunk :: chunks' =>
      let len := Z.of_nat (length buf) in
      let buf' := if len <? limit then buf ++ take (Z.to_nat (limit - len)) chunk else buf in
      drain limit chunks' buf' (total + Z.of_nat (length chunk))
  end.

Definition _capture {S} `{Docker S} (container : string) (limit : Z) (stdout : bool) :
    M S (string * bool) :=
  chunks ← container_logs container stdout;
  let '(buf, total) := drain limit chunks [] 0 in
  mret (decode buf, limit <? total).

(** ** One run *)
Section Run.
Context {S : Type} `{Docker S} `{HasFs S}.

Definition _kill (container : string) : M S unit :=
  try_except (container_kill container)
    (fun e => match e with NotFound | APIError => true | _ => false end) (fun _ => mret tt).

Definition _remove (container : string) : M S unit :=
  try_except (container_remove container)
    (fun e => match e with NotFound => true | _ => false end) (fun _ => mret tt).

(** The bounded re-reads of the flag, 0.1 s apart. *)
Fixpoint recheck_oom (container : string) (left : nat) : M S bool :=
  match left with
  | O => mret false
  | Datatypes.S left' =>
      oom ← container_oom container;
      if (oom : bool) then mret true else recheck_oom container left'
  end.

Definition _oom_killed (container : string) (exit_code : Z) (timed_out : bool) : M S bool :=
  oom ← container_oom container;
  if oom || negb (exit_code =? 137) || timed_out then mret oom
  else recheck_oom container OOM_RECHECKS.

(** [container.wait] with the policy's timeout: the exit code and whether the
    container had to be killed.  A time out shows as one of two exceptions of
    [requests]. *)
Definition wait_or_kill (container : string) (timeout : Q) : M S (Z * bool) :=
  try_except
    (code ← container_wait container (Some timeout); mret (code, false))
    (fun e => match e with ReadTimeout | RequestsConnectionError => true | _ => false end)
    (fun _ =>
      _kill container ;;
      code ← container_wait container None;
      mret (code, true)).

(** The wait and the time it took. *)
Definition timed_wait (container : string) (timeout : Q) (started : Q) : M S (Z * bool * Z) :=
  '(exit_code, timed_out) ← wait_or_kill container timeout;
  ended ← clock;
  mret (exit_code, timed_out, Qfloor ((ended - started) * (1000#1))%Q).

(** The pool of two threads is left when both captures are over, also when
    the wait has raised: what they raised themselves is then dropped. *)
Definition observe (container : string) (policy : SandboxPolicy) : M S SandboxResult :=
  started ← clock;
  container_start container ;;
  waited ← attempt (timed_wait container (timeout_s policy) started);
  out_f ← attempt (_capture container (max_output_bytes policy) true);
  err_f ← attempt (_capture container (max_output_bytes policy) false);
  '(exit_code, timed_out, duration_ms) ← lift_res waited;
  '(out, out_cut) ← lift_res out_f;
  '(err, err_cut) ← lift_res err_f;
  oom ← _oom_killed container exit_code timed_out;
  mret (MkSandboxResult exit_code out err timed_out oom duration_ms (out_cut || err_cut)).

Definition runner_run (ws : path) (cmd : list string) (policy : option SandboxPolicy) (name : string) :
    M S SandboxResult :=
  let policy := default default_policy policy in
  ws ← with_fs (fun f => (resolve f ws, f));
  with_fs (mkdir ws) ;;
  container ← containers_create (container_config policy ws cmd name);
  try_finally (observe container policy) (_remove container).

Definition ensure_image (img : string) : M S unit :=
  try_except (images_get img) (fun e => match e with NotFound => true | _ => false end)
    (fun _ => images_pull img).

Definition leftover_containers : M S (list string) := containers_list LABEL.

Fixpoint remove_all (names : list string) : M S unit :=
  match names with
  | [] => mret tt
  | c :: names' => _remove c ;; remove_all names'
  end.

Definition remove_leftovers : M S unit :=
  names ← containers_list LABEL; remove_all names.
End Run.
End Capture.

(** ** The set of containers *)

(** Which operations change it. *)
Class DockerLaws (S : Type) `{Docker S} `{HasFs S} (containers : S -> gset string) : Prop := {
  create_fresh : forall cfg s c s', containers_create cfg s = (Ok c, s') ->
    (c ∉ containers s) /\ containers s' = {[c]} ∪ containers s;
  create_fails : forall cfg s e s', containers_create cfg s = (Raise e, s') ->
    containers s' = containers s;
  remove_removes : forall c s s', container_remove c s = (Ok tt, s') ->
    containers s' = containers s ∖ {[c]};
  remove_not_found : forall c s s', container_remove c s = (Raise NotFound, s') ->
    (c ∉ containers s) /\ containers s' = containers s;
  remove_fails : forall c s e s', container_remove c s = (Raise e, s') ->
    containers s' = containers s;
  start_keeps : forall c s, containers (snd (container_start c s)) = containers s;
  wait_keeps : forall c t s, containers (snd (container_wait c t s)) = containers s;
  kill_keeps : forall c s, containers (snd (container_kill c s)) = containers s;
  logs_keeps : forall c b s, containers (snd (container_logs c b s)) = containers s;
  oom_keeps : forall c s, containers (snd (container_oom c s)) = containers s;
  clock_keeps : forall s, containers (snd (clock s)) = containers s;
  files_keep : forall f s, containers (put_fs f s) = containers s;
}.

Section Keeps.
Context {S : Type} (containers : S -> gset string).

(** Computations that leave the set of containers as it is. *)
Definition keeps {A} (m : M S A) : Prop := forall s, containers (snd (m s)) = containers s.

Lemma keeps_bind {A B} (m : M S A) (f : A -> M S B) :
  keeps m -> (forall a, keeps (f a)) -> keeps (m ≫= f).
Proof.
  intros Hm Hf s. unfold mbind, M_bind. specialize (Hm s).
  destruct (m s) as [[a|e] s1]; simpl in *; [by rewrite Hf|done].
Qed.

Lemma keeps_ret {A} (a : A) : keeps (mret a).
Proof. done. Qed.

Lemma keeps_try {A} (m : M S A) p h :
  keeps m -> (forall e, keeps (h e)) -> keeps (try_except m p h).
Proof.
  intros Hm Hh s. unfold try_except. specialize (Hm s).
  destruct (m s) as [[a|e] s1]; simpl in *; [done|]. destruct (p e); [by rewrite Hh|done].
Qed.
End Keeps.

Lemma keeps_attempt {S} (containers : S -> gset string) {A} (m : M S A) :
  keeps containers m -> keeps containers (attempt m).
Proof. intros Hm s. specialize (Hm s). unfold attempt. by destruct (m s). Qed.

Lemma keeps_lift {S} (containers : S -> gset string) {A} (r : res A) : keeps containers (lift_res r).
Proof. done. Qed.

#[export] Hint Resolve keeps_bind keeps_ret keeps_try keeps_attempt keeps_lift : phx_inv.

(** The loop keeps the head of the stream and counts all of it. *)
Lemma drain_spec limit chunks buf total :
  0 <= limit -> (Z.of_nat (length buf) <= limit) ->
  drain limit chunks buf total =
    (take (Z.to_nat limit) (buf ++ concat chunks), total + Z.of_nat (length (concat chunks))).
Proof.
  intros Hl. revert buf total. induction chunks as [|c chunks IH]; intros buf total Hb; simpl.
  - rewrite app_nil_r, take_ge by lia. f_equal. lia.
  - destruct (_ <? limit) eqn:E; bool_to_prop; rewrite IH.
    + rewrite !length_app, Nat2Z.inj_add. f_equal; [|lia].
      assert (Hn : Z.to_nat limit = (length buf + Z.to_nat (limit - Z.of_nat (length buf)))%nat) by lia.
      rewrite <- app_assoc, Hn, !take_app_add. f_equal.
      rewrite !take_app, take_take, Nat.min_id, length_take. do 2 f_equal. lia.
    + rewrite length_app, length_take. lia.
    + rewrite length_app, Nat2Z.inj_add. f_equal; [|lia]. rewrite !take_app_le by lia. done.
    + done.
Qed.

Section RunFacts.
Context (decode : list ascii -> string).
Context {S : Type} `{Docker S} `{HasFs S} (containers : S -> gset string) `{!DockerLaws S containers}.

Local Abbreviation keeps := (keeps containers).

Lemma capture_keeps c limit out : keeps (_capture decode c limit out).
Proof.
  apply keeps_bind; [intros s; apply logs_keeps|]. intros chunks.
  destruct (drain limit chunks [] 0). apply keeps_ret.
Qed.

Lemma kill_keeps' c : keeps (_kill c).
Proof. apply keeps_try; [intros s; apply kill_keeps|intros; apply keeps_ret]. Qed.

Lemma oom_killed_keeps c code timed_out : keeps (_oom_killed c code timed_out).
Proof.
  apply keeps_bind; [intros s; apply oom_keeps|]. intros oom. destruct (_ || _); [apply keeps_ret|].
  generalize OOM_RECHECKS as n. induction n as [|n IH]; simpl; [apply keeps_ret|].
  apply keeps_bind; [intros s; apply oom_keeps|]. intros []; [apply keeps_ret|apply IH].
Qed.

Lemma wait_or_kill_keeps c t : keeps (wait_or_kill c t).
Proof.
  apply keeps_try.
  - apply keeps_bind; [intros s; apply wait_keeps|]. intros. apply keeps_ret.
  - intros _. apply keeps_bind; [apply kill_keeps'|]. intros _.
    apply keeps_bind; [intros s; apply wait_keeps|]. intros. apply keeps_ret.
Qed.

Lemma timed_wait_keeps c t q : keeps (timed_wait c t q).
Proof.
  apply keeps_bind; [apply wait_or_kill_keeps|]. intros [code killed].
  apply keeps_bind; [intros s; apply clock_keeps|]. intros. apply keeps_ret.
Qed.

#[local] Hint Resolve capture_keeps oom_killed_keeps timed_wait_keeps : phx_inv.

Lemma observe_keeps c policy : keeps (observe decode c policy).
Proof.
  unfold observe.
  repeat first
    [ apply keeps_ret
    | solve [auto with phx_inv]
    | apply keeps_bind; [first [solve [auto with phx_inv]
                               | intros s; first [apply clock_keeps | apply start_keeps]]|intros]
    | case_match ].
Qed.

(** The result of a finished run in terms of the two output streams. *)
Definition reports (policy : SandboxPolicy) (res : SandboxResult) (out err : list ascii) : Prop :=
  let limit := max_output_bytes policy in
  sb_stdout res = decode (take (Z.to_nat limit) out) /\
  sb_stderr res = decode (take (Z.to_nat limit) err) /\
  (sb_truncated res = true <-> limit < Z.of_nat (length out) \/ limit < Z.of_nat (length err)).

(** The end of a container: it ended within the time, or the wait raised one
    of the two exceptions of a time out, it was killed - or had ended since -
    and was waited for again. *)
Inductive waited_for (c : string) (timeout : Q) (s : S) : Z -> bool -> S -> Prop :=
  | ended_itself code s' :
      container_wait c (Some timeout) s = (Ok code, s') -> waited_for c timeout s code false s'
  | ended_late e k code s1 s2 s' :
      container_wait c (Some timeout) s = (Raise e, s1) -> e = ReadTimeout \/ e = RequestsConnectionError ->
      container_kill c s1 = (k, s2) -> k = Ok tt \/ k = Raise NotFound \/ k = Raise APIError ->
      container_wait c None s2 = (Ok code, s') -> waited_for c timeout s code true s'.

(** The life of a container: the exit code, whether it had to be killed and
    the time it took. *)
Definition lived (c : string) (policy : SandboxPolicy) (s : S) (code : Z) (killed : bool) (took : Q) (s' : S) : Prop :=
  exists started ended s1 s2 s3,
    clock s = (Ok started, s1) /\ container_start c s1 = (Ok tt, s2) /\
    waited_for c (timeout_s policy) s2 code killed s3 /\
    clock s3 = (Ok ended, s') /\ took = (ended - started)%Q.

(** A run that returned: what its container wrote and how it ended. *)
Definition ran (ws : path) (cmd : list string) (policy : SandboxPolicy) (name : string) (s : S)
    (res : SandboxResult) : Prop :=
  exists ws1 s1 c s2 took s3 outs s4 errs s5,
    (ws1 ← with_fs (fun f => (resolve f ws, f)); with_fs (mkdir ws1) ;; mret ws1) s = (Ok ws1, s1) /\
    containers_create (container_config policy ws1 cmd name) s1 = (Ok c, s2) /\
    lived c policy s2 (sb_exit_code res) (sb_timed_out res) took s3 /\
    container_logs c true s3 = (Ok outs, s4) /\ container_logs c false s4 = (Ok errs, s5) /\
    reports policy res (concat outs) (concat errs) /\
    sb_duration_ms res = Qfloor (took * (1000#1)) /\
    fst (_oom_killed c (sb_exit_code res) (sb_timed_out res) s5) = Ok (sb_oom_killed res).

Lemma capture_Ok c limit b s r s' :
  0 <= limit -> _capture decode c limit b s = (Ok r, s') ->
  exists chunks, container_logs c b s = (Ok chunks, s') /\
    r = (decode (take (Z.to_nat limit) (concat chunks)), limit <? Z.of_nat (length (concat chunks))).
Proof.
  intros Hl Hc. apply bind_Ok_inv in Hc as (chunks & s1 & E & Hc).
  rewrite drain_spec in Hc by (simpl; lia). injection Hc as <- <-. eauto.
Qed.

Lemma attempt_inv {A} (m : M S A) s r s' : attempt m s = (Ok r, s') -> m s = (r, s').
Proof. unfold attempt. destruct (m s). by intros [= -> ->]. Qed.

Lemma lift_Ok_inv {A} (r : Prelude.res A) (s : S) a s' : lift_res r s = (Ok a, s') -> r = Ok a /\ s' = s.
Proof. unfold lift_res. by intros [= -> ->]. Qed.

Lemma wait_or_kill_waited c t s code killed s' :
  wait_or_kill c t s = (Ok (code, killed), s') -> waited_for c t s code killed s'.
Proof.
  unfold wait_or_kill, try_except. unfold mbind at 1, M_bind at 1.
  destruct (container_wait c (Some t) s) as [[x|e] s1] eqn:Ew; [intros [= <- <- <-]; by constructor|].
  assert (He : (match e with ReadTimeout | RequestsConnectionError => true | _ => false end) = true ->
    e = ReadTimeout \/ e = RequestsConnectionError) by (destruct e; by auto).
  destruct (match e with ReadTimeout | RequestsConnectionError => true | _ => false end); [|done].
  intros E. apply bind_Ok_inv in E as (u & s2 & Ek & E). apply bind_Ok_inv in E as (y & s3 & Ew2 & E).
  injection E as <- <- <-. unfold _kill, try_except in Ek.
  destruct (container_kill c s1) as [k s4] eqn:Ekill.
  assert (Hk : (k = Ok tt \/ k = Raise NotFound \/ k = Raise APIError) /\ s4 = s2).
  { destruct k as [[]|e']; [injection Ek as _ ->; by auto|]. destruct e'; try done; injection Ek as _ ->; by auto. }
  destruct Hk as [Hk ->]. by eapply ended_late; eauto.
Qed.

Lemma observe_ran c policy s res s' :
  0 <= max_output_bytes policy -> observe decode c policy s = (Ok res, s') ->
  exists took s3 outs s4 errs s5,
    lived c policy s (sb_exit_code res) (sb_timed_out res) took s3 /\
    container_logs c true s3 = (Ok outs, s4) /\ container_logs c false s4 = (Ok errs, s5) /\
    reports policy res (concat outs) (concat errs) /\
    sb_duration_ms res = Qfloor (took * (1000#1)) /\
    fst (_oom_killed c (sb_exit_code res) (sb_timed_out res) s5) = Ok (sb_oom_killed res).
Proof.
  intros Hl Ho. unfold observe in Ho.
  apply bind_Ok_inv in Ho as (t0 & s1 & E0 & Ho). apply bind_Ok_inv in Ho as ([] & s2 & E1 & Ho).
  apply bind_Ok_inv in Ho as (w & s3 & Ew%attempt_inv & Ho).
  apply bind_Ok_inv in Ho as (o & s4 & Eo%attempt_inv & Ho).
  apply bind_Ok_inv in Ho as (e & s5 & Ee%attempt_inv & Ho).
  apply bind_Ok_inv in Ho as ([[code killed] ms] & ? & [-> ->]%lift_Ok_inv & Ho).
  apply bind_Ok_inv in Ho as ([out out_cut] & ? & [-> ->]%lift_Ok_inv & Ho).
  apply bind_Ok_inv in Ho as ([err err_cut] & ? & [-> ->]%lift_Ok_inv & Ho).
  apply bind_Ok_inv in Ho as (oom & s7 & Eoom & Ho). injection Ho as <- _.
  apply capture_Ok in Eo as (outs & Eo & [= -> ->]); [|done].
  apply capture_Ok in Ee as (errs & Ee & [= -> ->]); [|done].
  unfold timed_wait in Ew. apply bind_Ok_inv in Ew as ([code1 killed1] & s8 & Ew & Et).
  apply bind_Ok_inv in Et as (t1 & s9 & Et & Heq). injection Heq as <- <- <- <-.
  exists (t1 - t0)%Q, s9, outs, s4, errs, s5. cbn [sb_exit_code sb_timed_out sb_duration_ms sb_oom_killed].
  split_and!; try done; [| |by rewrite Eoom].
  - exists t0, t1, s1, s2, s8. split_and!; [done|done|by apply wait_or_kill_waited|done|done].
  - unfold reports. simpl. split_and!; [done..|]. by rewrite orb_true_iff, !Z.ltb_lt.
Qed.

(** C40: a run leaves no container behind.  However it ends, the containers
    after it are those before it, unless Docker refused the removal itself -
    for another reason than that the container is gone -, which is then what
    the run raises.  A run that returns waited for its container, and each of
    its texts is the head, up to the limit, of what that container wrote to
    that stream; it says that its output was cut exactly when one of the
    streams was longer than the limit, and it carries the container's exit
    code, the time it took, and whether it had to be killed for its time. *)
Theorem run_cleans_up ws cmd policy name s r s' :
  0 <= max_output_bytes (default default_policy policy) ->
  runner_run decode ws cmd policy name s = (r, s') ->
  (containers s' = containers s \/
   exists c s1 e, fst (container_remove c s1) = Raise e /\ e <> NotFound /\ r = Raise e) /\
  forall res, r = Ok res -> ran ws cmd (default default_policy policy) name s res.
Proof.
  intros Hl Hr. unfold runner_run in Hr. set (pol := default default_policy policy) in *.
  assert (Hf : forall A (m : M fs A), keeps (with_fs m)).
  { intros A m s0. unfold with_fs. destruct (m (get_fs s0)). apply files_keep. }
  unfold mbind, M_bind in Hr.
  pose proof (Hf _ (fun f => (resolve f ws, f)) s) as H1. destruct (with_fs _ s) as [[ws1|e] s1] eqn:E1; simpl in H1.
  2: { injection Hr as <- <-. by split; [left|]. }
  pose proof (Hf _ (mkdir ws1) s1) as H2. destruct (with_fs (mkdir ws1) s1) as [[?|e] s2] eqn:E2; simpl in H2.
  2: { injection Hr as <- <-. split; [left; congruence|done]. }
  destruct (containers_create _ s2) as [[c|e] s3] eqn:Ec.
  2: { apply create_fails in Ec. injection Hr as <- <-. split; [left; congruence|done]. }
  pose proof Ec as [Hfresh Hc]%create_fresh. unfold try_finally in Hr.
  pose proof (observe_keeps c pol s3) as H4. destruct (observe decode c pol s3) as [ro s4] eqn:Eo. simpl in H4.
  assert (Hrep : forall res, ro = Ok res -> ran ws cmd pol name s res).
  { intros res ->. apply observe_ran in Eo as (took & s6 & outs & s7 & errs & s8 & Hran); [|done].
    exists ws1, s2, c, s3, took, s6, outs, s7, errs, s8.
    split; [|by split]. unfold mbind, M_bind. by rewrite E1, E2. }
  unfold _remove, try_except in Hr. destruct (container_remove c s4) as [[[]|e] s5] eqn:Er.
  - apply remove_removes in Er. injection Hr as <- <-. split; [|done]. left.
    rewrite Er, H4, Hc, H2, H1. rewrite H2, H1 in Hfresh. clear -Hfresh. set_solver.
  - destruct e; try (injection Hr as <- <-; split; [right; exists c, s4; rewrite Er; by eexists|done]).
    apply remove_not_found in Er as [Hn _]. rewrite H4, Hc in Hn. clear -Hn. set_solver.
Qed.
End RunFacts.
