(* ===== verification/Scenarios.v ===== *)
(** [chaos/scenarios.py] without its supervisor loop (that is [Supervisor]):
    the seeded plan of a chaos run, the choice of targets, and the
    deterministic zombie replay.

    The random generator is a parameter (the class [Rng] with the ranges its
    operations promise). *)

From Stdlib Require Import QArith Qround Lqa.
From S2P Require Import Prelude PyString PyDecimal Json Database Store Leases Engine Budget LlmCache.
From S2P Require Import Execution Invariants System.

(** ** Random draws *)
Class Rng (R : Type) : Type := {
  rng_random : M R Q;
  rng_uniform : Q -> Q -> M R Q;
  rng_randint : Z -> Z -> M R Z;
  (** the index [rng.choice] picks in a list of the given length *)
  rng_below : nat -> M R nat;
}.

Class RngLaws (R : Type) `{Rng R} : Prop := {
  rng_random_range : forall g, exists q g', rng_random g = (Ok q, g') /\ (0 <= q < 1)%Q;
  rng_uniform_range : forall a b g, (a <= b)%Q ->
    exists q g', rng_uniform a b g = (Ok q, g') /\ (a <= q <= b)%Q;
  rng_randint_range : forall a b g, a <= b ->
    exists z g', rng_randint a b g = (Ok z, g') /\ a <= z <= b;
  rng_below_range : forall n g, (0 < n)%nat ->
    exists i g', rng_below n g = (Ok i, g') /\ (i < n)%nat;
}.

(** ** Configuration and plan *)
Definition FAULT_KILL : string := "kill_worker".
Definition FAULT_SUSPEND : string := "suspend_worker".
Definition FAULT_DOCKER : string := "docker_kill".

Record ChaosConfig := MkChaosConfig {
  cc_seed : Z;
  cc_runs : nat;
  cc_workers : nat;
  cc_lease_seconds : Q;
  cc_workload : string;
  cc_faults : option nat;
  cc_timeout_seconds : Q;
  cc_unsafe_no_fencing : bool;
}.

Record Fault := MkFault { f_at : Q; f_kind : string; f_u : Q; f_duration : Q }.

(** [round(t, 2)] *)
Definition round2 (t : Q) : Q :=
  let s := (t * (100#1))%Q in
  let z := Qfloor s in
  let frac := (s - inject_Z z)%Q in
  let up := negb (Qle_bool frac (1#2)) || (Qeq_bool frac (1#2) && Z.odd z) in
  ((if up then z + 1 else z) # 100).

Section Plan.
Context {R : Type} `{Rng R}.
(** [json.dumps] of a float *)
Context (float_text : Q -> string).

Definition agent_spec : json :=
  JObj [("kind", JStr "agent"); ("prompt", JStr "print hello");
        ("mock_scenario", JStr "fail_twice_then_fix")].

Definition draw_spec (cfg : ChaosConfig) : M R json :=
  agent ← (if bool_decide (cc_workload cfg = "agent") then mret true
           else if bool_decide (cc_workload cfg = "mixed") then
             u ← rng_random; mret (negb (Qle_bool (66#100) u))
           else mret false);
  if (agent : bool) then mret agent_spec
  else
    steps ← rng_randint 10 20;
    delay ← rng_uniform (5#100) (15#100);
    mret (JObj [("kind", JStr "toy"); ("steps", JInt steps);
                ("step_delay", JFloat (float_text delay))]).

Fixpoint repeat_m {S A} (n : nat) (m : M S A) : M S (list A) :=
  match n with
  | O => mret []
  | Datatypes.S n' => x ← m; xs ← repeat_m n' m; mret (x :: xs)
  end.

Definition fault_kinds (cfg : ChaosConfig) : list string :=
  [FAULT_KILL; FAULT_SUSPEND] ++
  (if bool_decide (cc_workload cfg = "toy") then [] else [FAULT_DOCKER]).

Definition n_faults (cfg : ChaosConfig) : nat :=
  match cc_faults cfg with Some n => n | None => 4 `max` (cc_runs cfg `div` 2) end.

(** The faults after time [t]. *)
Fixpoint draw_faults (cfg : ChaosConfig) (n : nat) (t : Q) : M R (list Fault) :=
  match n with
  | O => mret []
  | Datatypes.S n' =>
      gap ← rng_uniform (1#2) (2#1);
      let t := (t + gap)%Q in
      i ← rng_below (length (fault_kinds cfg));
      let kind := nth i (fault_kinds cfg) "" in
      duration ← rng_uniform (cc_lease_seconds cfg * (13#10))%Q (cc_lease_seconds cfg * (25#10))%Q;
      u ← rng_random;
      rest ← draw_faults cfg n' t;
      mret (MkFault (round2 t) kind u
              (if bool_decide (kind = FAULT_SUSPEND) then duration else 0%Q) :: rest)
  end.

Definition plan (cfg : ChaosConfig) : M R (list json * list Fault) :=
  specs ← repeat_m (cc_runs cfg) (draw_spec cfg);
  faults ← draw_faults cfg (n_faults cfg) 0%Q;
  mret (specs, faults).
End Plan.

(** ** Targets *)

(** [items[int(u * len(items))] if items else None] *)
Definition pick {A} (u : Q) (items : list A) : option A :=
  match items with
  | [] => None
  | _ => items !! Z.to_nat (Qfloor (u * inject_Z (Z.of_nat (length items)))%Q)
  end.

(** The container [docker_kill] chooses among the running ones. *)
Definition pick_container (u : Q) (names : list string) : option string :=
  match sort_by str_leb names with
  | [] => None
  | l => l !! Z.to_nat (Qfloor (u * inject_Z (Z.of_nat (length l)))%Q `mod` Z.of_nat (length l))
  end.

(** ** Zombie replay *)
Section Zombie.
(** The time of the k-th transaction. *)
Context (fencing : bool) (time : nat -> Z).

Definition zombie_cost : dec := Dec 1 (-4).

Definition zombie_outcome (steps i : Z) : StepOutcome :=
  MkStepOutcome "toy_step"
    [("i", JInt i); ("cost_usd", JStr (string_of_dec zombie_cost))] zombie_cost
    (i =? steps - 1) Succeeded.

(** [for _ in range(n)]: the holder commits the next steps; the index after
    them. *)
Fixpoint work (c : Claim) (steps : Z) (n k : nat) (idx : Z) : M db Z :=
  match n with
  | O => mret idx
  | S n' =>
      commit_step fencing (time k) c idx (zombie_outcome steps idx) ;;
      work c steps n' (S k) (idx + 1)
  end.

Record tally := MkTally { t_idx : Z; t_rejected : Z; t_accepted : Z }.

(** The zombie tries to commit [n] times. *)
Fixpoint intrude (c : Claim) (steps : Z) (n k : nat) (t : tally) : M db tally :=
  match n with
  | O => mret t
  | S n' =>
      t' ← try_except
        (commit_step fencing (time k) c (t_idx t) (zombie_outcome steps (t_idx t)) ;;
         mret (MkTally (t_idx t + 1) (t_rejected t) (t_accepted t + 1)))
        is_lease_lost
        (fun _ => mret (MkTally (t_idx t) (t_rejected t + 1) (t_accepted t)));
      intrude c steps n' (S k) t'
  end.

(** [UPDATE tasks SET lease_expires_at = now() - interval '1 second'] *)
Definition expire_leases (now : Z) : M db unit :=
  modify (fun d => set_tasks (extend_row (now - 1000000) <$> tasks d) d).

Definition claimed_or_fail (c : option Claim) : M db Claim :=
  match c with Some c => mret c | None => raise RuntimeError end.

(** The body after the draws: [n1], [n2] and [n3] are [rng.randint(1, 4)],
    [rng.randint(1, 4)] and [rng.randint(1, 3)]. *)
Definition zombie_script (rid tid : uuid) (steps : Z) (n1 n2 n3 : nat) : M db (uuid * Z * Z) :=
  run_id ← submit_run (time 0) rid tid
             (JObj [("kind", JStr "toy"); ("steps", JInt steps)]) (inl "1.0"%stdpp);
  a ← claim_task (time 1) ∅ "A" 60000000;
  a ← claimed_or_fail a;
  idx ← work a steps n1 2 0;
  expire_leases (time (2 + n1)) ;;
  reap_expired (time (3 + n1)) ∅ ;;
  b ← claim_task (time (4 + n1)) ∅ "B" 60000000;
  b ← claimed_or_fail b;
  idx ← work b steps n2 (5 + n1) idx;
  t ← intrude a steps n3 (5 + n1 + n2) (MkTally idx 0 0);
  work b steps (Z.to_nat (steps - t_idx t)) (5 + n1 + n2 + n3) (t_idx t) ;;
  mret (run_id, t_rejected t, t_accepted t).

Definition zombie_replay {R} `{Rng R} (g : R) (rid tid : uuid) (steps : Z) : M db (uuid * Z * Z) :=
  fun d =>
  match (n1 ← rng_randint 1 4; n2 ← rng_randint 1 4; n3 ← rng_randint 1 3; mret (n1, n2, n3)) g with
  | (Ok (n1, n2, n3), _) => zombie_script rid tid steps (Z.to_nat n1) (Z.to_nat n2) (Z.to_nat n3) d
  | (Raise e, _) => (Raise e, d)
  end.
End Zombie.

(** ** What the plan promises *)

(** A fault a plan for [cfg] may contain: suspensions outlast the lease. *)
Definition fault_ok (cfg : ChaosConfig) (f : Fault) : Prop :=
  f_kind f ∈ fault_kinds cfg /\ (0 <= f_u f < 1)%Q /\
  (f_kind f = FAULT_SUSPEND -> (0 < cc_lease_seconds cfg -> cc_lease_seconds cfg < f_duration f)%Q).

Section PlanFacts.
Context {R : Type} `{RngLaws R}.

Lemma draw_faults_ok cfg n t (g : R) :
  (0 <= cc_lease_seconds cfg)%Q ->
  exists fs g', draw_faults cfg n t g = (Ok fs, g') /\ length fs = n /\ Forall (fault_ok cfg) fs.
Proof.
  intros Hl. revert t g. induction n as [|n IH]; intros t g; [exists [], g; by split_and!|]. cbn [draw_faults].
  destruct (rng_uniform_range (1#2) (2#1) g) as (gap & g1 & E1 & _); [lra|].
  assert (Hk : (0 < length (fault_kinds cfg))%nat) by (unfold fault_kinds; simpl; lia).
  destruct (rng_below_range _ g1 Hk) as (i & g2 & E2 & Hi).
  destruct (rng_uniform_range (cc_lease_seconds cfg * (13#10)) (cc_lease_seconds cfg * (25#10)) g2)
    as (dur & g3 & E3 & Hd); [lra|].
  destruct (rng_random_range g3) as (u & g4 & E4 & Hu).
  destruct (IH (t + gap)%Q g4) as (fs & g5 & E5 & Hlen & Hfs).
  unfold mbind, M_bind. rewrite E1, E2, E3, E4, E5. eexists _, _. split; [done|]. cbn [length].
  split; [congruence|]. constructor; [|done]. unfold fault_ok. cbn [f_kind f_u f_duration]. split; [|split; [done|]].
  - apply list_elem_of_In. by apply nth_In.
  - intros Hs Hpos. rewrite bool_decide_eq_true_2 by done. lra.
Qed.

(** The plan has the size the configuration asks for. *)
Lemma plan_ok cfg float_text (g : R) :
  (0 <= cc_lease_seconds cfg)%Q ->
  exists specs faults g', plan float_text cfg g = (Ok (specs, faults), g') /\
    length specs = cc_runs cfg /\ length faults = n_faults cfg /\ Forall (fault_ok cfg) faults.
Proof.
  intros Hl.
  assert (Hd : forall g0 : R, exists v g', draw_spec float_text cfg g0 = (Ok v, g')).
  { intros g0. unfold draw_spec.
    assert (Ha : exists b g1, (if bool_decide (cc_workload cfg = "agent") then mret true
           else if bool_decide (cc_workload cfg = "mixed") then
             u ← rng_random; mret (negb (Qle_bool (66#100) u))
           else mret false) g0 = (Ok b, g1)).
    { destruct (bool_decide _); [by eexists _, _|]. destruct (bool_decide _); [|by eexists _, _].
      destruct (rng_random_range g0) as (u & g1 & E & _). unfold mbind, M_bind. rewrite E. by eexists _, _. }
    destruct Ha as (b & g1 & Ea). unfold mbind at 1, M_bind at 1. rewrite Ea. destruct b; [by eexists _, _|].
    destruct (rng_randint_range 10 20 g1) as (z & g2 & E2 & _); [lia|].
    destruct (rng_uniform_range (5#100) (15#100) g2) as (q & g3 & E3 & _); [lra|].
    unfold mbind, M_bind. rewrite E2, E3. by eexists _, _. }
  assert (Hr : forall n g0, exists l g', repeat_m n (draw_spec float_text cfg) g0 = (Ok l, g') /\ length l = n).
  { induction n as [|n IH]; intros g0; [by exists [], g0|]. simpl. unfold mbind, M_bind.
    destruct (Hd g0) as (v & g1 & ->). destruct (IH g1) as (l & g2 & -> & <-). by exists (v :: l), g2. }
  destruct (Hr (cc_runs cfg) g) as (specs & g1 & E1 & Hlen).
  destruct (draw_faults_ok cfg (n_faults cfg) 0%Q g1 Hl) as (fs & g2 & E2 & Hf).
  exists specs, fs, g2. unfold plan, mbind, M_bind. by rewrite E1, E2.
Qed.

(** Any draw picks a target as long as there is one. *)
Lemma pick_total {A} u (items : list A) :
  (0 <= u < 1)%Q -> items <> [] -> is_Some (pick u items).
Proof.
  intros Hu Hne. destruct items as [|x l]; [done|]. unfold pick. apply lookup_lt_is_Some_2.
  set (n := length (x :: l)). assert (Hn : (0 < n)%nat) by (unfold n; simpl; lia).
  assert (Hq : (0 < inject_Z (Z.of_nat n))%Q) by (unfold Qlt; simpl; lia).
  enough (Hf : Qfloor (u * inject_Z (Z.of_nat n)) < Z.of_nat n) by lia.
  rewrite Zlt_Qlt. eapply Qle_lt_trans; [apply Qfloor_le|]. nra.
Qed.
End PlanFacts.

(** ** The zombie replay *)
Section ZombieFacts.
Context (fencing : bool) (time : nat -> Z).

Lemma zombie_cost_micros : whole_micros zombie_cost 100.
Proof. by split; [vm_compute|split; [vm_compute|]]. Qed.

(** The state after [n] commits: one run, its task leased under [c];
    [writers] are the attempts under which the events were written. *)
Record replayed (c : Claim) (until avail : Z) (n : nat) (writers : list Z) (d : db) : Prop := {
  rs_tasks : tasks d = {[ claim_task_id c :=
    TaskRow (claim_run_id c) Leased (Some (claim_worker_id c)) (Some until) (claim_attempt c) avail ]};
  rs_run : exists row, runs d !! claim_run_id c = Some row /\ run_spent_usd row = 100 * Z.of_nat n;
  rs_events : length (events_of (claim_run_id c) d) = n;
  rs_writers : ev_attempt <$> events_of (claim_run_id c) d = writers;
  rs_gapless : gapless (claim_run_id c) d;
  rs_keyed : keyed (claim_run_id c) d;
}.

(** The state after the last step. *)
Record finished (rid : uuid) (steps : Z) (writers : list Z) (d : db) : Prop := {
  fin_run : exists row, runs d !! rid = Some row /\ run_status_of row = Succeeded /\
    run_spent_usd row = 100 * steps;
  fin_events : Z.of_nat (length (events_of rid d)) = steps;
  fin_writers : ev_attempt <$> events_of rid d = writers;
  fin_gapless : gapless rid d;
}.

(** A claim on the same task, perhaps an old one. *)
Definition same_task (c c' : Claim) : Prop :=
  claim_task_id c' = claim_task_id c /\ claim_run_id c' = claim_run_id c.

Lemma zombie_storable c steps i :
  nul_free (claim_worker_id c) = true -> jsonb (JObj (commit_payload c (zombie_outcome steps i))) = Ok tt.
Proof.
  intros Hc. pose proof (string_of_dec_nul_free zombie_cost) as Hs. apply jsonb_obj_Ok, dset_Forall.
  - split; [done|]. apply jsonb_obj_Ok. repeat (apply Forall_cons_2; [split; [done|by try apply jsonb_text_Ok]|]).
    apply Forall_nil_2.
  - cbn [zombie_outcome so_payload].
    repeat (apply Forall_cons_2; [split; [done|by try apply jsonb_text_Ok]|]). apply Forall_nil_2.
Qed.

Lemma commit_next c c' until avail n l d now steps :
  replayed c until avail n l d -> same_task c c' -> nul_free (claim_worker_id c') = true -> fence_ok fencing now c' d = true ->
  Z.of_nat n < steps -> 100 * steps < pow10 12 ->
  exists d', commit_step fencing now c' (Z.of_nat n) (zombie_outcome steps (Z.of_nat n)) d = (Ok true, d') /\
    (Z.of_nat n < steps - 1 -> replayed c until avail (S n) (l ++ [claim_attempt c']) d') /\
    (Z.of_nat n = steps - 1 -> finished (claim_run_id c) steps (l ++ [claim_attempt c']) d').
Proof.
  intros [Ht (row & Hrow & Hsp) He Hw Hg Hk] [Htid Hrid] Hnul Hf Hn Hlt.
  rewrite <- Hrid in Hrow, He, Hw, Hg, Hk. rewrite commit_step_eq by done. rewrite Hf, Hrow. simpl negb.
  rewrite (proj2 (keyed_select_None (claim_run_id c') d (Z.of_nat n) Hk ltac:(lia))) by lia.
  unfold commit_values. rewrite zombie_storable by done. unfold_m.
  rewrite (numeric_add_micros _ _ 100) by (apply zombie_cost_micros || lia).
  eexists. split; [done|]. set (d' := committed _ _ _ _ _ _ _).
  assert (Hlen : length (events_of (claim_run_id c') d') = S n).
  { unfold d'. rewrite <- He. by rewrite committed_length. }
  assert (Hw' : ev_attempt <$> events_of (claim_run_id c') d' = l ++ [claim_attempt c']).
  { unfold d'. by rewrite events_committed, decide_True, fmap_app, Hw by done. }
  assert (Hg' : gapless (claim_run_id c') d') by by apply gapless_committed.
  assert (Hr' : runs d' !! claim_run_id c' = Some (committed_run now (zombie_outcome steps (Z.of_nat n))
    (run_spent_usd row + 100) row)) by (unfold d'; by rewrite runs_committed, lookup_insert_eq).
  unfold committed_run in Hr'. cbn [so_final zombie_outcome so_final_status] in Hr'.
  split; intros Hc; rewrite <- ?Hrid.
  - rewrite (proj2 (Z.eqb_neq _ _)) in Hr' by lia. split; rewrite <- ?Hrid; try done.
    + unfold d'. rewrite tasks_committed. cbn [so_final zombie_outcome].
      rewrite (proj2 (Z.eqb_neq _ _)) by lia. by rewrite Hrid.
    + eexists. split; [exact Hr'|]. simpl. lia.
    + apply keyed_committed; [done|lia].
  - rewrite (proj2 (Z.eqb_eq _ _)) in Hr' by lia. split; [|lia|done..].
    eexists. split; [exact Hr'|]. simpl. split; [done|lia].
Qed.

(** The holder's fence. *)
Lemma holder_fence c until avail n l d now :
  replayed c until avail n l d -> now < until -> fence_ok fencing now c d = true.
Proof.
  intros [Ht _ _ _ _ _] Hlt. unfold fence_ok. rewrite Ht, lookup_singleton_eq.
  apply orb_true_iff. right. apply andb_true_iff. split; [|by apply Z.ltb_lt].
  unfold held_by, is_leased. simpl. by rewrite Z.eqb_refl, !bool_decide_eq_true_2.
Qed.

(** The holder works through [k] steps that are not the last. *)
Lemma work_steps c until avail n l d steps k j :
  nul_free (claim_worker_id c) = true ->
  replayed c until avail n l d -> (forall i, (j <= i < j + k)%nat -> time i < until) ->
  Z.of_nat (n + k) < steps -> 100 * steps < pow10 12 ->
  exists d', work fencing time c steps k j (Z.of_nat n) d = (Ok (Z.of_nat (n + k)), d') /\
    replayed c until avail (n + k) (l ++ replicate k (claim_attempt c)) d'.
Proof.
  intros Hnul. revert n l d j. induction k as [|k IH]; intros n l d j Hd Ht Hn Hlt; simpl.
  { rewrite Nat.add_0_r, app_nil_r. by exists d. }
  destruct (commit_next c c until avail n l d (time j) steps) as (d1 & E & Hd1 & _);
    [done..|eapply holder_fence; [done|apply Ht; lia]|lia|done|].
  destruct (IH (S n) (l ++ [claim_attempt c]) d1 (S j)) as (d' & E' & Hd'); [apply Hd1; lia|intros; apply Ht; lia|lia|done|].
  rewrite <- app_assoc in Hd'. exists d'. unfold mbind, M_bind. rewrite E. replace (Z.of_nat n + 1) with (Z.of_nat (S n)) by lia.
  rewrite E'. by replace (n + S k)%nat with (S n + k)%nat by lia.
Qed.

(** The holder works to the end. *)
Lemma work_finishes c until avail n l d steps j :
  nul_free (claim_worker_id c) = true ->
  replayed c until avail n l d -> (forall i, (j <= i)%nat -> time i < until) ->
  Z.of_nat n < steps -> 100 * steps < pow10 12 ->
  exists z d', work fencing time c steps (Z.to_nat (steps - Z.of_nat n)) j (Z.of_nat n) d = (Ok z, d') /\
    finished (claim_run_id c) steps (l ++ replicate (Z.to_nat (steps - Z.of_nat n)) (claim_attempt c)) d'.
Proof.
  intros Hnul Hd Ht Hn Hlt. remember (Z.to_nat (steps - Z.of_nat n - 1)) as k eqn:Ek.
  replace (Z.to_nat (steps - Z.of_nat n)) with (S k) by lia.
  revert n l d j Hd Ht Hn Ek. induction k as [|k IH]; intros n l d j Hd Ht Hn Ek; cbn [work];
    destruct (commit_next c c until avail n l d (time j) steps) as (d1 & E & Hd1 & Hd2);
    try done; try (eapply holder_fence; [done|apply Ht; lia]); unfold mbind, M_bind; rewrite E.
  - eexists _, d1. split; [done|]. apply Hd2. lia.
  - replace (Z.of_nat n + 1) with (Z.of_nat (S n)) by lia.
    destruct (IH (S n) (l ++ [claim_attempt c]) d1 (S j)) as (z & d' & E' & Hd'); [apply Hd1; lia|intros; apply Ht; lia|lia|lia|].
    rewrite <- app_assoc in Hd'. eauto.
Qed.

(** The zombie: every commit refused with fencing, every one landed without. *)
Lemma intrude_steps c z until avail n l d steps k j rej acc :
  nul_free (claim_worker_id z) = true ->
  replayed c until avail n l d -> same_task c z -> claim_attempt z <> claim_attempt c ->
  Z.of_nat (n + k) < steps -> 100 * steps < pow10 12 ->
  exists d', intrude fencing time z steps k j (MkTally (Z.of_nat n) rej acc) d =
      (Ok (if fencing then MkTally (Z.of_nat n) (rej + Z.of_nat k) acc
           else MkTally (Z.of_nat (n + k)) rej (acc + Z.of_nat k)), d') /\
    replayed c until avail (if fencing then n else n + k)
      (l ++ (if fencing then [] else replicate k (claim_attempt z))) d'.
Proof.
  intros Hnul. revert n l d j rej acc. induction k as [|k IH]; intros n l d j rej acc Hd Hs Ha Hn Hlt; simpl.
  { rewrite !Z.add_0_r, !Nat.add_0_r. exists d. by destruct fencing; rewrite app_nil_r. }
  unfold mbind at 1, M_bind at 1. unfold try_except. unfold mbind at 1, M_bind at 1. cbn [t_idx].
  destruct (fence_ok fencing (time j) z d) eqn:Hf.
  - assert (fencing = false) as Hfen.
    { destruct fencing; [|done]. unfold fence_ok in Hf. destruct Hd as [Ht _ _ _ _ _], Hs as [Hst _].
      rewrite Ht, Hst, lookup_singleton_eq in Hf. simpl in Hf. unfold held_by in Hf. simpl in Hf.
      rewrite (proj2 (Z.eqb_neq _ _)) in Hf by done. done. }
    destruct (commit_next c z until avail n l d (time j) steps) as (d1 & E & Hd1 & _); [done..|lia|done|].
    rewrite E. unfold mret, M_ret. cbn [t_rejected t_accepted].
    replace (Z.of_nat n + 1) with (Z.of_nat (S n)) by lia.
    destruct (IH (S n) (l ++ [claim_attempt z]) d1 (S j) rej (acc + 1)) as (d' & E' & Hd'); [apply Hd1; lia|done|done|lia|done|].
    exists d'. rewrite E', Hfen in *. replace (n + S k)%nat with (S n + k)%nat by lia.
    rewrite <- app_assoc in Hd'. split; [|done].
    do 3 f_equal. lia.
  - assert (fencing = true) as Hfen by (by destruct fencing).
    destruct Hs as [Hst Hsr]. rewrite commit_step_eq by (rewrite Hsr; apply Hd). rewrite Hf. simpl.
    unfold mret, M_ret.
    destruct (IH n l d (S j) (rej + 1) acc) as (d' & E' & Hd'); [done|by split|done|lia|done|].
    exists d'. cbn [t_idx t_rejected t_accepted]. rewrite E', Hfen in *. split; [|done]. do 3 f_equal. lia.
Qed.

(** ** Setting up: submit, claim, expire, reap, claim again *)

Lemma select_only now tid t d :
  tasks d = {[tid := t]} -> task_status_of t = Queued -> task_available_at t <= now ->
  select_claimable now ∅ d = Some (tid, t).
Proof.
  intros Ht Hq Ha. unfold select_claimable. rewrite Ht, map_to_list_singleton.
  assert (Hc : claimable now ∅ (tid, t) = true).
  { unfold claimable. simpl. rewrite bool_decide_eq_true_2, (proj2 (Z.leb_le _ _)) by done.
    by rewrite bool_decide_eq_false_2 by set_solver. }
  by rewrite filter_cons_True.
Qed.

(** Claiming the only task when it is queued. *)
Lemma claim_only now tid rid att avail w n l d :
  tasks d = {[tid := TaskRow rid Queued None None att avail]} -> avail <= now ->
  (exists row, runs d !! rid = Some row /\ run_spent_usd row = 100 * Z.of_nat n) ->
  length (events_of rid d) = n -> ev_attempt <$> events_of rid d = l -> gapless rid d -> keyed rid d ->
  exists d', claim_task now ∅ w 60000000 d = (Ok (Some (MkClaim tid rid w (att + 1))), d') /\
    replayed (MkClaim tid rid w (att + 1)) (now + 60000000) avail n l d'.
Proof.
  intros Ht Ha (row & Hrow & Hsp) Hn Hl Hg Hk. rewrite claim_task_eq.
  rewrite (select_only now tid _ d Ht) by done. eexists. split; [done|].
  set (d' := claimed _ _ _ _ _).
  assert (He : forall r, events_of r d' = events_of r d).
  { intros r. unfold events_of, d'. by rewrite events_claimed. }
  split; simpl; rewrite ?He; try done.
  - unfold d'. rewrite tasks_claimed, Ht. apply insert_singleton_eq.
  - unfold d', claimed. simpl. rewrite Hrow. destruct (is_pending row); simpl; [|by eauto].
    rewrite lookup_insert_eq. by eexists.
  - unfold gapless. by rewrite He.
  - unfold keyed. by rewrite He.
Qed.

Lemma submit_empty now rid tid spec :
  jsonb spec = Ok tt ->
  submit_run now rid tid spec (inl "1.0"%stdpp) db_empty =
  (Ok rid, Db {[rid := RunRow spec Pending 10000 0 now None]} []
              {[tid := TaskRow rid Queued None None 0 now]} ∅ []).
Proof.
  intros Hj. unfold submit_run, insert_run, enqueue_task, insert_run_row, insert_task_row. unfold_m.
  assert (E : py_decimal (inl "1.0"%stdpp) = Ok (Dec 10 (-1))) by by_vm. rewrite E, Hj.
  assert (E2 : numeric 10 4 (Dec 10 (-1)) = Ok 10000) by by_vm. rewrite E2.
  simpl. rewrite !lookup_empty. simpl. by rewrite !lookup_insert_eq, lookup_empty.
Qed.

(** Expiring the leases and reaping puts the only task back in the queue. *)
Lemma expire_and_reap c until avail n l d now now' :
  replayed c until avail n l d -> now <= now' ->
  exists m, (expire_leases now ;; reap_expired now' ∅) d = (Ok m,
    set_tasks {[claim_task_id c := TaskRow (claim_run_id c) Queued None None (claim_attempt c) avail]} d).
Proof.
  intros [Ht _ _ _ _ _] Hle. unfold mbind, M_bind, expire_leases, modify, reap_expired. eexists. f_equal.
  unfold set_tasks. simpl. f_equal. rewrite Ht, map_fmap_singleton. apply map_eq. intros i.
  rewrite map_lookup_imap, !lookup_singleton. case_decide; [|done]. subst i. simpl. f_equal.
  unfold reapable, is_leased, expired_before. simpl.
  rewrite (proj2 (Z.ltb_lt _ _)) by lia. by rewrite bool_decide_eq_false_2 by set_solver.
Qed.

Context (Hmono : forall i j, (i <= j)%nat -> time i <= time j).
Context (Hspan : forall k, time k < time 0 + 60000000).

(** The whole replay after the draws. *)
Lemma zombie_script_ok rid tid steps n1 n2 n3 :
  Z.of_nat (n1 + n2 + n3) < steps -> 100 * steps < pow10 12 ->
  exists d', zombie_script fencing time rid tid steps n1 n2 n3 db_empty =
      (Ok (rid, if fencing then Z.of_nat n3 else 0, if fencing then 0 else Z.of_nat n3), d') /\
    let landed := if fencing then O else n3 in
    finished rid steps (replicate n1 1 ++ replicate n2 2 ++ replicate landed 1 ++
                        replicate (Z.to_nat steps - n1 - n2 - landed) 2) d'.
Proof.
  intros Hn Hlt. unfold zombie_script. unfold mbind at 1, M_bind at 1. rewrite submit_empty by done.
  set (d0 := Db _ _ _ _ _).
  destruct (claim_only (time 1) tid rid 0 (time 0) "A" 0 [] d0) as (d1 & E1 & H1);
    [done|apply Hmono; lia|eexists; split; [apply lookup_insert_eq|done]|done..|].
  unfold mbind at 1, M_bind at 1. rewrite E1. unfold mbind at 1, M_bind at 1.
  change (claimed_or_fail (Some ?c) d1) with (Ok c, d1). cbv beta iota. change (0 + 1) with 1 in *.
  set (a := MkClaim tid rid "A" 1) in *.
  assert (Hlive : forall j k, time k < time j + 60000000).
  { intros j k. specialize (Hmono 0%nat j ltac:(lia)). specialize (Hspan k). lia. }
  destruct (work_steps a _ _ 0 [] d1 steps n1 2 eq_refl H1) as (d2 & E2 & H2);
    [intros; apply Hlive|lia|done|]. change (Z.of_nat 0) with 0 in E2.
  unfold mbind at 1, M_bind at 1. rewrite E2.
  destruct (expire_and_reap _ _ _ _ _ _ (time (2 + n1)) (time (3 + n1)) H2) as (m & E3); [apply Hmono; lia|].
  pose proof H2 as [_ Hr2 He2 Hw2 Hg2 Hk2]. set (d3 := set_tasks _ d2) in E3.
  destruct (claim_only (time (4 + n1)) tid rid 1 (time 0) "B" (0 + n1) (replicate n1 1) d3)
    as (d4 & E4 & H4); [done|apply Hmono; lia|done..|].
  change (1 + 1) with 2 in *. set (b := MkClaim tid rid "B" 2) in *.
  assert (Hre : forall A (f : M db A), (expire_leases (time (2 + n1)) ;; reap_expired (time (3 + n1)) ∅ ;; f) d2 =
    f d3).
  { intros A f. unfold mbind, M_bind in E3 |- *.
    destruct (expire_leases (time (2 + n1)) d2) as [[[]|e] d']; [|done].
    by rewrite E3. }
  rewrite Hre. unfold mbind at 1, M_bind at 1. rewrite E4. unfold mbind at 1, M_bind at 1.
  change (claimed_or_fail (Some ?c) d4) with (Ok c, d4). cbv beta iota.
  destruct (work_steps b _ _ (0 + n1) _ d4 steps n2 (5 + n1) eq_refl H4) as (d5 & E5 & H5);
    [intros; apply Hlive|lia|done|].
  unfold mbind at 1, M_bind at 1. rewrite E5.
  destruct (intrude_steps b a _ _ _ _ d5 steps n3 (5 + n1 + n2) 0 0 eq_refl H5) as (d6 & E6 & H6);
    [done|done|lia|done|].
  unfold mbind at 1, M_bind at 1. rewrite E6.
  set (landed := if fencing then O else n3).
  assert (Hidx : t_idx (if fencing then MkTally (Z.of_nat (0 + n1 + n2)) (0 + Z.of_nat n3) 0
     else MkTally (Z.of_nat (0 + n1 + n2 + n3)) 0 (0 + Z.of_nat n3)) = Z.of_nat (n1 + n2 + landed)).
  { unfold landed. destruct fencing; simpl; lia. }
  rewrite Hidx.
  assert (H6' : replayed b (time (4 + n1) + 60000000) (time 0) (n1 + n2 + landed)
    ((replicate n1 1 ++ replicate n2 2) ++ replicate landed 1) d6).
  { unfold landed. destruct fencing; [|exact H6]. rewrite Nat.add_0_r. exact H6. }
  destruct (work_finishes b _ _ _ _ d6 steps (5 + n1 + n2 + n3) eq_refl H6') as (z & d7 & E7 & H7);
    [intros; apply Hlive|unfold landed; destruct fencing; lia|done|].
  unfold mbind at 1, M_bind at 1. rewrite E7. exists d7. split.
  - unfold mret, M_ret. do 2 f_equal. by destruct fencing.
  - cbv zeta. fold landed. rewrite <- !app_assoc in H7.
    replace (Z.to_nat steps - n1 - n2 - landed)%nat
      with (Z.to_nat (steps - Z.of_nat (n1 + n2 + landed))) by lia. exact H7.
Qed.

(** C28: the zombie replay does what it is for.  For every seed, worker A
    commits some steps, loses its lease, and worker B takes the run over; of
    the commits A then tries, all are rejected with fencing on, and all land
    with it off; the run ends with every step committed once and charged once,
    and its log shows the writers in that order. *)
Theorem zombie_replay_correct {R} `{RngLaws R} (g : R) rid tid :
  exists (n1 n2 n3 : nat) d',
    (1 <= n1 <= 4)%nat /\ (1 <= n2 <= 4)%nat /\ (1 <= n3 <= 3)%nat /\
    zombie_replay fencing time g rid tid 12 db_empty =
      (Ok (rid, if fencing then Z.of_nat n3 else 0, if fencing then 0 else Z.of_nat n3), d') /\
    let landed := if fencing then O else n3 in
    finished rid 12 (replicate n1 1 ++ replicate n2 2 ++ replicate landed 1 ++
                     replicate (12 - n1 - n2 - landed) 2) d'.
Proof.
  destruct (rng_randint_range 1 4 g) as (z1 & g1 & E1 & ?); [lia|].
  destruct (rng_randint_range 1 4 g1) as (z2 & g2 & E2 & ?); [lia|].
  destruct (rng_randint_range 1 3 g2) as (z3 & g3 & E3 & ?); [lia|].
  destruct (zombie_script_ok rid tid 12 (Z.to_nat z1) (Z.to_nat z2) (Z.to_nat z3)) as (d' & E & Hf);
    [lia|done|].
  exists (Z.to_nat z1), (Z.to_nat z2), (Z.to_nat z3), d'. split_and!; try lia; [|exact Hf].
  unfold zombie_replay, mbind, M_bind. rewrite E1, E2, E3. exact E.
Qed.
End ZombieFacts.
