(* ===== verification/Workers.v ===== *)
(** The worker process: the choice of workflow and provider for a run
    ([_provider_for], [workflow_for] of [engine.py], [real_provider] of
    [llm/factory.py]) and the claim-execute-recover cycle of [run_worker] with
    its heartbeat and reaper.

    The asyncio tasks of a worker are not interleaved here: this file gives
    each loop's body, and [EventLoop] the loops. *)

From Stdlib Require Import QArith.
From S2P Require Import Prelude PyString PyDecimal Json Env Database Store Leases Engine LlmCache.
From S2P Require Import Workspace Agent Anthropic OpenAI.

(** ** Providers and workflows *)

(** The providers a run can get: the one of the context, or one of its own. *)
Inductive any_provider (P : Type) :=
  | Given (p : P)
  | Gemini (p : OpenAICompatProvider)
  | Claude (model : string)
  | Scripted (p : MockProvider).
Arguments Given {P} p.
Arguments Gemini {P} p.
Arguments Claude {P} model.
Arguments Scripted {P} p.

Record EngineContext (P B : Type) := MkEngineContext {
  ctx_provider : option P;
  ctx_sandbox : option B;
  ctx_workspace_root : path;
}.
Arguments MkEngineContext {P B}.
Arguments ctx_provider {P B}.
Arguments ctx_sandbox {P B}.
Arguments ctx_workspace_root {P B}.

(** [client] is what [anthropic.AsyncAnthropic()] does. *)
Definition real_provider {P} (env : environ) (client : res unit) : res (any_provider P) :=
  kind ← provider_kind env;
  if bool_decide (kind = "gemini") then
    p ← openai_init env "GEMINI_API_KEY" None; mret (Gemini p)
  else
    p ← anthropic_init env client None; mret (Claude (ap_model p)).

(** An inline script: a list of actions. *)
Definition script_of (v : json) : res (list dict) :=
  match v with JArr l => mapR (fun a => match a with JObj d => Ok d | _ => Raise TypeError end) l
             | _ => Raise TypeError end.

Section Choice.
Context {P B : Type} (env : environ) (client : res unit).

Definition _provider_for (spec : dict) (ctx : EngineContext P B) : res (any_provider P) :=
  match ctx_provider ctx with
  | Some p => Ok (Given p)
  | None =>
      if env_is "PHOENIX_REAL_LLM" "1" env then real_provider env client
      else if dmem "mock_script" spec then
        script ← dindex "mock_script" spec;
        actions ← script_of script;
        mret (Scripted (MkMockProvider actions))
      else if dmem "mock_scenario" spec then
        name ← dindex "mock_scenario" spec;
        p ← match name with JStr s => get_scenario s | _ => Raise (KeyError "mock_scenario") end;
        mret (Scripted p)
      else Raise RuntimeError
  end.

(** [docker] is [DockerRunner()]. *)
Definition workflow_for (docker : res B) (spec : dict) (ctx : EngineContext P B) :
    res (ToyWorkflow + AgentWorkflow (any_provider P) B) :=
  let kind := dget_or "kind" JNull spec in
  if bool_decide (kind = JStr "toy") then w ← toy_init spec; mret (inl w)
  else if bool_decide (kind = JStr "agent") then
    sandbox ← match ctx_sandbox ctx with Some b => Ok b | None => docker end;
    provider ← _provider_for spec ctx;
    w ← agent_init spec provider sandbox (ctx_workspace_root ctx);
    mret (inr w)
  else Raise ValueError.
End Choice.

(** ** The worker *)

(** What ended a claimed task: it returned, it raised, or the heartbeat found
    the lease gone and cancelled it. *)
Inductive ending := Returned | Raised (e : exn) | Cancelled.

Section Worker.
Context (fencing : bool) (exc_str exc_repr : exn -> string).

(** One beat of [_heartbeat_loop]: [true] when it cancels the task. *)
Definition heartbeat_beat (now : Z) (claim : Claim) (lease : Z) : M db bool :=
  alive ← heartbeat now claim lease;
  mret (negb alive && fencing).

(** The handlers around [await main]: a lost lease ends the task, other errors
    go to [_handle_error]. *)
Definition after_task (now : Z) (claim : Claim) (end_ : ending) (max_attempts backoff : Z) :
    M db unit :=
  match end_ with
  | Returned | Cancelled => mret tt
  | Raised e =>
      if is_lease_lost e then mret tt
      else _handle_error exc_str exc_repr fencing now claim e max_attempts backoff
  end.

(** One turn of the loop of [run_worker]: claim a task and run it.  [main]
    is the execution of the claim; [None] means there was nothing to claim. *)
Definition worker_turn {S} `{HasDb S} (now later : Z) (worker_id : string)
    (lease max_attempts backoff : Z) (main : Claim -> M S ending) : M S (option Claim) :=
  claim ← on_db (claim_task now ∅ worker_id lease);
  match claim with
  | None => mret None
  | Some c =>
      end_ ← main c;
      on_db (after_task later c end_ max_attempts backoff) ;;
      mret (Some c)
  end.

(** [min(1.0, lease_seconds / 2)] *)
Definition reaper_interval (lease_seconds : Q) : Q :=
  let half := (lease_seconds / (2#1))%Q in if Qle_bool half (1#1) then half else 1#1.
End Worker.

(** ** [execute_task] of a claim, from the run's spec on *)

(** How the awaited task ended; the heartbeat cancels it after [rounds]
    rounds, if it has not ended before. *)
Definition awaited {S} (m : M S (option unit)) : M S ending := fun s =>
  match m s with
  | (Ok (Some _), s') => (Ok Returned, s')
  | (Ok None, s') => (Ok Cancelled, s')
  | (Raise e, s') => (Ok (Raised e), s')
  end.

Section Main.
Context {P B : Type} `{Provider (any_provider P) world} `{Sandbox B}.
Context (env : environ) (client : res unit) (docker : res B) (ctx : EngineContext P B).
Context (fencing : bool) (exc_str : exn -> string) (clock : nat -> Z).
#[local] Instance main_agent : Workflow (AgentWorkflow (any_provider P) B) world :=
  agent_workflow exc_str.

(** [json.loads(SELECT task_spec::text FROM runs WHERE id=$1)]; a spec that is
    no object has no [get]. *)
Definition read_spec (claim : Claim) (d : db) : res dict :=
  match run_task_spec <$> runs d !! claim_run_id claim with
  | Some (JObj spec) => Ok spec
  | Some _ => Raise AttributeError
  | None => Raise TypeError
  end.

(** A new workflow object has no workspace yet. *)
Definition new_workspace : M world unit := modify (fun s => World (w_db s) (w_fs s) None).

Definition run_claim (rounds : nat) (claim : Claim) : M world (option unit) :=
  spec ← on_db (fun d => (read_spec claim d, d));
  workflow ← lift_res (workflow_for env client docker spec ctx);
  match workflow with
  | inl toy => execute_task fencing clock toy claim rounds
  | inr agent => new_workspace ;; execute_task fencing clock agent claim rounds
  end.
End Main.

(** A worker that loses its lease writes nothing more for the task. *)
Lemma after_lease_lost fencing exc_str exc_repr now c m b d :
  after_task fencing exc_str exc_repr now c (Raised LeaseLostError) m b d = (Ok tt, d).
Proof. done. Qed.
