(* ===== verification/EventLoop.v ===== *)
(** The event loops of [engine.py]: [run_worker] with the asyncio tasks it
    creates - the task's execution, its heartbeat and the reaper - for any
    number of worker processes on one database.

    A process stands at one of the awaits of [run_worker] ([phase]).  Its tasks
    take turns with each other and with the other processes, statement by
    statement; every statement reads the clock of the state.  With [faulty]
    set, connections may fail anywhere and the clock may pass a heartbeat that
    is due; without it every heartbeat gets its turn before its lease runs
    out.  Processes are started, stopped, cancelled and killed in both.

    Every step is a step of [System], or none ([loop_refines]), so that what
    [Safety] proves holds of the processes' database.  Beyond that: a worker
    whose heartbeats are in time keeps its lease; a claim that lost its lease
    never writes again; and a worker only ends when it is told to, or by an
    error nobody catches. *)

From S2P Require Import Prelude PyDecimal Json Database Store Leases Engine Budget LlmCache.
From S2P Require Import Execution Invariants System Safety Workers.

(** ** A worker process *)

(** [main = asyncio.create_task(execute_task(...))]: at a point of its
    execution, cancelled but not yet resumed, or done. *)
Inductive main_task :=
  | Main (p : pc)
  | Cancelling (p : pc)
  | Ended (r : ending).

(** [hb]: asleep since a time, or done. *)
Inductive hb_task := Beating (since : Z) | HbDone.

(** The reaper: about to make a pass, asleep since a time, or done. *)
Inductive reaper_task := ReapNow | ReapAfter (since : Z) | ReaperDone.

(** How [run_worker] ended. *)
Inductive exit := Stopped | CancelledOut | Escaped (e : exn).

(** Where [run_worker] stands: at the head of its loop, asleep because there
    was nothing to claim, at [await main], inside [_handle_error] - before it
    acts, or about to commit the failure at an index -, or over. *)
Inductive phase :=
  | Head
  | Polling (since : Z)
  | Awaiting (c : Claim) (m : main_task) (hb : hb_task)
  | Handling (c : Claim) (e : exn) (index : option Z) (hb : hb_task)
  | Exited (how : exit).

(** The arguments of [run_worker]; times in microseconds. *)
Record settings := Settings {
  st_worker_id : string;
  st_lease : Z;
  st_poll : Z;
  st_max_attempts : Z;
  st_backoff : Z;
}.

(** [pr_stop]: the event [stop]; [pr_cancelled]: the task of [run_worker] was
    cancelled by its caller. *)
Record proc := Proc {
  pr_settings : settings;
  pr_phase : phase;
  pr_reaper : reaper_task;
  pr_stop : bool;
  pr_cancelled : bool;
}.

Definition proc_start (st : settings) : proc := Proc st Head ReapNow false false.

(** [finally: reaper.cancel()] when [run_worker] is left. *)
Definition goto (ph : phase) (p : proc) : proc :=
  Proc (pr_settings p) ph
    (match ph with Exited _ => ReaperDone | _ => pr_reaper p end) (pr_stop p) (pr_cancelled p).
Definition set_reaper (r : reaper_task) (p : proc) : proc :=
  Proc (pr_settings p) (pr_phase p) r (pr_stop p) (pr_cancelled p).
Definition set_stop (p : proc) : proc :=
  Proc (pr_settings p) (pr_phase p) (pr_reaper p) true (pr_cancelled p).
Definition set_cancelled (p : proc) : proc :=
  Proc (pr_settings p) (pr_phase p) (pr_reaper p) (pr_stop p) true.

(** [hb.done()] *)
Definition hb_done (hb : hb_task) : bool := match hb with HbDone => true | Beating _ => false end.

(** What follows [await main], with the handlers around it; [finally] cancels
    the heartbeat.  A cancellation is taken for the heartbeat's when the
    heartbeat is done. *)
Definition after_await (c : Claim) (hb : hb_task) (r : ending) : phase :=
  match r with
  | Returned => Head
  | Raised e => if is_lease_lost e then Head else Handling c e None hb
  | Cancelled => if hb_done hb then Head else Exited CancelledOut
  end.

(** [main.cancel()]: nothing, once the task is done. *)
Definition cancel_main (m : main_task) : main_task :=
  match m with Main p => Cancelling p | _ => m end.

(** [task.cancel()] of [run_worker] itself, at the await where it stands: the
    cancellation is passed to an awaited task that is not done, and otherwise
    raised at the await. *)
Definition cancel_worker (ph : phase) : phase :=
  match ph with
  | Head | Polling _ | Handling _ _ _ _ => Exited CancelledOut
  | Awaiting c (Ended _) hb => after_await c hb Cancelled
  | Awaiting c m hb => Awaiting c (cancel_main m) hb
  | Exited _ => ph
  end.

(** The claim a process works on, and its heartbeat. *)
Definition claim_of (ph : phase) : option (Claim * hb_task) :=
  match ph with
  | Awaiting c _ hb | Handling c _ _ hb => Some (c, hb)
  | _ => None
  end.

(** The heartbeat beat and goes on, or found the lease gone. *)
Definition after_beat (now : Z) (lost : bool) (ph : phase) : phase :=
  match ph with
  | Awaiting c m _ => if lost then Awaiting c (cancel_main m) HbDone else Awaiting c m (Beating now)
  | Handling c e i _ => Handling c e i (if lost then HbDone else Beating now)
  | _ => ph
  end.
Definition hb_over (ph : phase) : phase :=
  match ph with
  | Awaiting c m _ => Awaiting c m HbDone
  | Handling c e i _ => Handling c e i HbDone
  | _ => ph
  end.

(** [asyncio.sleep(lease_seconds / 3)] is over. *)
Definition beat_due (now : Z) (st : settings) (since : Z) : Prop := st_lease st <= 3 * (now - since).

(** [min(1.0, lease_seconds / 2)] has passed. *)
Definition pass_due (now : Z) (st : settings) (r : reaper_task) : Prop :=
  match r with
  | ReapNow => True
  | ReapAfter since => Z.min (2 * 1000000) (st_lease st) <= 2 * (now - since)
  | ReaperDone => False
  end.

(** The heartbeat, if there is one, is not yet a whole lease late. *)
Definition in_time (now : Z) (p : proc) : Prop :=
  match claim_of (pr_phase p) with
  | Some (_, Beating since) => now < since + st_lease (pr_settings p)
  | _ => True
  end.

(** ** The steps *)
Record loops := Loops { lo_now : Z; lo_db : db; lo_procs : gmap N proc }.

Definition loops_init (now : Z) : loops := Loops now db_empty ∅.

Section Steps.
Context (fencing faulty : bool) (exc_str exc_repr : exn -> string).

(** [execute_task] of a claim between two awaits: what [System] says of a
    thread.  [LeaseLostError] is raised by the fence and by nothing else. *)
Inductive main_step (now : Z) (c : Claim) : db -> pc -> db -> main_task -> Prop :=
  | ms_read evs d d' :
      read_events (claim_run_id c) d = (Ok evs, d') ->
      main_step now c d Replaying d' (Main (Replayed evs))
  | ms_miss evs key d :
      llm_cache d !! key = None ->
      main_step now c d (Replayed evs) d (Main (Missed evs key))
  | ms_ask evs key d d' :
      insert_call (claim_run_id c) (Z.of_nat (length evs)) key (claim_attempt c)
        (Some (claim_worker_id c)) d = (Ok tt, d') ->
      main_step now c d (Missed evs key) d' (Main (Asked evs key))
  | ms_answer evs key resp d d' :
      insert_cache key resp d = (Ok tt, d') ->
      main_step now c d (Asked evs key) d' (Main (Answered evs))
  | ms_compute p evs o d :
      p = Replayed evs \/ p = Answered evs -> billed o ->
      main_step now c d p d (Main (Ready (Z.of_nat (length evs)) o))
  | ms_raise p e d :
      is_lease_lost e = false ->
      main_step now c d p d (Ended (Raised e))
  | ms_commit i o b d d' :
      commit_step fencing now c i o d = (Ok b, d') ->
      main_step now c d (Ready i o) d' (if so_final o then Ended Returned else Main Replaying)
  | ms_commit_raise i o e d d' :
      commit_step fencing now c i o d = (Raise e, d') ->
      main_step now c d (Ready i o) d' (Ended (Raised e)).

(** One step of the process [p] by its own tasks: the phase it goes to. *)
Inductive worker_step (now : Z) (p : proc) : db -> db -> phase -> Prop :=
  | ws_stop d :
      pr_phase p = Head -> pr_stop p = true ->
      worker_step now p d d (Exited Stopped)
  | ws_claim locked c d d' :
      pr_phase p = Head -> pr_stop p = false ->
      claim_task now locked (st_worker_id (pr_settings p)) (st_lease (pr_settings p)) d
        = (Ok (Some c), d') ->
      worker_step now p d d' (Awaiting c (Main Replaying) (Beating now))
  | ws_idle locked d d' :
      pr_phase p = Head -> pr_stop p = false ->
      claim_task now locked (st_worker_id (pr_settings p)) (st_lease (pr_settings p)) d
        = (Ok None, d') ->
      worker_step now p d d' (Polling now)
  | ws_wake since d :
      pr_phase p = Polling since -> since + st_poll (pr_settings p) <= now ->
      worker_step now p d d Head
  | ws_main c q m hb d d' :
      pr_phase p = Awaiting c (Main q) hb -> main_step now c d q d' m ->
      worker_step now p d d' (Awaiting c m hb)
  | ws_cancelled c q hb d :
      pr_phase p = Awaiting c (Cancelling q) hb ->
      worker_step now p d d (after_await c hb Cancelled)
  | ws_ended c r hb d :
      pr_phase p = Awaiting c (Ended r) hb ->
      worker_step now p d d (after_await c hb r)
  | ws_retry c e hb r d d' :
      pr_phase p = Handling c e None hb ->
      retries c e (st_max_attempts (pr_settings p)) = true ->
      release_task now c (st_backoff (pr_settings p)) d = (r, d') ->
      worker_step now p d d' Head
  | ws_count c e hb d :
      pr_phase p = Handling c e None hb ->
      retries c e (st_max_attempts (pr_settings p)) = false ->
      worker_step now p d d (Handling c e (Some (count_events (claim_run_id c) d)) hb)
  | ws_fail c e i hb r d d' :
      pr_phase p = Handling c e (Some i) hb ->
      commit_step fencing now c i (failure_outcome exc_str exc_repr c e) d = (r, d') ->
      worker_step now p d d'
        (match r with
         | Ok _ => Head
         | Raise e' => if is_lease_lost e' then Head else Exited (Escaped e')
         end)
  | ws_beat c since b d d' :
      claim_of (pr_phase p) = Some (c, Beating since) -> beat_due now (pr_settings p) since ->
      heartbeat_beat fencing now c (st_lease (pr_settings p)) d = (Ok b, d') ->
      worker_step now p d d' (after_beat now b (pr_phase p))
  | ws_beat_fails c since d :
      faulty = true -> claim_of (pr_phase p) = Some (c, Beating since) ->
      worker_step now p d d (hb_over (pr_phase p))
  | ws_fails e d :
      (* a statement of [run_worker] itself fails *)
      faulty = true -> is_lease_lost e = false ->
      match pr_phase p with Head | Handling _ _ _ _ => True | _ => False end ->
      worker_step now p d d (Exited (Escaped e)).

Inductive loop_step : loops -> loops -> Prop :=
  | ls_tick now now' d ps :
      now <= now' -> faulty = true \/ map_Forall (fun _ => in_time now') ps ->
      loop_step (Loops now d ps) (Loops now' d ps)
  | ls_submit now rid tid spec budget d d' ps :
      submit_run now rid tid spec budget d = (Ok rid, d') ->
      loop_step (Loops now d ps) (Loops now d' ps)
  | ls_start now k st d ps :
      ps !! k = None ->
      loop_step (Loops now d ps) (Loops now d (<[k := proc_start st]> ps))
  | ls_kill now k d ps :
      loop_step (Loops now d ps) (Loops now d (delete k ps))
  | ls_set_stop now k p d ps :
      ps !! k = Some p ->
      loop_step (Loops now d ps) (Loops now d (<[k := set_stop p]> ps))
  | ls_cancel now k p d ps :
      ps !! k = Some p ->
      loop_step (Loops now d ps)
        (Loops now d (<[k := set_cancelled (goto (cancel_worker (pr_phase p)) p)]> ps))
  | ls_worker now k p ph d d' ps :
      ps !! k = Some p -> worker_step now p d d' ph ->
      loop_step (Loops now d ps) (Loops now d' (<[k := goto ph p]> ps))
  | ls_reap now k p locked n d d' ps :
      ps !! k = Some p -> pass_due now (pr_settings p) (pr_reaper p) ->
      reap_expired now locked d = (Ok n, d') ->
      loop_step (Loops now d ps) (Loops now d' (<[k := set_reaper (ReapAfter now) p]> ps))
  | ls_reap_fails now k p d ps :
      faulty = true -> ps !! k = Some p -> pr_reaper p <> ReaperDone ->
      loop_step (Loops now d ps) (Loops now d (<[k := set_reaper ReaperDone p]> ps)).

Definition loop_reachable (s : loops) : Prop :=
  exists now, rtc loop_step (loops_init now) s.
End Steps.

(** ** Every step is a step of the system *)

(** The thread a process runs, as [System] sees it: [_handle_error] is part of
    the thread of its task. *)
Definition thread_of (ph : phase) : option thread :=
  match ph with
  | Awaiting c (Main q) _ | Awaiting c (Cancelling q) _ => Some (Thread c q)
  | Awaiting c (Ended (Raised e)) _ =>
      if is_lease_lost e then None else Some (Thread c (Failing e))
  | Handling c e None _ => Some (Thread c (Failing e))
  | Handling c e (Some i) _ => Some (Thread c (FailReady i e))
  | _ => None
  end.

Definition threads_of (ps : gmap N proc) : gmap N thread := omap (fun p => thread_of (pr_phase p)) ps.

Definition system_of (s : loops) : sys := Sys (lo_db s) (threads_of (lo_procs s)).

(** [ths] with the thread [k] replaced. *)
Definition with_thread (k : N) (o : option thread) (ths : gmap N thread) : gmap N thread :=
  partial_alter (fun _ => o) k ths.

Lemma threads_of_insert k p ps :
  threads_of (<[k := p]> ps) = with_thread k (thread_of (pr_phase p)) (threads_of ps).
Proof.
  apply map_eq. intros j. unfold threads_of, with_thread. rewrite lookup_omap, lookup_partial_alter, lookup_insert.
  case_decide; [done|]. by rewrite lookup_omap.
Qed.

Lemma threads_of_delete k ps : threads_of (delete k ps) = with_thread k None (threads_of ps).
Proof.
  apply map_eq. intros j. unfold threads_of, with_thread. rewrite lookup_omap, lookup_partial_alter, lookup_delete.
  case_decide; [done|]. by rewrite lookup_omap.
Qed.

Lemma threads_of_lookup k p ps : ps !! k = Some p -> threads_of ps !! k = thread_of (pr_phase p).
Proof. intros Hk. unfold threads_of. by rewrite lookup_omap, Hk. Qed.

Lemma with_thread_same k o ths : ths !! k = o -> with_thread k o ths = ths.
Proof.
  intros <-. apply map_eq. intros j. unfold with_thread. rewrite lookup_partial_alter. case_decide; by subst.
Qed.

Lemma after_await_thread c hb r :
  thread_of (after_await c hb r) = thread_of (Awaiting c (Ended r) hb).
Proof. destruct r as [|e|]; simpl; [done|by destruct (is_lease_lost e)|by destruct (hb_done hb)]. Qed.

Lemma after_beat_thread now b ph : thread_of (after_beat now b ph) = thread_of ph.
Proof. destruct ph as [|?|c [] ?|? ? [] ?|?], b; done. Qed.

Lemma hb_over_thread ph : thread_of (hb_over ph) = thread_of ph.
Proof. destruct ph as [|?|c [] ?|? ? [] ?|?]; done. Qed.

Section System.
Context (fencing faulty : bool) (exc_str exc_repr : exn -> string).
Local Abbreviation step := (step fencing exc_str exc_repr).
Local Abbreviation worker_step := (worker_step fencing faulty exc_str exc_repr).
Local Abbreviation loop_step := (loop_step fencing faulty exc_str exc_repr).

Lemma main_system now c d q d' m k hb ths :
  ths !! k = Some (Thread c q) -> main_step fencing now c d q d' m ->
  rtc step (Sys d ths) (Sys d' (with_thread k (thread_of (Awaiting c m hb)) ths)).
Proof.
  intros Hk Hm. apply rtc_once. destruct Hm.
  - by eapply step_read.
  - by eapply step_miss.
  - by eapply step_ask.
  - by eapply step_answer.
  - by eapply step_compute.
  - simpl. rewrite H. by eapply step_raise.
  - match goal with H : commit_step _ _ _ _ _ _ = _ |- _ => eapply step_commit in H; [|exact Hk] end.
    destruct (so_final o); exact H.
  - match goal with H : commit_step _ _ _ _ _ _ = _ |- _ => eapply step_commit_raise in H; [|exact Hk] end.
    simpl. destruct (is_lease_lost e); exact H.
Qed.

Lemma crash_system k d ths : rtc step (Sys d ths) (Sys d (with_thread k None ths)).
Proof. apply rtc_once, step_crash. Qed.

Lemma heartbeat_beat_db now c lease d b d' :
  heartbeat_beat fencing now c lease d = (Ok b, d') ->
  exists alive, heartbeat now c lease d = (Ok alive, d') /\ b = negb alive && fencing.
Proof.
  unfold heartbeat_beat. intros E. apply bind_Ok_inv in E as (a & d1 & E & [= <- <-]). by exists a.
Qed.

Lemma worker_system now p d d' ph k ths :
  ths !! k = thread_of (pr_phase p) ->
  (forall c hb, claim_of (pr_phase p) = Some (c, hb) -> claim_ok d c) ->
  worker_step now p d d' ph ->
  rtc step (Sys d ths) (Sys d' (with_thread k (thread_of ph) ths)).
Proof.
  intros Hk Hc Hw. destruct Hw; simpl in *.
  - rewrite with_thread_same; [done|by rewrite Hk, H].
  - rewrite H in Hk. eapply rtc_once, step_claim; [exact Hk|done].
  - rewrite H in Hk. rewrite with_thread_same by done. rewrite claim_task_eq in H1.
    destruct (select_claimable _ _ _) as [[tid t]|]; [done|]. by injection H1 as <-.
  - rewrite with_thread_same; [done|by rewrite Hk, H].
  - rewrite H in Hk. by apply (main_system now c d q d' m k hb).
  - destruct (hb_done hb); apply crash_system.
  - rewrite after_await_thread, with_thread_same; [done|by rewrite Hk, H].
  - rewrite H in Hk. eapply rtc_once, step_release; [exact Hk|done..].
  - rewrite H in Hk. eapply rtc_once. by eapply step_count.
  - rewrite H in Hk.
    assert (thread_of (match r with Ok _ => Head
      | Raise e' => if is_lease_lost e' then Head else Exited (Escaped e') end) = None) as ->.
    { destruct r as [b|e']; [done|]. by destruct (is_lease_lost e'). }
    eapply rtc_once. by eapply step_fail.
  - rewrite after_beat_thread, with_thread_same by done.
    apply heartbeat_beat_db in H1 as (alive & H1 & _). eapply rtc_once, step_heartbeat; [by eapply Hc|done].
  - rewrite hb_over_thread, with_thread_same by done. done.
  - apply crash_system.
Qed.
End System.

(** ** Tasks only move on *)

(** A task that is leased under the attempt it had was leased before, to the
    same worker; its lease was extended only if it had not run out. *)
Definition row_forward (now : Z) (t t' : task_row) : Prop :=
  task_run_id t' = task_run_id t /\
  (task_attempt t < task_attempt t' \/
   task_attempt t' = task_attempt t /\
   (is_leased t' = true -> is_leased t = true /\ task_lease_owner t' = task_lease_owner t /\
      (task_lease_expires_at t' = task_lease_expires_at t \/ expires_after now t = true))).

Definition forward (now : Z) (d d' : db) : Prop :=
  forall tid t, tasks d !! tid = Some t -> exists t', tasks d' !! tid = Some t' /\ row_forward now t t'.

Lemma row_forward_refl now t : row_forward now t t.
Proof. split; [done|]. right. split; [done|]. intros Hl. split_and!; [done..|by left]. Qed.

Lemma row_forward_unleased now t t' :
  task_run_id t' = task_run_id t -> task_attempt t' = task_attempt t -> is_leased t' = false ->
  row_forward now t t'.
Proof. intros Hr Ha Hl. split; [done|]. right. split; [done|]. congruence. Qed.

Lemma forward_same now d d' : tasks d' = tasks d -> forward now d d'.
Proof. intros Ht tid t. rewrite Ht. intros Htt. exists t. split; [done|apply row_forward_refl]. Qed.

Lemma forward_row now (d d' : db) tid t t' :
  tasks d !! tid = Some t -> tasks d' = <[tid := t']> (tasks d) -> row_forward now t t' ->
  forward now d d'.
Proof.
  intros Ht Hd Hf tid' u Hu. rewrite Hd, lookup_insert. case_decide; subst.
  - exists t'. split; [done|]. by assert (u = t) as -> by congruence.
  - exists u. split; [done|apply row_forward_refl].
Qed.

Lemma forward_attempts now d d' : forward now d d' -> attempts_le d d'.
Proof.
  intros Hf tid t Ht. destruct (Hf tid t Ht) as (t' & Ht' & Hr & Ha). exists t'.
  split_and!; [done..|]. destruct Ha as [|[? _]]; lia.
Qed.

Lemma claim_forward now' now locked w lease d : forward now' d (snd (claim_task now locked w lease d)).
Proof.
  rewrite claim_task_eq. destruct (select_claimable _ _ _) as [[tid t]|] eqn:E; [|by apply forward_same].
  apply select_claimable_Some in E as (Ht & _). eapply forward_row; [exact Ht|apply tasks_claimed|].
  split; [done|]. left. simpl. lia.
Qed.

Lemma heartbeat_forward now c lease d : forward now d (snd (heartbeat now c lease d)).
Proof.
  rewrite heartbeat_eq. destruct (tasks d !! _) as [t|] eqn:Ht; [|by apply forward_same].
  destruct (held_by c t && expires_after now t) eqn:E; [|by apply forward_same].
  eapply forward_row; [exact Ht|done|]. split; [done|]. right. split; [done|]. intros Hl.
  split_and!; [done..|]. right. by bool_to_prop.
Qed.

Lemma release_forward now' now c backoff d : forward now' d (snd (release_task now c backoff d)).
Proof.
  rewrite release_task_eq. destruct (tasks d !! _) as [t|] eqn:Ht; [|by apply forward_same].
  destruct (held_by _ _); [|by apply forward_same].
  eapply forward_row; [exact Ht|done|]. by apply row_forward_unleased.
Qed.

Lemma reap_forward now' now locked d : forward now' d (snd (reap_expired now locked d)).
Proof.
  intros tid t Ht. rewrite reap_lookup, Ht. eexists. split; [done|].
  destruct (reapable _ _ _ _); [by apply row_forward_unleased|apply row_forward_refl].
Qed.

Lemma commit_forward fencing now' now c i o d r d' :
  db_inv d -> commit_step fencing now c i o d = (r, d') -> forward now' d d'.
Proof.
  intros Hdb E. destruct r as [b|e]; [|apply commit_step_Raise_inv in E as ->; by apply forward_same].
  apply commit_step_Ok_inv in E as [_ [(_ & -> & _)|(_ & r & z & _ & _ & _ & ->)]];
    [by apply forward_same| |apply Hdb].
  intros tid t Ht. rewrite tasks_committed. destruct (so_final o); [|exists t; split; [done|apply row_forward_refl]].
  rewrite lookup_alter. case_decide; subst; [|exists t; split; [done|apply row_forward_refl]].
  rewrite Ht. eexists. split; [done|]. by apply row_forward_unleased.
Qed.

Lemma submit_forward now' now rid tid spec budget d rid' d' :
  submit_run now rid tid spec budget d = (Ok rid', d') -> forward now' d d'.
Proof.
  intros E. apply submit_run_Ok in E as (_ & Hn & _ & _ & Ht & _). intros tid' t Htt. exists t.
  rewrite Ht, lookup_insert_ne by congruence. split; [done|apply row_forward_refl].
Qed.

Lemma insert_cache_tasks key resp d : tasks (snd (insert_cache key resp d)) = tasks d.
Proof. by destruct (insert_cache_frame key resp d) as (_ & _ & ->). Qed.

(** A claim the fence refuses once, it refuses at every later time. *)
Lemma refused_forward now now' c d d' :
  claim_ok d c -> forward now d d' -> now <= now' ->
  fence_ok true now c d = false -> fence_ok true now' c d' = false.
Proof.
  intros (t & Ht & _ & Hb) Hf Hle. destruct (Hf _ _ Ht) as (t' & Ht' & _ & Hrow).
  unfold fence_ok. rewrite Ht, Ht'. cbn [negb orb]. intros Hfalse.
  destruct (held_by c t' && expires_after now' t') eqn:E; [|done]. bool_to_prop.
  match goal with H : held_by c t' = true |- _ => apply held_by_spec in H as (Ha & Ho & Hl) end.
  destruct Hrow as [Hlt|(Heq & Hrow)]; [lia|].
  destruct Hrow as (Hl' & Ho' & Hx); [unfold is_leased; by apply bool_decide_eq_true|].
  assert (held_by c t = true) as Hh.
  { apply held_by_spec. split_and!; [lia|congruence|]. unfold is_leased in Hl'. by bool_to_prop. }
  destruct Hfalse as [?|Hfalse]; [congruence|]. destruct Hx as [Hx|Hx]; [|congruence].
  unfold expires_after in *. rewrite Hx in *. destruct (task_lease_expires_at t) as [x|]; [|done].
  bool_to_prop. lia.
Qed.

(** ** Invariants of the processes *)

(** Claims are of attempts already drawn, and no two processes work under the
    same attempt of a task. *)
Record loops_ok (s : loops) : Prop := {
  li_sys : inv (system_of s);
  li_claims : forall k p c hb, lo_procs s !! k = Some p -> claim_of (pr_phase p) = Some (c, hb) ->
    claim_ok (lo_db s) c;
  li_unique : forall k k' p p' c c' hb hb', lo_procs s !! k = Some p -> lo_procs s !! k' = Some p' ->
    claim_of (pr_phase p) = Some (c, hb) -> claim_of (pr_phase p') = Some (c', hb') ->
    claim_task_id c = claim_task_id c' -> claim_attempt c = claim_attempt c' -> k = k';
}.

(** The claims of [ps'] are claims of [ps] at the same processes. *)
Definition claims_sub (ps' ps : gmap N proc) : Prop :=
  forall k p' c hb, ps' !! k = Some p' -> claim_of (pr_phase p') = Some (c, hb) ->
    exists p hb0, ps !! k = Some p /\ claim_of (pr_phase p) = Some (c, hb0).

Lemma claims_sub_refl ps : claims_sub ps ps.
Proof. intros k p c hb Hk Hc. by exists p, hb. Qed.

Lemma claims_sub_insert k p p' ps :
  ps !! k = Some p ->
  (forall c hb, claim_of (pr_phase p') = Some (c, hb) -> exists hb0, claim_of (pr_phase p) = Some (c, hb0)) ->
  claims_sub (<[k := p']> ps) ps.
Proof.
  intros Hk Hsub j q c hb. rewrite lookup_insert. case_decide; subst; [|by intros; exists q, hb].
  intros [= <-] Hc. destruct (Hsub c hb Hc) as [hb0 H0]. by exists p, hb0.
Qed.

Lemma claims_sub_new k p ps : claim_of (pr_phase p) = None -> claims_sub (<[k := p]> ps) ps.
Proof.
  intros Hn j q c hb. rewrite lookup_insert. case_decide; subst; [intros [= <-]; congruence|].
  intros; by exists q, hb.
Qed.

Lemma claims_sub_delete k ps : claims_sub (delete k ps) ps.
Proof. intros j q c hb [_ Hj]%lookup_delete_Some Hc. by exists q, hb. Qed.

Lemma loops_ok_sub now now' d d' ps ps' :
  loops_ok (Loops now d ps) -> inv (system_of (Loops now' d' ps')) -> attempts_le d d' ->
  claims_sub ps' ps -> loops_ok (Loops now' d' ps').
Proof.
  intros [_ Hc Hu] Hi Ha Hsub. split; simpl in *; [done| |].
  - intros k p c hb Hk Hcl. destruct (Hsub _ _ _ _ Hk Hcl) as (p0 & hb0 & Hk0 & Hc0).
    eapply claim_ok_le; [exact Ha|by eapply Hc].
  - intros k k' p p' c c' hb hb' Hk Hk' Hcl Hcl'.
    destruct (Hsub _ _ _ _ Hk Hcl) as (p0 & hb0 & Hk0 & Hc0).
    destruct (Hsub _ _ _ _ Hk' Hcl') as (p1 & hb1 & Hk1 & Hc1). by eapply Hu.
Qed.

Lemma after_await_claim c hb r x : claim_of (after_await c hb r) = Some x -> x = (c, hb).
Proof.
  destruct r as [|e|]; simpl; [done|destruct (is_lease_lost e)|destruct (hb_done hb)]; try done.
  by intros [= <-].
Qed.

Lemma cancel_worker_claim ph c hb : claim_of (cancel_worker ph) = Some (c, hb) -> claim_of ph = Some (c, hb).
Proof.
  destruct ph as [|?|c0 [] ?|? ? ? ?|?]; simpl; try done. by case_match.
Qed.

Lemma after_beat_claim now b ph c hb :
  claim_of (after_beat now b ph) = Some (c, hb) ->
  (exists hb0, claim_of ph = Some (c, hb0)) /\ hb = (if b then HbDone else Beating now).
Proof. destruct ph as [|?|c0 ? ?|? ? ? ?|?], b; simpl; naive_solver. Qed.

Lemma hb_over_claim ph c hb : claim_of (hb_over ph) = Some (c, hb) -> exists hb0, claim_of ph = Some (c, hb0).
Proof. destruct ph as [|?|c0 ? ?|? ? ? ?|?]; simpl; naive_solver. Qed.

Section Invariants.
Context (fencing faulty : bool) (exc_str exc_repr : exn -> string).
Local Abbreviation step := (step fencing exc_str exc_repr).
Local Abbreviation worker_step := (worker_step fencing faulty exc_str exc_repr).
Local Abbreviation loop_step := (loop_step fencing faulty exc_str exc_repr).
Local Abbreviation loop_reachable := (loop_reachable fencing faulty exc_str exc_repr).

(** A process keeps its claim, drops it, or has just drawn a new one. *)
Lemma worker_claim now p d d' ph c hb :
  worker_step now p d d' ph -> claim_of ph = Some (c, hb) ->
  (exists hb0, claim_of (pr_phase p) = Some (c, hb0)) \/
  (ph = Awaiting c (Main Replaying) (Beating now) /\ pr_phase p = Head /\
   exists locked, claim_task now locked (st_worker_id (pr_settings p)) (st_lease (pr_settings p)) d
     = (Ok (Some c), d')).
Proof.
  intros Hw Hc. destruct Hw; simpl in Hc; try done.
  - injection Hc as <- <-. right. eauto.
  - injection Hc as <- <-. left. rewrite H. by eexists.
  - by destruct (hb_done _).
  - apply after_await_claim in Hc as [= -> ->]. left. rewrite H. by eexists.
  - injection Hc as <- <-. left. rewrite H. by eexists.
  - destruct r as [?|e']; [done|]. by destruct (is_lease_lost e').
  - left. by apply after_beat_claim in Hc as [? _].
  - left. by apply hb_over_claim in Hc.
Qed.

Lemma worker_forward now p d d' ph :
  db_inv d -> worker_step now p d d' ph -> forward now d d'.
Proof.
  intros Hdb Hw. destruct Hw; try by apply forward_same.
  - pose proof (claim_forward now now locked (st_worker_id (pr_settings p)) (st_lease (pr_settings p)) d) as Hf.
    by rewrite H1 in Hf.
  - pose proof (claim_forward now now locked (st_worker_id (pr_settings p)) (st_lease (pr_settings p)) d) as Hf.
    by rewrite H1 in Hf.
  - destruct H0; try by apply forward_same.
    + rewrite read_events_gapless in H0 by apply Hdb. injection H0 as _ <-. by apply forward_same.
    + apply insert_call_Ok_inv in H0 as ->. by apply forward_same.
    + apply forward_same. pose proof (insert_cache_tasks key resp d) as Ht. by rewrite H0 in Ht.
    + by eapply commit_forward.
    + by eapply commit_forward.
  - pose proof (release_forward now now c (st_backoff (pr_settings p)) d) as Hf. by rewrite H1 in Hf.
  - by eapply commit_forward.
  - apply heartbeat_beat_db in H1 as (alive & H1 & _).
    pose proof (heartbeat_forward now c (st_lease (pr_settings p)) d) as Hf. by rewrite H1 in Hf.
Qed.
Lemma loop_path s s' :
  loops_ok s -> loop_step s s' -> rtc step (system_of s) (system_of s').
Proof.
  intros [_ Hcl _] Hst. destruct Hst; unfold system_of; simpl in *; try done.
  - by eapply rtc_once, step_submit.
  - rewrite threads_of_insert, with_thread_same; [done|]. unfold threads_of. by rewrite lookup_omap, H.
  - rewrite threads_of_delete. apply crash_system.
  - rewrite threads_of_insert, with_thread_same; [done|by apply (threads_of_lookup k p)].
  - rewrite threads_of_insert. pose proof (threads_of_lookup _ _ _ H) as Hk. simpl.
    destruct (pr_phase p) as [|since|c [q|q|r] hb|c e i hb|how] eqn:Hp; simpl in *;
      try (by rewrite with_thread_same); try apply crash_system.
    destruct (hb_done hb); apply crash_system.
  - rewrite threads_of_insert. apply (worker_system fencing faulty exc_str exc_repr now p); [|by eauto|done].
    by apply threads_of_lookup.
  - rewrite threads_of_insert, with_thread_same by (by apply (threads_of_lookup k p)). by eapply rtc_once, step_reap.
  - rewrite threads_of_insert, with_thread_same; [done|by apply (threads_of_lookup k p)].
Qed.

Lemma loop_forward s s' :
  loops_ok s -> loop_step s s' -> forward (lo_now s) (lo_db s) (lo_db s') /\ lo_now s <= lo_now s'.
Proof.
  intros Hi Hst. pose proof (inv_db _ (li_sys _ Hi)) as Hdb.
  destruct Hst; simpl in *; (split; [|lia]); try by apply forward_same.
  - by eapply submit_forward.
  - by eapply worker_forward.
  - pose proof (reap_forward now now locked d) as Hf. by rewrite H1 in Hf.
Qed.

(** A new claim is of a higher attempt than every claim before it. *)
Lemma claim_attempt_new now locked w lease d c d' c0 :
  claim_task now locked w lease d = (Ok (Some c), d') -> claim_ok d c0 ->
  claim_task_id c0 = claim_task_id c -> claim_attempt c0 < claim_attempt c.
Proof.
  rewrite claim_task_eq. destruct (select_claimable _ _ _) as [[tid t]|] eqn:E; [|done].
  intros [= <- <-] (t0 & Ht0 & _ & Hb) Heq. simpl in *. apply select_claimable_Some in E as (Ht & _).
  rewrite Heq in Ht0. assert (t0 = t) as -> by congruence. lia.
Qed.

Lemma loop_step_inv s s' : loops_ok s -> loop_step s s' -> loops_ok s'.
Proof.
  intros Hi Hst. pose proof (path_inv _ _ _ _ _ (li_sys _ Hi) (loop_path _ _ Hi Hst)) as Hsys.
  destruct (loop_forward _ _ Hi Hst) as [Hf%forward_attempts _].
  destruct Hst; simpl in Hf; try by apply (loops_ok_sub now _ d _ ps); [..|apply claims_sub_refl].
  - by apply (loops_ok_sub now _ d _ ps); [..|apply claims_sub_new].
  - by apply (loops_ok_sub now _ d _ ps); [..|apply claims_sub_delete].
  - apply (loops_ok_sub now _ d _ ps); [done..|]. apply (claims_sub_insert k p); [done|]. by eauto.
  - apply (loops_ok_sub now _ d _ ps); [done..|]. apply (claims_sub_insert k p); [done|].
    intros c hb Hc%cancel_worker_claim. by eauto.
  - destruct (claim_of ph) as [[c hb]|] eqn:Hph.
    2: { apply (loops_ok_sub now _ d _ ps); [done..|]. apply (claims_sub_insert k p); [done|].
         simpl. intros c hb. by rewrite Hph. }
    destruct (worker_claim _ _ _ _ _ _ _ H0 Hph) as [[hb0 Hold]|(-> & Hhead & locked & Hclaim)].
    { apply (loops_ok_sub now _ d _ ps); [done..|]. apply (claims_sub_insert k p); [done|].
      simpl. rewrite Hph. intros c' hb' [= <- <-]. by exists hb0. }
    destruct (claim_fresh _ _ _ _ _ _ _ _ (li_sys _ Hi) Hclaim) as (Hok & _ & _).
    pose proof (fun c0 => claim_attempt_new _ _ _ _ _ _ _ c0 Hclaim) as Hnew.
    destruct Hi as [_ Hcl Hu]. simpl in *. injection Hph as <-. split; simpl; [done| |].
    + intros j q c0 hb0. rewrite lookup_insert. case_decide; subst; [by intros [= <-] [= <- <-]|].
      intros Hj Hcj. eapply claim_ok_le; [exact Hf|by eapply Hcl].
    + intros j j' q q' c1 c2 hb1 hb2. rewrite !lookup_insert.
      repeat case_decide; subst; intros Hj Hj' Hc1 Hc2 Ht Ha; simplify_eq; simpl in *; simplify_eq; try done.
      * pose proof (Hnew c2 (Hcl _ _ _ _ Hj' Hc2)). lia.
      * pose proof (Hnew c1 (Hcl _ _ _ _ Hj Hc1)). lia.
      * by eapply Hu.
  - apply (loops_ok_sub now _ d _ ps); [done..|]. apply (claims_sub_insert k p); [done|]. by eauto.
  - apply (loops_ok_sub now _ d _ ps); [done..|]. apply (claims_sub_insert k p); [done|]. by eauto.
Qed.

Lemma loops_ok_init now : loops_ok (loops_init now).
Proof. split; [apply inv_init|by intros ? ? ? ?|by intros ? ? ? ? ? ? ? ?]. Qed.

Lemma reachable_loops_ok s : loop_reachable s -> loops_ok s.
Proof.
  intros [now H]. assert (Hgen : forall s0 s1, rtc loop_step s0 s1 -> loops_ok s0 -> loops_ok s1).
  { induction 1; [done|]. intros Hi. by eapply IHrtc, loop_step_inv. }
  eapply Hgen; [done|apply loops_ok_init].
Qed.

(** A claim bears the name of the process that works on it. *)
Definition claims_own (ps : gmap N proc) : Prop := map_Forall (fun _ p =>
  forall c hb, claim_of (pr_phase p) = Some (c, hb) -> claim_worker_id c = st_worker_id (pr_settings p)) ps.

Lemma claims_own_insert k p ps :
  (forall c hb, claim_of (pr_phase p) = Some (c, hb) -> claim_worker_id c = st_worker_id (pr_settings p)) ->
  claims_own ps -> claims_own (<[k := p]> ps).
Proof. intros Hp. by apply map_Forall_insert_2. Qed.

Lemma loop_claims_own s s' : loop_step s s' -> claims_own (lo_procs s) -> claims_own (lo_procs s').
Proof.
  intros Hst Ho. destruct Hst; simpl in *; try done.
  - by apply claims_own_insert.
  - by apply map_Forall_delete.
  - apply claims_own_insert; [|done]. by apply (Ho k p).
  - apply claims_own_insert; [|done]. simpl. intros c hb Hc%cancel_worker_claim. by apply (Ho k p H c hb).
  - apply claims_own_insert; [|done]. simpl. intros c hb Hc.
    destruct (worker_claim _ _ _ _ _ _ _ H0 Hc) as [[hb0 H1]|(_ & _ & locked & Hx)]; [by apply (Ho k p H c hb0)|].
    rewrite claim_task_eq in Hx. destruct (select_claimable _ _ _) as [[tid t]|]; [|done]. by injection Hx as <- _.
  - apply claims_own_insert; [|done]. by apply (Ho k p).
  - apply claims_own_insert; [|done]. by apply (Ho k p).
Qed.

Lemma loop_path_rtc s s' : loops_ok s -> rtc loop_step s s' -> rtc step (system_of s) (system_of s').
Proof.
  intros Hi H. induction H as [|x y z Hxy _ IH]; [apply rtc_refl|].
  etrans; [by eapply loop_path|]. by eapply IH, loop_step_inv.
Qed.

Lemma loop_system s : loop_reachable s -> System.reachable fencing exc_str exc_repr (system_of s).
Proof.
  intros [now H]. unfold System.reachable.
  pose proof (loop_path_rtc _ _ (loops_ok_init now) H) as Hp. exact Hp.
Qed.

(** C5: the event loops implement the transition system.  However the tasks
    of any number of [run_worker]s are interleaved - executions, heartbeats
    that cancel them, error handlers, reapers, and processes that are stopped,
    cancelled or killed, with failing connections or without, fenced or not -
    the database and the threads at work are a reachable state of [System]. *)
Theorem loop_refines s :
  loop_reachable s -> System.reachable fencing exc_str exc_repr (system_of s).
Proof. apply loop_system. Qed.

(** C10: a lost lease is lost for good.  A claim the fence refuses at some
    moment - its lease ran out, or its task was taken over, released or
    ended - is refused at every later moment of every run of the workers, so a
    zombie that was too late once never writes again. *)
Theorem refused_for_ever s s' c :
  loop_reachable s -> rtc loop_step s s' -> claim_ok (lo_db s) c ->
  fence_ok true (lo_now s) c (lo_db s) = false ->
  fence_ok true (lo_now s') c (lo_db s') = false.
Proof.
  intros Hr%reachable_loops_ok H. induction H as [|x y z Hxy _ IH]; [done|]. intros Hc Hf.
  destruct (loop_forward _ _ Hr Hxy) as [Hfw Hle]. apply IH.
  - by eapply loop_step_inv.
  - by eapply claim_ok_le; [by eapply forward_attempts|].
  - by eapply refused_forward.
Qed.
End Invariants.

(** ** A worker in time keeps its lease *)

(** The claim the task of a process still has to hold. *)
Definition kept_claim (ph : phase) : option (Claim * hb_task) :=
  match ph with
  | Awaiting _ (Ended Returned) _ | Awaiting _ (Ended Cancelled) _ => None
  | _ => claim_of ph
  end.

(** The lease runs from the last beat, and has not run out. *)
Definition holds (now : Z) (d : db) (st : settings) (c : Claim) (hb : hb_task) : Prop :=
  exists since t, hb = Beating since /\ tasks d !! claim_task_id c = Some t /\ held_by c t = true /\
    task_lease_expires_at t = Some (since + st_lease st) /\ now < since + st_lease st.

Lemma kept_claim_of ph x : kept_claim ph = Some x -> claim_of ph = Some x.
Proof. by destruct ph as [|?|c [?|?|[|?|]] ?|? ? ? ?|?]. Qed.

Lemma holds_fence now d st c hb : holds now d st c hb -> fence_ok true now c d = true.
Proof.
  intros (since & t & _ & Ht & Hh & Hx & Hn). unfold fence_ok. rewrite Ht, Hh. unfold expires_after.
  rewrite Hx. simpl. by apply Z.ltb_lt.
Qed.

Lemma holds_same now d d' st c hb :
  tasks d' !! claim_task_id c = tasks d !! claim_task_id c -> holds now d st c hb -> holds now d' st c hb.
Proof. intros Ht (since & t & H). exists since, t. by rewrite Ht. Qed.

Lemma fence_ok_inv now c d :
  fence_ok true now c d = true ->
  exists t, tasks d !! claim_task_id c = Some t /\ held_by c t = true /\ expires_after now t = true.
Proof.
  unfold fence_ok. simpl. destruct (tasks d !! _) as [t|]; [|done]. intros H. bool_to_prop. by exists t.
Qed.

Lemma commit_refused now c i o d d' :
  gapless (claim_run_id c) d -> commit_step true now c i o d = (Raise LeaseLostError, d') ->
  fence_ok true now c d = false.
Proof.
  intros Hg. rewrite commit_step_eq by done. destruct (fence_ok _ _ _ _); [|done]. simpl.
  destruct (runs d !! _); [|done]. destruct (select_seq _ _ _); [done|].
  destruct (commit_values c o _) as [z|e] eqn:Hz; [done|]. intros [= -> _].
  by apply commit_values_raises in Hz.
Qed.

Lemma held_once c c0 t : held_by c t = true -> held_by c0 t = true -> claim_attempt c0 = claim_attempt c.
Proof. intros (Ha & _)%held_by_spec (Ha0 & _)%held_by_spec. congruence. Qed.

(** A task leased under one attempt is not changed by what another does. *)
Lemma commit_other_row now c0 i o r d d' c t :
  db_inv d -> commit_step true now c0 i o d = (r, d') ->
  tasks d !! claim_task_id c = Some t -> held_by c t = true ->
  (claim_task_id c0 = claim_task_id c -> claim_attempt c0 <> claim_attempt c) ->
  tasks d' !! claim_task_id c = Some t.
Proof.
  intros Hdb E Ht Hh Hne. destruct r as [b|e]; [|by apply commit_step_Raise_inv in E as ->].
  apply commit_step_Ok_inv in E as [Hf [(_ & -> & _)|(_ & r & z & _ & _ & _ & ->)]]; [done| |apply Hdb].
  rewrite tasks_committed. destruct (so_final o); [|done]. rewrite lookup_alter. case_decide as Heq; [|done].
  apply fence_ok_inv in Hf as (t0 & Ht0 & Hh0 & _). rewrite Heq in Ht0. assert (t0 = t) as -> by congruence.
  destruct (Hne Heq). by eapply held_once.
Qed.

Lemma reap_other_row now locked c t d :
  tasks d !! claim_task_id c = Some t -> expires_after now t = true ->
  tasks (snd (reap_expired now locked d)) !! claim_task_id c = Some t.
Proof.
  intros Ht Hx. rewrite reap_lookup, Ht. simpl. f_equal.
  destruct (reapable now locked _ t) eqn:E; [|done]. unfold reapable, expired_before, expires_after in *.
  destruct (task_lease_expires_at t); bool_to_prop; [lia|done].
Qed.

Lemma claim_other_row now locked w lease d r d' c t :
  claim_task now locked w lease d = (Ok r, d') ->
  tasks d !! claim_task_id c = Some t -> held_by c t = true -> tasks d' !! claim_task_id c = Some t.
Proof.
  rewrite claim_task_eq. destruct (select_claimable _ _ _) as [[tid u]|] eqn:E; intros [= _ <-]; [|done].
  apply select_claimable_Some in E as (Hu & Hq & _). intros Ht (_ & _ & Hl)%held_by_spec.
  rewrite tasks_claimed, lookup_insert_ne; [done|]. intros ->. congruence.
Qed.

Lemma release_other_row now c0 backoff d r d' c t :
  release_task now c0 backoff d = (r, d') ->
  tasks d !! claim_task_id c = Some t -> held_by c t = true ->
  (claim_task_id c0 = claim_task_id c -> claim_attempt c0 <> claim_attempt c) ->
  tasks d' !! claim_task_id c = Some t.
Proof.
  rewrite release_task_eq. intros E Ht Hh Hne. destruct (tasks d !! claim_task_id c0) as [t0|] eqn:Ht0; [|by injection E as _ <-].
  destruct (held_by c0 t0) eqn:Hh0; injection E as _ <-; [|done]. simpl. rewrite lookup_insert_ne; [done|].
  intros Heq. rewrite Heq in Ht0. assert (t0 = t) as -> by congruence.
  destruct (Hne Heq). by eapply held_once.
Qed.

Lemma heartbeat_other_row now c0 lease d r d' c t :
  heartbeat now c0 lease d = (r, d') ->
  tasks d !! claim_task_id c = Some t -> held_by c t = true ->
  (claim_task_id c0 = claim_task_id c -> claim_attempt c0 <> claim_attempt c) ->
  tasks d' !! claim_task_id c = Some t.
Proof.
  rewrite heartbeat_eq. intros E Ht Hh Hne. destruct (tasks d !! claim_task_id c0) as [t0|] eqn:Ht0; [|by injection E as _ <-].
  destruct (held_by c0 t0 && _) eqn:Hh0; injection E as _ <-; [|done]. simpl. rewrite lookup_insert_ne; [done|].
  bool_to_prop. intros Heq. rewrite Heq in Ht0. assert (t0 = t) as -> by congruence.
  destruct (Hne Heq). by eapply held_once.
Qed.
Section InTime.
Context (exc_str exc_repr : exn -> string).
Local Abbreviation worker_step := (worker_step true false exc_str exc_repr).
Local Abbreviation loop_step := (loop_step true false exc_str exc_repr).
Local Abbreviation loop_reachable := (loop_reachable true false exc_str exc_repr).

(** What another process does leaves the row of a lease that has not run out. *)
Lemma worker_other_row now p d d' ph c t :
  db_inv d -> worker_step now p d d' ph ->
  tasks d !! claim_task_id c = Some t -> held_by c t = true ->
  (forall c0 hb, claim_of (pr_phase p) = Some (c0, hb) ->
     claim_task_id c0 = claim_task_id c -> claim_attempt c0 <> claim_attempt c) ->
  tasks d' !! claim_task_id c = Some t.
Proof.
  intros Hdb Hw Ht Hh Hne. destruct Hw; try done.
  - by eapply claim_other_row.
  - by eapply claim_other_row.
  - rewrite H in Hne. specialize (Hne c0 hb eq_refl). destruct H0; try done.
    + rewrite read_events_gapless in H0 by apply Hdb. by injection H0 as _ <-.
    + by apply insert_call_Ok_inv in H0 as ->.
    + pose proof (insert_cache_tasks key resp d) as Hx. rewrite H0 in Hx. simpl in Hx. by rewrite Hx.
    + by eapply commit_other_row.
    + by eapply commit_other_row.
  - rewrite H in Hne. eapply release_other_row; [done..|]. by apply (Hne c0 hb).
  - rewrite H in Hne. eapply commit_other_row; [done..|]. by apply (Hne c0 hb).
  - apply heartbeat_beat_db in H1 as (alive & H1 & _). eapply heartbeat_other_row; [done..|]. by eapply Hne.
Qed.

(** The execution itself keeps the lease, until its last commit. *)
Lemma main_holds now st c hb d q d' m :
  db_inv d -> main_step true now c d q d' m -> holds now d st c hb ->
  (kept_claim (Awaiting c m hb) <> None -> holds now d' st c hb) /\
  (forall e, m = Ended (Raised e) -> is_lease_lost e = false).
Proof.
  intros Hdb Hm Hh. pose proof (holds_fence _ _ _ _ _ Hh) as Hf.
  assert (Hsame : forall d2, tasks d2 = tasks d -> holds now d2 st c hb).
  { intros d2 Ht. eapply holds_same; [|exact Hh]. by rewrite Ht. }
  destruct Hm; (split; [intros Hk|try done]); try by apply Hsame.
  - rewrite read_events_gapless in H by apply Hdb. injection H as _ <-. done.
  - apply insert_call_Ok_inv in H as ->. by apply Hsame.
  - apply Hsame. pose proof (insert_cache_tasks key resp d) as Hx. by rewrite H in Hx.
  - by intros e' [= <-].
  - apply commit_step_Ok_inv in H as [_ [(_ & -> & _)|(_ & r & z & _ & _ & _ & ->)]]; [done| |apply Hdb].
    destruct (so_final o) eqn:Ho; [done|]. apply Hsame. by rewrite tasks_committed, Ho.
  - destruct (so_final o); done.
  - by apply commit_step_Raise_inv in H as ->.
  - intros e' [= <-]. destruct e; try done. apply commit_refused in H; [congruence|apply Hdb].
Qed.

Lemma beat_holds now st c hb d b d' :
  holds now d st c hb -> 0 < st_lease st -> heartbeat_beat true now c (st_lease st) d = (Ok b, d') ->
  b = false /\ holds now d' st c (Beating now).
Proof.
  intros (since & t & _ & Ht & Hh & Hx & Hn) Hl (alive & E & ->)%heartbeat_beat_db.
  rewrite heartbeat_eq, Ht, Hh in E. unfold expires_after in E. rewrite Hx, (proj2 (Z.ltb_lt _ _)) in E by lia.
  injection E as <- <-. split; [done|]. exists now, (extend_row (now + st_lease st) t). simpl.
  rewrite lookup_insert_eq. split_and!; [done..|lia].
Qed.

Record proc_kept (now : Z) (d : db) (p : proc) : Prop := {
  pk_holds : forall c hb, kept_claim (pr_phase p) = Some (c, hb) -> holds now d (pr_settings p) c hb;
  pk_raised : forall c e hb, pr_phase p = Awaiting c (Ended (Raised e)) hb -> is_lease_lost e = false;
  pk_cancelling : forall c q hb, pr_phase p = Awaiting c (Cancelling q) hb -> pr_cancelled p = true;
}.

Definition all_kept (s : loops) : Prop := forall k p, lo_procs s !! k = Some p ->
  0 < st_lease (pr_settings p) -> proc_kept (lo_now s) (lo_db s) p.

(** Of a phase without a task there is nothing to show. *)
Lemma proc_kept_idle now d p : claim_of (pr_phase p) = None -> proc_kept now d p.
Proof.
  intros Hn. split.
  - intros c hb Hk%kept_claim_of. congruence.
  - intros c e hb Hp. by rewrite Hp in Hn.
  - intros c q hb Hp. by rewrite Hp in Hn.
Qed.

Lemma proc_kept_same now d d' p :
  (forall c hb, kept_claim (pr_phase p) = Some (c, hb) ->
     tasks d' !! claim_task_id c = tasks d !! claim_task_id c) ->
  proc_kept now d p -> proc_kept now d' p.
Proof.
  intros Ht [K1 K2 K3]. split; [|done..]. intros c hb Hk. eapply holds_same; [by eapply Ht|by apply K1].
Qed.

Lemma after_await_kept now d c hb r p :
  pr_phase p = Awaiting c (Ended r) hb -> proc_kept now d p -> proc_kept now d (goto (after_await c hb r) p).
Proof.
  intros Hp Hk. destruct r as [|e|]; simpl.
  - by apply proc_kept_idle.
  - rewrite (pk_raised _ _ _ Hk c e hb Hp). split; simpl; [|done..]. intros c' hb' [= <- <-].
    by apply (pk_holds _ _ _ Hk); rewrite Hp.
  - destruct (hb_done hb); by apply proc_kept_idle.
Qed.

Lemma worker_kept now p d d' ph :
  db_inv d -> 0 < st_lease (pr_settings p) -> worker_step now p d d' ph ->
  proc_kept now d p -> proc_kept now d' (goto ph p).
Proof.
  intros Hdb Hl Hw Hk. destruct Hw; try (by apply proc_kept_idle); try done.
  - rewrite claim_task_eq in H1. destruct (select_claimable _ _ _) as [[tid t]|]; [|done].
    injection H1 as <- <-. split; simpl; [|done..]. intros c hb [= <- <-].
    exists now, (lease_row (st_worker_id (pr_settings p)) (now + st_lease (pr_settings p)) t). simpl.
    rewrite tasks_claimed, lookup_insert_eq. split_and!; [done..| |done|lia].
    by apply held_by_spec.
  - destruct (decide (kept_claim (Awaiting c (Main q) hb) = None)) as [|Hn]; [done|].
    assert (Hh : holds now d (pr_settings p) c hb) by (apply (pk_holds _ _ _ Hk); by rewrite H).
    destruct (main_holds _ _ _ _ _ _ _ _ Hdb H0 Hh) as [Hm He]. split; simpl.
    + intros c' hb' Hk'. assert ((c', hb') = (c, hb)) as [= -> ->].
      { change (kept_claim (Awaiting c m hb) = Some (c', hb')) in Hk'. apply kept_claim_of in Hk'.
        by injection Hk' as <- <-. }
      apply Hm. simpl. by rewrite Hk'.
    + intros c' e' hb' [= -> -> ->]. by apply He.
    + intros c' q' hb' [= _ Hq _]. destruct H0; try done. by destruct (so_final o).
  - simpl. destruct (hb_done hb); by apply proc_kept_idle.
  - by apply after_await_kept.
  - split; simpl; [|done..]. intros c' hb' [= <- <-]. apply (pk_holds _ _ _ Hk). by rewrite H.
  - apply proc_kept_idle. destruct r as [|e']; [done|]. by destruct (is_lease_lost e').
  - destruct (kept_claim (pr_phase p)) as [[c1 hb1]|] eqn:Hkp.
    + pose proof (kept_claim_of _ _ Hkp) as Hc1. rewrite H in Hc1. injection Hc1 as <- <-.
      destruct (beat_holds _ _ _ _ _ _ _ (pk_holds _ _ _ Hk _ _ Hkp) Hl H1) as [-> Hh].
      destruct Hk as [K1 K2 K3]. destruct (pr_phase p) as [|?|c0 m hb0|c0 e0 i0 hb0|?] eqn:Hp; try done; simpl in *;
        injection H as -> ->; split; simpl; try done.
      * intros c' hb' Hk'. change (kept_claim (Awaiting c m (Beating now)) = Some (c', hb')) in Hk'.
        apply kept_claim_of in Hk'. by injection Hk' as <- <-.
      * intros c' e' hb' [= <- -> <-]. by eapply K2.
      * intros c' e' hb' [= <- -> <-]. by eapply K3.
      * by intros c' hb' [= <- <-].
    + destruct Hk as [K1 K2 K3]. destruct (pr_phase p) as [|?|c0 [?|?|[|?|]] hb0|c0 e0 i0 hb0|?] eqn:Hp; try done;
        simpl; destruct b; by split.
Qed.

Lemma loop_kept s s' : loops_ok s -> all_kept s -> loop_step s s' -> all_kept s'.
Proof.
  intros Hi Hk Hst. pose proof (inv_db _ (li_sys _ Hi)) as Hdb. destruct Hst; simpl in *.
  - destruct H0 as [|Htick]; [done|]. intros k p Hp Hl. destruct (Hk k p Hp Hl) as [K1 K2 K3]. simpl in *.
    split; [|done..]. intros c hb Hkp. destruct (K1 c hb Hkp) as (since & t & -> & Ht & Hh & Hx & _).
    exists since, t. split_and!; [done..|]. specialize (Htick k p Hp). unfold in_time in Htick.
    by rewrite (kept_claim_of _ _ Hkp) in Htick.
  - intros k p Hp Hl. eapply proc_kept_same; [|by apply Hk with k]. intros c hb Hkp.
    destruct (pk_holds _ _ _ (Hk k p Hp Hl) _ _ Hkp) as (since & t & _ & Ht & _).
    apply submit_run_Ok in H as (_ & Hn & _ & _ & Hts & _). simpl in *. rewrite Hts, lookup_insert_ne; [done|congruence].
  - intros j q. simpl. rewrite lookup_insert. case_decide; subst; [intros [= <-] _; by apply proc_kept_idle|].
    apply Hk.
  - intros j q. simpl. intros [_ Hj]%lookup_delete_Some. by apply (Hk j).
  - intros j q. simpl. rewrite lookup_insert. case_decide; subst; [|apply Hk]. intros [= <-] Hl.
    destruct (Hk _ _ H Hl) as [K1 K2 K3]. by split.
  - intros j q. simpl. rewrite lookup_insert. case_decide; subst; [|apply Hk]. intros [= <-] Hl. simpl in *.
    destruct (Hk _ _ H Hl) as [K1 K2 K3]. simpl in *.
    destruct (pr_phase p) as [|?|c [q|q|r] hb|? ? ? ?|?] eqn:Hp; simpl; try (by apply proc_kept_idle).
    + split; simpl; [exact K1|by intros ? ? ? [=]|done].
    + split; simpl; [exact K1|by intros ? ? ? [=]|done].
    + apply proc_kept_idle. simpl. by destruct (hb_done hb).
  - intros j q. simpl. rewrite lookup_insert. case_decide as Hne; subst.
    + intros [= <-] Hl. by eapply worker_kept; [..|apply Hk with j].
    + intros Hj Hl. eapply proc_kept_same; [|by apply Hk with j]. intros c hb Hkq.
      destruct (pk_holds _ _ _ (Hk j q Hj Hl) _ _ Hkq) as (since & t & _ & Ht & Hh & _). simpl in *.
      rewrite Ht. eapply worker_other_row; [done..|]. intros c0 hb0 Hc0 Heq Hatt.
      apply Hne. by eapply (li_unique _ Hi k j p q c0 c); [..|apply kept_claim_of|done|done].
  - intros j q. simpl. rewrite lookup_insert. intros Hj Hl.
    assert (exists q0, ps !! j = Some q0 /\ pr_phase q = pr_phase q0 /\ pr_settings q = pr_settings q0 /\
      pr_cancelled q = pr_cancelled q0) as (q0 & Hq0 & E1 & E2 & E3).
    { case_decide; subst; [injection Hj as <-; by exists p|by exists q]. }
    rewrite E2 in Hl. destruct (Hk j q0 Hq0 Hl) as [K1 K2 K3]. simpl in *.
    split; rewrite ?E1, ?E2, ?E3; [|done..]. intros c hb Hkq. pose proof (K1 c hb Hkq) as Hh.
    eapply holds_same; [|exact Hh]. destruct Hh as (since & t & _ & Ht & _ & Hx & Hn).
    pose proof (reap_other_row now locked c t d Ht) as Hr. rewrite H1 in Hr. rewrite Ht. apply Hr.
    unfold expires_after. rewrite Hx. by apply Z.ltb_lt.
  - done.
Qed.

Lemma reachable_kept s : loop_reachable s -> all_kept s.
Proof.
  intros [now H]. assert (Hgen : forall s0 s1, rtc loop_step s0 s1 -> loops_ok s0 -> all_kept s0 -> all_kept s1).
  { induction 1 as [|x y z Hxy _ IH]; [done|]. intros Hi Hk.
    apply IH; [by eapply loop_step_inv|by eapply loop_kept]. }
  eapply Hgen; [done|apply loops_ok_init|]. by intros k p.
Qed.

(** C6: a healthy worker never loses its lease.  With fencing, while every
    heartbeat gets its turn before the lease runs out - whatever other
    processes do, crash or reap -, the task a worker executes, or whose error
    it handles, is leased to it until one whole lease after its last beat, and
    that time is not over.  No execution ends with [LeaseLostError], and none
    is cancelled unless the worker itself was. *)
Theorem in_time_keeps_lease s k p :
  loop_reachable s -> lo_procs s !! k = Some p -> 0 < st_lease (pr_settings p) ->
  let lease := st_lease (pr_settings p) in
  match pr_phase p with
  | Awaiting c (Main _) hb | Handling c _ _ hb =>
      exists since t, hb = Beating since /\ tasks (lo_db s) !! claim_task_id c = Some t /\
        held_by c t = true /\ task_lease_expires_at t = Some (since + lease) /\
        lo_now s < since + lease
  | Awaiting _ (Cancelling _) _ => pr_cancelled p = true
  | Awaiting _ (Ended (Raised e)) _ => e <> LeaseLostError
  | _ => True
  end.
Proof.
  intros Hr Hk Hl. destruct (reachable_kept s Hr k p Hk Hl) as [K1 K2 K3].
  destruct (pr_phase p) as [|?|c [q|q|[|e|]] hb|c e i hb|?]; try done; try by apply K1.
  - by eapply K3.
  - pose proof (K2 _ _ _ eq_refl) as He. by destruct e.
Qed.
End InTime.

(** ** How a worker ends *)
Section Exits.
Context (fencing faulty : bool) (exc_str exc_repr : exn -> string).
Local Abbreviation worker_step := (worker_step fencing faulty exc_str exc_repr).
Local Abbreviation loop_step := (loop_step fencing faulty exc_str exc_repr).

(** An execution being cancelled was cancelled by the caller of the worker, or
    by its heartbeat, which is then done. *)
Definition exit_ok (p : proc) : Prop :=
  match pr_phase p with
  | Exited how =>
      pr_reaper p = ReaperDone /\
      match how with
      | Stopped => pr_stop p = true
      | CancelledOut => pr_cancelled p = true
      | Escaped e => is_lease_lost e = false
      end
  | Awaiting _ (Cancelling _) hb => pr_cancelled p = true \/ hb_done hb = true
  | Awaiting _ (Ended r) _ => r <> Cancelled
  | _ => True
  end.

Lemma after_await_exit c hb r p :
  pr_phase p = Awaiting c (Ended r) hb -> r <> Cancelled -> exit_ok (goto (after_await c hb r) p).
Proof. intros Hp Hr. destruct r as [|e|]; [done| |done]. simpl. by destruct (is_lease_lost e). Qed.

Lemma worker_exit_ok now p d d' ph : worker_step now p d d' ph -> exit_ok p -> exit_ok (goto ph p).
Proof.
  unfold exit_ok. intros Hw Hp. destruct Hw; try done.
  - rewrite H in Hp. destruct H0; try done. by destruct (so_final o).
  - rewrite H in Hp. simpl. by destruct (hb_done hb), Hp.
  - rewrite H in Hp. by apply after_await_exit.
  - destruct r as [b|e']; [done|]. simpl. by destruct (is_lease_lost e') eqn:?.
  - destruct (pr_phase p) as [|?|c0 [q|q|r] hb0|c0 e0 i0 hb0|?]; try done; destruct b; simpl in *; naive_solver.
  - destruct (pr_phase p) as [|?|c0 [q|q|r] hb0|c0 e0 i0 hb0|?]; try done; simpl in *; naive_solver.
Qed.

Lemma cancel_exit_ok p : exit_ok p -> exit_ok (set_cancelled (goto (cancel_worker (pr_phase p)) p)).
Proof.
  unfold exit_ok. destruct (pr_phase p) as [|?|c0 [q|q|r] hb0|c0 e0 i0 hb0|how]; simpl; try tauto.
  - by destruct (hb_done hb0).
  - intros [? ?]. split; [done|]. by destruct how.
Qed.

Lemma loop_exit_ok s s' :
  loop_step s s' -> map_Forall (fun _ => exit_ok) (lo_procs s) -> map_Forall (fun _ => exit_ok) (lo_procs s').
Proof.
  intros Hst Hp. destruct Hst; simpl in *; try done.
  - by apply map_Forall_insert_2.
  - by apply map_Forall_delete.
  - apply map_Forall_insert_2; [|done]. specialize (Hp _ _ H). unfold exit_ok in *. simpl.
    destruct (pr_phase p) as [|?|?|?|[]]; try done. by destruct Hp.
  - apply map_Forall_insert_2; [|done]. by apply cancel_exit_ok, (Hp k).
  - apply map_Forall_insert_2; [|done]. by eapply worker_exit_ok, (Hp k).
  - apply map_Forall_insert_2; [|done]. specialize (Hp _ _ H). unfold exit_ok in *. simpl.
    destruct (pr_phase p) as [|?|?|?|[]]; try done; destruct Hp as [Hr _];
      unfold pass_due in H0; by rewrite Hr in H0.
  - apply map_Forall_insert_2; [|done]. specialize (Hp _ _ H0). unfold exit_ok in *. simpl.
    destruct (pr_phase p) as [|?|?|?|[]]; try done; by destruct Hp.
Qed.

(** C11: a worker outlives every task.  However its executions end - done, an
    error, a lease lost at a commit or found lost by the heartbeat -,
    [run_worker] only ends when its stop event is set, when its caller cancels
    it, or by an error that is no lost lease and that nothing catches; and
    then its reaper is cancelled. *)
Theorem worker_exit s k p how :
  loop_reachable fencing faulty exc_str exc_repr s -> lo_procs s !! k = Some p ->
  pr_phase p = Exited how ->
  pr_reaper p = ReaperDone /\
  match how with
  | Stopped => pr_stop p = true
  | CancelledOut => pr_cancelled p = true
  | Escaped e => e <> LeaseLostError
  end.
Proof.
  intros [now H] Hk Hp.
  assert (Hall : map_Forall (fun _ => exit_ok) (lo_procs s)).
  { assert (Hgen : forall s0 s1, rtc loop_step s0 s1 -> map_Forall (fun _ => exit_ok) (lo_procs s0) ->
      map_Forall (fun _ => exit_ok) (lo_procs s1)).
    { induction 1; [done|]. intros. by eapply IHrtc, loop_exit_ok. }
    eapply Hgen; [done|]. apply map_Forall_empty. }
  specialize (Hall k p Hk). unfold exit_ok in Hall. rewrite Hp in Hall. destruct Hall as [Hr Hx].
  split; [done|]. destruct how; try done. by intros ->.
Qed.
End Exits.

(** ** The times of the events *)

(** The events are stamped in the order of their rows, none in the future. *)
Definition stamped (now : Z) (d : db) : Prop :=
  Sorted Z.le (er_created_at <$> events d) /\ Forall (fun row => er_created_at row <= now) (events d).

(** One event more, stamped now, or none. *)
Definition one_more (now : Z) (d d' : db) : Prop :=
  events d' = events d \/ exists e, events d' = events d ++ [EventRow e now].

Lemma stamped_later now now' d : now <= now' -> stamped now d -> stamped now' d.
Proof. intros Hle [Hs Hf]. split; [done|]. eapply Forall_impl; [exact Hf|]. simpl. lia. Qed.

Lemma stamped_one_more now d d' : one_more now d d' -> stamped now d -> stamped now d'.
Proof.
  intros [He | [e He]] [Hs Hf]; unfold stamped; rewrite He; [done|]. rewrite fmap_app. split.
  - apply Sorted_Zle_snoc; [done|]. by apply Forall_fmap.
  - apply Forall_app. split; [done|]. apply Forall_singleton. simpl. lia.
Qed.

Section Stamps.
Context (fencing faulty : bool) (exc_str exc_repr : exn -> string).
Local Abbreviation worker_step := (worker_step fencing faulty exc_str exc_repr).
Local Abbreviation loop_step := (loop_step fencing faulty exc_str exc_repr).

(** A step of a worker leaves the log, or commits under a claim the fence
    accepts. *)
Lemma worker_log now p d d' ph :
  db_inv d -> worker_step now p d d' ph ->
  events d' = events d \/
  exists c hb i o r z, claim_of (pr_phase p) = Some (c, hb) /\ fence_ok fencing now c d = true /\
    d' = committed now c i o r z d.
Proof.
  intros Hdb Hw.
  assert (Hlease : forall d1, lease_change d d1 -> events d1 = events d) by (by intros d1 [He _ _ _ _]).
  assert (Hcommit : forall c hb i o r, claim_of (pr_phase p) = Some (c, hb) ->
    commit_step fencing now c i o d = (r, d') -> events d' = events d \/
    exists c hb i o r z, claim_of (pr_phase p) = Some (c, hb) /\ fence_ok fencing now c d = true /\
      d' = committed now c i o r z d).
  { intros c hb i o r Hc E. destruct r as [b|e]; [|apply commit_step_Raise_inv in E as ->; by left].
    apply commit_step_Ok_inv in E as [Hf [(_ & -> & _)|(_ & r & z & _ & _ & _ & ->)]]; [by left| |apply Hdb].
    right. by exists c, hb, i, o, r, z. }
  destruct Hw; try by left.
  - left. pose proof (claim_lease_change now locked (st_worker_id (pr_settings p)) (st_lease (pr_settings p)) d) as Hf.
    rewrite H1 in Hf. by apply Hlease.
  - left. pose proof (claim_lease_change now locked (st_worker_id (pr_settings p)) (st_lease (pr_settings p)) d) as Hf.
    rewrite H1 in Hf. by apply Hlease.
  - assert (Hc : claim_of (pr_phase p) = Some (c, hb)) by by rewrite H. destruct H0; try by left.
    + rewrite read_events_gapless in H0 by apply Hdb. injection H0 as _ <-. by left.
    + apply insert_call_Ok_inv in H0 as ->. by left.
    + left. pose proof (insert_cache_lease_change key resp d) as Hf. rewrite H0 in Hf. by apply Hlease.
    + by eapply Hcommit.
    + by eapply Hcommit.
  - left. pose proof (release_lease_change now c (st_backoff (pr_settings p)) d) as Hf. rewrite H1 in Hf. by apply Hlease.
  - eapply (Hcommit c hb); [by rewrite H|done].
  - left. apply heartbeat_beat_db in H1 as (alive & H1 & _).
    pose proof (heartbeat_lease_change now c (st_lease (pr_settings p)) d) as Hf. rewrite H1 in Hf. by apply Hlease.
Qed.

Lemma worker_one_more now p d d' ph : db_inv d -> worker_step now p d d' ph -> one_more now d d'.
Proof.
  intros Hdb Hw. destruct (worker_log _ _ _ _ _ Hdb Hw) as [|(c & hb & i & o & r & z & _ & _ & ->)]; [by left|].
  right. unfold committed. by destruct (so_final o); eexists.
Qed.

Lemma loop_stamped s s' :
  loops_ok s -> loop_step s s' -> stamped (lo_now s) (lo_db s) -> stamped (lo_now s') (lo_db s').
Proof.
  intros Hi Hst Hs. pose proof (inv_db _ (li_sys _ Hi)) as Hdb. destruct Hst; simpl in *; try done.
  - by eapply stamped_later.
  - eapply stamped_one_more; [|exact Hs]. left. by apply submit_run_Ok in H as (_ & _ & ? & _).
  - eapply stamped_one_more; [by eapply worker_one_more|done].
  - eapply stamped_one_more; [|exact Hs]. left. by injection H1 as _ <-.
Qed.

Lemma reachable_stamped s :
  loop_reachable fencing faulty exc_str exc_repr s -> stamped (lo_now s) (lo_db s).
Proof.
  intros [now H]. assert (Hgen : forall s0 s1, rtc loop_step s0 s1 -> loops_ok s0 ->
    stamped (lo_now s0) (lo_db s0) -> stamped (lo_now s1) (lo_db s1)).
  { induction 1 as [|x y z Hxy _ IH]; [done|]. intros Hi Hk.
    apply IH; [by eapply loop_step_inv|by eapply loop_stamped]. }
  eapply Hgen; [done|apply loops_ok_init|]. split; constructor.
Qed.
End Stamps.
