(* ===== verification/Healthy.v ===== *)
(** Workers whose heartbeats are in time: no two of them work on the same run,
    and as long as none crashes nothing is ever taken over.

    The steps are those of [EventLoop], with fencing and without failing
    connections.  A [calm] run is one in which, moreover, no process is killed
    and none is cancelled: executions may still fail and be retried, workers
    may be started and stopped. *)

From S2P Require Import Prelude PyDecimal Json Database Store Leases Engine Budget LlmCache.
From S2P Require Import Execution Invariants System Safety Progress Workers EventLoop.

(** The step an execution or an error handler is about to write or to ask for. *)
Definition pc_index (q : pc) : option Z :=
  match q with
  | Replaying | Failing _ => None
  | Replayed evs | Missed evs _ | Asked evs _ | Answered evs => Some (Z.of_nat (length evs))
  | Ready i _ | FailReady i _ => Some i
  end.
Definition phase_index (ph : phase) : option Z :=
  match ph with
  | Awaiting _ (Main q) _ => pc_index q
  | Handling _ _ i _ => i
  | _ => None
  end.

Section Healthy.
Context (exc_str exc_repr : exn -> string).
Local Abbreviation worker_step := (worker_step true false exc_str exc_repr).
Local Abbreviation loop_step := (loop_step true false exc_str exc_repr).
Local Abbreviation loop_reachable := (loop_reachable true false exc_str exc_repr).

(** ** One worker per run *)

Lemma claim_same_task d c c' :
  db_inv d -> claim_ok d c -> claim_ok d c' -> claim_run_id c = claim_run_id c' ->
  claim_task_id c = claim_task_id c'.
Proof.
  intros Hdb (t & Ht & Hr & _) (t' & Ht' & Hr' & _) Heq. eapply (di_one d Hdb); [done..|]. by rewrite Hr, Hr'.
Qed.

Lemma kept_alone s k k' p p' c c' hb hb' :
  loops_ok s -> all_kept s -> lo_procs s !! k = Some p -> lo_procs s !! k' = Some p' ->
  0 < st_lease (pr_settings p) -> 0 < st_lease (pr_settings p') ->
  kept_claim (pr_phase p) = Some (c, hb) -> kept_claim (pr_phase p') = Some (c', hb') ->
  claim_run_id c = claim_run_id c' -> k = k'.
Proof.
  intros Hi Hk Hp Hp' Hl Hl' Hc Hc' Hr.
  pose proof (inv_db _ (li_sys _ Hi)) as Hdb.
  destruct (pk_holds _ _ _ (Hk k p Hp Hl) _ _ Hc) as (x & t & _ & Ht & Hh & _).
  destruct (pk_holds _ _ _ (Hk k' p' Hp' Hl') _ _ Hc') as (x' & t' & _ & Ht' & Hh' & _).
  apply kept_claim_of in Hc, Hc'.
  pose proof (claim_same_task _ c c' Hdb (li_claims _ Hi _ _ _ _ Hp Hc) (li_claims _ Hi _ _ _ _ Hp' Hc') Hr) as Heq.
  rewrite Heq in Ht. assert (t' = t) as -> by congruence.
  eapply (li_unique _ Hi); [done..|]. symmetry. by eapply held_once.
Qed.

(** C7: at most one worker works on a run.  With fencing, and as long as every
    heartbeat gets its turn before its lease runs out, no two processes ever
    execute the same run at the same time, nor does one execute it while
    another handles its error - whichever processes crash, are stopped or
    cancelled, and however often the run changes hands. *)
Theorem one_worker_per_run s k k' p p' c c' :
  loop_reachable s -> lo_procs s !! k = Some p -> lo_procs s !! k' = Some p' ->
  0 < st_lease (pr_settings p) -> 0 < st_lease (pr_settings p') ->
  fst <$> kept_claim (pr_phase p) = Some c -> fst <$> kept_claim (pr_phase p') = Some c' ->
  claim_run_id c = claim_run_id c' -> k = k'.
Proof.
  intros Hr Hp Hp' Hl Hl' Hc Hc'. destruct (kept_claim (pr_phase p)) as [[c0 hb]|] eqn:E; [|done].
  destruct (kept_claim (pr_phase p')) as [[c0' hb']|] eqn:E'; [|done]. injection Hc as ->. injection Hc' as ->.
  eapply kept_alone; [by eapply reachable_loops_ok|by eapply reachable_kept|done..].
Qed.

(** ** Runs without a crash *)

(** Nobody was cancelled, leases have a length, and the name of a worker holds
    no NUL (it comes from the command line or the host). *)
Definition undisturbed (ps : gmap N proc) : Prop :=
  map_Forall (fun _ p => pr_cancelled p = false /\ 0 < st_lease (pr_settings p) /\
    nul_free (st_worker_id (pr_settings p)) = true) ps.

(** A step that kills and cancels no process. *)
Definition calm_step (s s' : loops) : Prop :=
  loop_step s s' /\ undisturbed (lo_procs s') /\
  forall k, is_Some (lo_procs s !! k) -> is_Some (lo_procs s' !! k).

Definition calm_reachable (s : loops) : Prop := exists now, rtc calm_step (loops_init now) s.

(** No execution is being cancelled, and nobody ended but on request. *)
Definition at_work (ph : phase) : Prop :=
  match ph with
  | Awaiting _ (Cancelling _) _ | Awaiting _ (Ended Cancelled) _ => False
  | Exited how => how = Stopped
  | _ => True
  end.

(** What each worker knows of the log is up to date, and every leased task is
    somebody's. *)
Record watched (s : loops) : Prop := {
  wa_index : forall k p c hb i, lo_procs s !! k = Some p -> claim_of (pr_phase p) = Some (c, hb) ->
    phase_index (pr_phase p) = Some i -> i = count_events (claim_run_id c) (lo_db s);
  wa_phase : forall k p, lo_procs s !! k = Some p -> at_work (pr_phase p);
  wa_leased : forall tid t, tasks (lo_db s) !! tid = Some t -> task_status_of t = Leased ->
    exists k p c hb, lo_procs s !! k = Some p /\ kept_claim (pr_phase p) = Some (c, hb) /\ claim_task_id c = tid;
}.

Lemma phase_index_kept ph c hb i :
  claim_of ph = Some (c, hb) -> phase_index ph = Some i -> kept_claim ph = Some (c, hb).
Proof. by destruct ph as [|?|? [?|?|?] ?|? ? ? ?|?]. Qed.

(** *** One step of a worker *)
Record fine (now : Z) (d : db) (p : proc) : Prop := {
  fn_lease : 0 < st_lease (pr_settings p);
  fn_kept : proc_kept now d p;
  fn_work : at_work (pr_phase p);
  fn_claim : forall c hb, claim_of (pr_phase p) = Some (c, hb) -> claim_ok d c;
  fn_index : forall c hb i, claim_of (pr_phase p) = Some (c, hb) ->
    phase_index (pr_phase p) = Some i -> i = count_events (claim_run_id c) d;
  fn_worker : forall c hb, claim_of (pr_phase p) = Some (c, hb) -> nul_free (claim_worker_id c) = true;
}.

(** The commit of an execution that is up to date is never a repetition. *)
Lemma commit_new now p d d' c i o hb b :
  db_inv d -> fine now d p ->
  pr_phase p = Awaiting c (Main (Ready i o)) hb -> commit_step true now c i o d = (Ok b, d') ->
  exists r z, d' = committed now c i o r z d.
Proof.
  intros Hdb Hfine Hp E. pose proof (fn_index _ _ _ Hfine c hb i ltac:(by rewrite Hp) ltac:(by rewrite Hp)) as ->.
  apply commit_step_Ok_inv in E as [_ [(_ & _ & Hs)|(_ & r & z & _ & _ & _ & ->)]]; [|by eauto|apply Hdb].
  destruct Hs. apply keyed_select_None; unfold count_events; [apply Hdb|lia..].
Qed.

(** The texts of exceptions can be stored. *)
Context (Htexts : texts_nul_free exc_str exc_repr).

(** The failure of a run is committed. *)
Lemma failure_new now p d d' c e i hb r :
  db_inv d -> fine now d p ->
  pr_phase p = Handling c e (Some i) hb ->
  commit_step true now c i (failure_outcome exc_str exc_repr c e) d = (r, d') ->
  r = Ok true /\ exists row z, d' = committed now c i (failure_outcome exc_str exc_repr c e) row z d.
Proof.
  intros Hdb Hfine Hp E. pose proof (fn_index _ _ _ Hfine c hb i ltac:(by rewrite Hp) ltac:(by rewrite Hp)) as ->.
  destruct (fn_claim _ _ _ Hfine c hb) as (t & Ht & Hr & _); [by rewrite Hp|].
  destruct (di_task d Hdb _ _ Ht) as [_ [row Hrow]]. rewrite Hr in Hrow.
  assert (Hf : fence_ok true now c d = true).
  { eapply holds_fence, (pk_holds _ _ _ (fn_kept _ _ _ Hfine) c hb). by rewrite Hp. }
  pose proof (failure_commits exc_str exc_repr now c e row d Hdb Hrow Hf
    (failure_reason_nul_free _ _ c e Htexts) (fn_worker _ _ _ Hfine c hb ltac:(by rewrite Hp))) as Hc. simpl in Hc.
  rewrite Hc in E. injection E as <- <-. split; [done|]. by eexists _, _.
Qed.

Lemma beat_kept now p d d' c since b :
  fine now d p ->
  claim_of (pr_phase p) = Some (c, Beating since) ->
  heartbeat_beat true now c (st_lease (pr_settings p)) d = (Ok b, d') ->
  kept_claim (pr_phase p) <> None -> b = false.
Proof.
  intros Hfine Hc E Hn. destruct (kept_claim (pr_phase p)) as [[c0 hb0]|] eqn:Hkp; [|done].
  pose proof (kept_claim_of _ _ Hkp) as H0. rewrite Hc in H0. injection H0 as <- <-.
  by destruct (beat_holds _ _ _ _ _ _ _ (pk_holds _ _ _ (fn_kept _ _ _ Hfine) _ _ Hkp) (fn_lease _ _ _ Hfine) E) as [-> _].
Qed.

Lemma worker_at_work now p d d' ph :
  db_inv d -> fine now d p -> worker_step now p d d' ph -> at_work ph.
Proof.
  intros Hdb Hfine Hw. pose proof (fn_work _ _ _ Hfine) as Hwork. destruct Hw; try done.
  - destruct H0; try done. by destruct (so_final o).
  - by rewrite H in Hwork.
  - rewrite H in Hwork. destruct r as [|e|]; simpl; [done|by destruct (is_lease_lost e)|done].
  - destruct (failure_new _ _ _ _ _ _ _ _ _ Hdb Hfine H H0) as [-> _]. done.
  - pose proof (beat_kept _ _ _ _ _ _ _ Hfine H H1) as Hb.
    destruct (pr_phase p) as [|?|c0 [q|q|[|?|]] hb0|c0 e0 i0 hb0|?]; simpl in *; try done;
      destruct b; try done; by specialize (Hb ltac:(discriminate)).
Qed.

(** A worker that gives its claim up leaves no lease behind. *)
Lemma worker_gives_up now p d d' ph c hb t' :
  db_inv d -> fine now d p -> worker_step now p d d' ph -> kept_claim (pr_phase p) = Some (c, hb) ->
  tasks d' !! claim_task_id c = Some t' -> task_status_of t' = Leased ->
  exists hb', kept_claim ph = Some (c, hb').
Proof.
  intros Hdb Hfine Hw Hc Ht' Hl'.
  assert (Hdone : forall now c i o r z, so_final o = true ->
    d' = committed now c i o r z d -> tasks d' !! claim_task_id c = Some t' -> False).
  { intros ? c1 ? o r z Ho -> Ht1. rewrite tasks_committed, Ho, lookup_alter_eq in Ht1.
    destruct (tasks d !! _); [|done]. by injection Ht1 as <-. }
  destruct Hw; try (by rewrite H in Hc).
  - rewrite H in Hc. injection Hc as <- <-. destruct H0; try (by eexists).
    destruct (so_final o) eqn:Ho; [|by eexists]. exfalso.
    destruct (commit_new _ _ _ _ _ _ _ _ _ Hdb Hfine H H0) as (r & z & Hd). exact (Hdone _ _ _ _ _ _ Ho Hd Ht').
  - pose proof (fn_work _ _ _ Hfine) as Hwork. by rewrite H in Hwork.
  - rewrite H in Hc. destruct r as [|e|]; [done| |done]. injection Hc as <- <-. simpl.
    rewrite (pk_raised _ _ _ (fn_kept _ _ _ Hfine) c0 e hb0 H). by eexists.
  - exfalso. rewrite H in Hc. injection Hc as <- <-.
    destruct (pk_holds _ _ _ (fn_kept _ _ _ Hfine) c0 hb0) as (x & t & _ & Ht & Hh & _); [by rewrite H|].
    rewrite release_task_eq, Ht, Hh in H1. injection H1 as _ <-. simpl in Ht'. rewrite lookup_insert_eq in Ht'.
    by injection Ht' as <-.
  - rewrite H in Hc. injection Hc as <- <-. by eexists.
  - exfalso. rewrite H in Hc. injection Hc as <- <-.
    destruct (failure_new _ _ _ _ _ _ _ _ _ Hdb Hfine H H0) as (_ & row & z & Hd). exact (Hdone _ _ _ (failure_outcome exc_str exc_repr c0 e) _ _ eq_refl Hd Ht').
  - rewrite (beat_kept _ _ _ _ _ _ _ Hfine H H1 ltac:(rewrite Hc; discriminate)).
    destruct (pr_phase p) as [|?|c1 [q|q|[|?|]] hb1|c1 e0 i0 hb1|?]; simpl in *; try done;
      injection Hc as <- <-; by eexists.
  - done.
  - done.
Qed.

(** A step leases a task only to the worker that makes it. *)
Lemma worker_leases now p d d' ph tid t' :
  db_inv d -> worker_step now p d d' ph -> tasks d' !! tid = Some t' -> task_status_of t' = Leased ->
  (exists t, tasks d !! tid = Some t /\ task_status_of t = Leased) \/
  exists c hb, kept_claim ph = Some (c, hb) /\ claim_task_id c = tid.
Proof.
  intros Hdb Hw Ht' Hl'. assert (Hsame : tasks d' = tasks d -> exists t, tasks d !! tid = Some t /\ task_status_of t = Leased).
  { intros Hs. rewrite Hs in Ht'. by exists t'. }
  assert (Hcommit : forall c i o r, commit_step true now c i o d = (r, d') ->
    exists t, tasks d !! tid = Some t /\ task_status_of t = Leased).
  { intros c i o r E. destruct r as [b|e]; [|apply commit_step_Raise_inv in E as ->; by exists t'].
    apply commit_step_Ok_inv in E as [_ [(_ & -> & _)|(_ & r & z & _ & _ & _ & ->)]]; [by exists t'| |apply Hdb].
    rewrite tasks_committed in Ht'. destruct (so_final o); [|by exists t'].
    rewrite lookup_alter in Ht'. case_decide; [|by exists t']. destruct (tasks d !! _); [|done]. by injection Ht' as <-. }
  destruct Hw; try (left; by exists t').
  - rewrite claim_task_eq in H1. destruct (select_claimable _ _ _) as [[tid1 t]|]; [|done].
    injection H1 as <- <-. rewrite tasks_claimed, lookup_insert in Ht'. case_decide; [|left; by exists t'].
    right. by eexists _, _.
  - rewrite claim_task_eq in H1. destruct (select_claimable _ _ _) as [[tid1 t]|]; [done|].
    injection H1 as <-. left. by exists t'.
  - left. destruct H0; try (by exists t').
    + rewrite read_events_gapless in H0 by apply Hdb. injection H0 as _ <-. by exists t'.
    + apply insert_call_Ok_inv in H0 as ->. by apply Hsame.
    + apply Hsame. pose proof (insert_cache_tasks key resp d) as Hx. by rewrite H0 in Hx.
    + by eapply Hcommit.
    + by eapply Hcommit.
  - left. rewrite release_task_eq in H1. destruct (tasks d !! claim_task_id c) as [t|]; [|injection H1 as _ <-; by exists t'].
    destruct (held_by c t); injection H1 as _ <-; [|by exists t']. simpl in Ht'. rewrite lookup_insert in Ht'.
    case_decide; [by injection Ht' as <-|by exists t'].
  - left. by eapply Hcommit.
  - left. apply heartbeat_beat_db in H1 as (alive & H1 & _). rewrite heartbeat_eq in H1.
    destruct (tasks d !! claim_task_id c) as [t|] eqn:Ht; [|injection H1 as _ <-; by exists t'].
    destruct (held_by c t && _); injection H1 as _ <-; [|by exists t']. simpl in Ht'. rewrite lookup_insert in Ht'.
    case_decide as Heq; [|by exists t']. injection Ht' as <-. subst tid. by exists t.
Qed.

(** What a worker knows of the log after a step is up to date again. *)
Lemma worker_index now p d d' ph c hb i :
  db_inv d -> fine now d p -> worker_step now p d d' ph -> claim_of ph = Some (c, hb) ->
  phase_index ph = Some i -> i = count_events (claim_run_id c) d'.
Proof.
  intros Hdb Hfine Hw Hc Hi. pose proof (fn_index _ _ _ Hfine) as Hidx.
  assert (Hsame : events d' = events d -> forall hb0, claim_of (pr_phase p) = Some (c, hb0) ->
    phase_index (pr_phase p) = Some i -> i = count_events (claim_run_id c) d').
  { intros He hb0 Hc0 Hi0. unfold count_events, events_of. rewrite He. by eapply Hidx. }
  destruct Hw; simpl in Hc, Hi; try done.
  - injection Hc as <- <-. rewrite H in *. destruct H0; simpl in Hi; try (by eapply Hsame).
    + rewrite read_events_gapless in H0 by apply Hdb. injection H0 as <- <-. by injection Hi as <-.
    + apply insert_call_Ok_inv in H0 as ->. by eapply Hsame.
    + pose proof (insert_cache_lease_change key resp d) as [He _ _ _ _]. rewrite H0 in He. by eapply Hsame.
    + eapply Hsame; [done..|]. destruct H0 as [-> | ->]; exact Hi.
    + by destruct (so_final o).
  - by destruct (hb_done hb0).
  - destruct r as [|e|]; simpl in Hi; [done| |by destruct (hb_done hb0)]. by destruct (is_lease_lost e).
  - injection Hc as <- <-. by injection Hi as <-.
  - destruct r as [b|e']; [done|]. by destruct (is_lease_lost e').
  - apply heartbeat_beat_db in H1 as (alive & H1 & _).
    pose proof (heartbeat_lease_change now c0 (st_lease (pr_settings p)) d) as [He _ _ _ _]. rewrite H1 in He.
    apply after_beat_claim in Hc as [[hb1 Hc] _]. eapply Hsame; [done|exact Hc|].
    by destruct (pr_phase p) as [|?|c1 [q|q|r] hb2|c1 e0 i0 hb2|?], b.
Qed.

(** Another worker appends nothing to a run whose task is held. *)
Lemma worker_other_log now p d d' ph c t :
  db_inv d -> fine now d p -> worker_step now p d d' ph -> claim_ok d c ->
  tasks d !! claim_task_id c = Some t -> held_by c t = true ->
  (forall c0 hb, claim_of (pr_phase p) = Some (c0, hb) ->
     claim_task_id c0 = claim_task_id c -> claim_attempt c0 <> claim_attempt c) ->
  count_events (claim_run_id c) d' = count_events (claim_run_id c) d.
Proof.
  intros Hdb Hfine Hw Hok Ht Hh Hne. unfold count_events.
  destruct (worker_log _ _ _ _ _ _ _ _ _ Hdb Hw) as [He|(c0 & hb & i & o & r & z & Hc0 & Hf & ->)].
  { unfold events_of. by rewrite He. }
  rewrite events_committed. case_decide as Heq; [|by rewrite app_nil_r]. exfalso.
  pose proof (claim_same_task _ c0 c Hdb (fn_claim _ _ _ Hfine _ _ Hc0) Hok Heq) as Htid.
  apply fence_ok_inv in Hf as (t0 & Ht0 & Hh0 & _). rewrite Htid in Ht0. assert (t0 = t) as -> by congruence.
  destruct (Hne _ _ Hc0 Htid). by eapply held_once.
Qed.

(** *** Every calm step *)

Lemma reap_calm now locked d :
  (forall tid t, tasks d !! tid = Some t -> task_status_of t = Leased -> expires_after now t = true) ->
  reap_expired now locked d = (Ok 0%nat, d).
Proof.
  intros Hx.
  assert (Hn : forall tid t, tasks d !! tid = Some t -> reapable now locked tid t = false).
  { intros tid t Ht. unfold reapable, is_leased. case_bool_decide as Hl; [|done]. specialize (Hx tid t Ht Hl).
    unfold expired_before, expires_after in *. destruct (task_lease_expires_at t) as [x|]; [|done].
    apply Z.ltb_lt in Hx. by rewrite (proj2 (Z.ltb_ge _ _)) by lia. }
  unfold reap_expired. f_equal; [f_equal|].
  - apply map_size_empty_iff, map_empty. intros tid. apply map_lookup_filter_None. right. intros t Ht. simpl.
    by rewrite (Hn tid t Ht).
  - destruct d as [ru ev ta ca pc]. unfold set_tasks. simpl in *. f_equal. apply map_eq. intros tid.
    rewrite map_lookup_imap. destruct (ta !! tid) as [t|] eqn:Ht; [|done]. simpl. by rewrite (Hn tid t Ht).
Qed.

Lemma watched_unexpired s tid t :
  all_kept s -> undisturbed (lo_procs s) -> watched s -> tasks (lo_db s) !! tid = Some t ->
  task_status_of t = Leased -> expires_after (lo_now s) t = true.
Proof.
  intros Hk Hu Hw Ht Hl. destruct (wa_leased _ Hw tid t Ht Hl) as (k & p & c & hb & Hp & Hc & <-).
  destruct (pk_holds _ _ _ (Hk k p Hp (proj1 (proj2 (Hu k p Hp)))) _ _ Hc) as (x & t0 & _ & Ht0 & _ & Hx & Hn).
  assert (t0 = t) as -> by congruence. unfold expires_after. rewrite Hx. by apply Z.ltb_lt.
Qed.

Lemma watched_fine s k p :
  loops_ok s -> all_kept s -> watched s -> undisturbed (lo_procs s) -> claims_own (lo_procs s) ->
  lo_procs s !! k = Some p -> fine (lo_now s) (lo_db s) p.
Proof.
  intros Hi Hk Hw Hu Ho Hp. destruct (Hu k p Hp) as (_ & Hl & Hn).
  split; [done|by apply (Hk k)|by apply (wa_phase _ Hw k)| | |].
  - intros c hb. by apply (li_claims _ Hi k).
  - intros c hb i. by apply (wa_index _ Hw k).
  - intros c hb Hc. by rewrite (Ho k p Hp c hb Hc).
Qed.

(** Steps that change neither the log of a claimed run nor a leased task. *)
Lemma watched_same now now' d d' ps ps' :
  watched (Loops now d ps) ->
  (forall rid, count_events rid d' = count_events rid d) ->
  (forall tid t, tasks d' !! tid = Some t -> task_status_of t = Leased ->
     exists t0, tasks d !! tid = Some t0 /\ task_status_of t0 = Leased) ->
  (forall k p', ps' !! k = Some p' -> at_work (pr_phase p') /\
     (claim_of (pr_phase p') = None \/ exists p, ps !! k = Some p /\ pr_phase p' = pr_phase p)) ->
  (forall k p, ps !! k = Some p -> exists p', ps' !! k = Some p' /\ pr_phase p' = pr_phase p) ->
  watched (Loops now' d' ps').
Proof.
  intros [W1 W2 W3] He Ht Hnew Hold. split; simpl in *.
  - intros k p' c hb i Hp Hc Hi. rewrite He. destruct (Hnew k p' Hp) as [_ [Hn|(p & Hp0 & Heq)]]; [congruence|].
    rewrite Heq in *. by eapply W1.
  - intros k p' Hp. by destruct (Hnew k p' Hp).
  - intros tid t Hl Hs. destruct (Ht tid t Hl Hs) as (t0 & Ht0 & Hs0).
    destruct (W3 tid t0 Ht0 Hs0) as (k & p & c & hb & Hp & Hc & Hid). destruct (Hold k p Hp) as (p' & Hp' & Heq).
    exists k, p', c, hb. by rewrite Heq.
Qed.

(** A process changed in other respects than its phase, or was there before. *)
Lemma insert_phase k p p1 (ps : gmap N proc) :
  ps !! k = Some p -> pr_phase p1 = pr_phase p ->
  (forall j q, ps !! j = Some q -> at_work (pr_phase q)) ->
  (forall j p', <[k := p1]> ps !! j = Some p' -> at_work (pr_phase p') /\
     (claim_of (pr_phase p') = None \/ exists q, ps !! j = Some q /\ pr_phase p' = pr_phase q)) /\
  (forall j q, ps !! j = Some q -> exists p', <[k := p1]> ps !! j = Some p' /\ pr_phase p' = pr_phase q).
Proof.
  intros Hk Heq Hw. split; intros j q; rewrite lookup_insert; case_decide; subst.
  - intros [= <-]. rewrite Heq. split; [by eapply Hw|]. right. by exists p.
  - intros Hj. split; [by eapply Hw|]. right. by exists q.
  - intros Hj. exists p1. split; [done|]. congruence.
  - intros Hj. by exists q.
Qed.

(** A step of the worker [k]. *)
Lemma worker_watched now k p ph d d' ps :
  let s := Loops now d ps in
  loops_ok s -> all_kept s -> watched s -> undisturbed ps -> claims_own ps -> ps !! k = Some p ->
  worker_step now p d d' ph ->
  watched (Loops now d' (<[k := goto ph p]> ps)).
Proof.
  intros s Hi Hk Hw Hu Ho Hp Hst. pose proof (inv_db _ (li_sys _ Hi)) as Hdb. simpl in Hdb.
  pose proof (watched_fine s k p Hi Hk Hw Hu Ho Hp) as Hfine. simpl in Hfine. split; simpl.
  - intros j q c hb i. rewrite lookup_insert. case_decide as Hne; subst.
    { intros [= <-] Hc Hx. by eapply worker_index. }
    intros Hq Hc Hx. rewrite (wa_index _ Hw j q c hb i Hq Hc Hx). simpl. symmetry.
    pose proof (watched_fine s j q Hi Hk Hw Hu Ho Hq) as Hfq.
    destruct (pk_holds _ _ _ (fn_kept _ _ _ Hfq) c hb) as (x & t & _ & Ht & Hh & _); [by eapply phase_index_kept|].
    eapply worker_other_log; [exact Hdb|exact Hfine|exact Hst|by eapply (fn_claim _ _ _ Hfq)|exact Ht|exact Hh|].
    intros c0 hb0 Hc0 Heq Hatt. apply Hne. by eapply (li_unique _ Hi k j p q c0 c).
  - intros j q. rewrite lookup_insert. case_decide; subst; [|by apply (wa_phase _ Hw j)].
    intros [= <-]. by eapply worker_at_work.
  - intros tid t' Ht' Hl'. destruct (worker_leases _ _ _ _ _ _ _ Hdb Hst Ht' Hl') as [(t & Ht & Hl)|(c & hb & Hc & Hid)].
    2: { exists k, (goto ph p), c, hb. by rewrite lookup_insert_eq. }
    destruct (wa_leased _ Hw tid t Ht Hl) as (j & q & c & hb & Hq & Hc & <-). simpl in Hq.
    destruct (decide (k = j)) as [<-|Hne]; [|exists j, q, c, hb; by rewrite lookup_insert_ne].
    assert (q = p) as -> by congruence.
    destruct (worker_gives_up _ _ _ _ _ _ _ _ Hdb Hfine Hst Hc Ht' Hl') as [hb' Hc'].
    exists k, (goto ph p), c, hb'. by rewrite lookup_insert_eq.
Qed.

Lemma calm_watched s s' :
  loops_ok s -> all_kept s -> undisturbed (lo_procs s) -> claims_own (lo_procs s) -> watched s ->
  calm_step s s' -> watched s'.
Proof.
  intros Hi Hk Hu Ho Hw (Hst & Hu' & Hdom).
  assert (Hself : forall ps, lo_procs s = ps -> forall j q, ps !! j = Some q ->
    at_work (pr_phase q) /\ (claim_of (pr_phase q) = None \/ exists q0, ps !! j = Some q0 /\ pr_phase q = pr_phase q0)).
  { intros ps <- j q Hj. split; [by eapply (wa_phase _ Hw)|]. right. by exists q. }
  destruct Hst; simpl in *.
  - eapply watched_same; [exact Hw|done|by eauto|by apply Hself|by eauto].
  - apply submit_run_Ok in H as (_ & _ & He & _ & Ht & _).
    eapply watched_same; [exact Hw|intros; unfold count_events, events_of; by rewrite He| |by apply Hself|by eauto].
    intros j t. rewrite Ht, lookup_insert. case_decide; [by intros [= <-]|by eauto].
  - eapply watched_same; [exact Hw|done|by eauto| |].
    + intros j q. rewrite lookup_insert. case_decide; [|by apply Hself]. intros [= <-]. split; [done|by left].
    + intros j q Hj. exists q. rewrite lookup_insert_ne; [done|congruence].
  - assert (ps !! k = None).
    { destruct (ps !! k) as [p|] eqn:E; [|done]. destruct (Hdom k ltac:(eauto)) as [x Hx].
      by rewrite lookup_delete_eq in Hx. }
    by rewrite delete_id.
  - destruct (insert_phase k p (set_stop p) ps H eq_refl (wa_phase _ Hw)) as [H1 H2].
    eapply watched_same; [exact Hw|done|by eauto|exact H1|exact H2].
  - destruct (Hu' k _ (lookup_insert_eq _ _ _)) as [Hc _]. by simpl in Hc.
  - by eapply worker_watched.
  - assert (Hr : reap_expired now locked d = (Ok 0%nat, d)).
    { apply reap_calm. intros tid t. by apply (watched_unexpired (Loops now d ps)). }
    rewrite Hr in H1. injection H1 as _ <-.
    destruct (insert_phase k p (set_reaper (ReapAfter now) p) ps H eq_refl (wa_phase _ Hw)) as [H1 H2].
    eapply watched_same; [exact Hw|done|by eauto|exact H1|exact H2].
  - done.
Qed.

Lemma calm_loop_reachable s : calm_reachable s -> loop_reachable s.
Proof.
  intros [now H]. exists now. induction H as [|x y z (Hst & _) _ IH]; [apply rtc_refl|by eapply rtc_l].
Qed.

Lemma calm_reachable_watched s : calm_reachable s -> undisturbed (lo_procs s) /\ watched s.
Proof.
  intros [now H].
  assert (Hgen : forall s0 s1, rtc calm_step s0 s1 -> loops_ok s0 -> all_kept s0 -> undisturbed (lo_procs s0) ->
    claims_own (lo_procs s0) -> watched s0 -> undisturbed (lo_procs s1) /\ watched s1).
  { induction 1 as [|x y z Hxy _ IH]; [done|]. intros Hi Hk Hu Ho Hw. pose proof Hxy as (Hst & Hu' & _).
    apply IH; [by eapply loop_step_inv|by eapply loop_kept|done|by eapply loop_claims_own|by eapply calm_watched]. }
  eapply Hgen; [done|apply loops_ok_init|by intros k p|apply map_Forall_empty|apply map_Forall_empty|].
  split; [by intros k p|by intros k p|by intros tid t].
Qed.

(** C8: without a crash nothing is taken over.  In every run of the workers in
    which heartbeats are in time and no process is killed or cancelled -
    executions may fail and be retried, workers come and go by their stop
    event -, every leased task is executed or handled by exactly one live
    worker, every pass of a reaper finds nothing and changes nothing, and no
    worker has died of an error. *)
Theorem no_takeover_without_crash s :
  calm_reachable s ->
  (forall locked, reap_expired (lo_now s) locked (lo_db s) = (Ok 0%nat, lo_db s)) /\
  (forall tid t, tasks (lo_db s) !! tid = Some t -> task_status_of t = Leased ->
     exists k, forall k', k' = k <-> exists p c hb, lo_procs s !! k' = Some p /\
       kept_claim (pr_phase p) = Some (c, hb) /\ claim_task_id c = tid) /\
  (forall k p how, lo_procs s !! k = Some p -> pr_phase p = Exited how -> how = Stopped).
Proof.
  intros Hr. destruct (calm_reachable_watched s Hr) as [Hu Hw]. pose proof (calm_loop_reachable s Hr) as Hl.
  pose proof (reachable_loops_ok _ _ _ _ _ Hl) as Hi. pose proof (reachable_kept _ _ _ Hl) as Hk. split_and!.
  - intros locked. apply reap_calm. intros tid t. by apply watched_unexpired.
  - intros tid t Ht Hs. destruct (wa_leased _ Hw tid t Ht Hs) as (k & p & c & hb & Hp & Hc & Hid).
    exists k. intros k'. split; [intros ->; by exists p, c, hb|]. intros (p' & c' & hb' & Hp' & Hc' & Hid').
    eapply kept_alone; [done|done|exact Hp'|exact Hp|by eapply Hu|by eapply Hu|done|done|].
    destruct (li_claims _ Hi _ _ _ _ Hp (kept_claim_of _ _ Hc)) as (t1 & Ht1 & <- & _).
    destruct (li_claims _ Hi _ _ _ _ Hp' (kept_claim_of _ _ Hc')) as (t2 & Ht2 & <- & _). congruence.
  - intros k p how Hp Hx. pose proof (wa_phase _ Hw k p Hp) as H. by rewrite Hx in H.
Qed.

(** ** Runs without a crash or an error *)

(** No execution has raised. *)
Definition untroubled (ps : gmap N proc) : Prop :=
  map_Forall (fun _ p => match pr_phase p with
    | Awaiting _ (Ended (Raised _)) _ | Handling _ _ _ _ => False
    | _ => True
    end) ps.

Definition smooth_step (s s' : loops) : Prop := calm_step s s' /\ untroubled (lo_procs s').
Definition smooth_reachable (s : loops) : Prop := exists now, rtc smooth_step (loops_init now) s.

(** Every task was claimed at most once, and every call was made under a claim. *)
Record first_attempts (d : db) : Prop := {
  fa_tasks : forall tid t, tasks d !! tid = Some t ->
    task_attempt t <= (if decide (task_status_of t = Queued) then 0 else 1);
  fa_calls : Forall (fun cr => 1 <= call_attempt cr) (provider_calls d);
}.

Lemma first_attempts_tasks d d' :
  first_attempts d -> tasks d' = tasks d -> Forall (fun cr => 1 <= call_attempt cr) (provider_calls d') ->
  first_attempts d'.
Proof. intros [Ht _] He Hc. split; [|done]. intros tid t. rewrite He. apply Ht. Qed.

Lemma first_attempts_row d d' tid t' :
  first_attempts d -> tasks d' = <[tid := t']> (tasks d) -> provider_calls d' = provider_calls d ->
  task_attempt t' <= (if decide (task_status_of t' = Queued) then 0 else 1) -> first_attempts d'.
Proof.
  intros [Ht Hc] He Hcalls Ht'. split; [|by rewrite Hcalls]. intros j t. rewrite He.
  destruct (decide (tid = j)) as [<-|]; [rewrite lookup_insert_eq; by intros [= <-]|].
  rewrite lookup_insert_ne by done. apply Ht.
Qed.

Lemma commit_first now c i o r d d' :
  db_inv d -> commit_step true now c i o d = (r, d') -> first_attempts d -> first_attempts d'.
Proof.
  intros Hdb E Hf. destruct r as [b|e]; [|by apply commit_step_Raise_inv in E as ->].
  apply commit_step_Ok_inv in E as [_ [(_ & -> & _)|(_ & r & z & _ & _ & _ & ->)]]; [done| |apply Hdb].
  destruct Hf as [Ht Hc]. split; [|by rewrite calls_committed]. intros tid t. rewrite tasks_committed.
  destruct (so_final o); [|apply Ht]. destruct (decide (claim_task_id c = tid)) as [<-|].
  2: { rewrite lookup_alter_ne by done. apply Ht. }
  rewrite lookup_alter_eq. destruct (tasks d !! _) as [t0|] eqn:E; [|done]. simpl. intros [= <-]. simpl. specialize (Ht _ _ E).
  destruct (decide (task_status_of t0 = Queued)); lia.
Qed.

Lemma worker_first now p d d' ph :
  db_inv d -> (forall c hb, claim_of (pr_phase p) = Some (c, hb) -> claim_ok d c) ->
  match pr_phase p with Handling _ _ _ _ => False | _ => True end ->
  worker_step now p d d' ph -> first_attempts d -> first_attempts d'.
Proof.
  intros Hdb Hcl Hp Hw Hf. destruct Hw; try done; try (by rewrite H in Hp).
  - rewrite claim_task_eq in H1. destruct (select_claimable _ _ _) as [[tid t]|] eqn:E; [|done].
    injection H1 as <- <-. apply select_claimable_Some in E as (Ht & Hq & _).
    eapply first_attempts_row; [exact Hf|apply tasks_claimed|apply calls_claimed|]. simpl.
    pose proof (fa_tasks _ Hf _ _ Ht) as Ha. rewrite decide_True in Ha by done. lia.
  - rewrite claim_task_eq in H1. destruct (select_claimable _ _ _) as [[tid t]|]; [done|]. by injection H1 as <-.
  - destruct H0; try done.
    + rewrite read_events_gapless in H0 by apply Hdb. by injection H0 as _ <-.
    + apply insert_call_Ok_inv in H0 as ->. apply (first_attempts_tasks d); [done..|].
      apply Forall_app. split; [apply Hf|]. constructor; [|constructor]. simpl.
      destruct (Hcl c hb) as (t & _ & _ & Ha & _); [by rewrite H|done].
    + pose proof (insert_cache_lease_change key resp d) as [_ Hc _ _ _].
      pose proof (insert_cache_tasks key resp d) as Ht. rewrite H0 in Hc, Ht. simpl in Hc, Ht.
      apply (first_attempts_tasks d); [done..|]. rewrite Hc. apply Hf.
    + by eapply commit_first.
    + by eapply commit_first.
  - apply heartbeat_beat_db in H1 as (alive & H1 & _). rewrite heartbeat_eq in H1.
    destruct (tasks d !! claim_task_id c) as [t|] eqn:Ht; [|by injection H1 as _ <-].
    destruct (held_by c t && _); injection H1 as _ <-; [|done].
    eapply first_attempts_row; [exact Hf|done|done|]. simpl. by apply (fa_tasks _ Hf _ _ Ht).
Qed.

Lemma smooth_first s s' :
  loops_ok s -> all_kept s -> undisturbed (lo_procs s) -> untroubled (lo_procs s) -> watched s ->
  smooth_step s s' -> first_attempts (lo_db s) -> first_attempts (lo_db s').
Proof.
  intros Hi Hk Hu Hn Hw [(Hst & _) _] Hf. pose proof (inv_db _ (li_sys _ Hi)) as Hdb. destruct Hst; simpl in *; try done.
  - apply submit_run_Ok in H as (_ & _ & _ & Hc & Ht & _).
    by eapply first_attempts_row; [exact Hf|exact Ht|exact Hc|].
  - eapply worker_first; [exact Hdb|intros c hb; by apply (li_claims _ Hi k)| |exact H0|exact Hf].
    specialize (Hn k p H). simpl in Hn. by destruct (pr_phase p).
  - assert (Hr : reap_expired now locked d = (Ok 0%nat, d)).
    { apply reap_calm. intros tid t. by apply (watched_unexpired (Loops now d ps)). }
    rewrite Hr in H1. by injection H1 as _ <-.
Qed.

Lemma smooth_calm s : smooth_reachable s -> calm_reachable s.
Proof. intros [now H]. exists now. induction H as [|x y z [Hst _] _ IH]; [apply rtc_refl|by eapply rtc_l]. Qed.

(** Then every call to a provider was made under the first attempt. *)
Lemma smooth_calls s :
  smooth_reachable s -> Forall (fun cr => call_attempt cr = 1) (provider_calls (lo_db s)).
Proof.
  intros Hr. pose proof (calm_loop_reachable s (smooth_calm s Hr)) as Hl.
  pose proof (inv_db _ (li_sys _ (reachable_loops_ok _ _ _ _ _ Hl))) as Hdb. simpl in Hdb.
  assert (Hf : first_attempts (lo_db s)).
  { destruct Hr as [now H].
    assert (Hgen : forall s0 s1, rtc smooth_step s0 s1 -> loops_ok s0 -> all_kept s0 -> undisturbed (lo_procs s0) ->
      claims_own (lo_procs s0) -> untroubled (lo_procs s0) -> watched s0 -> first_attempts (lo_db s0) -> first_attempts (lo_db s1)).
    { induction 1 as [|x y z Hxy _ IH]; [done|]. intros Hi Hk Hu Ho Hn Hw Hfa.
      pose proof Hxy as [(Hst & Hu' & Hd) Hn'].
      apply IH; [by eapply loop_step_inv|by eapply loop_kept|done|by eapply loop_claims_own|done|by eapply calm_watched|by eapply smooth_first]. }
    eapply Hgen; [exact H|apply loops_ok_init|by intros k p|apply map_Forall_empty|apply map_Forall_empty|apply map_Forall_empty|..].
    - split; [by intros k p|by intros k p|by intros tid t].
    - split; [by intros tid t|constructor]. }
  pose proof (di_calls _ Hdb) as Hc. pose proof (fa_calls _ Hf) as H1. rewrite Forall_forall in *.
  intros cr Hin. destruct (Hc cr Hin) as (tid & t & Ht & _ & Hle). specialize (H1 cr Hin).
  pose proof (fa_tasks _ Hf tid t Ht). destruct (decide _); lia.
Qed.
End Healthy.

(** Where no execution raises, the texts of exceptions do not matter. *)
Lemma smooth_texts exc_str exc_repr str' repr' s :
  smooth_reachable exc_str exc_repr s -> smooth_reachable str' repr' s.
Proof.
  intros [now H]. exists now.
  assert (Hgen : forall s0 s1, rtc (smooth_step exc_str exc_repr) s0 s1 -> untroubled (lo_procs s0) ->
    rtc (smooth_step str' repr') s0 s1); [|by eapply Hgen, map_Forall_empty].
  induction 1 as [|x y z [[Hst Hc] Hn] _ IH]; intros Hx; [apply rtc_refl|]. eapply rtc_l; [|by apply IH].
  split; [split; [|done]|done]. clear Hc IH Hn. destruct Hst as [| | | | | |now0 k p ph d d' ps Hp Hw| |];
    try (by econstructor). eapply ls_worker; [exact Hp|]. specialize (Hx k p Hp).
  destruct Hw; try (by econstructor).
  exfalso. cbv beta in Hx. match goal with Hph : pr_phase p = Handling _ _ _ _ |- _ => by rewrite Hph in Hx end.
Qed.
