(* ===== verification/Refinement.v ===== *)
(** The code of a worker is a path of the transition system.

    [System] lets a thread compute any outcome a workflow could; here the
    worker's own code ([worker_turn] around [execute_task], the workflow the
    run's spec names and [complete_cached]) is shown to take only steps of
    that system.  What [Safety] proves of every reachable state therefore
    holds of every database that submissions, worker turns and reaper passes
    leave behind. *)

From S2P Require Import Prelude PyDecimal Json Env Database Store Leases Engine Budget LlmCache.
From S2P Require Import Workspace Agent Execution Invariants System Safety Workers.

(** ** Paths of one thread *)

(** What a workflow's step does to the database is a path of its thread: it
    ends about to commit an outcome the engine can bill, or failing. *)
Class StepRefines (W S : Type) `{HasDb S} `{Workflow W S} : Prop :=
  step_refines : forall fencing exc_str exc_repr (w : W) k c evs (s s' : S) r ths,
    ths !! k = Some (Thread c (Replayed evs)) ->
    next_step w c (Z.of_nat (length evs)) evs s = (r, s') ->
    match r with
    | Ok o => billed o /\
        rtc (step fencing exc_str exc_repr) (Sys (get_db s) ths)
          (Sys (get_db s') (set_pc k c (Ready (Z.of_nat (length evs)) o) ths))
    | Raise e =>
        rtc (step fencing exc_str exc_repr) (Sys (get_db s) ths)
          (Sys (get_db s') (set_pc k c (Failing e) ths))
    end.

Lemma set_pc_twice k c p c' p' ths : set_pc k c p (set_pc k c' p' ths) = set_pc k c p ths.
Proof. apply insert_insert_eq. Qed.

Lemma set_pc_same k c p ths : ths !! k = Some (Thread c p) -> set_pc k c p ths = ths.
Proof. apply insert_id. Qed.

Lemma set_pc_delete k c p ths : delete k (set_pc k c p ths) = delete k ths.
Proof. apply delete_insert_eq. Qed.

Lemma set_pc_lookup k c p ths : set_pc k c p ths !! k = Some (Thread c p).
Proof. apply lookup_insert_eq. Qed.

#[export] Hint Rewrite set_pc_twice set_pc_delete set_pc_lookup : phx.

Section Paths.
Context (fencing : bool) (exc_str exc_repr : exn -> string).
Local Abbreviation step := (step fencing exc_str exc_repr).
Local Abbreviation path := (rtc step).

(** The path of a commit that went through, or was refused. *)
Lemma commit_path now k c i o b d d' ths :
  ths !! k = Some (Thread c (Ready i o)) ->
  commit_step fencing now c i o d = (Ok b, d') ->
  path (Sys d ths) (Sys d' (if so_final o then delete k ths else set_pc k c Replaying ths)).
Proof. intros Hk E. by eapply rtc_once, step_commit. Qed.

Lemma commit_raise_path now k c i o e d d' ths :
  ths !! k = Some (Thread c (Ready i o)) ->
  commit_step fencing now c i o d = (Raise e, d') ->
  path (Sys d ths) (Sys d' (if is_lease_lost e then delete k ths else set_pc k c (Failing e) ths)).
Proof. intros Hk E. by eapply rtc_once, step_commit_raise. Qed.

(** A raised error, as the handlers of [run_worker] find it. *)
Lemma raised_path k c e d d' ths ths0 :
  path (Sys d ths0) (Sys d' (set_pc k c (Failing e) ths)) ->
  path (Sys d ths0) (Sys d' (if is_lease_lost e then delete k ths else set_pc k c (Failing e) ths)).
Proof.
  intros H. destruct (is_lease_lost e); [|done]. eapply rtc_r; [exact H|].
  rewrite <- (set_pc_delete k c (Failing e)). apply step_crash.
Qed.

(** [_handle_error] of a failing thread. *)
Lemma handle_error_path now k c e m b d r d' ths :
  ths !! k = Some (Thread c (Failing e)) ->
  _handle_error exc_str exc_repr fencing now c e m b d = (r, d') ->
  path (Sys d ths) (Sys d' (delete k ths)).
Proof.
  intros Hk. unfold _handle_error. destruct (retries c e m) eqn:Hr.
  - unfold mbind, M_bind, mret, M_ret.
    destruct (release_task now c b d) as [[x|ex] d1] eqn:E; intros [= <- <-];
      by eapply rtc_once, step_release.
  - unfold gets, try_except, mbind, M_bind, mret, M_ret. fold (count_events (claim_run_id c) d).
    destruct (commit_step _ _ _ _ _ d) as [r1 d1] eqn:E. intros Hx.
    assert (d' = d1) as -> by (destruct r1; simpl in Hx; [|case_match]; congruence).
    eapply rtc_l; [by eapply step_count|].
    rewrite <- (set_pc_delete k c (FailReady (count_events (claim_run_id c) d) e)).
    eapply rtc_once, step_fail; [apply set_pc_lookup|exact E].
Qed.

Section Execute.
Context {W S : Type} `{HasDbLaws S} `{!Workflow W S} `{!StepRefines W S}.

(** Where a thread stands when [execute_task] ended with [r]. *)
Definition ended_at (k : N) (c : Claim) (r : res (option unit)) (ths : gmap N thread) :
    gmap N thread :=
  match r with
  | Ok (Some _) => delete k ths
  | Ok None => set_pc k c Replaying ths
  | Raise e => if is_lease_lost e then delete k ths else set_pc k c (Failing e) ths
  end.

Lemma ended_at_set k c r p ths : ended_at k c r (set_pc k c p ths) = ended_at k c r ths.
Proof.
  destruct r as [[[]|]|e]; simpl; autorewrite with phx; try done.
Qed.

Lemma execute_path clock (w : W) k c rounds s r s' ths :
  ths !! k = Some (Thread c Replaying) -> execute_task fencing clock w c rounds s = (r, s') ->
  path (Sys (get_db s) ths) (Sys (get_db s') (ended_at k c r ths)).
Proof.
  revert s ths. induction rounds as [|rounds IH]; intros s ths Hk.
  { intros [= <- <-]. simpl. by rewrite set_pc_same by done. }
  cbn [execute_task]. unfold mbind, M_bind. unfold on_db at 1.
  destruct (read_events (claim_run_id c) (get_db s)) as [[evs|e] d1] eqn:Hread; [|done].
  assert (d1 = get_db s) as -> by (by injection Hread as _ <-). rewrite put_get_db.
  assert (Hrd : step (Sys (get_db s) ths) (Sys (get_db s) (set_pc k c (Replayed evs) ths)))
    by (by eapply step_read).
  destruct (next_step w c _ evs s) as [ro s1] eqn:Hn.
  pose proof (step_refines fencing exc_str exc_repr w k c evs s s1 ro (set_pc k c (Replayed evs) ths)
    (set_pc_lookup _ _ _ _) Hn) as Hp.
  destruct ro as [o|e].
  2: { intros [= <- <-]. eapply rtc_l; [exact Hrd|]. rewrite set_pc_twice in Hp. by apply raised_path. }
  destruct Hp as (Hb & Hp). rewrite set_pc_twice in Hp.
  unfold on_db. destruct (commit_step _ _ _ _ o (get_db s1)) as [rc d2] eqn:Hcm.
  set (ths1 := set_pc k c (Ready (Z.of_nat (length evs)) o) ths) in *.
  assert (Hk1 : ths1 !! k = Some (Thread c (Ready (Z.of_nat (length evs)) o))) by apply set_pc_lookup.
  destruct rc as [b|e].
  - pose proof (commit_path _ _ _ _ _ _ _ _ _ Hk1 Hcm) as Hq. unfold ths1 in Hq.
    autorewrite with phx in Hq. destruct (so_final o).
    + intros [= <- <-]. rewrite get_put_db. eapply rtc_l; [exact Hrd|]. by etrans.
    + intros Hx. pose proof (IH (put_db d2 s1) (set_pc k c Replaying ths) (set_pc_lookup _ _ _ _) Hx) as Hp'.
      rewrite get_put_db, ended_at_set in Hp'.
      eapply rtc_l; [exact Hrd|]. etrans; [exact Hp|]. by etrans.
  - intros [= <- <-]. rewrite get_put_db.
    pose proof (commit_raise_path _ _ _ _ _ _ _ _ _ Hk1 Hcm) as Hq. unfold ths1 in Hq.
    autorewrite with phx in Hq. eapply rtc_l; [exact Hrd|]. by etrans.
Qed.
End Execute.
End Paths.

(** ** The two workflows *)
#[export] Instance toy_refines {S} `{HasDb S} : StepRefines ToyWorkflow S.
Proof.
  intros fencing exc_str exc_repr w k c evs s s' r ths Hk [= <- <-].
  assert (Hb : billed (toy_step w c (Z.of_nat (length evs)))) by (split; [by apply payload_cost_dec|done]).
  split; [done|]. eapply rtc_once, step_compute; [done|by left|exact Hb].
Qed.

Section CachedPath.
Context {P S : Type} `{HasDbLaws S} `{!Provider P S} `{!ProviderLaws P S}.
Context (fencing : bool) (exc_str exc_repr : exn -> string).
Local Abbreviation path := (rtc (step fencing exc_str exc_repr)).

Lemma raise_path d ths k c p e :
  ths !! k = Some (Thread c p) -> path (Sys d ths) (Sys d (set_pc k c (Failing e) ths)).
Proof. intros Hk. by eapply rtc_once, step_raise. Qed.

Lemma insert_call_Raise_inv rid i key a w d e d' :
  insert_call rid i key a w d = (Raise e, d') -> d' = d.
Proof. unfold insert_call. unfold_m. unfold lift_res. by repeat case_match; intros [= _ <-]. Qed.

Lemma insert_cache_Raise_inv key resp d e d' : insert_cache key resp d = (Raise e, d') -> d' = d.
Proof.
  unfold insert_cache. unfold_m. unfold lift_res.
  destruct (int4 _); [|congruence]. destruct (int4 _); [|congruence]. destruct (jsonb _); [|congruence].
  destruct (numeric _ _ _); congruence.
Qed.

(** One more step of a thread. *)
Lemma path_then s0 d d' k c q p ths :
  path s0 (Sys d (set_pc k c q ths)) ->
  (forall ths', ths' !! k = Some (Thread c q) ->
     step fencing exc_str exc_repr (Sys d ths') (Sys d' (set_pc k c p ths'))) ->
  path s0 (Sys d' (set_pc k c p ths)).
Proof.
  intros Hp Hs. eapply rtc_r; [exact Hp|]. rewrite <- (set_pc_twice k c p c q ths).
  apply Hs, set_pc_lookup.
Qed.

Lemma path_then_raise s0 d k c q e ths :
  path s0 (Sys d (set_pc k c q ths)) -> path s0 (Sys d (set_pc k c (Failing e) ths)).
Proof. intros Hp. eapply path_then; [exact Hp|]. intros ths' Hk. by eapply step_raise. Qed.

(** A cached call: the thread still stands on its replayed log, or has its
    answer, or fails where an exception was raised. *)
Lemma cached_path (p : P) k c evs msgs s s' r ths :
  ths !! k = Some (Thread c (Replayed evs)) ->
  complete_cached p (claim_run_id c) (Z.of_nat (length evs)) msgs (claim_attempt c)
    (Some (claim_worker_id c)) s = (r, s') ->
  match r with
  | Ok resp => exists q, (q = Replayed evs \/ q = Answered evs) /\
      path (Sys (get_db s) ths) (Sys (get_db s') (set_pc k c q ths))
  | Raise e => path (Sys (get_db s) ths) (Sys (get_db s') (set_pc k c (Failing e) ths))
  end.
Proof.
  intros Hk. set (key := cache_key (provider_name p) (claim_run_id c) (Z.of_nat (length evs)) msgs).
  destruct (llm_cache (get_db s) !! key) as [row|] eqn:Hrow.
  { erewrite complete_cached_hit by done. intros [= <- <-].
    exists (Replayed evs). split; [by left|by rewrite set_pc_same]. }
  unfold complete_cached. fold key. unfold on_db, gets, mbind, M_bind, mret, M_ret. cbn beta iota zeta.
  rewrite Hrow, put_get_db.
  assert (Hmiss : path (Sys (get_db s) ths) (Sys (get_db s) (set_pc k c (Missed evs key) ths)))
    by (by eapply rtc_once, step_miss).
  destruct (insert_call _ _ _ _ _ (get_db s)) as [[[]|e] d1] eqn:Hins.
  2: { apply insert_call_Raise_inv in Hins as ->. intros [= <- <-]. rewrite put_get_db. by eapply path_then_raise. }
  assert (Hask : path (Sys (get_db s) ths) (Sys d1 (set_pc k c (Asked evs key) ths)))
    by (eapply path_then; [exact Hmiss|]; intros; by eapply step_ask).
  pose proof (complete_db p msgs (put_db d1 s)) as Hdb. rewrite get_put_db in Hdb.
  destruct (complete p msgs _) as [[resp|e] s1]; simpl in Hdb.
  2: { intros [= <- <-]. rewrite Hdb. by eapply path_then_raise. }
  rewrite Hdb. destruct (insert_cache key resp d1) as [[[]|e] d2] eqn:Hic; intros [= <- <-]; rewrite get_put_db.
  - exists (Answered evs). split; [by right|]. eapply path_then; [exact Hask|]. intros. by eapply step_answer.
  - apply insert_cache_Raise_inv in Hic as ->. by eapply path_then_raise.
Qed.
End CachedPath.

Section Agent.
Context {P B : Type} `{Provider P world} `{!ProviderLaws P world}.
Context `{Sandbox B} (tool_str : exn -> string).
#[local] Instance refined_agent : Workflow (AgentWorkflow P B) world := agent_workflow tool_str.

Lemma stop_billed l : billed (stop_outcome l).
Proof. by destruct l. Qed.

Lemma action_billed resp obs : billed (action_outcome resp obs).
Proof. split; [by apply payload_cost_dec|done]. Qed.

Lemma agent_refines : StepRefines (AgentWorkflow P B) world.
Proof.
  intros fencing exc_str exc_repr w k c evs s s' r ths Hk.
  unfold next_step, refined_agent, agent_workflow. unfold mbind at 1, M_bind.
  pose proof (ensure_workspace_db w c evs s) as Hd.
  destruct (ensure_workspace w c evs s) as [[ws|e] s1]; simpl in Hd.
  2: { intros [= <- <-]. simpl. rewrite Hd. by eapply raise_path. }
  change (get_db s) with (w_db s). rewrite <- Hd. clear Hd s.
  unfold on_db, gets, lift_res. unfold mbind, M_bind, mret, M_ret. simpl.
  assert (Hs1 : World (w_db s1) (w_fs s1) (w_workspace s1) = s1) by (by destruct s1).
  rewrite !Hs1.
  destruct (of_option _ _) as [b|e]; [|intros [= <- <-]; by eapply raise_path].
  destruct (check_limits _ _ _) as [[l|]|e]; [| |intros [= <- <-]; by eapply raise_path].
  { intros [= <- <-]. split; [apply stop_billed|].
    eapply rtc_once, step_compute; [done|by left|apply stop_billed]. }
  destruct (build_messages _ _) as [msgs|e]; [|intros [= <- <-]; by eapply raise_path].
  destruct (complete_cached _ _ _ _ _ _ _) as [rc s2] eqn:E.
  pose proof (cached_path fencing exc_str exc_repr _ k c evs msgs s1 s2 rc ths Hk E) as Hp.
  destruct rc as [resp|e]; [|by intros [= <- <-]].
  destruct Hp as (q & Hq & Hp). unfold on_fs.
  destruct (_execute _ _ _ _ _) as [[obs|e] f]; intros [= <- <-].
  - split; [by apply action_billed|]. eapply path_then; [exact Hp|].
    intros ths' Hk'. eapply step_compute; [exact Hk'|exact Hq|by apply action_billed].
  - by eapply path_then_raise.
Qed.
End Agent.

(** ** The worker *)
Section Worker.
Context {P B : Type} `{Provider (any_provider P) world} `{!ProviderLaws (any_provider P) world}.
Context `{Sandbox B}.
Context (env : environ) (client : res unit) (docker : res B) (ctx : EngineContext P B).
Context (fencing : bool) (exc_str exc_repr : exn -> string).
Local Abbreviation path := (rtc (step fencing exc_str exc_repr)).
Local Abbreviation run_claim := (run_claim env client docker ctx fencing exc_str).

(** [run_worker]'s turn with the task it awaits. *)
Definition full_turn (now later : Z) (worker_id : string) (lease max_attempts backoff : Z)
    (clock : nat -> Z) (rounds : nat) : M world (option Claim) :=
  worker_turn fencing exc_str exc_repr now later worker_id lease max_attempts backoff
    (fun c => awaited (run_claim clock rounds c)).

Lemma failing_path k c e d ths :
  ths !! k = Some (Thread c Replaying) ->
  path (Sys d ths) (Sys d (ended_at k c (Raise e) ths)).
Proof. intros Hk. simpl. apply raised_path. by eapply raise_path. Qed.

Lemma run_claim_path clock rounds k c s r s' ths :
  ths !! k = Some (Thread c Replaying) -> run_claim clock rounds c s = (r, s') ->
  path (Sys (w_db s) ths) (Sys (w_db s') (ended_at k c r ths)).
Proof.
  intros Hk. unfold Workers.run_claim, on_db, lift_res. unfold mbind, M_bind. simpl.
  assert (Hs : World (w_db s) (w_fs s) (w_workspace s) = s) by (by destruct s). rewrite Hs.
  destruct (read_spec c (w_db s)) as [spec|e] eqn:Hsp; [|intros [= <- <-]; by apply failing_path].
  destruct (workflow_for env client docker spec ctx) as [[w|w]|e] eqn:Hw;
    [| |intros [= <- <-]; by apply failing_path].
  - intros E. change w_db with (get_db (S := world)). by refine (execute_path _ _ _ clock w k c rounds s r s' ths Hk E).
  - pose proof (agent_refines (P := any_provider P) (B := B) exc_str) as Hr.
    unfold new_workspace, modify. intros E.
    by refine (execute_path _ _ _ clock w k c rounds (World (w_db s) (w_fs s) None) r s' ths _ E).
Qed.

Lemma full_turn_path now later wid lease m b clock rounds s r s' k ths :
  ths !! k = None -> full_turn now later wid lease m b clock rounds s = (r, s') ->
  path (Sys (w_db s) ths) (Sys (w_db s') ths).
Proof.
  intros Hk. unfold full_turn, worker_turn. unfold mbind at 1, M_bind, on_db at 1. simpl.
  destruct (claim_task now ∅ wid lease (w_db s)) as [[[c|]|e] d1] eqn:Hcl.
  2: { rewrite claim_task_eq in Hcl. destruct (select_claimable _ _ _) as [[]|]; [done|].
       injection Hcl as <-. by intros [= <- <-]. }
  2: { rewrite claim_task_eq in Hcl. by destruct (select_claimable _ _ _) as [[]|]. }
  assert (Hp1 : path (Sys (w_db s) ths) (Sys d1 (set_pc k c Replaying ths)))
    by (by eapply rtc_once, step_claim).
  unfold awaited, mbind, M_bind.
  destruct (run_claim clock rounds c _) as [rx s2] eqn:Hx.
  pose proof (run_claim_path clock rounds k c _ rx s2 (set_pc k c Replaying ths) (set_pc_lookup _ _ _ _) Hx)
    as Hp2. simpl in Hp2. rewrite ended_at_set in Hp2.
  assert (Hp : path (Sys (w_db s) ths) (Sys (w_db s2) (ended_at k c rx ths))) by (by etrans).
  assert (Hdel : delete k ths = ths) by (by apply delete_id).
  destruct rx as [[[]|]|e]; unfold on_db; simpl in *; rewrite ?Hdel in Hp.
  - intros [= <- <-]. simpl. done.
  - intros [= <- <-]. simpl. eapply rtc_r; [exact Hp|].
    rewrite <- Hdel at 2. rewrite <- (set_pc_delete k c Replaying). apply step_crash.
  - destruct (is_lease_lost e) eqn:He; [by intros [= <- <-]|].
    destruct (_handle_error _ _ _ _ _ _ _ _ (w_db s2)) as [rh d3] eqn:Hh.
    eapply (handle_error_path _ _ _ later k) in Hh; [|apply set_pc_lookup].
    rewrite set_pc_delete, Hdel in Hh.
    intros Hx2. assert (w_db s' = d3) as -> by (by destruct rh; injection Hx2 as _ <-). by etrans.
Qed.

(** C3: the worker's code implements the transition system.  Whatever task a
    worker claims, whatever workflow and provider its run names, whatever the
    steps cost, however its execution ends - it returns, raises, loses its
    lease or is cancelled - and whatever [run_worker] then does, the database
    goes from what it was to what it is by steps of the system, and no thread
    is left behind. *)
Theorem worker_turn_refines now later wid lease m b clock rounds s r s' k ths :
  ths !! k = None -> full_turn now later wid lease m b clock rounds s = (r, s') ->
  path (Sys (w_db s) ths) (Sys (w_db s') ths).
Proof. apply full_turn_path. Qed.
End Worker.

Lemma submit_run_id now rid tid spec budget d rid' d' :
  submit_run now rid tid spec budget d = (Ok rid', d') -> rid' = rid.
Proof. pose proof (submit_run_correct now rid tid spec budget d) as H. intros E. rewrite E in H. by destruct H. Qed.

(** ** A deployment: submissions, worker turns and reaper passes *)
Inductive activity :=
  | Submit (now : Z) (rid tid : uuid) (spec : json) (budget : string + dec)
  | Turn (now later : Z) (worker : string) (lease max_attempts backoff : Z)
      (clock : nat -> Z) (rounds : nat)
  | Reap (now : Z) (locked : gset uuid).

Section Deployment.
Context {P B : Type} `{Provider (any_provider P) world} `{!ProviderLaws (any_provider P) world}.
Context `{Sandbox B}.
Context (env : environ) (client : res unit) (docker : res B) (ctx : EngineContext P B).
Context (exc_str exc_repr : exn -> string).

(** One activity, with fencing on; what it returns or raises is its own
    caller's business. *)
Definition perform (a : activity) (s : world) : world :=
  match a with
  | Submit now rid tid spec budget => snd (on_db (submit_run now rid tid spec budget) s)
  | Turn now later wid lease m b clock rounds =>
      snd (full_turn env client docker ctx true exc_str exc_repr now later wid lease m b clock rounds s)
  | Reap now locked => snd (on_db (reap_expired now locked) s)
  end.

Definition deploy (acts : list activity) (s : world) : world := foldl (fun s a => perform a s) s acts.

Lemma perform_path a s : rtc (step true exc_str exc_repr) (Sys (w_db s) ∅) (Sys (w_db (perform a s)) ∅).
Proof.
  destruct a as [now rid tid spec budget|now later wid lease m b clock rounds|now locked]; unfold perform.
  - unfold on_db. simpl. destruct (submit_run now rid tid spec budget (w_db s)) as [[r|e] d'] eqn:E; simpl.
    + pose proof (submit_run_id _ _ _ _ _ _ _ _ E) as ->. by eapply rtc_once, step_submit.
    + apply transaction_atomic in E as ->. apply rtc_refl.
  - destruct (full_turn _ _ _ _ _ _ _ _ _ _ _ _ _ _ _ s) as [r s'] eqn:E.
    by eapply full_turn_path with (k := 0%N).
  - by eapply rtc_once, step_reap.
Qed.

Lemma deploy_path acts s :
  rtc (step true exc_str exc_repr) (Sys (w_db s) ∅) (Sys (w_db (deploy acts s)) ∅).
Proof.
  revert s. induction acts as [|a acts IH]; intros s; [apply rtc_refl|].
  etrans; [apply (perform_path a s)|]. apply IH.
Qed.

(** C4: the platform keeps its promises.  Start from an empty database and
    let submissions, turns of any number of workers and reaper passes follow
    each other in any order and at any times, errors, lost leases and
    cancellations included: afterwards the checks raise nothing, and the log
    and billing checks pass for any choice of runs; the spend check passes
    when the costs those runs recorded are whole millionths; and the chaos
    report passes exactly when the spend check does and those runs have all
    ended. *)
Theorem deployment_sound acts f ids :
  NoDup ids ->
  let d := w_db (deploy acts (World db_empty f None)) in
  exists log spend, check_all ids d = Ok [termination ids d; log; no_double_billing ids d; spend] /\
    ir_passed log = true /\ ir_passed (no_double_billing ids d) = true /\
    ((forall rid, rid ∈ ids -> whole_costs rid d) -> ir_passed spend = true) /\
    (passed [termination ids d; log; no_double_billing ids d; spend] = true <->
     ir_passed spend = true /\
     forall rid, rid ∈ ids -> exists r, runs d !! rid = Some r /\ TERMINAL (run_status_of r) = true).
Proof.
  intros Hn d.
  assert (Hr : reachable true exc_str exc_repr (Sys d ∅)) by apply (deploy_path acts (World db_empty f None)).
  pose proof (inv_db _ (reachable_inv _ _ _ _ Hr)) as Hdb.
  pose proof (reachable_fenced _ _ _ Hr) as Hf.
  by apply (db_checks_pass d ids).
Qed.
End Deployment.
