(* ===== verification/Attempts.v ===== *)
(** Liveness: the run of an agent ends after boundedly many attempts.

    [System] says what can happen; this file follows the worker's own code.  A
    turn of [run_worker] that claims the task of an agent's run and whose
    lease outlasts it either ends the run or, below the attempt limit, queues
    the task again.  Attempts only grow, so after [max_attempts] such turns
    the run has ended, whatever the model answers, the sandbox does and other
    workers do in between. *)

From Stdlib Require Import QArith.
From S2P Require Import Prelude PyDecimal Json Env JsonParse Database Store Leases Engine Budget LlmCache.
From S2P Require Import Workspace Agent Anthropic OpenAI Invariants Execution System Safety Progress.
From S2P Require Import Runner Workers Refinement.

(** ** Only the fence raises [LeaseLostError] *)

Definition lease_free {A} (r : res A) : Prop := r <> Raise LeaseLostError.
Definition lease_freeM {S A} (m : M S A) : Prop := forall s, lease_free (fst (m s)).

Lemma lease_free_bind {A B} (m : res A) (f : A -> res B) :
  lease_free m -> (forall a, lease_free (f a)) -> lease_free (m ≫= f).
Proof. destruct m as [a|e]; intros Hm Hf; [apply Hf|]. intros [= ->]. by apply Hm. Qed.

Lemma lease_freeM_bind {S A B} (m : M S A) (f : A -> M S B) :
  lease_freeM m -> (forall a, lease_freeM (f a)) -> lease_freeM (m ≫= f).
Proof.
  intros Hm Hf s. specialize (Hm s). unfold mbind, M_bind. destruct (m s) as [[a|e] s']; [apply Hf|].
  intros [= ->]. by apply Hm.
Qed.

Lemma lease_free_mapR {A B} (f : A -> res B) l : (forall x, lease_free (f x)) -> lease_free (mapR f l).
Proof. intros Hf. induction l as [|x l IH]; [done|]. simpl. repeat (apply lease_free_bind; [done|intros]). done. Qed.

Lemma lease_free_option {A} e (o : option A) : e <> LeaseLostError -> lease_free (of_option e o).
Proof. intros He. destruct o; [done|]. by intros [= ->]. Qed.

Lemma lease_free_raise {A} e : e <> LeaseLostError -> lease_free (Raise (A := A) e).
Proof. by intros He [= ->]. Qed.

Lemma lease_freeM_lift {S A} (r : res A) : lease_free r -> lease_freeM (S := S) (lift_res r).
Proof. intros Hr s. unfold lift_res. by destruct r. Qed.

Lemma lease_freeM_try {S A} (m : M S A) p h :
  lease_freeM m -> (forall e, lease_freeM (h e)) -> lease_freeM (try_except m p h).
Proof.
  intros Hm Hh s. specialize (Hm s). unfold try_except. destruct (m s) as [[a|e] s']; [done|].
  destruct (p e); [apply Hh|exact Hm].
Qed.

Lemma lease_freeM_db {A} (m : M db A) : lease_freeM m -> lease_freeM (S := world) (on_db m).
Proof. intros Hm s. specialize (Hm (get_db s)). unfold on_db. by destruct (m _) as [r d]. Qed.

Lemma lease_freeM_fs {A} (m : M fs A) : lease_freeM m -> lease_freeM (on_fs m).
Proof. intros Hm s. specialize (Hm (w_fs s)). unfold on_fs. by destruct (m _) as [r d]. Qed.

Create HintDb lease_free discriminated.
#[local] Hint Resolve lease_free_mapR lease_freeM_db lease_freeM_fs : lease_free.

(** Goes through a computation up to the calls the database knows. *)
Ltac no_lease := repeat first
  [ done | solve [auto with lease_free]
  | apply lease_freeM_bind; [|intros ?] | apply lease_free_bind; [|intros ?]
  | apply lease_freeM_lift | apply lease_freeM_db | apply lease_freeM_fs
  | apply lease_free_option | apply lease_free_raise | apply lease_free_mapR; intros ?
  | case_match ].

(** *** Values *)
Lemma lf_jsonb v : lease_free (jsonb v).
Proof. intros H. by destruct (jsonb_raises _ _ H). Qed.
Lemma lf_numeric p s d : lease_free (numeric p s d).
Proof. unfold numeric. no_lease. Qed.
Lemma lf_int4 z : lease_free (int4 z).
Proof. unfold int4. no_lease. Qed.
Lemma lf_dict v : lease_free (as_dict v).
Proof. by destruct v. Qed.
Lemma lf_dindex k d : lease_free (dindex k d).
Proof. unfold dindex. no_lease. Qed.
Lemma lf_subscript k v : lease_free (subscript k v).
Proof. destruct v; try done. apply lf_dindex. Qed.
Lemma lf_py_in k v : lease_free (py_in k v).
Proof. by destruct v. Qed.
Lemma lf_get_attr k v : lease_free (get_attr k v).
Proof. unfold get_attr. apply lease_free_bind; [apply lf_dict|done]. Qed.
Lemma lf_as_text v : lease_free (as_text v).
Proof. by destruct v. Qed.
Lemma lf_py_int v : lease_free (py_int v).
Proof. unfold py_int. no_lease. Qed.
Lemma lf_decimal_of v : lease_free (decimal_of v).
Proof. unfold decimal_of. no_lease. Qed.
#[local] Hint Resolve lf_jsonb lf_numeric lf_int4 lf_dict lf_dindex lf_subscript lf_py_in lf_get_attr
  lf_as_text lf_py_int lf_decimal_of : lease_free.

(** *** Choosing the workflow *)
Lemma lf_toy_init spec : lease_free (toy_init spec).
Proof. unfold toy_init, float_ok. no_lease. Qed.
Lemma lf_agent_init {P B} spec (p : P) (b : B) root : lease_free (agent_init spec p b root).
Proof. unfold agent_init. no_lease. Qed.
Lemma lf_script_of v : lease_free (script_of v).
Proof. unfold script_of. destruct v; try done. apply lease_free_mapR. by intros []. Qed.
Lemma lf_get_scenario name : lease_free (get_scenario name).
Proof. unfold get_scenario. no_lease. Qed.
Lemma lf_py_float s : lease_free (py_float s).
Proof. unfold py_float. no_lease. Qed.
#[local] Hint Resolve lf_toy_init lf_agent_init lf_script_of lf_get_scenario lf_py_float : lease_free.

Section Choice.
Context {P B : Type} (env : environ) (client : res unit) (docker : res B) (ctx : EngineContext P B).
Context (Hclient : lease_free client) (Hdocker : lease_free docker).

Lemma lf_provider_for spec : lease_free (_provider_for env client spec ctx).
Proof.
  unfold _provider_for, real_provider, provider_kind, openai_init, anthropic_init. no_lease.
Qed.
#[local] Hint Resolve lf_provider_for : lease_free.

Lemma lf_workflow_for spec : lease_free (workflow_for env client docker spec ctx).
Proof. unfold workflow_for. no_lease. Qed.
End Choice.
#[local] Hint Resolve lf_workflow_for : lease_free.

(** *** The agent's step *)
Lemma lf_check_limits evs b m : lease_free (check_limits evs b m).
Proof. unfold check_limits, spent_from_events, detect_loop, event_cost, _fingerprint. no_lease. Qed.
Lemma lf_build_messages spec evs : lease_free (build_messages spec evs).
Proof. unfold build_messages. no_lease. Qed.

Lemma lf_resolve f p : lease_free (resolve f p).
Proof. intros H. by apply resolve_from_error in H. Qed.
Lemma lf_safe_join root rel : lease_freeM (safe_join root rel).
Proof.
  intros f. unfold safe_join. destruct rel as [| | | |s| |]; try done. destruct (negb _); [done|].
  pose proof (lf_resolve f (root ++ path_parts s)) as H1. pose proof (lf_resolve f root) as H2.
  destruct (resolve f (root ++ _)); [|done]. destruct (resolve f root); [|done]. by destruct (is_prefix _ _).
Qed.
Lemma lf_mkdir p : lease_freeM (mkdir p).
Proof.
  unfold mkdir. generalize ([] : path). induction p as [|c p IH]; intros base; [done|]. simpl. no_lease; apply IH.
Qed.
Lemma lf_write_text p s : lease_freeM (write_text p s).
Proof. unfold write_text. no_lease. Qed.
#[local] Hint Resolve lf_check_limits lf_build_messages lf_safe_join lf_mkdir lf_write_text : lease_free.

Lemma lf_materialize root evs : lease_freeM (materialize_workspace root evs).
Proof.
  unfold materialize_workspace. apply lease_freeM_bind.
  { intros f. unfold rmtree. by repeat case_match. }
  intros _. apply lease_freeM_bind; [apply lf_mkdir|]. intros _.
  induction evs as [|e evs IH]; [done|]. simpl. unfold replay_event. no_lease.
Qed.
#[local] Hint Resolve lf_materialize : lease_free.

Section AgentStep.
Context {P B : Type} `{Provider P world} `{!ProviderLaws P world} `{Sandbox B} (tool_str : exn -> string).
Context (Hprovider : forall (p : P) messages (s : world), lease_free (fst (complete p messages s))).
Context (Hsandbox : forall (b : B) ws cmd f, lease_free (fst (sandbox_run b ws cmd f))).
#[local] Instance attempts_agent : Workflow (AgentWorkflow P B) world := agent_workflow tool_str.

Lemma lf_execute (b : B) ws action : lease_freeM (_execute tool_str b ws action).
Proof.
  unfold _execute. apply lease_freeM_try; [|done]. unfold run_tool. no_lease.
  - intros f. apply lf_resolve.
  - intros f. apply Hsandbox.
Qed.

Lemma lf_complete (p : P) rid i msgs a w : lease_freeM (complete_cached p rid i msgs a w).
Proof.
  unfold complete_cached, insert_call, insert_cache. no_lease. intros s. apply Hprovider.
Qed.
#[local] Hint Resolve lf_execute lf_complete : lease_free.

Lemma lf_agent_step (w : AgentWorkflow P B) c i evs : lease_freeM (next_step w c i evs).
Proof. unfold next_step, attempts_agent, agent_workflow, ensure_workspace. no_lease. Qed.
End AgentStep.

(** *** The code's own providers and sandbox

    None of them raises it unless the endpoint, the client library or Docker
    does. *)
Lemma lf_mock_answer p messages : lease_free (mock_answer p messages).
Proof. unfold mock_answer, is_assistant. no_lease. Qed.

Lemma lf_token_cost tin tout i o : lease_free (token_cost tin tout i o).
Proof. unfold token_cost. no_lease. Qed.
#[local] Hint Resolve lf_token_cost : lease_free.

Lemma lf_foldR {A B} (f : A -> B -> res A) acc l :
  (forall acc x, lease_free (f acc x)) -> lease_free (foldR f acc l).
Proof. intros Hf. revert acc. induction l as [|x l IH]; intros acc; [done|]. simpl. by apply lease_free_bind. Qed.

Lemma lf_anthropic_messages ms : lease_free (to_anthropic_messages ms).
Proof.
  unfold to_anthropic_messages. apply lease_free_bind; [apply lf_foldR|by intros []]. intros acc m.
  unfold anthropic_message, anthropic_assistant, anthropic_observation, is_text_reply. no_lease.
Qed.

Lemma lf_openai_messages ms : lease_free (to_openai_messages ms).
Proof.
  unfold to_openai_messages. apply lease_free_bind; [apply lf_foldR|by intros []]. intros acc m.
  unfold openai_message, openai_assistant, openai_observation. no_lease.
Qed.
#[local] Hint Resolve lf_anthropic_messages lf_openai_messages : lease_free.

Lemma lf_anthropic {C S} `{AnthropicClient C S} (p : AnthropicProvider C) messages :
  (forall model n sys tools choice ms, lease_freeM (S := S) (messages_create (ap_client p) model n sys tools choice ms)) ->
  lease_freeM (anthropic_complete p messages).
Proof. intros Hc. unfold anthropic_complete. no_lease. Qed.

Section OpenAICompat.
Context (float_repr : string -> string) (respond : nat -> res HttpResponse) (took late : nat -> Q).
Context (Hrespond : forall k, lease_free (respond k)).

Lemma lf_loads s : lease_free (loads float_repr s).
Proof. unfold loads. no_lease. Qed.
Lemma lf_py_dict v : lease_free (py_dict v).
Proof. unfold py_dict. no_lease. Qed.
Lemma lf_py_first v : lease_free (py_first v).
Proof. unfold py_first. no_lease. Qed.
Lemma lf_py_iter v : lease_free (py_iter v).
Proof. by destruct v. Qed.
Lemma lf_py_take n v : lease_free (py_take n v).
Proof. by destruct v. Qed.
#[local] Hint Resolve lf_loads lf_py_dict lf_py_first lf_py_iter lf_py_take : lease_free.

Lemma lf_after_response r attempt : lease_free (after_response float_repr r attempt).
Proof. unfold after_response, retry_delay. no_lease. Qed.

Lemma lf_read_answer p data : lease_free (read_answer float_repr p data).
Proof. unfold read_answer, parse_action, parse_call, usage_tokens. no_lease. Qed.
#[local] Hint Resolve lf_after_response lf_read_answer : lease_free.

Lemma lf_post p body : lease_freeM (_post float_repr respond took late p body).
Proof.
  unfold _post. generalize MAX_ATTEMPTS as left, 0%nat as attempt.
  induction left as [|left IH]; intros attempt; [done|]. cbn [post_attempts]. unfold _pace. no_lease.
  intros n. apply Hrespond.
Qed.

Lemma lf_openai {S} `{HasNet S} env p messages :
  lease_freeM (S := S) (openai_complete float_repr respond took late env p messages).
Proof.
  unfold openai_complete. no_lease. intros s. pose proof (lf_post p (request_body env p a) (get_net s)) as Hp.
  unfold on_net. by destruct (_post _ _ _ _ _ _ _).
Qed.
End OpenAICompat.

(** The sandbox, when no call to Docker raises it. *)
Record docker_lease_free (S : Type) `{Docker S} : Prop := {
  df_create : forall cfg, lease_freeM (S := S) (containers_create cfg);
  df_start : forall c, lease_freeM (S := S) (container_start c);
  df_wait : forall c t, lease_freeM (S := S) (container_wait c t);
  df_kill : forall c, lease_freeM (S := S) (container_kill c);
  df_remove : forall c, lease_freeM (S := S) (container_remove c);
  df_logs : forall c b, lease_freeM (S := S) (container_logs c b);
  df_oom : forall c, lease_freeM (S := S) (container_oom c);
  df_clock : lease_freeM (S := S) clock;
}.

Lemma lease_freeM_attempt {S A B} (m : M S A) (f : res A -> M S B) :
  lease_freeM m -> (forall r, lease_free r -> lease_freeM (f r)) -> lease_freeM (attempt m ≫= f).
Proof.
  intros Hm Hf s. specialize (Hm s). unfold attempt, mbind, M_bind. destruct (m s) as [r s'].
  apply Hf, Hm.
Qed.

Lemma lease_freeM_finally {S A} (m : M S A) c : lease_freeM m -> lease_freeM c -> lease_freeM (try_finally m c).
Proof.
  intros Hm Hc s. specialize (Hm s). unfold try_finally. destruct (m s) as [r s1]. specialize (Hc s1).
  destruct (c s1) as [[u|e] s2]; [exact Hm|]. intros [= ->]. by apply Hc.
Qed.

Lemma lf_runner {S} `{Docker S} `{HasFs S} decode ws cmd policy name :
  docker_lease_free S -> lease_freeM (S := S) (runner_run decode ws cmd policy name).
Proof.
  intros []. unfold runner_run.
  assert (Hfs : forall A (m : M fs A), lease_freeM m -> lease_freeM (S := S) (with_fs m)).
  { intros A m Hm s. specialize (Hm (get_fs s)). unfold with_fs. by destruct (m _). }
  assert (Hcap : forall c l b, lease_freeM (S := S) (_capture decode c l b)) by (intros; unfold _capture; no_lease).
  assert (Hkill : forall c, lease_freeM (S := S) (_kill c)) by (intros; by apply lease_freeM_try).
  assert (Hwait : forall c t q, lease_freeM (S := S) (timed_wait c t q)).
  { intros. unfold timed_wait, wait_or_kill. apply lease_freeM_bind; [|intros []; no_lease].
    apply lease_freeM_try; [|intros]; no_lease. }
  assert (Hoom : forall c code t, lease_freeM (S := S) (_oom_killed c code t)).
  { intros. unfold _oom_killed. apply lease_freeM_bind; [done|]. intros oom. destruct (_ || _); [done|].
    generalize OOM_RECHECKS as n. induction n as [|n IH]; [done|]. simpl. no_lease. }
  apply lease_freeM_bind; [apply Hfs; intros f; apply lf_resolve|]. intros ws1.
  apply lease_freeM_bind; [apply Hfs, lf_mkdir|]. intros _. apply lease_freeM_bind; [done|]. intros c.
  apply lease_freeM_finally; [|by apply lease_freeM_try]. unfold observe.
  apply lease_freeM_bind; [done|]. intros q. apply lease_freeM_bind; [done|]. intros _.
  repeat (apply lease_freeM_attempt; [done|]; intros ? ?).
  repeat (apply lease_freeM_bind; [no_lease|intros []]); no_lease.
Qed.

(** ** An execution under a lease that lasts *)

(** The claim holds its task until after the given times. *)
Definition leased_for (c : Claim) (times : Z -> Prop) (d : db) : Prop := exists t,
  tasks d !! claim_task_id c = Some t /\ held_by c t = true /\
  forall now, times now -> expires_after now t = true.

Lemma leased_fence c times d now : leased_for c times d -> times now -> fence_ok true now c d = true.
Proof. intros (t & Ht & Hh & Hx) Hn. unfold fence_ok. by rewrite Ht, Hh, (Hx now Hn). Qed.

Lemma leased_same c times d d' : tasks d' = tasks d -> leased_for c times d -> leased_for c times d'.
Proof. intros He (t & Ht & H). exists t. by rewrite He. Qed.

(** The run has ended. *)
Definition run_ended (rid : uuid) (d : db) : Prop := exists r,
  runs d !! rid = Some r /\ TERMINAL (run_status_of r) = true.

Section Held.
Context {W S : Type} `{HasDbLaws S} `{!Workflow W S} `{!WorkflowLaws W S}.
Context (clock : nat -> Z) (w : W) (c : Claim) (last : nat).
Context (Hfin : forall evs s o s', (last <= length evs)%nat ->
  next_step w c (Z.of_nat (length evs)) evs s = (Ok o, s') -> so_final o = true).
Context (Hlease : forall i evs, lease_freeM (next_step w c i evs)).
Local Abbreviation rid := (claim_run_id c).

(** It ends the run, or raises something else than a lost lease and still
    holds its task. *)
Lemma execute_held times rounds s :
  (forall r, (r <= rounds)%nat -> times (clock r)) ->
  replayable rid (get_db s) -> leased_for c times (get_db s) ->
  (last - length (events_of rid (get_db s)) < rounds)%nat ->
  let (r, s') := execute_task true clock w c rounds s in
  match r with
  | Ok (Some _) => run_ended rid (get_db s')
  | Ok None => False
  | Raise e => e <> LeaseLostError /\ tasks (get_db s') = tasks (get_db s)
  end.
Proof.
  revert s. induction rounds as [|rounds IH]; intros s Hclock Hrep Hl Hlast; [lia|].
  cbn [execute_task]. unfold mbind, M_bind. rewrite (on_db_read c) by apply Hrep.
  set (evs := events_of rid (get_db s)) in *.
  pose proof (next_step_frame w c (Z.of_nat (length evs)) evs s) as Hf.
  pose proof (Hlease (Z.of_nat (length evs)) evs s) as Hlf.
  destruct (next_step w c _ evs s) as [[o|e] s1] eqn:E; simpl in Hf, Hlf.
  2: { split; [by intros ->; apply Hlf|]. by destruct Hf as (_ & _ & ?). }
  pose proof (same_tables_replayable c _ _ Hf Hrep) as Hrep1. pose proof Hrep1 as (Hg & Hk & row & Hrow).
  assert (Hl1 : leased_for c times (get_db s1)) by (eapply leased_same; [|exact Hl]; by destruct Hf as (_ & _ & ?)).
  unfold on_db. rewrite commit_step_eq by done. fold rid. rewrite Hrow.
  rewrite (leased_fence _ _ _ _ Hl1 (Hclock _ (le_n _))). cbn [negb].
  assert (Hlen : length (events_of rid (get_db s1)) = length evs)
    by (by rewrite (same_tables_events_of rid _ _ Hf)).
  rewrite (proj2 (keyed_select_None rid (get_db s1) (Z.of_nat (length evs)) Hk ltac:(lia))) by lia.
  destruct (commit_values c o row) as [z|e] eqn:Hz.
  2: { rewrite put_get_db. split; [|by destruct Hf as (_ & _ & ?)].
       intros ->. by apply commit_values_raises in Hz. }
  set (s2 := put_db _ s1). destruct (so_final o) eqn:Ho.
  - unfold mret, M_ret, s2. rewrite get_put_db. eexists. fold rid. rewrite runs_committed.
    rewrite lookup_insert_eq. split; [done|]. unfold committed_run. rewrite Ho. simpl. by eapply next_step_terminal.
  - assert (Hs2 : get_db s2 = committed (clock (Datatypes.S rounds)) c (Z.of_nat (length (events_of rid (get_db s1)))) o row z
      (get_db s1)) by (unfold s2; by rewrite get_put_db, Hlen).
    assert (Hts : tasks (get_db s2) = tasks (get_db s)).
    { rewrite Hs2, tasks_committed, Ho. by destruct Hf as (_ & _ & ?). }
    assert (Hlast2 : length (events_of rid (get_db s2)) = Datatypes.S (length evs))
      by (by rewrite Hs2, committed_length, Hlen).
    assert (length evs < last)%nat.
    { destruct (decide (last <= length evs)%nat) as [Hle|]; [|lia]. by rewrite (Hfin _ _ _ _ Hle E) in Ho. }
    specialize (IH s2). rewrite Hts, Hlast2 in IH. apply IH; [intros; apply Hclock; lia| | |lia].
    + rewrite Hs2. by apply committed_replayable.
    + by eapply leased_same.
Qed.
End Held.

(** ** Turns of a worker *)

(** An agent's run whose steps the given rounds can hold: the code's loop has
    no bound, the workflow's [max_steps] is one. *)
Definition bounded_agent (rounds : nat) (spec : json) : Prop :=
  match spec with
  | JObj d => dget_or "kind" JNull d <> JStr "toy" /\ (0 < rounds)%nat /\
      forall n, py_int (dget_or "max_steps" (JInt DEFAULT_MAX_STEPS) d) = Ok n -> n < Z.of_nat rounds
  | _ => True
  end.

Section Turns.
Context {P B : Type} `{Provider (any_provider P) world} `{!ProviderLaws (any_provider P) world} `{Sandbox B}.
Context (env : environ) (client : res unit) (docker : res B) (ctx : EngineContext P B).
Context (exc_str exc_repr : exn -> string) (max_attempts : Z).
Local Abbreviation step := (step true exc_str exc_repr).

(** Nothing outside the engine raises the engine's [LeaseLostError] - the
    code's own providers and sandbox do not ([lf_mock_answer], [lf_anthropic],
    [lf_openai], [lf_runner]) -, and the texts of exceptions can be stored. *)
Record outside_ok : Prop := {
  ok_client : lease_free client;
  ok_docker : lease_free docker;
  ok_provider : forall (p : any_provider P) messages (s : world), lease_free (fst (complete p messages s));
  ok_sandbox : forall (b : B) ws cmd f, lease_free (fst (sandbox_run b ws cmd f));
  ok_texts : texts_nul_free exc_str exc_repr;
}.
Context (Hok : outside_ok).

Lemma workflow_for_agent rounds spec :
  bounded_agent rounds (JObj spec) ->
  match workflow_for env client docker spec ctx with
  | Ok (inl _) => False
  | Ok (inr w) => (Z.to_nat (aw_max_steps w) < rounds)%nat
  | Raise e => e <> LeaseLostError
  end.
Proof.
  intros (Hk & H0r & Hn). pose proof (lf_workflow_for env client docker ctx (ok_client Hok) (ok_docker Hok) spec) as Hlf.
  destruct (workflow_for _ _ _ _ _) as [[t|w]|e] eqn:E; [| |by intros ->];
    unfold workflow_for in E; rewrite bool_decide_eq_false_2 in E by done;
    (destruct (bool_decide _); [|done]); unfold_m.
  - repeat case_match; congruence.
  - destruct (match ctx_sandbox ctx with Some b => Ok b | None => docker end); [|done].
    destruct (_provider_for _ _ _ _); [|done]. unfold agent_init in E. unfold_m.
    destruct (py_int _) as [m|] eqn:Hm; [|done]. injection E as <-. specialize (Hn m eq_refl). simpl. lia.
Qed.

(** The execution of a claim under a lease that lasts. *)
Lemma run_claim_held clock rounds times c s row :
  (forall r, (r <= rounds)%nat -> times (clock r)) ->
  replayable (claim_run_id c) (w_db s) -> leased_for c times (w_db s) ->
  runs (w_db s) !! claim_run_id c = Some row -> bounded_agent rounds (run_task_spec row) ->
  let (r, s') := run_claim env client docker ctx true exc_str clock rounds c s in
  match r with
  | Ok (Some _) => run_ended (claim_run_id c) (w_db s')
  | Ok None => False
  | Raise e => e <> LeaseLostError /\ tasks (w_db s') = tasks (w_db s)
  end.
Proof.
  intros Hclock Hrep Hl Hrow Hspec. unfold Workers.run_claim, on_db, lift_res. unfold mbind, M_bind. simpl.
  assert (Hs : World (w_db s) (w_fs s) (w_workspace s) = s) by (by destruct s). rewrite Hs.
  unfold read_spec. rewrite Hrow. simpl. destruct (run_task_spec row) as [| | | | | |spec] eqn:Hsp; try by split.
  pose proof (workflow_for_agent rounds spec Hspec) as Hw.
  destruct (workflow_for _ _ _ _ _) as [[t|w]|e]; [done| |by split].
  unfold new_workspace, modify. pose proof (agent_laws (P := any_provider P) (B := B) exc_str) as Hlaws.
  pose proof (execute_held clock w c (Z.to_nat (aw_max_steps w))
    (fun evs s1 o s2 Hle => agent_final_at_max_steps exc_str w c _ evs s1 o s2 ltac:(lia))
    (fun i evs => lf_agent_step exc_str (ok_provider Hok) (ok_sandbox Hok) w c i evs)
    times rounds (World (w_db s) (w_fs s) None) Hclock Hrep Hl ltac:(lia)) as Hx.
  exact Hx.
Qed.

Local Abbreviation turn := (full_turn env client docker ctx true exc_str exc_repr).

(** The task is back in the queue, at the attempt of the claim. *)
Definition requeued (c : Claim) (available : Z) (d : db) : Prop := exists t,
  tasks d !! claim_task_id c = Some t /\ task_run_id t = claim_run_id c /\
  task_status_of t = Queued /\ task_attempt t = claim_attempt c /\ task_available_at t = available.

(** [_handle_error] of a claim that still holds its task. *)
Lemma handle_held later b c e d d' r :
  db_inv d -> claim_ok d c -> nul_free (claim_worker_id c) = true -> leased_for c (fun now => now = later) d ->
  _handle_error exc_str exc_repr true later c e max_attempts b d = (r, d') ->
  run_ended (claim_run_id c) d' \/ claim_attempt c < max_attempts /\ requeued c (later + b) d'.
Proof.
  intros Hdb (t0 & Ht0 & Hrun & _) Hn Hl. pose proof Hl as (t & Ht & Hh & _). assert (t0 = t) as -> by congruence.
  unfold _handle_error. destruct (retries c e max_attempts) eqn:Hr.
  - unfold mbind, M_bind, mret, M_ret. rewrite release_task_eq, Ht, Hh. intros [= <- <-]. right.
    unfold retries in Hr. bool_to_prop. split; [done|]. exists (requeue_later_row (later + b) t).
    apply held_by_spec in Hh as (Ha & _). simpl. rewrite lookup_insert_eq. done.
  - unfold mbind, M_bind, mret, M_ret, gets, try_except. fold (count_events (claim_run_id c) d).
    destruct (di_task d Hdb _ _ Ht) as [_ [row Hrow]]. rewrite Hrun in Hrow.
    rewrite (failure_commits exc_str exc_repr later c e row d Hdb Hrow) by
      (done || (by eapply leased_fence) || apply failure_reason_nul_free, (ok_texts Hok)).
    intros [= <- <-]. left. eexists. rewrite runs_committed, lookup_insert_eq. split; done.
Qed.

(** A turn that claimed the task of an agent's run. *)
Lemma turn_ends now later wid lease b clock rounds s c s' row :
  db_inv (w_db s) -> turn now later wid lease max_attempts b clock rounds s = (Ok (Some c), s') ->
  runs (w_db s) !! claim_run_id c = Some row -> bounded_agent rounds (run_task_spec row) ->
  nul_free wid = true -> later < now + lease -> (forall r, (r <= rounds)%nat -> clock r < now + lease) ->
  (exists t0, tasks (w_db s) !! claim_task_id c = Some t0 /\ task_run_id t0 = claim_run_id c /\
     claim_attempt c = task_attempt t0 + 1) /\
  (run_ended (claim_run_id c) (w_db s') \/
   claim_attempt c < max_attempts /\ requeued c (later + b) (w_db s')).
Proof.
  intros Hdb Hturn Hrow Hspec Hwid Hlater Hclock.
  unfold full_turn, worker_turn in Hturn. unfold mbind at 1, M_bind, on_db at 1 in Hturn. simpl in Hturn.
  destruct (claim_task now ∅ wid lease (w_db s)) as [[[c1|]|e1] d1] eqn:Hcl; [|done|done].
  unfold awaited, mbind, M_bind in Hturn. set (s1 := World d1 _ _) in Hturn.
  pose proof (run_claim_path env client docker ctx true exc_str exc_repr clock rounds 0%N c1 s1) as Hpath.
  destruct (run_claim _ _ _ _ _ _ clock rounds c1 s1) as [rx s2] eqn:Hx.
  assert (c1 = c) as ->.
  { destruct rx as [[[]|]|e]; unfold on_db, mret, M_ret in Hturn; simpl in Hturn; try congruence.
    destruct (is_lease_lost e); [by injection Hturn|].
    by destruct (_handle_error _ _ _ _ _ _ _ _ _) as [[[]|] ?]; simplify_eq. }
  assert (Hinv0 : inv (Sys (w_db s) ∅)) by (split; [done|apply map_Forall_empty|by intros ? ? ? ? [=]]).
  assert (Hinv1 : inv (Sys d1 (set_pc 0%N c Replaying ∅))).
  { eapply step_inv; [exact Hinv0|]. by eapply (step_claim true exc_str exc_repr). }
  pose proof (claim_fresh _ _ _ _ _ _ _ _ Hinv0 Hcl) as (Hok1 & _ & _).
  rewrite claim_task_eq in Hcl. destruct (select_claimable _ _ _) as [[tid t0]|] eqn:Esel; [|done].
  injection Hcl as Hc Hd1. pose proof Esel as (Ht0 & Hq & _)%select_claimable_Some.
  split. { exists t0. rewrite <- Hc. done. }
  pose proof (inv_db _ Hinv1) as Hdb1. simpl in Hdb1.
  assert (Hl1 : leased_for c (fun x => x < now + lease) d1).
  { exists (lease_row wid (now + lease) t0). rewrite <- Hd1, <- Hc. simpl. rewrite tasks_claimed, lookup_insert_eq.
    split_and!; [done|by apply held_by_spec|]. intros x Hlt. by apply Z.ltb_lt. }
  assert (Hrow1 : exists row1, runs d1 !! claim_run_id c = Some row1 /\ run_task_spec row1 = run_task_spec row).
  { rewrite <- Hd1. rewrite <- Hc in Hrow |- *. simpl in *. unfold claimed. rewrite Hrow.
    destruct (is_pending row); [|by eauto]. simpl. rewrite lookup_insert_eq. by eexists. }
  destruct Hrow1 as (row1 & Hrow1 & Hspec1).
  assert (Hrep1 : replayable (claim_run_id c) d1) by (split_and!; [apply Hdb1|apply Hdb1|by eexists]).
  pose proof (run_claim_held clock rounds (fun x => x < now + lease) c s1 row1 Hclock Hrep1 Hl1 Hrow1
    ltac:(by rewrite Hspec1)) as Hheld. rewrite Hx in Hheld.
  destruct rx as [[[]|]|e]; [|done|]; unfold on_db, mret, M_ret in Hturn; simpl in Hturn.
  - injection Hturn as <-. by left.
  - destruct Hheld as [Hne Hts]. destruct (is_lease_lost e) eqn:He; [by destruct e|].
    specialize (Hpath _ _ (set_pc 0%N c Replaying ∅) (set_pc_lookup _ _ _ _) eq_refl).
    assert (Hdb2 : db_inv (w_db s2)).
    { refine (inv_db (Sys (w_db s2) _) _). eapply path_inv; [exact Hinv1|exact Hpath]. }
    destruct (_handle_error _ _ _ _ _ _ _ _ (w_db s2)) as [rh d3] eqn:Hh.
    destruct rh as [[]|]; simpl in Hturn; [|done]. assert (w_db s' = d3) as -> by (by injection Hturn as <-).
    eapply handle_held; [exact Hdb2| | | |exact Hh].
    + destruct Hok1 as (t1 & Ht1 & H1). exists t1. by rewrite Hts.
    + by rewrite <- Hc.
    + destruct Hl1 as (t1 & Ht1 & Hh1 & Hx1). exists t1. rewrite Hts. split_and!; [done..|].
      intros ? ->. by apply Hx1.
Qed.

(** ** Boundedly many attempts *)

(** [attended rid n s s']: from [s] to [s'] there were [n] turns that claimed
    the task of the agent's run [rid] and whose lease outlasted them; before,
    between and after them the system took any steps whatsoever. *)
Inductive attended (rid : uuid) : nat -> sys -> sys -> Prop :=
  | attended_none s s' : rtc step s s' -> attended rid 0 s s'
  | attended_turn n s0 w ths now later wid lease b clock rounds c row w' s' :
      attended rid n s0 (Sys (w_db w) ths) ->
      turn now later wid lease max_attempts b clock rounds w = (Ok (Some c), w') ->
      claim_run_id c = rid -> runs (w_db w) !! rid = Some row ->
      bounded_agent rounds (run_task_spec row) -> nul_free wid = true ->
      later < now + lease -> (forall r, (r <= rounds)%nat -> clock r < now + lease) ->
      rtc step (Sys (w_db w') ths) s' ->
      attended rid (Datatypes.S n) s0 s'.

(** A key no thread uses. *)
Lemma fresh_thread (ths : gmap N thread) : exists k, ths !! k = None.
Proof. destruct (exist_fresh (dom ths)) as [k Hk%not_elem_of_dom]. by exists k. Qed.

Lemma reachable_path s s' :
  reachable true exc_str exc_repr s -> rtc step s s' -> reachable true exc_str exc_repr s'.
Proof. unfold reachable. intros. by etrans. Qed.

Lemma path_ended rid s s' :
  reachable true exc_str exc_repr s -> rtc step s s' -> run_ended rid (sys_db s) -> run_ended rid (sys_db s').
Proof.
  intros Hr Hp. induction Hp as [|x y z Hxy _ IH]; [done|]. intros (r & Hrow & Ht).
  destruct (step_ended exc_str exc_repr x y rid r Hr Hxy Hrow Ht) as [Hrow' _].
  apply IH; [|by exists r]. eapply reachable_path; [exact Hr|by apply rtc_once].
Qed.

Lemma path_attempts s s' : inv s -> rtc step s s' -> attempts_le (sys_db s) (sys_db s').
Proof.
  intros Hi Hp. induction Hp as [x|x y z Hxy _ IH]; [apply attempts_le_refl|].
  pose proof (step_attempts _ _ _ _ _ Hi Hxy) as H1. specialize (IH (step_inv _ _ _ _ _ Hi Hxy)).
  intros tid t Ht. destruct (H1 tid t Ht) as (t1 & Ht1 & Hr1 & Ha1). destruct (IH tid t1 Ht1) as (t2 & Ht2 & Hr2 & Ha2).
  exists t2. split_and!; [done|congruence|lia].
Qed.

(** The task of the run has been claimed at least [n] times. *)
Definition attempts_drawn (rid : uuid) (n : Z) (d : db) : Prop := exists tid t,
  tasks d !! tid = Some t /\ task_run_id t = rid /\ n <= task_attempt t.

Lemma attempts_drawn_le rid n d d' : attempts_le d d' -> attempts_drawn rid n d -> attempts_drawn rid n d'.
Proof.
  intros Ha (tid & t & Ht & Hr & Hn). destruct (Ha tid t Ht) as (t' & Ht' & Hr' & Ha').
  exists tid, t'. split_and!; [done|congruence|lia].
Qed.

Lemma attended_spec rid n s0 s :
  reachable true exc_str exc_repr s0 -> attended rid n s0 s ->
  reachable true exc_str exc_repr s /\
  (n = 0%nat \/ run_ended rid (sys_db s) \/
   Z.of_nat n < max_attempts /\ attempts_drawn rid (Z.of_nat n) (sys_db s)).
Proof.
  intros Hr0 Hat. induction Hat as [s s' Hp|n s0 w ths now later wid lease b clock rounds c row w' s'
    _ IH Hturn Hrid Hrow Hspec Hwid Hlater Hclock Hp]; [split; [by eapply reachable_path|by left]|].
  destruct (IH Hr0) as [Hr Hn]. destruct (fresh_thread ths) as [k Hk].
  pose proof (full_turn_path env client docker ctx true exc_str exc_repr _ _ _ _ _ _ _ _ _ _ _ k ths Hk Hturn) as Hpath.
  assert (Hr1 : reachable true exc_str exc_repr (Sys (w_db w') ths)) by (by eapply reachable_path).
  assert (Hr2 : reachable true exc_str exc_repr s') by (by eapply reachable_path). split; [done|]. right. subst rid.
  pose proof (reachable_inv _ _ _ _ Hr) as Hinv. pose proof (reachable_inv _ _ _ _ Hr1) as Hinv1.
  destruct (turn_ends _ _ _ _ _ _ _ _ _ _ _ (inv_db _ Hinv) Hturn Hrow Hspec Hwid Hlater Hclock)
    as ((t0 & Ht0 & Hrun0 & Hatt) & [Hend|(Hlt & t & Ht & Hrun & Hq & Ha & _)]).
  { left. by eapply (path_ended _ (Sys (w_db w') ths)). }
  assert (Hge : Z.of_nat n <= task_attempt t0).
  { destruct (di_task _ (inv_db _ Hinv) _ _ Ht0) as [? _].
    destruct Hn as [->|[Hend|[_ (tid & t' & Ht' & Hr' & Hn)]]]; [lia| |].
    - (* an ended run is not claimed *)
      exfalso. destruct (path_ended _ _ _ Hr Hpath Hend) as (r & Hr' & Hterm).
      destruct (fi_ended _ (reachable_fenced _ _ _ Hr1) _ _ Hr' Hterm) as (tid & t' & Ht' & Hrt & Hd).
      assert (tid = claim_task_id c) as -> by (eapply (di_one _ (inv_db _ Hinv1)); [done..|congruence]).
      assert (t' = t) as -> by (simpl in *; congruence). by rewrite Hq in Hd.
    - assert (tid = claim_task_id c) as -> by (eapply (di_one _ (inv_db _ Hinv)); [done..|congruence]).
      by assert (t' = t0) as -> by (simpl in *; congruence). }
  right. split; [lia|]. eapply (attempts_drawn_le _ _ (w_db w')).
  - by apply (path_attempts (Sys (w_db w') ths)).
  - exists (claim_task_id c), t. split_and!; [done..|lia].
Qed.

(** C14: the run of an agent ends after boundedly many attempts.  Count the
    turns of workers that claim its task and whose lease outlasts them,
    whatever other workers do in between - crash, stall, take over, fail -
    and whatever the model answers and the sandbox does.  Each such turn ends
    the run or, below the attempt limit, gives its task back, to be claimed
    again after the backoff; so once there were [max_attempts] of them, and
    one at least, the run has succeeded, failed or exceeded its budget. *)
Theorem attended_run_ends rid n s0 s :
  reachable true exc_str exc_repr s0 -> attended rid n s0 s ->
  (0 < n)%nat -> max_attempts <= Z.of_nat n ->
  exists r, runs (sys_db s) !! rid = Some r /\ TERMINAL (run_status_of r) = true.
Proof.
  intros Hr Ha Hn Hm. destruct (attended_spec rid n s0 s Hr Ha) as [_ [->|[Hend|[Hlt _]]]]; [lia|done|lia].
Qed.

(** Below the limit a turn that did not end the run queued its task again. *)
Theorem attended_turn_correct now later wid lease b clock rounds s ths c s' row :
  reachable true exc_str exc_repr (Sys (w_db s) ths) ->
  turn now later wid lease max_attempts b clock rounds s = (Ok (Some c), s') ->
  runs (w_db s) !! claim_run_id c = Some row -> bounded_agent rounds (run_task_spec row) ->
  nul_free wid = true -> later < now + lease -> (forall r, (r <= rounds)%nat -> clock r < now + lease) ->
  run_ended (claim_run_id c) (w_db s') \/
  claim_attempt c < max_attempts /\ requeued c (later + b) (w_db s').
Proof.
  intros Hr Hturn Hrow Hspec Hwid Hlater Hclock.
  by apply (turn_ends now later wid lease b clock rounds s c s' row (inv_db _ (reachable_inv _ _ _ _ Hr))).
Qed.
End Turns.
