(* ===== verification/Overshoot.v ===== *)
(** The budget of an agent's run: the workflow asks [check_limits] before every
    call, so in every deployment a run exceeds its budget by less than the
    cost of its last paid step, and pays for no more than [max_steps] steps.

    [checked] is what the workflow's guard leaves behind in a log; it is kept
    by submissions, turns of the workers and passes of the reaper, and the
    bound follows from it. *)

From S2P Require Import Prelude PyDecimal Json Env Database Store Leases Engine Budget LlmCache.
From S2P Require Import Workspace Agent Invariants Execution System Safety Workers Refinement.

(** ** Checked logs *)

(** Every event was committed after the limits had let the run go on, or is
    free: a stop, a failure. *)
Definition checked (budget : dec) (max_steps : Z) (evs : list event) : Prop :=
  forall before e after, evs = before ++ e :: after ->
    check_limits before budget max_steps = Ok None \/ event_cost e = Ok dec_zero.

(** The [max_steps] of a run that is no toy. *)
Definition agent_limit (spec : json) : option Z :=
  match spec with
  | JObj d =>
      if bool_decide (dget_or "kind" JNull d = JStr "toy") then None
      else match py_int (dget_or "max_steps" (JInt DEFAULT_MAX_STEPS) d) with Ok m => Some m | Raise _ => None end
  | _ => None
  end.

Definition budget_checked (d : db) : Prop := forall rid row m,
  runs d !! rid = Some row -> agent_limit (run_task_spec row) = Some m ->
  checked (of_numeric 4 (run_budget_usd row)) m (events_of rid d).

Lemma checked_snoc b m evs e :
  checked b m evs -> check_limits evs b m = Ok None \/ event_cost e = Ok dec_zero ->
  checked b m (evs ++ [e]).
Proof.
  intros Hc He before x after Heq. destruct after as [|y after] using rev_ind.
  - apply app_inj_tail in Heq as [-> ->]. exact He.
  - clear IHafter. rewrite app_comm_cons, app_assoc in Heq. apply app_inj_tail in Heq as [Heq _].
    by apply (Hc before x after).
Qed.

(** What a run was submitted with. *)
Definition terms (r : run_row) : json * Z := (run_task_spec r, run_budget_usd r).
Definition same_terms (d d' : db) : Prop := forall rid, terms <$> runs d' !! rid = terms <$> runs d !! rid.

Lemma same_terms_checked d d' :
  same_terms d d' -> (forall rid, events_of rid d' = events_of rid d) -> budget_checked d -> budget_checked d'.
Proof.
  intros Ht He Hb rid row m Hr Hm. specialize (Ht rid). rewrite Hr in Ht.
  destruct (runs d !! rid) as [row0|] eqn:E; [|done]. injection Ht as Hs Hbud. rewrite He, Hbud.
  apply (Hb rid row0 m E). by rewrite <- Hs.
Qed.

Lemma same_tables_checked d d' : same_engine_tables d d' -> budget_checked d -> budget_checked d'.
Proof.
  intros Hs. apply same_terms_checked; [|intros; by apply same_tables_events_of].
  intros rid. by destruct Hs as (-> & _).
Qed.

Lemma committed_checked now c i o row z d :
  runs d !! claim_run_id c = Some row ->
  (forall m, agent_limit (run_task_spec row) = Some m ->
     check_limits (events_of (claim_run_id c) d) (of_numeric 4 (run_budget_usd row)) m = Ok None \/
     payload_cost (so_payload o) = Ok dec_zero) ->
  budget_checked d -> budget_checked (committed now c i o row z d).
Proof.
  intros Hrow Ho Hb rid row' m. rewrite runs_committed, events_committed, lookup_insert.
  case_decide as Heq; [subst rid|rewrite app_nil_r; apply Hb].
  intros [= <-]. assert (Ht : terms (committed_run now o z row) = terms row)
    by (unfold committed_run; by destruct (so_final o)). injection Ht as -> ->.
  intros Hm. apply checked_snoc; [by apply Hb|]. destruct (Ho m Hm) as [|Hz]; [by left|right].
  unfold event_cost. simpl. by rewrite <- payload_cost_commit with (c := c) in Hz.
Qed.

(** ** Executions keep logs checked *)
Section Execute.
Context {W S : Type} `{HasDbLaws S} `{!Workflow W S} `{!WorkflowLaws W S}.
Context (fencing : bool) (clock : nat -> Z) (w : W) (c : Claim) (spec : json).
Local Abbreviation rid := (claim_run_id c).
Context (Hstep : forall i evs s o s1 row m, next_step w c i evs s = (Ok o, s1) ->
  runs (get_db s) !! rid = Some row -> run_task_spec row = spec -> agent_limit spec = Some m ->
  check_limits evs (of_numeric 4 (run_budget_usd row)) m = Ok None \/ payload_cost (so_payload o) = Ok dec_zero).

Lemma execute_checked rounds s row :
  replayable rid (get_db s) -> runs (get_db s) !! rid = Some row -> run_task_spec row = spec ->
  budget_checked (get_db s) -> budget_checked (get_db (snd (execute_task fencing clock w c rounds s))).
Proof.
  revert s row. induction rounds as [|rounds IH]; intros s row Hrep Hrow Hspec Hb; [done|].
  cbn [execute_task]. unfold mbind, M_bind. rewrite (on_db_read c) by apply Hrep.
  set (evs := events_of rid (get_db s)).
  pose proof (next_step_frame w c (Z.of_nat (length evs)) evs s) as Hf.
  destruct (next_step w c _ evs s) as [[o|e] s1] eqn:E; simpl in Hf; [|by eapply same_tables_checked].
  pose proof (same_tables_replayable c _ _ Hf Hrep) as Hrep1.
  assert (Hb1 : budget_checked (get_db s1)) by (by eapply same_tables_checked).
  assert (Hrow1 : runs (get_db s1) !! rid = Some row) by (destruct Hf as (-> & _); done).
  pose proof (same_tables_events_of rid _ _ Hf) as Hevs. fold evs in Hevs.
  unfold on_db. destruct (commit_step _ _ _ _ o (get_db s1)) as [[b|e] d2] eqn:Hc.
  2: { apply commit_step_Raise_inv in Hc as ->. by rewrite put_get_db. }
  apply commit_step_Ok_inv in Hc as [_ Hc]; [|apply Hrep1].
  assert (Hnew : exists z, d2 = committed (clock (Datatypes.S rounds)) c (Z.of_nat (length evs)) o row z (get_db s1)).
  { destruct Hc as [(_ & _ & Hs)|(_ & r & z & Hr & _ & _ & ->)]; [|exists z; by assert (r = row) as -> by congruence].
    destruct Hs. apply keyed_select_None; [apply Hrep1|lia|by rewrite Hevs]. }
  destruct Hnew as [z ->].
  assert (Hb2 : budget_checked (committed (clock (Datatypes.S rounds)) c (Z.of_nat (length evs)) o row z (get_db s1))).
  { apply committed_checked; [done| |done]. rewrite Hspec, Hevs. intros m Hm. by eapply Hstep. }
  destruct (so_final o); [unfold mret, M_ret; cbn [snd]; by rewrite get_put_db|].
  assert (Hrun2 : runs (committed (clock (Datatypes.S rounds)) c (Z.of_nat (length evs)) o row z (get_db s1)) !! rid
    = Some (committed_run (clock (Datatypes.S rounds)) o z row)) by (by rewrite runs_committed, lookup_insert_eq).
  apply (IH _ (committed_run (clock (Datatypes.S rounds)) o z row)); try rewrite get_put_db; [|done| |done].
  - rewrite <- Hevs. by apply committed_replayable.
  - rewrite <- Hspec. unfold committed_run. by destruct (so_final o).
Qed.
End Execute.

Section Worker.
Context {P B : Type} `{Provider (any_provider P) world} `{!ProviderLaws (any_provider P) world} `{Sandbox B}.
Context (env : environ) (client : res unit) (docker : res B) (ctx : EngineContext P B).
Context (fencing : bool) (exc_str exc_repr : exn -> string).
#[local] Instance overshoot_agent : Workflow (AgentWorkflow (any_provider P) B) world := agent_workflow exc_str.

(** The agent asks before it pays. *)
Lemma agent_asks (w : AgentWorkflow (any_provider P) B) c i evs s o s1 row :
  next_step w c i evs s = (Ok o, s1) -> runs (get_db s) !! claim_run_id c = Some row ->
  check_limits evs (of_numeric 4 (run_budget_usd row)) (aw_max_steps w) = Ok None \/
  payload_cost (so_payload o) = Ok dec_zero.
Proof.
  unfold next_step, overshoot_agent, agent_workflow. unfold mbind at 1, M_bind.
  pose proof (ensure_workspace_db w c evs s) as Hd.
  destruct (ensure_workspace w c evs s) as [[ws|e] s2]; simpl in Hd; [|done].
  unfold on_db, gets, lift_res. unfold mbind, M_bind, mret, M_ret. simpl. rewrite Hd. intros E Hrow.
  rewrite Hrow in E. simpl in E. destruct (check_limits _ _ _) as [[l|]|e]; [|by left|done].
  injection E as <- _. by right.
Qed.

Lemma agent_limit_init spec (p : any_provider P) (b : B) root w m :
  agent_limit (JObj spec) = Some m -> agent_init spec p b root = Ok w -> aw_max_steps w = m.
Proof.
  unfold agent_limit, agent_init. destruct (bool_decide _); [done|]. unfold_m.
  destruct (py_int _) as [n|]; [|done]. by intros [= ->] [= <-].
Qed.

Lemma workflow_for_limit spec w m :
  agent_limit (JObj spec) = Some m -> workflow_for env client docker spec ctx = Ok w ->
  exists a, w = inr a /\ aw_max_steps a = m.
Proof.
  intros Hm E. assert (Hk : dget_or "kind" JNull spec <> JStr "toy")
    by (intros Hk; unfold agent_limit in Hm; by rewrite bool_decide_eq_true_2 in Hm).
  unfold workflow_for in E. rewrite bool_decide_eq_false_2 in E by done. clear Hk. revert E.
  destruct (bool_decide _); [|done]. unfold_m.
  destruct (match ctx_sandbox ctx with Some b => Ok b | None => docker end); [|done].
  destruct (_provider_for _ _ _ _); [|done].
  destruct (agent_init _ _ _ _) as [aw|] eqn:Ha; [|done]. intros [= <-]. exists aw. split; [done|].
  by eapply agent_limit_init.
Qed.

Lemma run_claim_checked clock rounds c s :
  db_inv (w_db s) -> claim_ok (w_db s) c -> budget_checked (w_db s) ->
  budget_checked (w_db (snd (run_claim env client docker ctx fencing exc_str clock rounds c s))).
Proof.
  intros Hdb (t & Ht & Hrun & _) Hb. destruct (di_task _ Hdb _ _ Ht) as [_ [row Hrow]]. rewrite Hrun in Hrow.
  assert (Hrep : replayable (claim_run_id c) (w_db s)) by (split_and!; [apply Hdb|apply Hdb|by eexists]).
  unfold Workers.run_claim, on_db, lift_res. unfold mbind, M_bind. simpl.
  assert (Hs : World (w_db s) (w_fs s) (w_workspace s) = s) by (by destruct s). rewrite Hs.
  unfold read_spec. rewrite Hrow. simpl. destruct (run_task_spec row) as [| | | | | |spec] eqn:Hsp; try done.
  destruct (workflow_for env client docker spec ctx) as [[w|w]|e] eqn:Hw; [| |done].
  - change w_db with (get_db (S := world)) in *.
    apply (execute_checked fencing clock w c (JObj spec)) with (row := row); [|done..].
    intros i evs s1 o s2 row1 m _ _ _ Hm. by destruct (workflow_for_limit spec _ m Hm Hw) as (a & [=] & _).
  - pose proof (agent_laws (P := any_provider P) (B := B) exc_str) as Hlaws. unfold new_workspace, modify.
    refine (execute_checked fencing clock w c (JObj spec) _ rounds (World (w_db s) (w_fs s) None) row Hrep Hrow Hsp Hb).
    intros i evs s1 o s2 row1 m E Hrow1 _ Hm. destruct (workflow_for_limit spec _ m Hm Hw) as (a & [= <-] & <-).
    by eapply agent_asks.
Qed.

Lemma claim_checked now locked wid lease d :
  budget_checked d -> budget_checked (snd (claim_task now locked wid lease d)).
Proof.
  apply same_terms_checked; rewrite claim_task_eq; destruct (select_claimable _ _ _) as [[tid t]|]; try done; simpl.
  - intros rid. unfold claimed. destruct (runs d !! task_run_id t) as [r|] eqn:Hr; [|done].
    destruct (is_pending r); [|done]. simpl. rewrite lookup_insert. case_decide; subst; [by rewrite Hr|done].
  - intros rid. apply events_of_same. apply events_claimed.
Qed.

Lemma handle_error_checked now c e m b d :
  db_inv d -> claim_ok d c -> budget_checked d ->
  budget_checked (snd (_handle_error exc_str exc_repr fencing now c e m b d)).
Proof.
  intros Hdb (t & Ht & Hrun & _) Hb. destruct (di_task _ Hdb _ _ Ht) as [_ [row Hrow]]. rewrite Hrun in Hrow.
  unfold _handle_error. destruct (retries c e m).
  - unfold mbind, M_bind, mret, M_ret. rewrite release_task_eq, Ht. by destruct (held_by c t).
  - unfold mbind, M_bind, mret, M_ret, gets, try_except. fold (count_events (claim_run_id c) d).
    destruct (commit_step _ _ _ _ _ d) as [[x|x] d'] eqn:E.
    + apply commit_step_Ok_inv in E as [_ [(_ & -> & _)|(_ & r & z & Hr & _ & _ & ->)]]; [done| |apply Hdb].
      simpl. apply committed_checked; [done|by right|done].
    + apply commit_step_Raise_inv in E as ->. by destruct (is_lease_lost x).
Qed.

Lemma full_turn_checked now later wid lease m b clock rounds s :
  db_inv (w_db s) -> budget_checked (w_db s) ->
  budget_checked (w_db (snd (full_turn env client docker ctx fencing exc_str exc_repr
    now later wid lease m b clock rounds s))).
Proof.
  intros Hdb Hb. pose proof (claim_checked now ∅ wid lease _ Hb) as Hb1.
  assert (Hinv0 : inv (Sys (w_db s) ∅)) by (split; [done|apply map_Forall_empty|by intros ? ? ? ? [=]]).
  unfold full_turn, worker_turn. unfold mbind at 1, M_bind, on_db at 1. simpl.
  destruct (claim_task now ∅ wid lease (w_db s)) as [[[c|]|e] d1] eqn:Hcl; simpl in Hb1; [|done|done].
  assert (Hinv1 : inv (Sys d1 (set_pc 0%N c Replaying ∅))).
  { eapply (step_inv fencing exc_str exc_repr); [exact Hinv0|]. by eapply step_claim. }
  pose proof (claim_fresh _ _ _ _ _ _ _ _ Hinv0 Hcl) as (Hok1 & _ & _).
  unfold awaited, mbind, M_bind. set (s1 := World d1 _ _).
  pose proof (run_claim_checked clock rounds c s1 (inv_db _ Hinv1) Hok1 Hb1) as Hb2.
  pose proof (run_claim_path env client docker ctx fencing exc_str exc_repr clock rounds 0%N c s1) as Hpath.
  destruct (run_claim _ _ _ _ _ _ clock rounds c s1) as [rx s2]; simpl in Hb2.
  destruct rx as [[[]|]|e]; unfold on_db; simpl; [done|done|].
  specialize (Hpath _ _ (set_pc 0%N c Replaying ∅) (set_pc_lookup _ _ _ _) eq_refl).
  destruct (is_lease_lost e) eqn:He; [done|].
  assert (Hinv2 : inv (Sys (w_db s2) (ended_at 0%N c (Raise e) (set_pc 0%N c Replaying ∅)))).
  { eapply path_inv; [exact Hinv1|exact Hpath]. }
  simpl in Hinv2. rewrite He, set_pc_twice in Hinv2.
  destruct (inv_threads _ Hinv2 0%N _ (set_pc_lookup _ _ _ _)) as (Hok2 & _).
  pose proof (handle_error_checked later c e m b (w_db s2) (inv_db _ Hinv2) Hok2 Hb2) as Hb3.
  by destruct (_handle_error _ _ _ _ _ _ _ _ (w_db s2)) as [[[]|] d3].
Qed.
End Worker.

(** ** In every deployment *)

(** The last positive number of a list. *)
Lemma last_positive (zs : list Z) :
  Forall (fun z => 0 <= z) zs ->
  Forall (fun z => z = 0) zs \/
  exists before z after, zs = before ++ z :: after /\ 0 < z /\ Forall (fun y => y = 0) after.
Proof.
  intros Hz. induction Hz as [|z zs H0 _ [IH|(b & x & a & -> & Hx & Ha)]]; [by left| |].
  - destruct (decide (z = 0)) as [->|]; [left; by constructor|right]. exists [], z, zs. split_and!; [done|lia|done].
  - right. by exists (z :: b), x, a.
Qed.

(** The last paid step of a checked log began below the budget and within
    [max_steps]. *)
Lemma checked_micros b m evs zs :
  checked (of_numeric 4 b) m evs -> micros_costs evs zs -> sumZ zs < pow10 12 ->
  Forall (fun z => z = 0) zs \/
  exists before z after, zs = before ++ z :: after /\ 0 < z /\ Forall (fun y => y = 0) after /\
    Z.of_nat (length before) < m /\ sumZ zs < b * 100 + z.
Proof.
  intros Hc Hm Hlt. assert (Hpos : Forall (fun z => 0 <= z) zs).
  { clear -Hm. induction Hm as [|e z evs zs (c & _ & _ & _ & Hz)]; by constructor. }
  destruct (last_positive zs Hpos) as [|(zb & z & za & -> & Hz & Hza)]; [by left|right].
  exists zb, z, za. apply Forall2_app_inv_r in Hm as (before & rest & Hb & Hm & ->).
  inversion Hm as [|e ? after ? (c & He & Hc0) Ha]; subst.
  assert (H0 : sumZ za = 0) by (clear -Hza; induction Hza as [|? ? -> _ IH]; [done|exact IH]).
  assert (Hsum : sumZ (zb ++ z :: za) = sumZ zb + z) by (rewrite sumZ_app; simpl; lia).
  destruct (Hc before e after eq_refl) as [Hck|Hfree].
  - apply check_limits_None in Hck as (Hn & s & Hs & Hleb). rewrite <- (Forall2_length _ _ _ Hb).
    split_and!; [done..|]. rewrite Hsum. destruct (spent_from_events_micros before zb Hb) as (d & Hd & Hdm); [lia|].
    assert (s = d) as -> by congruence. pose proof (dec_leb_micros b d _ Hdm) as Hle.
    destruct (Z_le_gt_dec (b * 100) (sumZ zb)) as [Hbz%Hle|]; [congruence|lia].
  - exfalso. assert (c = dec_zero) as -> by congruence. apply whole_micros_round in Hc0.
    change (0 = z) in Hc0. lia.
Qed.

Section Deployment.
Context {P B : Type} `{Provider (any_provider P) world} `{!ProviderLaws (any_provider P) world} `{Sandbox B}.
Context (env : environ) (client : res unit) (docker : res B) (ctx : EngineContext P B).
Context (exc_str exc_repr : exn -> string).
Local Abbreviation perform := (perform env client docker ctx exc_str exc_repr).
Local Abbreviation deploy := (deploy env client docker ctx exc_str exc_repr).

Lemma perform_checked a s : db_inv (w_db s) -> budget_checked (w_db s) -> budget_checked (w_db (perform a s)).
Proof.
  intros Hdb Hb. destruct a as [now rid tid spec budget|now later wid lease m b clock rounds|now locked];
    unfold Refinement.perform.
  - unfold on_db. simpl. destruct (submit_run now rid tid spec budget (w_db s)) as [[r|e] d'] eqn:E; simpl.
    + apply submit_run_Ok in E as (Hn & _ & He & _ & _ & bb & Hr). intros rid' row n. rewrite Hr, lookup_insert.
      assert (events_of rid' d' = events_of rid' (w_db s)) as -> by (by apply events_of_same).
      case_decide as Heq; [subst rid'|by apply Hb]. intros _ _. rewrite (di_orphan _ Hdb _ Hn).
      intros [|? ?] ? ? [=].
    + by apply transaction_atomic in E as ->.
  - by apply full_turn_checked.
  - exact Hb.
Qed.

Lemma deploy_checked acts s :
  inv (Sys (w_db s) ∅) -> budget_checked (w_db s) ->
  inv (Sys (w_db (deploy acts s)) ∅) /\ budget_checked (w_db (deploy acts s)).
Proof.
  revert s. induction acts as [|a acts IH]; intros s Hi Hb; [done|]. apply IH.
  - eapply path_inv; [exact Hi|]. apply perform_path.
  - apply perform_checked; [apply Hi|done].
Qed.

(** C21: in every deployment - submissions, turns of any number of workers and
    passes of the reaper in any order, with fencing - an agent's run overshoots
    its budget by less than one step and pays for no more than [max_steps]
    steps: every event of
    its log is free or was committed when the log had fewer than [max_steps]
    events and their costs summed to less than the budget.  So, with costs in
    whole millionths, either nothing was paid or the spend stays below the
    budget plus the cost of the last paid step, which is one of the first
    [max_steps]. *)
Theorem budget_overshoot acts f rid row m :
  let d := w_db (deploy acts (World db_empty f None)) in
  runs d !! rid = Some row -> agent_limit (run_task_spec row) = Some m ->
  (forall before e after, events_of rid d = before ++ e :: after ->
     event_cost e = Ok dec_zero \/
     Z.of_nat (length before) < m /\
     exists spent, spent_from_events before = Ok spent /\
       dec_leb (of_numeric 4 (run_budget_usd row)) spent = false) /\
  (forall zs, micros_costs (events_of rid d) zs -> run_spent_usd row = sumZ zs /\
     (Forall (fun z => z = 0) zs \/
      exists before z after, zs = before ++ z :: after /\ 0 < z /\ Forall (fun y => y = 0) after /\
        Z.of_nat (length before) < m /\ run_spent_usd row < run_budget_usd row * 100 + z)).
Proof.
  intros d Hrow Hm. assert (Hi : inv (Sys (w_db (World db_empty f None)) ∅)) by apply inv_init.
  destruct (deploy_checked acts _ Hi) as [Hinv Hb]; [by intros ? ? ? [=]|]. fold d in Hinv, Hb.
  pose proof (Hb rid row m Hrow Hm) as Hc. split.
  - intros before e after Heq. destruct (Hc before e after Heq) as [Hck|]; [right|by left].
    by apply check_limits_None in Hck.
  - intros zs Hz. destruct (inv_spend_micros d rid row zs (inv_db _ Hinv) Hrow Hz) as [-> Hlt].
    split; [done|]. by apply checked_micros with (evs := events_of rid d).
Qed.
End Deployment.
