(* ===== verification/Injector.v ===== *)
(** [chaos/injector.py]: starting, stopping, suspending and resuming worker
    processes, and killing sandbox containers.

    The operating system is a parameter (the class [Processes]): a process is
    known by the name its worker got, which an injector uses once.  Containers
    are those of [Runner.Docker].  [ProcessLaws] says what the calls do to the
    injector's children that were not yet waited for. *)

From Stdlib Require Import QArith Qround.
From S2P Require Import Prelude PyString PyDecimal Json Env Database Store Leases Engine LlmCache.
From S2P Require Import Workspace Agent Anthropic OpenAI Runner Scenarios Workers.

(** ** Processes, time and running containers *)
Class Processes (S : Type) : Type := {
  (** [subprocess.Popen] of [python -m phoenix worker] under a name *)
  popen : string -> environ -> list string -> M S unit;
  (** [proc.poll() is None] *)
  poll : string -> M S bool;
  (** [psutil.Process(proc.pid)] and its signal *)
  ps_kill : string -> M S unit;
  ps_suspend : string -> M S unit;
  ps_resume : string -> M S unit;
  proc_wait : string -> M S unit;
  monotonic : M S Q;
  sleep : Q -> M S unit;
  (** [docker.from_env()], then the names of the running containers with a label *)
  containers_running : string -> M S (list string);
}.

(** ** The injector *)
Record worker := MkWorker { wk_name : string; wk_resume_at : option Q }.

Record Injector := MkInjector {
  in_database_url : string;
  in_lease_seconds : Q;
  in_workspace_root : string;
  in_unsafe_no_fencing : bool;
  in_real_llm : bool;
}.

(** The system, the injector's [workers] and its counter [_n]. *)
Record sup (S : Type) := Sup { su_os : S; su_workers : list worker; su_n : Z }.
Arguments Sup {S}.
Arguments su_os {S}.
Arguments su_workers {S}.
Arguments su_n {S}.

Definition on_os {S A} (m : M S A) : M (sup S) A := fun s =>
  let '(r, o) := m (su_os s) in (r, Sup o (su_workers s) (su_n s)).

Definition set_workers {S} (f : list worker -> list worker) : M (sup S) unit :=
  modify (fun s => Sup (su_os s) (f (su_workers s)) (su_n s)).

(** The attribute [resume_at] of one worker object. *)
Definition set_resume_at {S} (name : string) (t : option Q) : M (sup S) unit :=
  set_workers (fmap (fun w => if bool_decide (wk_name w = name) then MkWorker name t else w)).

Section Injector.
Context {S : Type} `{Processes S} `{Docker S}.
(** [os.environ], the package's directory and [str] of a float. *)
Context (os_environ : environ) (SRC : string) (float_str : Q -> string).

Definition worker_name (n : Z) : string := "w" +:+ string_of_Z n.

Definition worker_environ (inj : Injector) : environ :=
  let env :=
    <["PHOENIX_WORKSPACE_ROOT" := in_workspace_root inj]>
    (<["PHOENIX_REAL_LLM" := if in_real_llm inj then "1" else "0"]>
    (<["PYTHONPATH" := SRC]> (<["DATABASE_URL" := in_database_url inj]> os_environ))) in
  if in_unsafe_no_fencing inj then <["PHOENIX_UNSAFE_NO_FENCING" := "1"]> env else env.

Definition worker_args (inj : Injector) (name : string) : list string :=
  ["-m"; "phoenix"; "worker"; "--id"; name; "--lease"; float_str (in_lease_seconds inj)].

Definition spawn_worker (inj : Injector) : M (sup S) worker :=
  n ← gets (fun s => su_n s + 1);
  modify (fun s => Sup (su_os s) (su_workers s) n) ;;
  let name := worker_name n in
  on_os (popen name (worker_environ inj) (worker_args inj name)) ;;
  let w := MkWorker name None in
  set_workers (fun ws => ws ++ [w]) ;;
  mret w.

Definition alive (w : worker) : M (sup S) bool := on_os (poll (wk_name w)).

(** [[w for w in ws if w.alive]]: one poll each. *)
Fixpoint filter_alive (ws : list worker) : M (sup S) (list worker) :=
  match ws with
  | [] => mret []
  | w :: ws' =>
      a ← alive w;
      rest ← filter_alive ws';
      mret (if (a : bool) then w :: rest else rest)
  end.

Definition running : M (sup S) (list worker) :=
  ws ← gets su_workers;
  live ← filter_alive ws;
  mret (filter (fun w => wk_resume_at w = None) live).

Definition kill (w : worker) : M (sup S) unit :=
  on_os (ps_kill (wk_name w)) ;; on_os (proc_wait (wk_name w)).

Definition suspend (w : worker) (until : Q) : M (sup S) unit :=
  on_os (ps_suspend (wk_name w)) ;; set_resume_at (wk_name w) (Some until).

Definition resume (w : worker) : M (sup S) unit :=
  a ← alive w;
  (if (a : bool) then on_os (ps_resume (wk_name w)) else mret tt) ;;
  set_resume_at (wk_name w) None.

(** [except docker.errors.DockerException] *)
Definition is_docker_error (e : exn) : bool :=
  match e with DockerException | NotFound | APIError => true | _ => false end.

Definition docker_kill (u : Q) : M (sup S) (option string) :=
  try_except
    (names ← on_os (containers_running LABEL);
     match pick_container u names with
     | None => mret None
     | Some victim => on_os (container_kill victim) ;; mret (Some victim)
     end)
    is_docker_error (fun _ => mret None).

Definition stop_worker (w : worker) : M (sup S) unit :=
  a ← alive w;
  (if (a : bool) then resume w ;; on_os (ps_kill (wk_name w)) else mret tt) ;;
  on_os (proc_wait (wk_name w)).

Definition remove_containers : M (sup S) unit :=
  try_except
    (names ← on_os (containers_list LABEL); iter_m (fun c => on_os (container_remove c)) names)
    is_docker_error (fun _ => mret tt).

Definition shutdown : M (sup S) unit :=
  ws ← gets su_workers;
  iter_m stop_worker ws ;;
  remove_containers.
End Injector.

(** ** What the calls do to the injector's children

    [children]: the processes started and not yet waited for, dead or alive;
    [time]: what the monotonic clock has reached. *)
Section Laws.
Context {S : Type} (children : S -> gset string) (time : S -> Q).

(** A computation that starts and reaps no process; time passes. *)
Definition calm {A} (m : M S A) : Prop :=
  forall s, children (snd (m s)) = children s /\ (time s <= time (snd (m s)))%Q.

Class ProcessLaws `{HasDb S} `{Processes S} `{Docker S} : Prop := {
  popen_Ok : forall n env args s s', popen n env args s = (Ok tt, s') ->
    children s' = {[n]} ∪ children s;
  popen_Raise : forall n env args s e s', popen n env args s = (Raise e, s') ->
    children s' = children s;
  popen_time : forall n env args s, (time s <= time (snd (popen n env args s)))%Q;
  (** polling a process that is over reaps it *)
  poll_child : forall n s, exists b s', poll n s = (Ok b, s') /\ (time s <= time s')%Q /\
    (if b then n ∈ children s /\ children s' = children s else children s' = children s ∖ {[n]});
  (** a signal reaches a child that was not reaped, zombie or not *)
  kill_child : forall n s, n ∈ children s -> fst (ps_kill n s) = Ok tt;
  kill_other : forall n s e, fst (ps_kill n s) = Raise e -> e = NoSuchProcess;
  kill_calm : forall n, calm (ps_kill n);
  suspend_child : forall n s, n ∈ children s -> fst (ps_suspend n s) = Ok tt;
  suspend_calm : forall n, calm (ps_suspend n);
  resume_child : forall n s, n ∈ children s -> fst (ps_resume n s) = Ok tt;
  resume_calm : forall n, calm (ps_resume n);
  (** a wait returns once the process is over, and reaps it *)
  wait_reaps : forall n s, exists s', proc_wait n s = (Ok tt, s') /\
    children s' = children s ∖ {[n]} /\ (time s <= time s')%Q;
  monotonic_reads : forall s, exists t s', monotonic s = (Ok t, s') /\
    children s' = children s /\ (time s <= t <= time s')%Q;
  sleep_passes : forall q s, exists s', sleep q s = (Ok tt, s') /\
    children s' = children s /\ (time s + q <= time s')%Q;
  containers_running_calm : forall l, calm (containers_running l);
  containers_list_calm : forall l, calm (containers_list l);
  container_kill_calm : forall c, calm (container_kill c);
  container_remove_calm : forall c, calm (container_remove c);
  put_db_calm : forall d s, children (put_db d s) = children s /\ time (put_db d s) = time s;
}.
End Laws.

Section InjectorFacts.
Context {S : Type} `{HasDb S} `{Processes S} `{Docker S} (children : S -> gset string) (time : S -> Q).
Context `{!ProcessLaws children time}.

Definition names (ws : list worker) : list string := wk_name <$> ws.

(** Every child is a worker of the injector; their names are the first ones
    of the counter, each used once. *)
Record pool_ok (s : sup S) : Prop := {
  po_known : children (su_os s) ⊆ list_to_set (names (su_workers s));
  po_distinct : NoDup (names (su_workers s));
  po_counted : 0 <= su_n s /\
    Forall (fun w => exists k, 1 <= k <= su_n s /\ wk_name w = worker_name k) (su_workers s);
}.

(** Time does not go back. *)
Definition later_than (t : Q) (s : sup S) : Prop := (t <= time (su_os s))%Q.

Definition good (t : Q) (s : sup S) : Prop := pool_ok s /\ later_than t s.

Lemma worker_name_inj j k : 0 <= j -> 0 <= k -> worker_name j = worker_name k -> j = k.
Proof. intros Hj Hk H2. apply (inj (String.append "w")) in H2. by apply string_of_Z_inj. Qed.

Lemma calm_good t {A} (m : M S A) : calm children time m -> stable (good t) (on_os m).
Proof.
  intros Hm s [[P1 P2 P3] Ht]. unfold on_os. specialize (Hm (su_os s)) as [Hc Hq].
  destruct (m (su_os s)) as [r o]; simpl in *. split; [by split; simpl; rewrite ?Hc|].
  unfold later_than in *. simpl. by eapply Qle_trans.
Qed.

(** Reaping a process keeps the pool well formed. *)
Lemma fewer_good t s o :
  good t s -> children o ⊆ children (su_os s) -> (time (su_os s) <= time o)%Q ->
  good t (Sup o (su_workers s) (su_n s)).
Proof.
  intros [[P1 P2 P3] Ht] Hc Hq. split; [split; simpl; [set_solver|done..]|].
  unfold later_than in *. simpl. by eapply Qle_trans.
Qed.

Lemma poll_good t n : stable (good t) (on_os (poll n)).
Proof.
  intros s Hs. unfold on_os. destruct (poll_child children time n (su_os s)) as (b & o & -> & Hq & Hb).
  simpl. apply fewer_good; [done| |done]. destruct b; set_solver.
Qed.

Lemma wait_good t n : stable (good t) (on_os (proc_wait n)).
Proof.
  intros s Hs. unfold on_os. destruct (wait_reaps children time n (su_os s)) as (o & -> & Hc & Hq).
  simpl. apply fewer_good; [done|set_solver|done].
Qed.

Lemma monotonic_calm : calm children time monotonic.
Proof.
  intros s. destruct (monotonic_reads children time s) as (t & o & -> & Hc & Ht1 & Ht2). simpl.
  split; [done|by eapply Qle_trans].
Qed.

Lemma on_db_calm {A} (m : M db A) : calm children time (on_db m).
Proof.
  intros s. unfold on_db. destruct (m (get_db s)) as [r d]. simpl.
  destruct (put_db_calm children time d s) as [-> ->]. split; [done|apply Qle_refl].
Qed.

Lemma sleep_calm q : (0 <= q)%Q -> calm children time (sleep q).
Proof.
  intros Hq s. destruct (sleep_passes children time q s) as (s' & -> & Hc & Ht). simpl.
  split; [done|]. eapply Qle_trans; [|exact Ht]. rewrite <- (Qplus_0_r (time s)) at 1.
  by apply Qplus_le_compat; [apply Qle_refl|].
Qed.

#[local] Hint Resolve calm_good poll_good wait_good monotonic_calm on_db_calm : phx_inv.
#[local] Hint Extern 1 (calm _ _ _) =>
  first [ apply (kill_calm children time) | apply (suspend_calm children time) | apply (resume_calm children time) | apply (containers_running_calm children time)
        | apply (containers_list_calm children time) | apply (container_kill_calm children time) | apply (container_remove_calm children time) ] : phx_inv.

Lemma names_set_resume_at n t ws :
  names ((fun w => if bool_decide (wk_name w = n) then MkWorker n t else w) <$> ws) = names ws.
Proof.
  unfold names. rewrite <- list_fmap_compose. apply list_fmap_ext. intros i w _. simpl.
  case_bool_decide; by subst.
Qed.

Lemma set_resume_at_good t n r : stable (good t) (set_resume_at n r).
Proof.
  intros s [[P1 P2 [P3 P4]] Ht]. split; [|done]. split; simpl.
  - by rewrite names_set_resume_at.
  - by rewrite names_set_resume_at.
  - split; [done|]. apply Forall_fmap. eapply Forall_impl; [exact P4|]. intros w Hw. simpl.
    case_bool_decide; by subst.
Qed.

Lemma filter_alive_good t ws : stable (good t) (filter_alive ws).
Proof.
  induction ws as [|w ws IH]; simpl; [auto with phx_inv|].
  apply stable_bind; [apply poll_good|]. intros a. apply stable_bind; [done|]. auto with phx_inv.
Qed.

#[local] Hint Resolve set_resume_at_good filter_alive_good : phx_inv.

Lemma kill_good t w : stable (good t) (kill w).
Proof. unfold kill. auto with phx_inv. Qed.
Lemma suspend_good t w q : stable (good t) (suspend w q).
Proof. unfold suspend. auto with phx_inv. Qed.
Lemma running_good t : stable (good t) running.
Proof. unfold running. auto with phx_inv. Qed.
Lemma resume_good t w : stable (good t) (resume w).
Proof.
  unfold resume. apply stable_bind; [unfold alive; auto with phx_inv|]. intros a.
  apply stable_bind; [destruct a; auto with phx_inv|auto with phx_inv].
Qed.
Lemma docker_kill_good t u : stable (good t) (docker_kill u).
Proof.
  unfold docker_kill. apply stable_try; [|auto with phx_inv].
  apply stable_bind; [auto with phx_inv|]. intros l. destruct (pick_container u l); auto with phx_inv.
Qed.

Lemma spawn_good os_environ SRC float_str t inj : stable (good t) (spawn_worker os_environ SRC float_str inj).
Proof.
  intros s [[P1 P2 [P3 P4]] Ht]. unfold spawn_worker, gets, modify, set_workers. unfold_m. unfold on_os.
  simpl. set (n := su_n s + 1) in *.
  assert (Hfresh : worker_name n ∉ names (su_workers s)).
  { intros (w & Heq & Hw)%list_elem_of_fmap. rewrite Forall_forall in P4.
    destruct (P4 w Hw) as (k & Hk & Hn). rewrite <- Heq in Hn. apply worker_name_inj in Hn; lia. }
  assert (P4' : Forall (fun w => exists k, 1 <= k <= n /\ wk_name w = worker_name k) (su_workers s)).
  { eapply Forall_impl; [exact P4|]. intros w (k & Hk & Hn). exists k. split; [lia|done]. }
  pose proof (popen_time children time (worker_name n) (worker_environ os_environ SRC inj)
    (worker_args float_str inj (worker_name n)) (su_os s)) as Hq.
  destruct (popen _ _ _ (su_os s)) as [[[]|e] o] eqn:E; simpl in *.
  - apply (popen_Ok children time) in E. split; [|unfold later_than in *; simpl; by eapply Qle_trans]. split; simpl.
    + rewrite E. unfold names. rewrite fmap_app, list_to_set_app. set_solver.
    + unfold names. rewrite fmap_app. simpl. apply NoDup_app. split; [done|]. split; [|apply NoDup_singleton].
      intros x Hx ->%list_elem_of_singleton. done.
    + split; [lia|]. apply Forall_app. split; [done|]. apply Forall_singleton. exists n. split; [lia|done].
  - apply (popen_Raise children time) in E. split; [|unfold later_than in *; simpl; by eapply Qle_trans].
    split; simpl; [by rewrite E|done|split; [lia|done]].
Qed.

(** One poll each: the workers found dead were reaped by it. *)
Lemma filter_alive_spec ws s :
  exists live o, filter_alive ws s = (Ok live, Sup o (su_workers s) (su_n s)) /\
    live `sublist_of` ws /\ children o ⊆ children (su_os s) /\
    children o ∩ list_to_set (names ws) ⊆ list_to_set (names live) /\ (time (su_os s) <= time o)%Q.
Proof.
  revert s. induction ws as [|w ws IH]; intros s.
  { exists [], (su_os s). destruct s. split_and!; [done..|set_solver|apply Qle_refl]. }
  cbn [filter_alive]. unfold mbind, M_bind, alive, on_os.
  destruct (poll_child children time (wk_name w) (su_os s)) as (b & o1 & -> & Hq1 & Hb).
  destruct (IH (Sup o1 (su_workers s) (su_n s))) as (live & o & -> & Hsub & Hc & Hl & Hq). simpl in *.
  exists (if b then w :: live else live), o. split; [done|]. destruct b; simpl.
  - destruct Hb as [Hin Hb]. split_and!; [by constructor|set_solver|set_solver|by eapply Qle_trans].
  - split_and!; [by constructor|set_solver|set_solver|by eapply Qle_trans].
Qed.

(** Keeping only the workers found alive keeps the pool well formed. *)
Lemma drop_dead_good t s live s1 :
  good t s -> filter_alive (su_workers s) s = (Ok live, s1) ->
  good t (Sup (su_os s1) live (su_n s1)).
Proof.
  intros [[P1 P2 [P3 P4]] Ht] E. destruct (filter_alive_spec (su_workers s) s) as (live' & o & E' & Hsub & Hc & Hl & Hq).
  rewrite E' in E. injection E as -> <-. simpl. split; [|unfold later_than in *; simpl; by eapply Qle_trans].
  split; simpl.
  - set_solver.
  - eapply sublist_NoDup; [exact P2|]. by apply fmap_sublist.
  - split; [done|]. rewrite Forall_forall in *. intros w Hw. apply P4. by eapply elem_of_sublist.
Qed.

(** ** Shutdown *)

(** Stopping a worker reaps it, unless its process ends by itself between the
    two polls: then the signal finds no process. *)
Lemma stop_worker_reaps t w s r s' :
  good t s -> stop_worker w s = (r, s') ->
  good t s' /\ (r = Raise NoSuchProcess \/
    r = Ok tt /\ children (su_os s') = children (su_os s) ∖ {[wk_name w]}).
Proof.
  intros Hs E.
  assert (Hstop : stable (good t) (stop_worker w)).
  { unfold stop_worker, alive. apply stable_bind; [auto with phx_inv|]. intros a. apply stable_bind; [|auto with phx_inv].
    destruct a; [|auto with phx_inv]. apply stable_bind; [apply resume_good|auto with phx_inv]. }
  split; [specialize (Hstop s Hs); by rewrite E in Hstop|].
  unfold stop_worker, resume, alive, on_os, set_resume_at, set_workers, modify in E. unfold_m.
  simpl in E. destruct (poll_child children time (wk_name w) (su_os s)) as (b & o1 & E1 & _ & Hb).
  rewrite E1 in E. simpl in E.
  assert (Hw : forall o, children o ⊆ children (su_os s) ->
    children (su_os s) ∖ {[wk_name w]} ⊆ children o ->
    exists o', proc_wait (wk_name w) o = (Ok tt, o') /\
      children o' = children (su_os s) ∖ {[wk_name w]}).
  { intros o H2 H3. destruct (wait_reaps children time (wk_name w) o) as (o' & Ew & Hc & _).
    exists o'. split; [done|]. set_solver. }
  destruct b.
  - destruct Hb as [Hin Hb]. destruct (poll_child children time (wk_name w) o1) as (b2 & o2 & E2 & _ & Hb2).
    simpl in E. rewrite E2 in E. simpl in E. destruct b2.
    + destruct Hb2 as [Hin2 Hb2]. cbn in E.
      pose proof (resume_child children time (wk_name w) o2 ltac:(by rewrite Hb2)) as Hr.
      destruct (resume_calm children time (wk_name w) o2) as [Hrc _].
      destruct (ps_resume (wk_name w) o2) as [rr o3]. simpl in Hr, Hrc. subst rr. cbn in E.
      pose proof (kill_child children time (wk_name w) o3 ltac:(by rewrite Hrc, Hb2)) as Hk.
      destruct (kill_calm children time (wk_name w) o3) as [Hkc _].
      destruct (ps_kill (wk_name w) o3) as [rk o4]. simpl in Hk, Hkc. subst rk. cbn in E.
      destruct (Hw o4) as (o5 & E5 & Hc5); [set_solver..|]. rewrite E5 in E. injection E as <- <-.
      right. by split.
    + simpl in E. pose proof (kill_other children time (wk_name w) o2) as Hk.
      destruct (kill_calm children time (wk_name w) o2) as [Hkc _].
      destruct (ps_kill (wk_name w) o2) as [[[]|e] o4]; simpl in Hk, Hkc; cbn in E.
      * destruct (Hw o4) as (o5 & E5 & Hc5); [set_solver..|]. rewrite E5 in E. injection E as <- <-.
        right. by split.
      * injection E as <- _. left. by rewrite (Hk e eq_refl).
  - simpl in E. destruct (Hw o1) as (o5 & E5 & Hc5); [set_solver..|]. rewrite E5 in E.
    injection E as <- <-. right. by split.
Qed.

Lemma stop_all_reaps t ws s r s' :
  good t s -> iter_m stop_worker ws s = (r, s') ->
  good t s' /\ (r = Raise NoSuchProcess \/
    r = Ok tt /\ children (su_os s') = children (su_os s) ∖ list_to_set (names ws)).
Proof.
  revert s. induction ws as [|w ws IH]; intros s Hs.
  { intros [= <- <-]. split; [done|]. right. split; [done|]. simpl. set_solver. }
  cbn [iter_m]. unfold mbind, M_bind. destruct (stop_worker w s) as [rw s1] eqn:E1.
  destruct (stop_worker_reaps _ _ _ _ _ Hs E1) as [Hs1 [-> | [-> Hc]]].
  { intros [= <- <-]. split; [done|by left]. }
  intros E. destruct (IH _ Hs1 E) as [Hs2 [-> | [-> Hc2]]]; (split; [done|]); [by left|].
  right. split; [done|]. simpl. set_solver.
Qed.

(** After [shutdown] no child is left. *)
Lemma shutdown_reaps t s r s' :
  good t s -> shutdown s = (r, s') ->
  good t s' /\ (r = Raise NoSuchProcess \/ children (su_os s') = ∅).
Proof.
  intros Hs E. unfold shutdown, gets, mbind, M_bind in E.
  destruct (iter_m stop_worker (su_workers s) s) as [r1 s1] eqn:E1.
  destruct (stop_all_reaps _ _ _ _ _ Hs E1) as [Hs1 [-> | [-> Hc]]].
  { injection E as <- <-. split; [done|by left]. }
  assert (Hrm : forall P, (forall A (m : M S A), calm children time m -> stable P (on_os m)) ->
    stable P remove_containers).
  { intros P HP. unfold remove_containers. apply stable_try; [|auto with phx_inv].
    apply stable_bind; [apply HP; auto with phx_inv|]. intros l. apply stable_iter. intros c.
    apply HP. auto with phx_inv. }
  pose proof (Hrm (good t) (fun A m => calm_good t m) s1 Hs1) as Hs2.
  pose proof (Hrm (fun s => children (su_os s) = ∅)) as Hem. rewrite E in Hs2. simpl in Hs2.
  split; [done|]. right. change s' with (snd (r, s')). rewrite <- E. apply Hem.
  - intros A m Hm x Hx. unfold on_os. destruct (Hm (su_os x)) as [Hcx _].
    destruct (m (su_os x)) as [rx o]. simpl in *. by rewrite Hcx.
  - rewrite Hc. pose proof (po_known _ (proj1 Hs)) as Hk. set_solver.
Qed.
End InjectorFacts.

(** ** Real money *)
Lemma worker_environ_real os_environ SRC inj :
  worker_environ os_environ SRC inj !! "PHOENIX_REAL_LLM" = Some (if in_real_llm inj then "1" else "0").
Proof. unfold worker_environ. destruct (in_unsafe_no_fencing inj); by simplify_map_eq. Qed.

Lemma worker_environ_fencing os_environ SRC inj :
  in_unsafe_no_fencing inj = true -> fencing_enabled (worker_environ os_environ SRC inj) = false.
Proof. unfold worker_environ, fencing_enabled. intros ->. by simplify_map_eq. Qed.

(** Otherwise the shell decides: a worker of a run with fencing loses it when
    the shell that started the injector has the variable set. *)
Lemma worker_environ_inherits os_environ SRC inj :
  in_unsafe_no_fencing inj = false ->
  fencing_enabled (worker_environ os_environ SRC inj) = fencing_enabled os_environ.
Proof. unfold worker_environ, fencing_enabled. intros ->. by rewrite !lookup_insert_ne. Qed.

(** C32: only real evals can spend.  A worker process started by an injector
    without [real_llm] - every chaos worker, and every worker of a mock eval -
    never builds a real provider, whatever the shell's environment, the [.env]
    file its command line loads and the run's spec say: the provider of a run
    is a scripted one, or there is none. *)
Theorem injected_worker_never_pays {P B} os_environ SRC inj file r env client spec
    (ctx : EngineContext P B) p :
  in_real_llm inj = false -> ctx_provider ctx = None ->
  load_dotenv file (worker_environ os_environ SRC inj) = (r, env) ->
  _provider_for env client spec ctx = Ok p -> exists script, p = Scripted script.
Proof.
  intros Hreal Hctx Henv Hp.
  assert (Hk : env !! "PHOENIX_REAL_LLM" = Some "0").
  { pose proof (load_lines_keeps (lines_of file) [] (worker_environ os_environ SRC inj)) as Hsub.
    assert (Hl : load_lines (lines_of file) [] (worker_environ os_environ SRC inj) = (r, env))
      by (by destruct file).
    rewrite Hl in Hsub. eapply lookup_weaken; [|exact Hsub]. by rewrite worker_environ_real, Hreal. }
  unfold _provider_for in Hp. rewrite Hctx in Hp. unfold env_is in Hp. rewrite Hk in Hp. simpl in Hp.
  destruct (dmem "mock_script" spec).
  - unfold_m. destruct (dindex _ _); [|done]. destruct (script_of _); [|done]. injection Hp as <-. eauto.
  - destruct (dmem "mock_scenario" spec); [|done]. unfold_m. destruct (dindex _ _) as [v|]; [|done].
    destruct v; try done. destruct (get_scenario _); [|done]. injection Hp as <-. eauto.
Qed.
