(* ===== verification/Supervisor.v ===== *)
(** [run_chaos] of [chaos/scenarios.py]: the supervisor that injects the
    planned faults, replaces dead workers, waits for the runs and checks the
    invariants, and the report it renders. *)

From Stdlib Require Import QArith Qround Lqa.
From S2P Require Import Prelude PyString PyDecimal Json Env Database Store Leases Engine LlmCache.
From S2P Require Import Workspace Agent Invariants Runner Scenarios Workers Injector.

Definition DOCKER_WAIT_S : Q := 5#1.

(** ** The report *)
Record ChaosReport := MkChaosReport {
  cr_config : ChaosConfig;
  cr_duration_s : Q;
  cr_schedule : list Fault;
  cr_applied : list string;
  cr_statuses : list (string * Z);
  cr_invariants : list InvariantResult;
  cr_timed_out : bool;
  cr_fired : Z;
  cr_takeovers : Z;
  cr_run_ids : list uuid;
}.

Section Render.
(** The texts of floats: [str(x)], [f"{x:.1f}"], [f"{x:5.1f}"] and [f"{x:.0f}"]. *)
Context (float_str fixed1 fixed1_5 fixed0 : Q -> string).

Definition status_leb (p q : string * Z) : bool := str_leb (fst p) (fst q).

Definition render_invariant (n : Z) (inv : InvariantResult) : list string :=
  ("  " +:+ string_of_Z n +:+ ". " +:+ pad_right 18 (ir_name inv) +:+ " " +:+
   (if ir_passed inv then "PASS" else "FAIL") +:+ "  " +:+ ir_summary inv)
  :: ((fun v => "       - " +:+ violation_text v) <$> ir_violations inv)
  ++ ((fun r => "       ~ retry: " +:+ retry_text r) <$> take 5 (ir_retries inv)).

Definition render_lines (r : ChaosReport) : list string :=
  let c := cr_config r in
  ["CHAOS REPORT  seed=" +:+ string_of_Z (cc_seed c) +:+ " runs=" +:+ text_of_nat (cc_runs c) +:+
   " workers=" +:+ text_of_nat (cc_workers c) +:+ " lease=" +:+ float_str (cc_lease_seconds c) +:+
   "s workload=" +:+ cc_workload c +:+ " duration=" +:+ fixed1 (cr_duration_s r) +:+ "s"]
  ++ (if cc_unsafe_no_fencing c
      then ["!! UNSAFE MODE: fencing + abort-on-lost-lease are DISABLED !!"] else [])
  ++ ["faults: " +:+ string_of_Z (cr_fired r) +:+ " hit a target, " +:+
      text_of_nat (length (cr_schedule r)) +:+ " scheduled"]
  ++ (match cr_applied r with
      | [] => ["  (none)"]
      | l => (fun a => "  " +:+ a) <$> l
      end)
  ++ ["runs that needed a takeover (attempt > 1): " +:+ string_of_Z (cr_takeovers r);
      "run statuses: " +:+
      join ", " ((fun p => fst p +:+ "=" +:+ string_of_Z (snd p)) <$> sort_by status_leb (cr_statuses r))]
  ++ (if cr_timed_out r
      then ["TIMED OUT after " +:+ fixed0 (cc_timeout_seconds c) +:+ "s with runs still in flight"] else [])
  ++ ["invariants:"]
  ++ concat (imap (fun n inv => render_invariant (Z.of_nat n + 1) inv) (cr_invariants r))
  ++ ["RESULT: " +:+ (if passed (cr_invariants r) then "PASS" else "FAIL")].

Definition render (r : ChaosReport) : string := join (chr 10) (render_lines r).
End Render.

(** ** The supervisor loop *)
Section Supervisor.
Context {S : Type} `{HasDb S} `{Processes S} `{Docker S}.
Context (os_environ : environ) (SRC : string) (float_str fixed1 fixed1_5 : Q -> string).
Context (inj : Injector).

Definition stamp (t : Q) : string := "t=" +:+ fixed1_5 t +:+ "s".

Definition _apply (f : Fault) (now : Q) : M (sup S) string :=
  targets ← running;
  match pick (f_u f) targets with
  | None => mret (stamp now +:+ " " +:+ f_kind f +:+ " (no eligible worker)")
  | Some target =>
      if bool_decide (f_kind f = FAULT_KILL) then
        kill target ;;
        mret (stamp now +:+ " kill -9 " +:+ wk_name target)
      else
        t ← on_os monotonic;
        suspend target (t + f_duration f)%Q ;;
        mret (stamp now +:+ " suspend " +:+ wk_name target +:+ " for " +:+ fixed1 (f_duration f) +:+ "s")
  end.

(** The local variables of the loop. *)
Record loop := Loop {
  lp_pending : list Fault;
  lp_armed : list (Fault * Q);
  lp_applied : list string;
  lp_fired : Z;
}.

Definition note (msg : string) (hit : bool) (l : loop) : loop :=
  Loop (lp_pending l) (lp_armed l) (lp_applied l ++ [msg]) (lp_fired l + Z.b2z hit).

(** The faults whose time has come; Docker faults wait for a container. *)
Fixpoint fire_due (now : Q) (pending : list Fault) (l : loop) : M (sup S) loop :=
  match pending with
  | f :: rest =>
      if Qle_bool (f_at f) now then
        let l := Loop rest (lp_armed l) (lp_applied l) (lp_fired l) in
        if bool_decide (f_kind f = FAULT_DOCKER) then
          fire_due now rest
            (Loop rest (lp_armed l ++ [(f, (now + DOCKER_WAIT_S)%Q)]) (lp_applied l) (lp_fired l))
        else
          msg ← _apply f now;
          fire_due now rest (note msg (negb (is_substring "no eligible" msg)) l)
      else mret l
  | [] => mret l
  end.

Definition found (victim : option string) : bool :=
  match victim with Some v => negb (bool_decide (v = "")) | None => false end.

(** Up to [n] attempts at a container, 50 ms apart; the last answer. *)
Fixpoint poll_docker (u : Q) (n : nat) (last : option string) : M (sup S) (option string) :=
  match n with
  | O => mret last
  | Datatypes.S n' =>
      victim ← docker_kill u;
      if found victim then mret victim
      else on_os (sleep (1#20)) ;; poll_docker u n' victim
  end.

(** One armed Docker fault per tick. *)
Definition docker_tick (started : Q) (l : loop) : M (sup S) loop :=
  match lp_armed l with
  | [] => mret l
  | (f, deadline) :: armed =>
      victim ← poll_docker (f_u f) 20 None;
      t ← on_os monotonic;
      let now := (t - started)%Q in
      if found victim || negb (Qle_bool now deadline) then
        let l := Loop (lp_pending l) armed (lp_applied l) (lp_fired l) in
        mret (note (if found victim
                    then stamp now +:+ " docker kill " +:+ default "" victim
                    else stamp now +:+ " docker kill (no container appeared)")
                (bool_decide (is_Some victim)) l)
      else mret l
  end.

(** The suspended workers whose time has come run again. *)
Fixpoint resume_due (now : Q) (ws : list worker) (l : loop) : M (sup S) loop :=
  match ws with
  | [] => mret l
  | w :: ws' =>
      match wk_resume_at w with
      | None => resume_due now ws' l
      | Some at_ =>
          t ← on_os monotonic;
          if Qle_bool at_ t then
            resume w ;;
            resume_due now ws' (note (stamp now +:+ " resume " +:+ wk_name w) false l)
          else resume_due now ws' l
      end
  end.

(** [while len(inj.workers) < cfg.workers: inj.spawn_worker()] *)
Fixpoint refill (missing : nat) : M (sup S) unit :=
  match missing with
  | O => mret tt
  | Datatypes.S n => spawn_worker os_environ SRC float_str inj ;; refill n
  end.

Definition replace_dead (n : nat) : M (sup S) unit :=
  ws ← gets su_workers;
  live ← filter_alive ws;
  set_workers (fun _ => live) ;;
  refill (n - length live).

(** [SELECT status FROM runs WHERE id = ANY($1)] are all terminal *)
Definition all_terminal (ids : list uuid) (d : db) : bool :=
  forallb (fun p => TERMINAL (run_status_of (snd p))) (select_runs ids d).

Definition with_db {A} (m : M db A) : M (sup S) A := on_os (on_db m).

(** One round of the loop: [Some timed_out] when it breaks. *)
Definition tick (cfg : ChaosConfig) (ids : list uuid) (started : Q) (l : loop) :
    M (sup S) (loop * option bool) :=
  t ← on_os monotonic;
  let now := (t - started)%Q in
  l ← fire_due now (lp_pending l) l;
  l ← docker_tick started l;
  ws ← gets su_workers;
  l ← resume_due now ws l;
  replace_dead (cc_workers cfg) ;;
  ended ← with_db (gets (all_terminal ids));
  if (ended : bool) then mret (l, Some false)
  else if negb (Qle_bool now (cc_timeout_seconds cfg)) then mret (l, Some true)
  else on_os (sleep (1#5)) ;; mret (l, None).

(** [None]: the model ran out of rounds, which the code never does. *)
Fixpoint supervise (cfg : ChaosConfig) (ids : list uuid) (started : Q) (rounds : nat) (l : loop) :
    M (sup S) (option (loop * bool)) :=
  match rounds with
  | O => mret None
  | Datatypes.S rounds' =>
      '(l, break) ← tick cfg ids started l;
      match break with
      | Some timed_out => mret (Some (l, timed_out))
      | None => supervise cfg ids started rounds' l
      end
  end.

(** [submit_run(pool, s, "1.0")] for every spec: the identifiers and times are
    what [uuid4] and the clock give. *)
Fixpoint submit_all (specs : list json) (keys : list (Z * uuid * uuid)) : M (sup S) (list uuid) :=
  match specs, keys with
  | spec :: specs', (now, rid, tid) :: keys' =>
      r ← with_db (submit_run now rid tid spec (inl "1.0"));
      rs ← submit_all specs' keys';
      mret (r :: rs)
  | _, _ => mret []
  end.

(** [SELECT status, count( * ) ... GROUP BY status] *)
Definition status_counts (ids : list uuid) (d : db) : list (string * Z) :=
  let statuses := (fun p => run_status_str (run_status_of (snd p))) <$> select_runs ids d in
  (fun s => (s, Z.of_nat (length (filter (eq s) statuses)))) <$> remove_dups statuses.

(** [SELECT count( * ) FROM tasks WHERE run_id = ANY($1) AND attempt > 1] *)
Definition takeovers_of (ids : list uuid) (d : db) : Z :=
  Z.of_nat (length (filter (fun t => task_run_id t ∈ ids /\ 1 < task_attempt t)
    (snd <$> map_to_list (tasks d)))).

Definition supervised (cfg : ChaosConfig) (ids : list uuid) (schedule : list Fault) (rounds : nat)
    (started : Q) : M (sup S) (option (loop * bool)) :=
  try_finally
    (refill (cc_workers cfg) ;; supervise cfg ids started rounds (Loop schedule [] [] 0))
    shutdown.

(** [run_chaos] after the plan is drawn; the [rounds] bound the loop. *)
Definition run_chaos (cfg : ChaosConfig) (specs : list json) (schedule : list Fault)
    (keys : list (Z * uuid * uuid)) (rounds : nat) : M (sup S) (option ChaosReport) :=
  ids ← submit_all specs keys;
  started ← on_os monotonic;
  ended ← supervised cfg ids schedule rounds started;
  match ended with
  | None => mret None
  | Some (l, timed_out) =>
      t ← on_os monotonic;
      statuses ← with_db (gets (status_counts ids));
      invariants ← with_db (fun d => (check_all ids d, d));
      takeovers ← with_db (gets (takeovers_of ids));
      mret (Some (MkChaosReport cfg (t - started)%Q schedule (lp_applied l) statuses invariants
                    timed_out (lp_fired l) takeovers ids))
  end.
End Supervisor.

(** ** What a chaos run keeps *)
Section Facts.
Context {S : Type} `{HasDb S} `{Processes S} `{Docker S} (children : S -> gset string) (time : S -> Q).
Context `{!ProcessLaws children time}.
Context (os_environ : environ) (SRC : string) (float_str fixed1 fixed1_5 : Q -> string).
Context (inj : Injector).
Local Abbreviation good := (good children time).
Local Abbreviation tick := (tick os_environ SRC float_str fixed1 fixed1_5 inj).
Local Abbreviation supervise := (supervise os_environ SRC float_str fixed1 fixed1_5 inj).

Lemma with_db_good t {A} (m : M db A) : stable (good t) (with_db m).
Proof. apply (calm_good children time), (on_db_calm children time). Qed.

Lemma monotonic_good t : stable (good t) (on_os monotonic).
Proof. apply (calm_good children time), (monotonic_calm children time). Qed.

Lemma sleep_good t q : (0 <= q)%Q -> stable (good t) (on_os (sleep q)).
Proof. intros Hq. by apply (calm_good children time), (sleep_calm children time). Qed.

#[local] Hint Resolve with_db_good monotonic_good sleep_good : phx_inv.

Lemma apply_good t f now : stable (good t) (_apply fixed1 fixed1_5 f now).
Proof.
  unfold _apply. apply stable_bind; [apply (running_good children time)|]. intros ws.
  destruct (pick _ ws) as [w|]; [|auto with phx_inv]. destruct (bool_decide _).
  - apply stable_bind; [apply (kill_good children time)|auto with phx_inv].
  - apply stable_bind; [auto with phx_inv|]. intros q.
    apply stable_bind; [apply (suspend_good children time)|auto with phx_inv].
Qed.

Lemma fire_due_good t now pending l : stable (good t) (fire_due fixed1 fixed1_5 now pending l).
Proof.
  revert l. induction pending as [|f rest IH]; intros l; simpl; [auto with phx_inv|].
  destruct (Qle_bool _ _); [|auto with phx_inv]. destruct (bool_decide _); [apply IH|].
  apply stable_bind; [apply apply_good|]. intros msg. apply IH.
Qed.

Lemma poll_docker_good t u n v : stable (good t) (poll_docker u n v).
Proof.
  revert v. induction n as [|n IH]; intros v; simpl; [auto with phx_inv|].
  apply stable_bind; [apply (docker_kill_good children time)|]. intros w. destruct (found w); [auto with phx_inv|].
  apply stable_bind; [by apply sleep_good|]. intros _. apply IH.
Qed.

Lemma docker_tick_good t started l : stable (good t) (docker_tick fixed1_5 started l).
Proof.
  unfold docker_tick. destruct (lp_armed l) as [|[f d] armed]; [auto with phx_inv|].
  apply stable_bind; [apply poll_docker_good|]. intros v. apply stable_bind; [auto with phx_inv|].
  intros q. destruct (_ || _); auto with phx_inv.
Qed.

Lemma resume_due_good t now ws l : stable (good t) (resume_due fixed1_5 now ws l).
Proof.
  revert l. induction ws as [|w ws IH]; intros l; simpl; [auto with phx_inv|].
  destruct (wk_resume_at w); [|apply IH]. apply stable_bind; [auto with phx_inv|]. intros t'.
  destruct (Qle_bool _ _); [|apply IH]. apply stable_bind; [apply (resume_good children time)|]. intros _. apply IH.
Qed.

Lemma refill_good t n : stable (good t) (refill os_environ SRC float_str inj n).
Proof.
  induction n as [|n IH]; simpl; [auto with phx_inv|].
  apply stable_bind; [apply (spawn_good children time)|]. intros _. apply IH.
Qed.

Lemma replace_dead_good t n : stable (good t) (replace_dead os_environ SRC float_str inj n).
Proof.
  intros s Hs. unfold replace_dead, gets, set_workers, modify. unfold mbind, M_bind.
  destruct (filter_alive (su_workers s) s) as [[live|e] s1] eqn:E.
  - apply refill_good. by apply (drop_dead_good children time _ s).
  - destruct (filter_alive_spec children time (su_workers s) s) as (live & o & E' & _). by rewrite E' in E.
Qed.

Lemma tick_good t cfg ids started l : stable (good t) (tick cfg ids started l).
Proof.
  unfold Supervisor.tick. apply stable_bind; [auto with phx_inv|]. intros q.
  apply stable_bind; [apply fire_due_good|]. intros l1. apply stable_bind; [apply docker_tick_good|].
  intros l2. apply stable_bind; [auto with phx_inv|]. intros ws.
  apply stable_bind; [apply resume_due_good|]. intros l3.
  apply stable_bind; [apply replace_dead_good|]. intros _.
  apply stable_bind; [auto with phx_inv|]. intros b. destruct b; [auto with phx_inv|].
  destruct (negb _); [auto with phx_inv|]. apply stable_bind; [by apply sleep_good|auto with phx_inv].
Qed.

Lemma supervise_good t cfg ids started rounds l : stable (good t) (supervise cfg ids started rounds l).
Proof.
  revert l. induction rounds as [|rounds IH]; intros l; simpl; [auto with phx_inv|].
  apply stable_bind; [apply tick_good|]. intros [l' [b|]]; [auto with phx_inv|apply IH].
Qed.

(** ** Every fault fires at most once *)

(** Of [n] planned faults, those that hit, those that wait for a container
    and those still planned. *)
Definition sane (n : nat) (l : loop) : Prop :=
  0 <= lp_fired l /\
  lp_fired l + Z.of_nat (length (lp_armed l)) + Z.of_nat (length (lp_pending l)) <= Z.of_nat n.

Lemma fire_due_sane n now pending l s l' s' :
  fire_due fixed1 fixed1_5 now pending l s = (Ok l', s') -> lp_pending l = pending -> sane n l -> sane n l'.
Proof.
  revert l s. induction pending as [|f rest IH]; intros l s; simpl; [by intros [= <- _]|].
  destruct (Qle_bool _ _); [|by intros [= <- _]]. intros E Hp [Hf Hs]. rewrite Hp in Hs. simpl in Hs.
  destruct (bool_decide _).
  - apply IH in E; [done..|]. split; simpl; rewrite ?length_app; simpl; lia.
  - apply bind_Ok_inv in E as (msg & s1 & _ & E). apply IH in E; [done..|].
    unfold note. destruct (negb _); split; simpl; lia.
Qed.

Lemma docker_tick_sane n started l s l' s' :
  docker_tick fixed1_5 started l s = (Ok l', s') -> sane n l -> sane n l'.
Proof.
  unfold docker_tick. destruct (lp_armed l) as [|[f d] armed] eqn:Ha; [by intros [= <- _]|].
  intros E [Hf Hs]. rewrite Ha in Hs. simpl in Hs.
  apply bind_Ok_inv in E as (v & s1 & _ & E). apply bind_Ok_inv in E as (q & s2 & _ & E).
  destruct (_ || _); injection E as <- _; [|by split; rewrite ?Ha].
  unfold note. destruct (bool_decide _); split; simpl; lia.
Qed.

Lemma resume_due_sane n now ws l s l' s' :
  resume_due fixed1_5 now ws l s = (Ok l', s') -> sane n l -> sane n l'.
Proof.
  revert l s. induction ws as [|w ws IH]; intros l s; simpl; [by intros [= <- _]|].
  destruct (wk_resume_at w); [|apply IH]. intros E [Hf Hs].
  apply bind_Ok_inv in E as (q' & s1 & _ & E). destruct (Qle_bool _ _); [|by eapply IH].
  apply bind_Ok_inv in E as (? & s2 & _ & E). apply IH in E; [done|].
  unfold note. split; simpl; lia.
Qed.

Lemma refill_length k s s' :
  refill os_environ SRC float_str inj k s = (Ok tt, s') ->
  length (su_workers s') = (length (su_workers s) + k)%nat.
Proof.
  revert s. induction k as [|k IH]; intros s; simpl; [intros [= <-]; lia|]. intros E.
  apply bind_Ok_inv in E as (w & s1 & E1 & E). apply IH in E. rewrite E.
  unfold spawn_worker, gets, modify, set_workers, on_os in E1. unfold_m. simpl in E1.
  destruct (popen _ _ _ _) as [[[]|e] o]; [|done]. injection E1 as <- <-. simpl.
  rewrite length_app. simpl. lia.
Qed.

(** ** One round *)
Lemma tick_Ok cfg ids started l s l' b s' n :
  good (time (su_os s)) s -> tick cfg ids started l s = (Ok (l', b), s') -> sane n l ->
  sane n l' /\ (cc_workers cfg <= length (su_workers s'))%nat /\
  (b = None -> exists now, (time (su_os s) <= started + now <= time (su_os s') - (1#5))%Q /\
     (now <= cc_timeout_seconds cfg)%Q).
Proof.
  intros Hg E Hs. unfold Supervisor.tick in E.
  apply bind_Ok_inv in E as (t & s1 & E1 & E).
  assert (Ht : (time (su_os s) <= t <= time (su_os s1))%Q).
  { unfold on_os in E1. destruct (monotonic_reads children time (su_os s)) as (t' & o & Em & _ & Hq).
    rewrite Em in E1. by injection E1 as <- <-. }
  assert (Hg1 : good t s1).
  { pose proof (monotonic_good (time (su_os s)) s Hg) as H2. rewrite E1 in H2.
    split; [apply H2|]. apply Ht. }
  apply bind_Ok_inv in E as (l1 & s2 & E2 & E).
  pose proof (fire_due_good t (t - started) (lp_pending l) l s1 Hg1) as Hg2. rewrite E2 in Hg2.
  apply (fire_due_sane n) in E2 as Hs2; [|done..].
  apply bind_Ok_inv in E as (l2 & s3 & E3 & E).
  pose proof (docker_tick_good t started l1 s2 Hg2) as Hg3. rewrite E3 in Hg3.
  apply (docker_tick_sane n) in E3 as Hs3; [|done].
  apply bind_Ok_inv in E as (ws & s3' & E4 & E). injection E4 as <- <-.
  apply bind_Ok_inv in E as (l3 & s4 & E5 & E).
  pose proof (resume_due_good t (t - started) (su_workers s3) l2 s3 Hg3) as Hg4. rewrite E5 in Hg4.
  apply (resume_due_sane n) in E5 as Hs4; [|done].
  apply bind_Ok_inv in E as ([] & s5 & E6 & E).
  pose proof (replace_dead_good t (cc_workers cfg) s4 Hg4) as Hg5. rewrite E6 in Hg5.
  assert (Hlen : (cc_workers cfg <= length (su_workers s5))%nat).
  { unfold replace_dead in E6. apply bind_Ok_inv in E6 as (ws & s4' & E7 & E6). injection E7 as <- <-.
    apply bind_Ok_inv in E6 as (live & s6 & E7 & E6). apply bind_Ok_inv in E6 as (u & s7 & E8 & E6).
    injection E8 as _ <-. apply refill_length in E6. simpl in E6. lia. }
  apply bind_Ok_inv in E as (ended & s6 & E7 & E).
  assert (Hw6 : su_workers s6 = su_workers s5).
  { unfold with_db, on_os in E7. destruct (on_db _ _) as [r o]. by injection E7 as _ <-. }
  pose proof (with_db_good t (gets (all_terminal ids)) s5 Hg5) as Hg6. rewrite E7 in Hg6.
  destruct ended; [by injection E as <- <- <-; rewrite Hw6|].
  destruct (Qle_bool (t - started) (cc_timeout_seconds cfg)) eqn:Hto; simpl in E;
    [|by injection E as <- <- <-; rewrite Hw6].
  apply bind_Ok_inv in E as (u & s7 & E8 & E). injection E as <- <- <-.
  unfold on_os in E8. destruct (sleep_passes children time (1#5) (su_os s6)) as (o & Eo & _ & Hq).
  rewrite Eo in E8. injection E8 as _ <-. simpl. rewrite Hw6. split; [done|]. split; [done|]. intros _.
  exists (t - started)%Q. apply Qle_bool_iff in Hto. destruct Hg6 as [_ Hl6]. unfold later_than in Hl6.
  split; [|done]. simpl in *. destruct Ht as [Ht1 Ht2]. split; lra.
Qed.

(** ** The loop ends *)
Definition fifths (k : nat) : Q := (inject_Z (Z.of_nat k) * (1#5))%Q.

Lemma fifths_S k : (fifths (Datatypes.S k) == fifths k + (1#5))%Q.
Proof. unfold fifths. rewrite Nat2Z.inj_succ, <- Z.add_1_r, inject_Z_plus. ring. Qed.

Lemma supervise_ends cfg ids started n rounds k l s r s' :
  good (time (su_os s)) s -> (started + fifths k <= time (su_os s))%Q -> sane n l ->
  supervise cfg ids started (Datatypes.S rounds) l s = (r, s') ->
  (forall l' b, r = Ok (Some (l', b)) -> sane n l') /\
  ((cc_timeout_seconds cfg < fifths (k + rounds))%Q -> r <> Ok None).
Proof.
  revert k l s. induction rounds as [|rounds IH]; intros k l s Hg Hk Hs E.
  - simpl in E. unfold mbind, M_bind in E.
    destruct (tick cfg ids started l s) as [[[l1 [b|]]|e] s1] eqn:Et; injection E as <- _; try done.
    + apply (tick_Ok _ _ _ _ _ _ _ _ n) in Et as [Hs1 _]; [|done..]. split; [|done]. by intros l' b' [= <- _].
    + apply (tick_Ok _ _ _ _ _ _ _ _ n) in Et as (_ & _ & Hn); [|done..]. split; [done|]. intros Hlt.
      destruct (Hn eq_refl) as (now & [H2 _] & H3). rewrite Nat.add_0_r in Hlt. exfalso. lra.
  - cbn [Supervisor.supervise] in E. unfold mbind at 1, M_bind at 1 in E.
    pose proof (tick_good (time (su_os s)) cfg ids started l s Hg) as Hg1.
    destruct (tick cfg ids started l s) as [[[l1 [b|]]|e] s1] eqn:Et.
    + injection E as <- _. apply (tick_Ok _ _ _ _ _ _ _ _ n) in Et as [Hs1 _]; [|done..].
      split; [|done]. by intros l' b' [= <- _].
    + apply (tick_Ok _ _ _ _ _ _ _ _ n) in Et as (Hs1 & _ & Hn); [|done..].
      destruct (Hn eq_refl) as (now & [H2 H3] & H4). simpl in Hg1.
      apply (IH (Datatypes.S k)) in E as [E1 E2]; [| | |done].
      * split; [done|]. intros Hlt. apply E2. by rewrite Nat.add_succ_comm.
      * split; [apply Hg1|]. unfold later_than. apply Qle_refl.
      * rewrite fifths_S. lra.
    + by injection E as <- _.
Qed.

Lemma submit_all_good t specs keys : stable (good t) (submit_all specs keys).
Proof.
  revert keys. induction specs as [|spec specs IH]; intros [|[[now rid] tid] keys]; simpl; auto with phx_inv.
Qed.

(** No child is left. *)
Definition childless (s : sup S) : Prop := children (su_os s) = ∅.

Lemma calm_childless {A} (m : M S A) : calm children time m -> stable childless (on_os m).
Proof.
  intros Hm s Hs. unfold childless, on_os in *. destruct (Hm (su_os s)) as [Hc _].
  destruct (m (su_os s)) as [x o]. simpl in *. by rewrite Hc.
Qed.

Lemma with_db_childless {A} (m : M db A) : stable childless (with_db m).
Proof. apply calm_childless, (on_db_calm children time). Qed.

Lemma monotonic_childless : stable childless (on_os monotonic).
Proof. apply calm_childless, (monotonic_calm children time). Qed.

#[local] Hint Resolve with_db_childless monotonic_childless : phx_inv.

Lemma submit_all_childless specs keys : stable childless (submit_all specs keys).
Proof.
  revert keys. induction specs as [|spec specs IH]; intros [|[[now rid] tid] keys]; simpl; auto with phx_inv.
Qed.

(** The supervised part, from any pool. *)
Lemma supervised_correct cfg ids schedule rounds started s r s' :
  good (time (su_os s)) s -> (started <= time (su_os s))%Q ->
  (cc_timeout_seconds cfg < fifths rounds)%Q ->
  supervised os_environ SRC float_str fixed1 fixed1_5 inj cfg ids schedule (Datatypes.S rounds) started s
    = (r, s') ->
  r <> Ok None /\ (forall l b, r = Ok (Some (l, b)) -> sane (length schedule) l) /\
  (childless s' \/ r = Raise NoSuchProcess).
Proof.
  intros Hg Hst Hto E. unfold supervised, try_finally in E.
  destruct ((refill _ _ _ _ _ ;; _) s) as [rb s1] eqn:Eb.
  assert (Hb : good (time (su_os s)) s1 /\ rb <> Ok None /\
    forall l b, rb = Ok (Some (l, b)) -> sane (length schedule) l).
  { unfold mbind, M_bind in Eb. pose proof (refill_good (time (su_os s)) (cc_workers cfg) s Hg) as Hg2.
    destruct (refill _ _ _ _ _ s) as [[u|e] s2]; simpl in Hg2; [|injection Eb as <- <-; by split_and!].
    pose proof (supervise_good (time (su_os s)) cfg ids started (Datatypes.S rounds)
      (Loop schedule [] [] 0) s2 Hg2) as Hg3. rewrite Eb in Hg3. simpl in Hg3. split; [done|].
    destruct Hg2 as [Hp2 Ht2]. unfold later_than in Ht2.
    apply (supervise_ends _ _ _ (length schedule) rounds 0%nat) in Eb as [H2 H3].
    - split; [by apply H3|done].
    - split; [done|]. apply Qle_refl.
    - assert (Hz : (fifths 0 == 0)%Q) by reflexivity. rewrite Hz, Qplus_0_r. by eapply Qle_trans.
    - split; simpl; lia. }
  destruct Hb as (Hg1 & Hn & Hs). destruct (shutdown s1) as [rs s2] eqn:Es.
  destruct (shutdown_reaps children time _ _ _ _ Hg1 Es) as [_ [-> | Hc]].
  - injection E as <- <-. split_and!; [done..|by right].
  - destruct rs; injection E as <- <-; split_and!; try done; by left.
Qed.

End Facts.
