(* ===== verification/Timeline.v ===== *)
(** [timeline.py]: a run's log as text, with the takeovers and the repeated
    model calls called out. *)

From S2P Require Import Prelude PyString PyDecimal Json Database Store Leases Engine LlmCache.

(** A time difference in seconds with two decimals is a parameter. *)
Section Timeline.
Context (secs : Z -> string).

(** [f"{v}"] *)
Definition fstr (v : json) : string := py_str v.

(** [v.strip().splitlines()] of a value that must be text *)
Definition text_lines (v : json) : res (list string) :=
  match v with JStr s => Ok (splitlines (strip s)) | _ => Raise AttributeError end.

Definition _summary (p : dict) : res string :=
  match dget_or "action" JNull p with
  | JNull =>
      match dget "reason" p with
      | Some r => Ok (fstr r)
      | None => Ok (match dget "i" p with Some i => "i=" +:+ fstr i | None => "" end)
      end
  | action =>
      a ← as_dict action;
      let tool := dget_or "tool" JNull a in
      let args := dget_or "args" (JObj []) a in
      let obs := dget_or "observation" (JObj []) p in
      if bool_decide (tool = JStr "write_file") then
        args ← as_dict args;
        failed ← py_in "error" obs;
        if (failed : bool) then
          e ← subscript "error" obs;
          mret ("write_file " +:+ fstr (dget_or "path" JNull args) +:+ " ERROR " +:+ fstr e)
        else mret ("write_file " +:+ fstr (dget_or "path" JNull args))
      else if bool_decide (tool = JStr "run_code") then
        o ← as_dict obs;
        let code := dget_or "exit_code" JNull o in
        tail ←
          (if truthy code then
             let err := dget_or "stderr" JNull o in
             lines ← text_lines (if truthy err then err else JStr "");
             mret (match last lines with Some l => " | " +:+ str_take 50 l | None => "" end)
           else mret "");
        args ← as_dict args;
        mret ("run_code " +:+ fstr (dget_or "path" JNull args) +:+ " -> exit " +:+ fstr code +:+ tail)
      else
        args ← as_dict args;
        mret (strip (fstr tool +:+ " " +:+ fstr (dget_or "summary" (JStr "") args)))
  end.

(** [f"{s:<w}"] *)
Definition pad_right (w : nat) (s : string) : string :=
  s +:+ str_of_list (replicate (w - String.length s) " "%char).
(** [f"{s:>w}"] *)
Definition pad_left (w : nat) (s : string) : string :=
  str_of_list (replicate (w - String.length s) " "%char) +:+ s.

(** [f"{v:<2}"]: a bool is a number, containers and [None] take no format. *)
Definition fmt_attempt (v : json) : res string :=
  match v with
  | JStr s => Ok (pad_right 2 s)
  | JInt z => Ok (pad_right 2 (string_of_Z z))
  | JBool b => Ok (pad_right 2 (if b then "1" else "0"))
  | JFloat r => Ok (pad_right 2 r)
  | _ => Raise TypeError
  end.

(** Who wrote an event. *)
Definition writer (e : event) : res (json * json) :=
  meta ← as_dict (dget_or "meta" (JObj []) (ev_payload e));
  mret (dget_or "worker" (JStr "?") meta, dget_or "attempt" (JInt 0) meta).

(** [int(key.rsplit(":", 1)[1])] *)
Definition key_step (key : string) : res Z :=
  match partition_at ":" (str_of_list (reverse (str_to_list key))) with
  | None => Raise IndexError
  | Some (rev_tail, _) => of_option ValueError (parse_int (reverse (str_to_list rev_tail)))
  end.

Definition takeover_line (prev who : json * json) (gap : Z) : string :=
  "  -- takeover: " +:+ fstr (fst prev) +:+ "#" +:+ fstr (snd prev) +:+ " -> " +:+
  fstr (fst who) +:+ "#" +:+ fstr (snd who) +:+
  " (" +:+ secs gap +:+ "s since the last committed step) --".

(** The dollar amount of an event's cost. *)
Definition cost_text (p : dict) : res string :=
  let cost := dget_or "cost_usd" JNull p in
  if truthy cost then match cost with JStr s => Ok ("$" +:+ s) | _ => Raise TypeError end else Ok "".

(** One event: its line, after a takeover line when the writer changed. *)
Definition event_lines (t0 : Z) (calls : Z -> nat) (prev : option ((json * json) * Z))
    (row : event_row) : res (list string * ((json * json) * Z)) :=
  let e := er_event row in
  let at_ := er_created_at row in
  who ← writer e;
  let takeover := match prev with
    | Some (w, t) => if bool_decide (who = w) then [] else [takeover_line w who (at_ - t)]
    | None => []
    end in
  step ← key_step (ev_idem_key e);
  let asked := if (1 <? calls step)%nat
    then "  [LLM asked " +:+ string_of_Z (Z.of_nat (calls step)) +:+ "x]" else "" in
  attempt ← fmt_attempt (snd who);
  cost ← cost_text (ev_payload e);
  summary ← _summary (ev_payload e);
  mret (takeover ++
    ["  +" +:+ pad_left 6 (secs (at_ - t0)) +:+ "s  seq=" +:+ pad_right 3 (string_of_Z (ev_seq e)) +:+
     " " +:+ pad_right 16 (ev_type e) +:+ " " +:+ fstr (fst who) +:+ "#" +:+ attempt +:+ " " +:+
     pad_right 10 cost +:+ " " +:+ summary +:+ asked], (who, at_)).

Fixpoint log_lines (t0 : Z) (calls : Z -> nat) (prev : option ((json * json) * Z))
    (rows : list event_row) : res (list string) :=
  match rows with
  | [] => mret []
  | row :: rows' =>
      '(ls, now) ← event_lines t0 calls prev row;
      rest ← log_lines t0 calls (Some now) rows';
      mret (ls ++ rest)
  end.

(** The rows of a run in the order of the log. *)
Definition rows_of (rid : uuid) (d : db) : list event_row :=
  sort_by (fun x y => ev_seq (er_event x) <=? ev_seq (er_event y))
    (filter (fun r => ev_run_id (er_event r) = rid) (events d)).

(** [Counter(step_index for ... in provider_calls)] *)
Definition calls_at (rid : uuid) (d : db) (step : Z) : nat :=
  length (filter (fun c => call_step_index c = step) (calls_of rid d)).

(** A task of the run ([fetchrow]: the first row). *)
Definition task_of (rid : uuid) (d : db) : option task_row :=
  snd <$> head (filter (fun p => task_run_id (snd p) = rid) (map_to_list (tasks d))).

Definition task_status_str (s : task_status) : string :=
  match s with Queued => "queued" | Leased => "leased" | Done => "done" end.

Definition header_lines (rid : uuid) (r : run_row) (t : option task_row) : list string :=
  ["run " +:+ uuid_str rid +:+ "  status=" +:+ run_status_str (run_status_of r) +:+
     "  spent=$" +:+ string_of_dec (of_numeric 6 (run_spent_usd r)) +:+
     " of $" +:+ string_of_dec (of_numeric 4 (run_budget_usd r));
   "task: status=" +:+ (match t with Some t => task_status_str (task_status_of t) | None => "-" end) +:+
     " attempts=" +:+ string_of_Z (match t with Some t => task_attempt t | None => 0 end);
   ""].

Definition build_timeline (rid : uuid) : M db string := fun d =>
  (match runs d !! rid with
   | None => Ok ("run " +:+ uuid_str rid +:+ " not found")
   | Some r =>
       let t0 := run_created_at r in
       body ← log_lines t0 (calls_at rid d) None (rows_of rid d);
       mret (join (chr 10)
         (header_lines rid r (task_of rid d) ++ body ++
          match run_finished_at r with
          | Some t => [chr 10 +:+ "finished after " +:+ secs (t - t0) +:+ "s"]
          | None => []
          end))
   end, d).

(** ** Takeovers *)

(** The places of a log where the writer changes. *)
Fixpoint changes (ws : list (json * json)) : nat :=
  match ws with
  | w :: (w' :: _) as rest => (if bool_decide (w' = w) then 0 else 1) + changes rest
  | _ => 0
  end.

Definition with_prev (prev : option ((json * json) * Z)) (ws : list (json * json)) : list (json * json) :=
  match prev with Some (w, _) => w :: ws | None => ws end.

(** One line per event and one per change of writer. *)
Lemma log_lines_count t0 calls prev rows ls :
  log_lines t0 calls prev rows = Ok ls ->
  exists ws, mapR (fun r => writer (er_event r)) rows = Ok ws /\
    length ls = (length rows + changes (with_prev prev ws))%nat.
Proof.
  revert prev ls. induction rows as [|row rows IH]; intros prev ls H; simpl in H.
  { injection H as <-. exists []. split; [done|]. by destruct prev as [[]|]. }
  unfold event_lines in H. destruct (writer (er_event row)) as [who|] eqn:Ew; [|done]. simpl in H.
  destruct (key_step _) as [st|]; [|done]. simpl in H.
  destruct (fmt_attempt _) as [att|]; [|done]. simpl in H.
  destruct (cost_text _) as [cost|]; [|done]. simpl in H.
  destruct (_summary _) as [sm|]; [|done]. simpl in H.
  destruct (log_lines t0 calls _ rows) as [rest|] eqn:Er; [|done]. simpl in H. injection H as <-.
  apply IH in Er as (ws & Hws & Hlen). exists (who :: ws). simpl. rewrite Ew. simpl. rewrite Hws. simpl.
  split; [done|]. simpl in Hlen. rewrite !length_app, Hlen. simpl.
  destruct prev as [[w t]|]; simpl; [|lia]. case_bool_decide; simpl; lia.
Qed.
End Timeline.
