(* ===== verification/Api.v ===== *)
(** [api.py]: the HTTP handlers, the application that routes to them and its
    pool.

    FastAPI and pydantic are not modelled beyond what the code declares: how
    they read a body and an identifier is a parameter of the routes, a
    [SubmitRequest] has its typed fields, [validate] is the declared bounds and
    the validator, and an [HTTPException] carries the status of the answer. *)

From S2P Require Import Prelude PyString PyDecimal Json Env Database Store Leases Engine LlmCache.
From S2P Require Import Workspace Agent Anthropic OpenAI System Workers Timeline.

Definition MAX_STEPS_CAP : Z := 50.
Definition DEFAULT_MAX_BUDGET : dec := Dec 10 (-2).

Inductive run_kind := KindToy | KindAgent.

(** [sr_step_delay] is the [repr] of the float. *)
Record SubmitRequest := MkSubmitRequest {
  sr_kind : run_kind;
  sr_prompt : option string;
  sr_mock_scenario : option string;
  sr_max_steps : Z;
  sr_steps : Z;
  sr_step_delay : string;
  sr_budget_usd : dec;
}.

Definition between (lo hi n : Z) : bool := (lo <=? n) && (n <=? hi).

(** The validator: what an agent run needs. *)
Definition _check (r : SubmitRequest) : bool :=
  match sr_kind r with
  | KindToy => true
  | KindAgent =>
      match sr_prompt r with Some p => negb (bool_decide (p = "")) | None => false end &&
      match sr_mock_scenario r with
      | Some s => bool_decide (is_Some (SCENARIOS s))
      | None => true
      end
  end.

(** The fields' declared bounds, then the validator. *)
Definition validate (r : SubmitRequest) : bool :=
  match sr_prompt r with Some p => Z.of_nat (String.length p) <=? 8000 | None => true end &&
  between 1 MAX_STEPS_CAP (sr_max_steps r) && between 1 200 (sr_steps r) &&
  match dec_of_string (sr_step_delay r) with
  | Some d => dec_leb dec_zero d && dec_leb d (dec_of_Z 2)
  | None => false
  end &&
  dec_ltb dec_zero (sr_budget_usd r) && _check r.

Definition to_spec (r : SubmitRequest) : dict :=
  match sr_kind r with
  | KindToy => [("kind", JStr "toy"); ("steps", JInt (sr_steps r));
                ("step_delay", JFloat (sr_step_delay r))]
  | KindAgent =>
      let spec := [("kind", JStr "agent");
                   ("prompt", match sr_prompt r with Some p => JStr p | None => JNull end);
                   ("max_steps", JInt (sr_max_steps r))] in
      match sr_mock_scenario r with
      | Some s => if bool_decide (s = "") then spec else dset "mock_scenario" (JStr s) spec
      | None => spec
      end
  end.

(** [hmac.compare_digest] of two strings takes ASCII only. *)
Definition is_ascii (s : string) : bool :=
  forallb (fun c => (N_of_ascii c <? 128)%N) (str_to_list s).

Definition require_key (env : environ) (x_api_key : option string) : res unit :=
  let expected := getenv_or "PHOENIX_API_KEY" "" env in
  let given := default "" x_api_key in
  if bool_decide (expected = "") then Ok tt
  else if negb (is_ascii expected && is_ascii given) then Raise TypeError
  else if bool_decide (given = expected) then Ok tt else Raise (HTTPException 401).

Section Handlers.
Context (env : environ).

Definition budget_cap : res dec :=
  of_option InvalidOperation
    (dec_of_string (getenv_or "PHOENIX_API_MAX_BUDGET_USD" (string_of_dec DEFAULT_MAX_BUDGET) env)).

(** [POST /runs]: the key, the body, the cap, the run. *)
Definition submit (key : option string) (body : SubmitRequest) (now : Z) (rid tid : uuid) :
    M db string :=
  lift_res (require_key env key) ;;
  if negb (validate body) then raise (HTTPException 422)
  else
    cap ← lift_res budget_cap;
    if dec_ltb cap (sr_budget_usd body) then raise (HTTPException 422)
    else
      run_id ← submit_run now rid tid (JObj (to_spec body)) (inr (sr_budget_usd body));
      mret (uuid_str run_id).

(** The row of the query of [_run_or_404]. *)
Record run_info := MkRunInfo {
  ri_run : run_row;
  ri_task : option task_row;
  ri_events : Z;
}.

Definition _run_or_404 (rid : uuid) : M db run_info := fun d =>
  (match runs d !! rid with
   | Some r => Ok (MkRunInfo r (task_of rid d) (Z.of_nat (length (events_of rid d))))
   | None => Raise (HTTPException 404)
   end, d).

Section Reading.
(** [datetime.isoformat()] and a time difference with two decimals *)
Context (isoformat secs : Z -> string).

(** [GET /runs/{run_id}] *)
Definition status (key : option string) (rid : uuid) : M db dict :=
  lift_res (require_key env key) ;;
  i ← _run_or_404 rid;
  let r := ri_run i in
  mret [("run_id", JStr (uuid_str rid));
        ("status", JStr (run_status_str (run_status_of r)));
        ("budget_usd", JStr (string_of_dec (of_numeric 4 (run_budget_usd r))));
        ("spent_usd", JStr (string_of_dec (of_numeric 6 (run_spent_usd r))));
        ("events", JInt (ri_events i));
        ("task", JObj
          [("status", match ri_task i with
                      | Some t => JStr (task_status_str (task_status_of t))
                      | None => JNull
                      end);
           ("attempts", match ri_task i with Some t => JInt (task_attempt t) | None => JNull end)]);
        ("created_at", JStr (isoformat (run_created_at r)));
        ("finished_at", match run_finished_at r with Some t => JStr (isoformat t) | None => JNull end)].

(** [GET /runs/{run_id}/events] *)
Definition events_handler (key : option string) (rid : uuid) : M db (list dict) :=
  lift_res (require_key env key) ;;
  _run_or_404 rid ;;
  evs ← read_events rid;
  mret ((fun e => [("seq", JInt (ev_seq e)); ("type", JStr (ev_type e));
                   ("payload", JObj (ev_payload e))]) <$> evs).

(** [GET /runs/{run_id}/timeline] *)
Definition timeline (key : option string) (rid : uuid) : M db string :=
  lift_res (require_key env key) ;;
  _run_or_404 rid ;;
  build_timeline secs rid.

(** Reading never writes. *)
Lemma reads_keep key rid d :
  snd (status key rid d) = d /\ snd (events_handler key rid d) = d /\ snd (timeline key rid d) = d.
Proof.
  unfold status, events_handler, timeline, _run_or_404, read_events, build_timeline, lift_res. unfold_m.
  destruct (require_key env key); [|done]. destruct (runs d !! rid); done.
Qed.
End Reading.

(** ** Submissions are bounded *)

(** The work and the provider a spec accepted from a caller can ask for. *)
Definition bounded_spec (spec : dict) : Prop :=
  dmem "mock_script" spec = false /\
  ((exists n, dget "kind" spec = Some (JStr "toy") /\ dget "steps" spec = Some (JInt n) /\ 1 <= n <= 200) \/
   (exists n, dget "kind" spec = Some (JStr "agent") /\ dget "max_steps" spec = Some (JInt n) /\
      1 <= n <= MAX_STEPS_CAP)).

Lemma validate_spec r : validate r = true -> bounded_spec (to_spec r).
Proof.
  unfold validate, between, to_spec, bounded_spec. intros H. bool_to_prop.
  destruct (sr_kind r).
  - split; [done|]. left. exists (sr_steps r). split_and!; [done|done|lia..].
  - destruct (sr_mock_scenario r) as [s|]; [case_bool_decide|];
      (split; [done|]; right; exists (sr_max_steps r); split_and!; [done|done|lia..]).
Qed.

(** C29: what a caller can start is bounded.  A submission that is accepted
    had the key when one is set, a positive budget of at most the cap, and
    creates one pending run with one queued task whose spec is within the
    step limits and cannot carry a script; a submission that is refused
    creates nothing. *)
Theorem submit_bounded key body now rid tid d r d' :
  submit key body now rid tid d = (r, d') ->
  match r with
  | Ok text =>
      text = uuid_str rid /\ require_key env key = Ok tt /\
      exists cap b, budget_cap = Ok cap /\ dec_ltb dec_zero (sr_budget_usd body) = true /\
        dec_ltb cap (sr_budget_usd body) = false /\ numeric 10 4 (sr_budget_usd body) = Ok b /\
        runs d' = <[rid := RunRow (JObj (to_spec body)) Pending b 0 now None]> (runs d) /\
        tasks d' = <[tid := TaskRow rid Queued None None 0 now]> (tasks d) /\
        runs d !! rid = None /\ events d' = events d /\ bounded_spec (to_spec body)
  | Raise _ => d' = d
  end.
Proof.
  unfold submit. intros H. unfold mbind at 1, M_bind at 1, lift_res at 1 in H.
  destruct (require_key env key) as [[]|e]; [|by injection H as <- <-].
  destruct (validate body) eqn:Hv; [|by injection H as <- <-]. change (negb true) with false in H. cbv iota in H.
  unfold mbind at 1, M_bind at 1, lift_res at 1 in H.
  destruct budget_cap as [cap|e]; [|by injection H as <- <-].
  destruct (dec_ltb cap (sr_budget_usd body)) eqn:Hc; [by injection H as <- <-|].
  unfold mbind at 1, M_bind at 1 in H.
  destruct (submit_run now rid tid _ _ d) as [[run_id|e] d1] eqn:E.
  2: { injection H as <- <-. unfold submit_run in E. by apply transaction_atomic in E. }
  injection H as <- <-. pose proof E as (Hr & _ & He & _ & Ht & _)%submit_run_Ok.
  unfold submit_run in E. rewrite transaction_Ok in E. unfold insert_run in E.
  apply bind_Ok_inv in E as (x & d2 & E & E2). simpl in E.
  unfold mbind, M_bind, lift_res in E. simpl in E.
  match type of E with match ?x with _ => _ end = _ => destruct x as [[]|]; [|done] end.
  destruct (numeric 10 4 (sr_budget_usd body)) as [b|] eqn:Hb; [|done].
  unfold insert_run_row in E. rewrite Hr in E. injection E as <- <-.
  unfold enqueue_task, insert_task_row in E2. unfold mbind, M_bind in E2. simpl in E2.
  destruct (tasks d !! tid); [done|]. rewrite lookup_insert_eq in E2. injection E2 as <- <-.
  split_and!; [done..|]. exists cap, b. split_and!; try done; [|by apply validate_spec].
  unfold validate in Hv. by bool_to_prop.
Qed.

(** An accepted toy run, or an agent run with a scenario, has a workflow. *)
Lemma submitted_workflow {P B} client (docker : res B) (ctx : EngineContext P B) b body :
  validate body = true -> ctx_provider ctx = None -> docker = Ok b ->
  env_is "PHOENIX_REAL_LLM" "1" env = false ->
  (sr_kind body = KindAgent -> exists s, sr_mock_scenario body = Some s /\ s <> "") ->
  exists w, workflow_for (P := P) env client docker (to_spec body) ctx = Ok w.
Proof.
  intros Hv Hp -> He Hs. unfold workflow_for, to_spec, _provider_for. rewrite Hp, He.
  destruct (sr_kind body) eqn:Hk.
  { eexists. reflexivity. }
  destruct (Hs eq_refl) as (s & Hm & Hne).
  unfold validate, _check in Hv. rewrite Hk, Hm in Hv. bool_to_prop.
  rewrite Hm, (bool_decide_eq_false_2 (s = "")) by done.
  assert (Hg : exists p, get_scenario s = Ok p).
  { match goal with H : is_Some (SCENARIOS s) |- _ => destruct H as [l Hl] end.
    unfold get_scenario. rewrite Hl. by eexists. }
  destruct Hg as [p Hg]. set (prompt := match sr_prompt body with Some p => JStr p | None => JNull end).
  clearbody prompt. clear -Hg. set (n := sr_max_steps body). clearbody n.
  destruct (ctx_sandbox ctx); eexists; lazy -[get_scenario]; rewrite Hg; reflexivity.
Qed.
End Handlers.

(** ** The application: its pool and its routes *)

(** [create_app] and its [lifespan].  A pool that was passed in belongs to the
    caller; otherwise one is opened from [DATABASE_URL] at start-up and closed
    when the server stops, however it stops.  Opening, closing and serving are
    the client library's and the web server's. *)
Section App.
Context {S Pool : Type} (create_pool : string -> M S Pool) (close : Pool -> M S unit).

Definition lifespan {A} (env : environ) (pool : option Pool) (serve : Pool -> M S A) : M S A :=
  match pool with
  | Some p => serve p
  | None =>
      url ← lift_res (of_option (KeyError "DATABASE_URL") (env !! "DATABASE_URL"));
      p ← create_pool url;
      try_finally (serve p) (close p)
  end.

(** The pools that are open: the server neither opens nor closes one, and what
    the application opens it closes, also when serving fails. *)
Lemma lifespan_balanced {A} (pools : S -> list Pool) env pool (serve : Pool -> M S A) s :
  (forall url s, match create_pool url s with
     | (Ok p, s') => pools s' = p :: pools s | (Raise _, s') => pools s' = pools s end) ->
  (forall p s l, pools s = p :: l -> pools (snd (close p s)) = l) ->
  (forall p s, pools (snd (serve p s)) = pools s) ->
  pools (snd (lifespan env pool serve s)) = pools s.
Proof.
  intros Ho Hc Hs. unfold lifespan. destruct pool as [p|]; [apply Hs|]. unfold mbind, M_bind, lift_res.
  destruct (of_option _ _) as [url|e]; [|done]. specialize (Ho url s).
  destruct (create_pool url s) as [[p|e] s1]; [|done]. unfold try_finally. specialize (Hs p s1).
  destruct (serve p s1) as [r s2]. simpl in Hs. specialize (Hc p s2 (pools s)). rewrite Hs, Ho in Hc.
  specialize (Hc eq_refl). destruct (close p s2) as [[u|e] s3]; done.
Qed.
End App.

(** What FastAPI makes of a request's body before the handler runs: bytes that
    it cannot read, text that is no JSON, JSON that is no [SubmitRequest], or
    the fields of one, still to be validated. *)
Inductive parsed := Unreadable | NotJson | IllTyped | Parsed (body : SubmitRequest).

(** The requests: their header [X-API-Key] where the route asks for one, and
    the text of the body and of the path's parameter.  [GetOwn] are the pages
    FastAPI adds to every application ([/docs], [/redoc], [/openapi.json]);
    [NoRoute] is a path that no route matches.  Other methods on these paths,
    which the framework refuses, are left out. *)
Inductive request :=
  | GetHealth
  | PostRuns (key : option string) (body : string)
  | GetRun (key : option string) (run_id : string)
  | GetEvents (key : option string) (run_id : string)
  | GetTimeline (key : option string) (run_id : string)
  | GetOwn (path : string)
  | NoRoute (path : string).

Definition key_of (rq : request) : option string :=
  match rq with
  | PostRuns key _ | GetRun key _ | GetEvents key _ | GetTimeline key _ => key
  | _ => None
  end.

(** The routes without [dependencies=auth]. *)
Definition keyless (rq : request) : bool :=
  match rq with GetHealth | GetOwn _ | NoRoute _ => true | _ => false end.

Inductive content := JsonBody (j : json) | PlainText (text : string).

Section Routes.
Context (env : environ) (isoformat secs : Z -> string).

(** FastAPI and pydantic: reading a body and an identifier, their own pages. *)
Context (parse_body : string -> parsed) (parse_id : string -> option uuid) (own_page : string -> content).

(** [GET /health]: one query that reads no table, and may fail. *)
Definition health (select_1 : res unit) : M db dict :=
  lift_res select_1 ;; mret [("status", JStr "ok")].

Definition run_id_answer (text : string) : dict := [("run_id", JStr text)].

(** A body that cannot be read is refused before any dependency runs. *)
Definition read_body (body : string) : res parsed :=
  match parse_body body with
  | Unreadable => Raise (HTTPException 400)
  | NotJson => Raise (HTTPException 422)
  | p => Ok p
  end.

(** The dependencies run before an ill-typed parameter is reported. *)
Definition with_id {A} (key : option string) (text : string) (handler : uuid -> M db A) : M db A :=
  match parse_id text with
  | Some run_id => handler run_id
  | None => lift_res (require_key env key) ;; raise (HTTPException 422)
  end.

(** The handler of a request; [select_1] is how the probe's query ends, [now],
    [rid] and [tid] are the clock and the fresh identifiers of a submission. *)
Definition route (select_1 : res unit) (now : Z) (rid tid : uuid) (rq : request) : M db content :=
  match rq with
  | GetHealth => d ← health select_1; mret (JsonBody (JObj d))
  | PostRuns key text =>
      p ← lift_res (read_body text);
      match p with
      | Parsed body => text ← submit env key body now rid tid; mret (JsonBody (JObj (run_id_answer text)))
      | _ => lift_res (require_key env key) ;; raise (HTTPException 422)
      end
  | GetRun key text => d ← with_id key text (status env isoformat key); mret (JsonBody (JObj d))
  | GetEvents key text => l ← with_id key text (events_handler env key); mret (JsonBody (JArr (JObj <$> l)))
  | GetTimeline key text => text ← with_id key text (timeline env secs key); mret (PlainText text)
  | GetOwn path => mret (own_page path)
  | NoRoute _ => raise (HTTPException 404)
  end.

(** The status of the answer: the route's own, that of an [HTTPException], or
    500 for anything else that is raised. *)
Definition http_status (rq : request) (r : res content) : Z :=
  match r with
  | Ok _ => match rq with PostRuns _ _ => 202 | _ => 200 end
  | Raise (HTTPException code) => code
  | Raise _ => 500
  end.

(** What a wrong key raises, and that nothing else is done then. *)
Lemma require_key_refuses key given :
  getenv_or "PHOENIX_API_KEY" "" env = key -> key <> "" -> default "" given <> key ->
  require_key env given = Raise (if is_ascii key && is_ascii (default "" given) then HTTPException 401 else TypeError).
Proof.
  intros Hk Hne Hg. unfold require_key. rewrite Hk, (bool_decide_eq_false_2 (key = "")) by done.
  rewrite (bool_decide_eq_false_2 (default "" given = key)) by done. by destruct (is_ascii key && _).
Qed.

(** The body of a submission can be read, so that its key is looked at. *)
Definition readable (rq : request) : res unit :=
  match rq with PostRuns _ text => read_body text ;; Ok tt | _ => Ok tt end.

Lemma route_refused select_1 now rid tid rq e d :
  keyless rq = false -> require_key env (key_of rq) = Raise e ->
  route select_1 now rid tid rq d = (readable rq ;; Raise e, d).
Proof.
  intros Hh H. destruct rq as [|key text|key text|key text|key text|path|path]; try done; simpl in H |- *;
    unfold submit, with_id, status, events_handler, timeline, mbind, M_bind, lift_res.
  1: { destruct (read_body text) as [p|]; [|done]. simpl. destruct p; by rewrite H. }
  all: destruct (parse_id text); by rewrite H.
Qed.

Lemma with_id_reads {A B} key text (handler : uuid -> M db A) (f : A -> B) d :
  (forall run_id, snd (handler run_id d) = d) -> snd ((a ← with_id key text handler; mret (f a)) d) = d.
Proof.
  intros H. unfold with_id, mbind, M_bind, lift_res. destruct (parse_id text) as [run_id|].
  - specialize (H run_id). by destruct (handler run_id d) as [[a|e] d'].
  - by destruct (require_key env key).
Qed.

Lemma route_reads select_1 now rid tid rq d :
  (forall key body, rq <> PostRuns key body) -> snd (route select_1 now rid tid rq d) = d.
Proof.
  intros H. destruct rq as [|key text|key text|key text|key text|path|path]; simpl; try done.
  - unfold health, mbind, M_bind, lift_res. by destruct select_1.
  - by destruct (H key text).
  - apply with_id_reads. intros run_id. apply (reads_keep env isoformat secs key run_id d).
  - apply with_id_reads. intros run_id. apply (reads_keep env isoformat secs key run_id d).
  - apply with_id_reads. intros run_id. apply (reads_keep env isoformat secs key run_id d).
Qed.

Lemma require_key_code given code : require_key env given = Raise (HTTPException code) -> code = 401.
Proof.
  unfold require_key. destruct (bool_decide _); [done|]. destruct (negb _); [done|].
  destruct (bool_decide _); [done|]. by intros [= <-].
Qed.

Lemma submit_code key body now rid tid d code :
  fst (submit env key body now rid tid d) = Raise (HTTPException code) -> code = 401 \/ code = 422.
Proof.
  unfold submit, mbind, M_bind, lift_res.
  destruct (require_key env key) as [[]|e] eqn:Hk; [|intros [= ->]; left; by apply require_key_code in Hk].
  destruct (negb _); [intros [= <-]; by right|]. destruct (budget_cap env) as [cap|e] eqn:Hb.
  2:{ simpl. unfold budget_cap, of_option in Hb. destruct (dec_of_string _); [done|]. by injection Hb as <-. }
  destruct (dec_ltb cap _); [intros [= <-]; by right|].
  unfold submit_run, insert_run, enqueue_task, transaction, mbind, M_bind, lift_res. cbn [py_decimal]. unfold numeric.
  destruct (jsonb _) as [[]|e] eqn:Hj; [|intros [= ->]; by destruct (jsonb_raises _ _ Hj)].
  cbn iota.
  destruct (_ <? _); [|done]. unfold insert_run_row. destruct (runs d !! rid); [done|].
  unfold insert_task_row. simpl. destruct (tasks d !! tid); [done|]. by rewrite lookup_insert_eq.
Qed.

(** Nothing but the handlers raises an [HTTPException]. *)
Definition no_http {A} (r : res A) : Prop := forall code, r <> Raise (HTTPException code).

Lemma no_http_bind {A B} (m : res A) (f : A -> res B) : no_http m -> (forall a, no_http (f a)) -> no_http (m ≫= f).
Proof. destruct m as [a|e]; intros Hm Hf code; [apply Hf|]. intros [= ->]. by apply (Hm code). Qed.
Lemma no_http_dict v : no_http (as_dict v).
Proof. by destruct v. Qed.
Lemma no_http_option {A} e (o : option A) : (forall code, e <> HTTPException code) -> no_http (of_option e o).
Proof. intros He code. destruct o; [done|]. intros [= ->]. by apply (He code). Qed.
Lemma no_http_summary p : no_http (_summary p).
Proof.
  unfold _summary, py_in, subscript, text_lines, dindex.
  repeat first [apply no_http_bind; [|intros ?] | apply no_http_dict | by apply no_http_option | by intros code | case_match].
Qed.
Lemma no_http_event_lines t0 calls prev row : no_http (event_lines secs t0 calls prev row).
Proof.
  unfold event_lines, writer, key_step, fmt_attempt, cost_text.
  repeat first [apply no_http_bind; [|intros ?] | apply no_http_dict | apply no_http_summary | by apply no_http_option
    | by intros code | case_match].
Qed.
Lemma no_http_log_lines t0 calls prev rows : no_http (log_lines secs t0 calls prev rows).
Proof.
  revert prev. induction rows as [|row rows IH]; intros prev; [done|]. simpl. apply no_http_bind; [apply no_http_event_lines|].
  intros [ls now']. apply no_http_bind; [apply IH|]. by intros rest code.
Qed.

(** What reading a run raises. *)
Lemma reads_code {A} key rid d (m : run_info -> M db A) code :
  (forall i, no_http (fst (m i d))) ->
  fst ((lift_res (require_key env key) ;; i ← _run_or_404 rid; m i) d) = Raise (HTTPException code) ->
  code = 401 \/ code = 404 /\ runs d !! rid = None.
Proof.
  intros Hm. unfold mbind, M_bind, lift_res, _run_or_404.
  destruct (require_key env key) as [[]|e] eqn:Hk; [|intros [= ->]; left; by apply require_key_code in Hk].
  destruct (runs d !! rid) as [r|]; [|intros [= <-]; by right]. intros H. by apply Hm in H.
Qed.

Lemma bind_code {A B} (m : M db A) (f : A -> B) d code :
  fst ((a ← m; mret (f a)) d) = Raise (HTTPException code) -> fst (m d) = Raise (HTTPException code).
Proof. unfold mbind, M_bind. destruct (m d) as [[a|e] d']; [done|]. by intros [= ->]. Qed.

Lemma http_code rq r code : http_status rq r = code -> code <> 200 -> code <> 202 -> code <> 500 ->
  r = Raise (HTTPException code).
Proof. destruct r as [c|[]], rq; simpl; congruence. Qed.

Lemma with_id_code {A B} key text (handler : uuid -> M db A) (f : A -> B) d code :
  fst ((a ← with_id key text handler; mret (f a)) d) = Raise (HTTPException code) ->
  code = 401 \/ code = 422 \/
  exists run_id, parse_id text = Some run_id /\ fst (handler run_id d) = Raise (HTTPException code).
Proof.
  intros H. apply bind_code in H. unfold with_id in H. destruct (parse_id text) as [run_id|] eqn:Hp; [by eauto|].
  unfold mbind, M_bind, lift_res in H. destruct (require_key env key) as [[]|e] eqn:Hk.
  - injection H as <-. by right; left.
  - injection H as ->. left. by apply require_key_code in Hk.
Qed.

(** C30: the key guards the four routes that touch the tables, and only
    those: the probe, FastAPI's own pages and unknown paths ask for none and
    change nothing, and the probe answers 200 exactly when its query did.
    When a key is set, a request to a guarded route that does not carry it
    is answered 401 - or 500, when one of the two keys is not ASCII, or 400
    or 422, when its body cannot be read - and reads and writes nothing.
    Whatever its key, a request that is not a submission never writes, and
    one to a route of the application that is answered 404 named a run that
    does not exist. *)
Theorem routes_guarded select_1 now rid tid rq d :
  let answer := route select_1 now rid tid rq d in
  (keyless rq = true -> snd answer = d /\ forall d', fst (route select_1 now rid tid rq d') = fst answer) /\
  (rq = GetHealth -> fst answer = (select_1 ;; Ok (JsonBody (JObj [("status", JStr "ok")])))) /\
  (keyless rq = false -> forall key, getenv_or "PHOENIX_API_KEY" "" env = key -> key <> "" ->
     default "" (key_of rq) <> key ->
     snd answer = d /\
     fst answer = (readable rq ;;
       Raise (if is_ascii key && is_ascii (default "" (key_of rq)) then HTTPException 401 else TypeError)) /\
     forall d', fst (route select_1 now rid tid rq d') = fst answer) /\
  ((forall key body, rq <> PostRuns key body) -> snd answer = d) /\
  (keyless rq = false -> http_status rq (fst answer) = 404 ->
     exists text run_id, parse_id text = Some run_id /\ runs d !! run_id = None /\
     (rq = GetRun (key_of rq) text \/ rq = GetEvents (key_of rq) text \/ rq = GetTimeline (key_of rq) text)).
Proof.
  intros answer. split_and!.
  - intros Hk. split; [apply route_reads; intros key body ->; done|]. intros d'. unfold answer.
    destruct rq; try done. simpl. unfold health, mbind, M_bind, lift_res. by destruct select_1.
  - intros ->. unfold answer. simpl. unfold health, mbind, M_bind, lift_res. by destruct select_1 as [[]|].
  - intros Hh key Hk Hne Hg. pose proof (require_key_refuses _ _ Hk Hne Hg) as Hr.
    assert (Ha : forall d', route select_1 now rid tid rq d' = (_, d'))
      by (intros d'; exact (route_refused select_1 _ _ _ _ _ d' Hh Hr)).
    unfold answer. rewrite (Ha d). split_and!; [done..|]. intros d'. by rewrite (Ha d').
  - apply route_reads.
  - intros Hkl H%http_code; [|done..]. unfold answer in H. clear answer.
    destruct rq as [|key text|key text|key text|key text|path|path]; try done; simpl in H.
    { unfold read_body, mbind, M_bind, lift_res in H. destruct (parse_body text) as [| | |body]; try done.
      - destruct (require_key env key) eqn:Hk; [done|]. injection H as ->. by apply require_key_code in Hk.
      - apply bind_code in H. by destruct (submit_code _ _ _ _ _ _ _ H). }
    all: apply with_id_code in H as [?|[?|(run_id & Hp & H)]]; [done..|];
      exists text, run_id; split; [done|]; apply reads_code in H as [?|[_ ?]]; [done|by auto|].
    + by intros i code.
    + by intros i code.
    + intros i. unfold build_timeline. simpl. destruct (runs d !! run_id); [|done].
      apply no_http_bind; [apply no_http_log_lines|]. by intros body code.
Qed.
End Routes.
