(* ===== verification/Evals.v ===== *)
(** [evals/catalog.py], [evals/report.py] and [evals/runner.py]: the eval
    tasks with the scripts that stand in for a model, the guard on what a real
    evaluation may cost, the grading of a run, and the summary.

    The directories of the tasks are a parameter: what each file holds.  How a
    suite is submitted, waited for and its workers run is in [EvalRun.v]. *)

From Stdlib Require Import QArith Qround.
From S2P Require Import Prelude PyString PyDecimal Json JsonParse Env Database Store Leases Engine Budget.
From S2P Require Import LlmCache Workspace Agent Invariants Timeline.

(** ** The catalog *)
Definition CHECK : string :=
  "import solution" +:+ chr 10 +:+
  "print('imported ok:', [n for n in dir(solution) if not n.startswith('_')])" +:+ chr 10.

(** A task's directory: the texts of its files. *)
Record task_dir := MkTaskDir {
  td_name : string;
  td_task_json : option string;
  td_test : string;
  td_solution : string;
  td_wrong_solution : string;
}.

Record EvalTask := MkEvalTask {
  et_id : json;
  et_name : json;
  et_difficulty : json;
  et_prompt : json;
  et_dir : task_dir;
  et_fail_first : Z;
  et_outcome : json;
}.

Definition hidden_test (t : EvalTask) : string := td_test (et_dir t).
Definition reference (t : EvalTask) : string := td_solution (et_dir t).
Definition final_solution (t : EvalTask) : string :=
  if bool_decide (et_outcome t = JStr "wrong") then td_wrong_solution (et_dir t)
  else td_solution (et_dir t).

(** [l[:n]] *)
Definition slice_to {A} (n : Z) (l : list A) : list A :=
  take (Z.to_nat (if n <? 0 then n + Z.of_nat (length l) else n)) l.

Definition drafts (t : EvalTask) : list string :=
  ["import missing_module_xyz" +:+ chr 10 +:+ reference t;
   reference t +:+ chr 10 +:+ "assert False, 'self-check failed'" +:+ chr 10].

Definition mock_script_of (t : EvalTask) : list dict :=
  [write "check.py" CHECK] ++
  concat ((fun draft => [write "solution.py" draft; run "check.py"]) <$> slice_to (et_fail_first t) (drafts t)) ++
  [write "solution.py" (final_solution t); run "check.py"; finish "done"].

Section Catalog.
Context (float_repr : string -> string).

Definition load_task (d : task_dir) (text : string) : res EvalTask :=
  meta ← loads float_repr text;
  id ← subscript "id" meta;
  name ← subscript "name" meta;
  difficulty ← subscript "difficulty" meta;
  prompt ← subscript "prompt" meta;
  mock ← subscript "mock" meta;
  fail_first ← (v ← subscript "fail_first" mock; py_int v);
  outcome ← subscript "outcome" mock;
  mret (MkEvalTask id name difficulty prompt d fail_first outcome).

(** [load_tasks]: the directories in order of their names, those without a
    [task.json] left out. *)
Fixpoint load_dirs (dirs : list task_dir) : res (list EvalTask) :=
  match dirs with
  | [] => mret []
  | d :: dirs' =>
      match td_task_json d with
      | None => load_dirs dirs'
      | Some text => t ← load_task d text; ts ← load_dirs dirs'; mret (t :: ts)
      end
  end.

Definition load_tasks (dirs : list task_dir) : res (list EvalTask) :=
  load_dirs (sort_by (fun x y => str_leb (td_name x) (td_name y)) dirs).
End Catalog.

(** ** What an evaluation may cost *)

(** [EvalConfigError] *)
Definition config_error {A} : res A := Raise EvalConfigError.

Definition check_real_mode (env : environ) (real : bool) (per_run_usd : dec) (n_tasks : Z)
    (cap_usd : dec) : res unit :=
  if dec_ltb cap_usd (dec_mul per_run_usd (dec_of_Z n_tasks)) then config_error
  else if real then
    if negb (env_is "PHOENIX_REAL_LLM" "1" env) then config_error
    else
      match required_key_env env with
      | Raise RuntimeError => config_error
      | Raise e => Raise e
      | Ok key_env => if bool_decide (getenv_or key_env "" env = "") then config_error else Ok tt
      end
  else Ok tt.

Definition spec_for (t : EvalTask) (real : bool) : dict :=
  let spec := [("kind", JStr "agent"); ("prompt", et_prompt t); ("max_steps", JInt 20)] in
  if real then spec else dset "mock_script" (JArr (JObj <$> mock_script_of t)) spec.

Definition model_name (env : environ) (real : bool) : res string :=
  if negb real then Ok "mock (scripted; validates the pipeline, not a model)"
  else kind ← provider_kind env; model ← default_model env; mret (kind +:+ ": " +:+ model).

(** ** Grading *)
Definition HIDDEN_TEST_NAME : string := "_hidden_test.py".

(** An agent may write a file of that name; grading overwrites it. *)
Example hidden_test_name_is_allowed : path_ok HIDDEN_TEST_NAME = true.
Proof. by_vm. Qed.

Record TaskResult := MkTaskResult {
  tr_id : json;
  tr_name : json;
  tr_difficulty : json;
  tr_run_status : string;
  tr_passed : bool;
  tr_steps : Z;
  tr_attempts : Z;
  tr_tokens : Z;
  tr_cost_usd : dec;
  tr_latency_s : Q;
  tr_note : string;
}.

(** An integer of a payload ([a + b] on anything else raises). *)
Definition as_int (v : json) : res Z :=
  match v with JInt z => Ok z | JBool b => Ok (if b then 1 else 0) | _ => Raise TypeError end.

Definition event_tokens (e : event) : res Z :=
  i ← as_int (dget_or "input_tokens" (JInt 0) (ev_payload e));
  o ← as_int (dget_or "output_tokens" (JInt 0) (ev_payload e));
  mret (i + o).

Definition is_run_code (e : event) : res bool :=
  action ← as_dict (dget_or "action" (JObj []) (ev_payload e));
  mret (bool_decide (dget_or "tool" JNull action = JStr "run_code")).

Definition reason_of (e : event) : string :=
  py_str (dget_or "reason" (JStr "") (ev_payload e)).

(** The platform or the provider failed, not the model. *)
Definition infra (evs : list event) : bool :=
  match last evs with
  | Some e => bool_decide (ev_type e = "failed") &&
      (startswith "worker error" (reason_of e) || startswith "fatal error" (reason_of e))
  | None => false
  end.

Definition graded_status (s : run_status) (evs : list event) : string :=
  if infra evs then "error"
  else if TERMINAL s then run_status_str s else "timeout".

Section Grade.
Context {B : Type} `{Sandbox B} (runner : B).
(** seconds between submission and end, [0.0] when it has not ended *)
Context (latency : run_row -> Q).

Definition run_hidden_test (t : EvalTask) (grade_dir : path) (evs : list event) : M fs (bool * string) :=
  materialize_workspace grade_dir evs ;;
  write_text (grade_dir ++ [HIDDEN_TEST_NAME]) (hidden_test t) ;;
  r ← sandbox_run runner grade_dir ["python"%stdpp; HIDDEN_TEST_NAME];
  let passed := (sb_exit_code r =? 0) && negb (sb_timed_out r) in
  mret (passed,
        if passed then ""
        else "hidden test failed: " +:+
          str_take 60 (default "?" (last (splitlines (strip (sb_stderr r)))))).

Definition _grade (t : EvalTask) (rid : uuid) (tmp : path) : M world TaskResult :=
  run ← on_db (gets (fun d => runs d !! rid));
  run ← lift_res (of_option TypeError run);
  evs ← on_db (read_events rid);
  let st := graded_status (run_status_of run) evs in
  let reason := if infra evs
    then str_take 90 (match last evs with Some e => reason_of e | None => "" end) else "" in
  tokens ← lift_res (mapR event_tokens evs);
  code_runs ← lift_res (mapR is_run_code evs);
  '(passed, note) ←
    (if bool_decide (st = "succeeded") then
       on_fs (run_hidden_test t (tmp ++ ["grade-" +:+ py_str (et_id t)]) evs)
     else mret (false, ""));
  mret (MkTaskResult (et_id t) (et_name t) (et_difficulty t) st passed (Z.of_nat (length evs))
          (Z.of_nat (length (filter (fun b : bool => b = true) code_runs))) (sumZ tokens)
          (of_numeric 6 (run_spent_usd run)) (latency run)
          (if bool_decide (note = "") then reason else note)).

(** A run passes only if it succeeded and the hidden test, put into a
    workspace rebuilt from its log, exited with 0 in time. *)
Lemma grade_passed t rid tmp w r w' :
  _grade t rid tmp w = (Ok r, w') -> tr_passed r = true ->
  tr_run_status r = "succeeded" /\
  exists evs f0 f1 out f2,
    materialize_workspace (tmp ++ ["grade-" +:+ py_str (et_id t)]) evs (w_fs w) = (Ok tt, f0) /\
    write_text ((tmp ++ ["grade-" +:+ py_str (et_id t)]) ++ [HIDDEN_TEST_NAME]) (hidden_test t) f0 = (Ok tt, f1) /\
    sandbox_run runner (tmp ++ ["grade-" +:+ py_str (et_id t)]) ["python"%stdpp; HIDDEN_TEST_NAME] f1
      = (Ok out, f2) /\
    sb_exit_code out = 0 /\ sb_timed_out out = false.
Proof.
  intros Hg Hp. unfold _grade in Hg.
  apply bind_Ok_inv in Hg as (ro & w1 & E1 & Hg). injection E1 as <- <-.
  apply bind_Ok_inv in Hg as (row & w2 & E2 & Hg). unfold lift_res in E2. injection E2 as E2 <-.
  apply bind_Ok_inv in Hg as (evs & w3 & E3 & Hg). injection E3 as Ev <-.
  apply bind_Ok_inv in Hg as (toks & w4 & E4 & Hg). unfold lift_res in E4. injection E4 as _ <-.
  apply bind_Ok_inv in Hg as (crs & w5 & E5 & Hg). unfold lift_res in E5. injection E5 as _ <-.
  apply bind_Ok_inv in Hg as ([passed note] & w6 & E6 & Hg). injection Hg as <- _. simpl in *. subst passed.
  case_bool_decide as Hst; [|done]. split; [done|].
  unfold on_fs in E6. simpl in E6.
  match type of E6 with context [run_hidden_test ?t ?g ?e ?f] =>
    destruct (run_hidden_test t g e f) as [rr f'] eqn:E end.
  injection E6 as -> _. unfold run_hidden_test in E.
  apply bind_Ok_inv in E as ([] & f0 & Em & E). apply bind_Ok_inv in E as ([] & f1 & Ew & E).
  apply bind_Ok_inv in E as (out & f2 & Er & E). injection E as Hpass _ _.
  exists evs, f0, f1, out, f2. bool_to_prop. split_and!; done.
Qed.
End Grade.

(** ** The summary *)
Section Report.
(** [json.dumps] of a float, and [round(q, n)]. *)
Context (float_text : Q -> string) (round_to : nat -> Q -> Q).

Definition sumQ (l : list Q) : Q := foldr Qplus 0%Q l.
Definition fmean (l : list Q) : Q := (sumQ l / inject_Z (Z.of_nat (length l)))%Q.

(** [statistics.median] of a sorted list *)
Definition median (l : list Q) : Q :=
  let n := length l in
  if Nat.odd n then nth (n / 2) l 0%Q
  else ((nth (n / 2 - 1) l 0 + nth (n / 2) l 0) / (2#1))%Q.

Definition count_passed (rs : list TaskResult) : Z :=
  Z.of_nat (length (filter (fun r => tr_passed r = true) rs)).

Definition difficulty_entry (results : list TaskResult) (d : string) : option (string * json) :=
  let rs := filter (fun r => tr_difficulty r = JStr d) results in
  match rs with
  | [] => None
  | _ => Some (d, JObj [("tasks", JInt (Z.of_nat (length rs))); ("passed", JInt (count_passed rs))])
  end.

Definition float (q : Q) : json := JFloat (float_text q).

Definition summarize (results : list TaskResult) (mode model : string) : dict :=
  let n := Z.of_nat (length results) in
  let lat := sort_by Qle_bool (tr_latency_s <$> results) in
  let nonempty {A} (x dflt : A) : A := match results with [] => dflt | _ => x end in
  let per_n (z : Z) : Q := (inject_Z z / inject_Z n)%Q in
  [("mode", JStr mode); ("model", JStr model); ("tasks", JInt n);
   ("unfinished", JInt (Z.of_nat (length
      (filter (fun r => tr_run_status r = "timeout" \/ tr_run_status r = "error") results))));
   ("passed", JInt (count_passed results));
   ("pass_rate", float (nonempty (round_to 4 (per_n (count_passed results))) 0%Q));
   ("avg_attempts", float (nonempty (round_to 3 (per_n (sumZ (tr_attempts <$> results)))) 0%Q));
   ("total_tokens", JInt (sumZ (tr_tokens <$> results)));
   ("total_cost_usd", JStr (string_of_dec (dec_sum (tr_cost_usd <$> results))));
   ("latency_s", JObj
     [("mean", float (nonempty (round_to 2 (fmean lat)) 0%Q));
      ("p50", float (nonempty (round_to 2 (median lat)) 0%Q));
      ("max", float (nonempty (round_to 2 (default 0%Q (last lat))) 0%Q))]);
   ("by_difficulty", JObj (omap (difficulty_entry results) ["easy"; "medium"; "hard"; "challenge"]))].

(** [{**asdict(r), "cost_usd": str(r.cost_usd)}] *)
Definition result_json (r : TaskResult) : dict :=
  [("id", tr_id r); ("name", tr_name r); ("difficulty", tr_difficulty r);
   ("run_status", JStr (tr_run_status r)); ("passed", JBool (tr_passed r));
   ("steps", JInt (tr_steps r)); ("attempts", JInt (tr_attempts r)); ("tokens", JInt (tr_tokens r));
   ("cost_usd", JStr (string_of_dec (tr_cost_usd r))); ("latency_s", float (tr_latency_s r));
   ("note", JStr (tr_note r))].
Definition results_json (results : list TaskResult) : list dict := result_json <$> results.
End Report.

(** ** The scripts *)

(** The mock script of a task ends its run: its last action is [finish], so
    the mock provider answers [finish] from then on. *)
Lemma mock_script_finishes t : last (mock_script_of t) = Some (finish "done").
Proof. unfold mock_script_of. rewrite app_assoc. by rewrite last_app. Qed.

(** An evaluation within its means: its budgets add up to at most the cap, and
    a real one has the flag and the key of its provider. *)
Definition within_means (env : environ) (real : bool) (per_run_usd : dec) (n_tasks : Z) (cap_usd : dec) : Prop :=
  dec_ltb cap_usd (dec_mul per_run_usd (dec_of_Z n_tasks)) = false /\
  (real = true -> env_is "PHOENIX_REAL_LLM" "1" env = true /\
    exists k, required_key_env env = Ok k /\ getenv_or k "" env <> "").

(** The guard lets exactly those through. *)
Lemma check_real_mode_spec env real per_run n cap :
  match check_real_mode env real per_run n cap with
  | Ok _ => within_means env real per_run n cap
  | Raise e => e = EvalConfigError /\ ~ within_means env real per_run n cap
  end.
Proof.
  unfold check_real_mode, config_error, within_means. destruct (dec_ltb _ _); [split; [done|by intros [? _]]|].
  destruct real; [|done]. destruct (env_is _ _ env); [|split; [done|by intros [_ [? _]]]]. cbn [negb].
  pose proof (required_key_raises env) as Hr. destruct (required_key_env env) as [k|e].
  - case_bool_decide as Hk.
    + split; [done|]. intros [_ H]. by destruct (H eq_refl) as [_ (k' & [= <-] & ?)].
    + split; [done|]. intros _. split; [done|]. by exists k.
  - rewrite (Hr e eq_refl). split; [done|]. intros [_ H]. by destruct (H eq_refl) as [_ (k' & [=] & _)].
Qed.
