(* ===== verification/EvalRun.v ===== *)
(** [run_evals] and [_wait_terminal] of [evals/runner.py], and the printed
    table of [evals/report.py]: a suite submitted to the platform, waited for
    and graded, with the workers an [Injector] starts for it. *)

From Stdlib Require Import QArith Qround Lqa.
From S2P Require Import Prelude PyString PyDecimal Json Env Database Store Leases Engine LlmCache.
From S2P Require Import Workspace Agent Invariants Runner Scenarios Workers Injector Supervisor Evals.

(** ** The table *)
Section Table.
(** [f"{x:.5f}"] of a decimal and [f"{x:.1f}"] of a float *)
Context (fixed5 : dec -> string) (fixed1 : Q -> string).

(** [format(v, "<n")] before the padding; only what task files hold. *)
Definition field_text (v : json) : res string :=
  match v with
  | JStr s => Ok s
  | JInt z => Ok (string_of_Z z)
  | JBool b => Ok (if b then "1" else "0")
  | JFloat r => Ok r
  | _ => Raise TypeError
  end.

Definition table_head : string :=
  pad_right 3 "id" +:+ " " +:+ pad_right 21 "task" +:+ " " +:+ pad_right 7 "diff" +:+ " " +:+
  pad_right 16 "status" +:+ " " +:+ pad_right 5 "pass" +:+ " " +:+ pad_left 5 "steps" +:+ " " +:+
  pad_left 4 "runs" +:+ " " +:+ pad_left 7 "tokens" +:+ " " +:+ pad_left 9 "cost_usd" +:+ " " +:+
  pad_left 6 "lat_s".

Definition table_row (r : TaskResult) : res string :=
  id ← field_text (tr_id r);
  name ← field_text (tr_name r);
  difficulty ← field_text (tr_difficulty r);
  mret (pad_right 3 id +:+ " " +:+ pad_right 21 name +:+ " " +:+ pad_right 7 difficulty +:+ " " +:+
        pad_right 16 (tr_run_status r) +:+ " " +:+
        pad_right 5 (if tr_passed r then "yes" else "NO") +:+ " " +:+
        pad_left 5 (string_of_Z (tr_steps r)) +:+ " " +:+ pad_left 4 (string_of_Z (tr_attempts r)) +:+
        " " +:+ pad_left 7 (string_of_Z (tr_tokens r)) +:+ " " +:+
        pad_left 9 (fixed5 (tr_cost_usd r)) +:+ " " +:+ pad_left 6 (fixed1 (tr_latency_s r)) +:+
        (if bool_decide (tr_note r = "") then "" else "  " +:+ tr_note r)).

Definition render_table (results : list TaskResult) : res string :=
  rows ← mapR table_row results;
  mret (join (chr 10) (table_head :: str_of_list (replicate (String.length table_head) "-"%char) :: rows)).
End Table.

(** ** The suite *)

(** The platform as a world of its own, seen from a larger one. *)
Definition on_world {S A} `{HasDb S} `{HasFs S} (m : M world A) : M S A := fun s =>
  let '(r, w) := m (World (get_db s) (get_fs s) None) in (r, put_fs (w_fs w) (put_db (w_db w) s)).

(** [run_ids[t.id] = run_id]: a dict keyed by task ids. *)
Fixpoint upsert (k : json) (v : uuid) (l : list (json * uuid)) : list (json * uuid) :=
  match l with
  | [] => [(k, v)]
  | (k', v') :: l' => if bool_decide (k' = k) then (k, v) :: l' else (k', v') :: upsert k v l'
  end.

Fixpoint find_id (k : json) (l : list (json * uuid)) : option uuid :=
  match l with
  | [] => None
  | (k', v) :: l' => if bool_decide (k' = k) then Some v else find_id k l'
  end.

(** [only is None or t.id in only] *)
Definition selected (only : option (list string)) (t : EvalTask) : bool :=
  match only with
  | None => true
  | Some ids => existsb (fun i => bool_decide (et_id t = JStr i)) ids
  end.

Section Suite.
Context {S B : Type} `{HasDb S} `{HasFs S} `{Processes S} `{Docker S} `{Sandbox B}.
Context (os_environ : environ) (SRC : string) (float_str : Q -> string) (float_repr : string -> string).
(** The directories of the suites, [DockerRunner()], and [float(latency or 0)]. *)
Context (SUITES : string -> option (list task_dir)) (docker : B) (latency : run_row -> Q).

(** [_wait_terminal]; [false]: the model ran out of rounds. *)
Fixpoint wait_rounds (ids : list uuid) (deadline : Q) (rounds : nat) : M (sup S) bool :=
  match rounds with
  | O => mret false
  | Datatypes.S rounds' =>
      t ← on_os monotonic;
      if Qle_bool deadline t then mret true
      else
        ended ← with_db (gets (all_terminal ids));
        if (ended : bool) then mret true
        else on_os (sleep (3#10)) ;; wait_rounds ids deadline rounds'
  end.

Definition _wait_terminal (ids : list uuid) (timeout : Q) (rounds : nat) : M (sup S) bool :=
  t ← on_os monotonic;
  wait_rounds ids (t + timeout)%Q rounds.

(** The runs of the tasks; [keys] are the times and identifiers drawn. *)
Fixpoint submit_tasks (real : bool) (per_run_usd : dec) (tasks : list EvalTask)
    (keys : list (Z * uuid * uuid)) (ids : list (json * uuid)) : M (sup S) (list (json * uuid)) :=
  match tasks, keys with
  | t :: tasks', (now, rid, tid) :: keys' =>
      r ← with_db (submit_run now rid tid (JObj (spec_for t real)) (inr per_run_usd));
      submit_tasks real per_run_usd tasks' keys' (upsert (et_id t) r ids)
  | _, _ => mret ids
  end.

Fixpoint grade_tasks (tmp : path) (ids : list (json * uuid)) (tasks : list EvalTask) :
    M (sup S) (list TaskResult) :=
  match tasks with
  | [] => mret []
  | t :: tasks' =>
      rid ← lift_res (of_option (KeyError "") (find_id (et_id t) ids));
      r ← on_os (on_world (_grade docker latency t rid tmp));
      rs ← grade_tasks tmp ids tasks';
      mret (r :: rs)
  end.

(** [None]: the model ran out of rounds, which the code never does. *)
Definition eval_body (inj : Injector) (workers : nat) (real : bool) (per_run_usd : dec) (timeout : Q)
    (tasks : list EvalTask) (keys : list (Z * uuid * uuid)) (tmp : path) (rounds : nat) :
    M (sup S) (option (list TaskResult)) :=
  refill os_environ SRC float_str inj workers ;;
  ids ← submit_tasks real per_run_usd tasks keys [];
  waited ← _wait_terminal (snd <$> ids) timeout rounds;
  if (waited : bool) then
    rs ← grade_tasks tmp ids tasks; mret (Some rs)
  else mret None.

Definition run_evals (database_url : string) (real : bool) (workers : nat) (per_run_usd cap_usd : dec)
    (timeout : Q) (only : option (list string)) (suite : string)
    (keys : list (Z * uuid * uuid)) (tmp : path) (rounds : nat) :
    M (sup S) (option (list TaskResult)) :=
  dirs ← lift_res (of_option (KeyError suite) (SUITES suite));
  all ← lift_res (load_tasks float_repr dirs);
  let tasks := filter (fun t => selected only t = true) all in
  lift_res (check_real_mode os_environ real per_run_usd (Z.of_nat (length tasks)) cap_usd) ;;
  on_os (ensure_image (image default_policy)) ;;
  let inj := MkInjector database_url (30#1)%Q ("/" +:+ path_str (tmp ++ ["ws"])) false real in
  try_finally (eval_body inj workers real per_run_usd timeout tasks keys tmp rounds) shutdown.
End Suite.

(** [json.dumps({"summary": summary, "tasks": rows}, indent=2)], as a value. *)
Definition dumps_value (summary : dict) (rows : list dict) : json :=
  JObj [("summary", JObj summary); ("tasks", JArr (JObj <$> rows))].

(** ** What an evaluation keeps *)
Section Facts.
Context {S B : Type} `{HasDb S} `{HasFs S} `{Processes S} `{Docker S} `{Sandbox B}.
Context (children : S -> gset string) (time : S -> Q) `{!ProcessLaws children time}.
Context (put_fs_calm : forall f s, children (put_fs f s) = children s /\ time (put_fs f s) = time s).
Context (images_get_calm : forall i, calm children time (images_get i)).
Context (images_pull_calm : forall i, calm children time (images_pull i)).
Context (os_environ : environ) (SRC : string) (float_str : Q -> string) (float_repr : string -> string).
Context (SUITES : string -> option (list task_dir)) (docker : B) (latency : run_row -> Q).
Local Abbreviation good := (good children time).
Local Abbreviation childless := (childless children).

Lemma on_world_calm {A} (m : M world A) : calm children time (on_world m).
Proof using All.
  intros s. unfold on_world. destruct (m _) as [r w]. simpl.
  destruct (put_fs_calm (w_fs w) (put_db (w_db w) s)) as [-> ->].
  destruct (put_db_calm children time (w_db w) s) as [-> ->]. split; [done|apply Qle_refl].
Qed.

Lemma ensure_image_calm i : calm children time (ensure_image i).
Proof using All.
  intros s. unfold ensure_image, try_except. pose proof (images_get_calm i s) as [H4 H5].
  destruct (images_get i s) as [[u|e] s1]; simpl in *; [done|].
  destruct e; try done. pose proof (images_pull_calm i s1) as [H6 H7].
  destruct (images_pull i s1) as [u s2]. simpl in *. split; [congruence|by eapply Qle_trans].
Qed.

Lemma lift_good t {A} (r : res A) : stable (good t) (lift_res r).
Proof. by intros s Hs. Qed.

Lemma calm_good' t {A} (m : M S A) : calm children time m -> stable (good t) (on_os m).
Proof. apply (calm_good children time). Qed.

#[local] Hint Resolve lift_good : phx_inv.

Lemma wait_rounds_good t ids deadline rounds : stable (good t) (wait_rounds ids deadline rounds).
Proof.
  induction rounds as [|rounds IH]; simpl; [auto with phx_inv|].
  apply stable_bind; [apply (monotonic_good children time)|]. intros q.
  destruct (Qle_bool _ _); [auto with phx_inv|]. apply stable_bind; [apply (with_db_good children time)|].
  intros [|]; [auto with phx_inv|]. apply stable_bind; [by apply (sleep_good children time)|]. intros _. apply IH.
Qed.

Lemma submit_tasks_good t real usd tasks keys ids :
  stable (good t) (submit_tasks real usd tasks keys ids).
Proof.
  revert keys ids. induction tasks as [|tk tasks IH]; intros [|[[now rid] tid] keys] ids; simpl;
    try apply stable_ret.
  apply stable_bind; [apply (with_db_good children time)|]. intros r. apply IH.
Qed.

Lemma grade_tasks_good t tmp ids tasks : stable (good t) (grade_tasks docker latency tmp ids tasks).
Proof using All.
  induction tasks as [|tk tasks IH]; simpl; [apply stable_ret|].
  apply stable_bind; [apply lift_good|]. intros rid.
  apply stable_bind; [apply calm_good', on_world_calm|]. intros r.
  apply stable_bind; [apply IH|]. intros rs. apply stable_ret.
Qed.

(** Waiting ends with the timeout. *)
Lemma wait_rounds_ends ids deadline rounds s :
  good (time (su_os s)) s ->
  (deadline < time (su_os s) + inject_Z (Z.of_nat rounds) * (3#10))%Q ->
  fst (wait_rounds ids deadline (Datatypes.S rounds) s) <> Ok false.
Proof.
  revert s. induction rounds as [|rounds IH]; intros s Hg Hd; cbn [wait_rounds];
    unfold mbind, M_bind; unfold on_os at 1;
    destruct (monotonic_reads children time (su_os s)) as (t & o & Em & Hc & Ht1 & Ht2); rewrite Em.
  - assert (Hle : Qle_bool deadline t = true).
    { apply Qle_bool_iff. change (inject_Z (Z.of_nat 0)) with (0#1)%Q in Hd. lra. }
    by rewrite Hle.
  - destruct (Qle_bool deadline t) eqn:Hle; [done|].
    set (s1 := Sup o (su_workers s) (su_n s)).
    assert (Hg1 : good (time (su_os s)) s1).
    { pose proof (monotonic_good children time (time (su_os s)) s Hg) as H4. unfold on_os in H4.
      by rewrite Em in H4. }
    pose proof (with_db_good children time (time (su_os s)) (gets (all_terminal ids)) s1 Hg1) as Hg2.
    destruct (with_db _ s1) as [[[|]|e] s2]; simpl in Hg2; [done| |done].
    unfold on_os at 1. destruct (sleep_passes children time (3#10) (su_os s2)) as (o2 & Es & _ & Hq).
    pose proof (sleep_good children time (time (su_os s)) (3#10) ltac:(done) s2 Hg2) as Hg3.
    unfold on_os in Hg3. rewrite Es in Hg3 |- *. simpl in Hg3. apply IH.
    + split; [apply Hg3|apply Qle_refl].
    + destruct Hg2 as [_ Hl]. unfold later_than in Hl. simpl. rewrite Nat2Z.inj_succ, <- Z.add_1_r, inject_Z_plus in Hd.
      change (inject_Z 1) with (1#1)%Q in Hd. lra.
Qed.

Lemma grade_tasks_ids tmp ids tasks s rs s' :
  grade_tasks docker latency tmp ids tasks s = (Ok rs, s') -> tr_id <$> rs = et_id <$> tasks.
Proof.
  revert s rs s'. induction tasks as [|tk tasks IH]; intros s rs s'; simpl; [by intros [= <- _]|].
  intros E. apply bind_Ok_inv in E as (rid & s1 & _ & E). apply bind_Ok_inv in E as (r & s2 & Er & E).
  apply bind_Ok_inv in E as (rs' & s3 & Ers & E). injection E as <- _. cbn [fmap list_fmap].
  rewrite (IH _ _ _ Ers). f_equal. unfold on_os, on_world in Er.
  match type of Er with context [_grade ?d ?l ?t ?i ?p ?w] =>
    destruct (_grade d l t i p w) as [rg w'] eqn:Eg end.
  injection Er as -> _. unfold _grade in Eg.
  apply bind_Ok_inv in Eg as (x1 & w1 & _ & Eg). apply bind_Ok_inv in Eg as (x2 & w2 & _ & Eg).
  apply bind_Ok_inv in Eg as (x3 & w3 & _ & Eg). apply bind_Ok_inv in Eg as (x4 & w4 & _ & Eg).
  apply bind_Ok_inv in Eg as (x5 & w5 & _ & Eg). apply bind_Ok_inv in Eg as ([p n] & w6 & _ & Eg).
  by injection Eg as <- _.
Qed.

Lemma eval_body_spec inj workers real usd timeout tasks keys tmp rounds s r s' :
  good (time (su_os s)) s -> (timeout < inject_Z (Z.of_nat rounds) * (3#10))%Q ->
  eval_body os_environ SRC float_str docker latency inj workers real usd timeout tasks keys tmp
    (Datatypes.S rounds) s = (r, s') ->
  good (time (su_os s)) s' /\ r <> Ok None /\
  forall rs, r = Ok (Some rs) -> tr_id <$> rs = et_id <$> tasks.
Proof using All.
  intros Hg Hto E. unfold eval_body in E. unfold mbind at 1, M_bind at 1 in E.
  pose proof (refill_good children time os_environ SRC float_str inj (time (su_os s)) workers s Hg) as Hg1.
  destruct (refill _ _ _ _ _ s) as [[u|e] s1]; simpl in Hg1; [|by injection E as <- <-].
  unfold mbind at 1, M_bind at 1 in E.
  pose proof (submit_tasks_good (time (su_os s)) real usd tasks keys [] s1 Hg1) as Hg2.
  destruct (submit_tasks _ _ _ _ _ s1) as [[ids|e] s2]; simpl in Hg2; [|by injection E as <- <-].
  unfold mbind at 1, M_bind at 1 in E.
  assert (Hw : forall t, good t s2 -> good t (snd (_wait_terminal ids.*2 timeout (Datatypes.S rounds) s2))).
  { intros t. apply stable_bind; [apply (monotonic_good children time)|]. intros q. apply wait_rounds_good. }
  assert (Hn : fst (_wait_terminal ids.*2 timeout (Datatypes.S rounds) s2) <> Ok false).
  { unfold _wait_terminal. unfold mbind, M_bind. unfold on_os.
    destruct (monotonic_reads children time (su_os s2)) as (t & o & Em & _ & Ht1 & Ht2).
    pose proof (monotonic_good children time (time (su_os s)) s2 Hg2) as Hm. unfold on_os in Hm.
    rewrite Em in Hm |- *. apply wait_rounds_ends; [split; [apply Hm|apply Qle_refl]|]. simpl. lra. }
  specialize (Hw _ Hg2). destruct (_wait_terminal _ _ _ s2) as [[[|]|e] s3]; simpl in Hw, Hn;
    [| |by injection E as <- <-]; [|done].
  unfold mbind, M_bind in E.
  pose proof (grade_tasks_good (time (su_os s)) tmp ids tasks s3 Hw) as Hg4.
  destruct (grade_tasks _ _ _ _ _ s3) as [[rs|e] s4] eqn:Eg; simpl in Hg4; injection E as <- <-;
    (split; [done|]); [|done]. split; [done|]. intros rs' [= <-]. by eapply grade_tasks_ids.
Qed.

(** C33: an evaluation within its means.  [run_evals] refuses a suite whose
    budgets add up to more than the cap, and a real one without
    PHOENIX_REAL_LLM=1 or without its provider's key, with an
    [EvalConfigError], before it starts or submits anything.  Any other it
    carries out: after the image is there it submits, waits through a bounded
    number of polls - one more than its timeout has of 0.3 seconds -, grades
    and shuts down.  It gives one result per selected
    task in their order, and leaves no worker process behind however it ends
    - up to the race in [shutdown]. *)
Theorem run_evals_correct url real workers usd cap timeout only suite keys tmp rounds o dirs all r s' :
  children o = ∅ -> (timeout < inject_Z (Z.of_nat rounds) * (3#10))%Q ->
  SUITES suite = Some dirs -> load_tasks float_repr dirs = Ok all ->
  let tasks := filter (fun t => selected only t = true) all in
  let budgets := dec_mul usd (dec_of_Z (Z.of_nat (length tasks))) in
  let means := dec_ltb cap budgets = false /\
    (real = true -> os_environ !! "PHOENIX_REAL_LLM" = Some "1" /\
       exists k, required_key_env os_environ = Ok k /\ getenv_or k "" os_environ <> "") in
  run_evals os_environ SRC float_str float_repr SUITES docker latency url real workers usd cap timeout
    only suite keys tmp (Datatypes.S rounds) (Sup o [] 0) = (r, s') ->
  (~ means -> r = Raise EvalConfigError /\ s' = Sup o [] 0) /\
  (means ->
     (exists inj, in_real_llm inj = real /\
        (on_os (ensure_image (image default_policy)) ;;
         try_finally (eval_body os_environ SRC float_str docker latency inj workers real usd timeout
           tasks keys tmp (Datatypes.S rounds)) shutdown) (Sup o [] 0) = (r, s')) /\
     r <> Ok None /\
     (forall rs, r = Ok (Some rs) -> tr_id <$> rs = et_id <$> tasks) /\
     (children (su_os s') = ∅ \/ r = Raise NoSuchProcess)).
Proof using All.
  intros Ho Hto Hsuite Hall tasks budgets means E. set (s0 := Sup o [] 0) in *.
  unfold run_evals in E. rewrite Hsuite in E. unfold mbind, M_bind, lift_res in E. simpl in E.
  rewrite Hall in E. fold tasks in E.
  pose proof (check_real_mode_spec os_environ real usd (Z.of_nat (length tasks)) cap) as Hcheck.
  assert (Hm : within_means os_environ real usd (Z.of_nat (length tasks)) cap <-> means)
    by (unfold within_means, means; by setoid_rewrite env_is_spec).
  destruct (check_real_mode os_environ real usd (Z.of_nat (length tasks)) cap) as [[]|e].
  2: { destruct Hcheck as [-> Hno]. injection E as <- <-. split; [done|]. by intros ?%Hm. }
  split; [by intros []; apply Hm|]. intros _. 
  split; [exists (MkInjector url (30#1)%Q ("/" +:+ path_str (tmp ++ ["ws"])) false real); split; [done|exact E]|].
  assert (Hg0 : good (time o) s0).
  { split; [split; simpl; [by rewrite Ho|constructor|by split]|apply Qle_refl]. }
  pose proof (calm_good' (time o) _ (ensure_image_calm (image default_policy)) s0 Hg0) as Hg1.
  pose proof (calm_childless children time _ (ensure_image_calm (image default_policy)) s0 Ho) as Hc1.
  destruct (on_os (ensure_image _) s0) as [[u|e] s1]; simpl in Hg1, Hc1;
    [|injection E as <- <-; split_and!; [done..|by left]].
  unfold try_finally in E. destruct (eval_body _ _ _ _ _ _ _ _ _ _ _ _ _ _ s1) as [rb s2] eqn:Eb.
  apply eval_body_spec in Eb as (Hg2 & Hn & Hids); [|split; [apply Hg1|apply Qle_refl]|done].
  destruct (shutdown s2) as [rs s3] eqn:Es.
  destruct (shutdown_reaps children time _ _ _ _ Hg2 Es) as [_ [-> | Hc]].
  - injection E as <- <-. split_and!; [done..|by right].
  - destruct rs; injection E as <- <-; split_and!; try done; by left.
Qed.
End Facts.
