(* ===== verification/Argparse.v ===== *)
(** What [__main__.py] uses of [argparse]: options with a flag, typed values,
    choices, defaults and required ones, one positional per command, and the
    command itself.  A parse error exits with 2, [-h] with 0.

    Flags may be abbreviated and values given after [=], as [argparse] allows;
    the separator [--] is not modelled.  A float is the exact value of its
    text. *)

From Stdlib Require Import QArith Qpower.
From S2P Require Import Prelude PyString PyDecimal Json Database Store.

(** ** Parsers *)
Inductive argval :=
  | ANone
  | AInt (z : Z)
  | AFloat (q : Q)
  | AStr (s : string)
  | AUuid (u : uuid)
  | ABool (b : bool)
  | AList (l : list string).

Inductive argtype := TInt | TFloat | TStr | TUuid.

Inductive arg_action :=
  | Help
  | Store (ty : argtype) (choices : option (list string))
  | StoreTrue
  | StoreMany (ty : argtype) (some : bool).   (* nargs='*', or '+' *)

Record option_spec := MkOption {
  os_flags : list string;
  os_dest : string;
  os_action : arg_action;
  os_default : argval;
  os_required : bool;
}.

Record parser_spec := MkParser {
  ps_options : list option_spec;
  ps_positional : option (string * argtype);
}.

Abbreviation namespace := (gmap string argval).

Definition help_option : option_spec := MkOption ["-h"; "--help"] "help" Help ANone false.
Definition store (flag dest : string) (ty : argtype) (default : argval) : option_spec :=
  MkOption [flag] dest (Store ty None) default false.

(** ** Values *)
Definition Q_of_dec (d : dec) : Q := (inject_Z (dcoef d) * Qpower (10#1) (dexp d))%Q.

Definition hex_value (c : ascii) : option N :=
  let n := N_of_ascii c in
  if (48 <=? n)%N && (n <=? 57)%N then Some (n - 48)%N
  else if (97 <=? n)%N && (n <=? 102)%N then Some (n - 87)%N
  else if (65 <=? n)%N && (n <=? 70)%N then Some (n - 55)%N
  else None.

Fixpoint hex_digits_value (acc : N) (l : list ascii) : option N :=
  match l with
  | [] => Some acc
  | c :: l' => d ← hex_value c; hex_digits_value (acc * 16 + d)%N l'
  end.

(** [uuid.UUID(text)]: 32 hexadecimal digits, hyphens anywhere.  The braces
    and the prefixes [urn:] and [uuid:] it also takes off are not modelled. *)
Definition parse_uuid (s : string) : option uuid :=
  let digits := filter (fun c => c <> "-"%char) (str_to_list s) in
  if bool_decide (length digits = 32%nat) then hex_digits_value 0 digits else None.

Definition convert (ty : argtype) (s : string) : option argval :=
  match ty with
  | TInt => AInt <$> parse_int (str_to_list s)
  | TFloat => AFloat ∘ Q_of_dec <$> dec_of_string s
  | TStr => Some (AStr s)
  | TUuid => AUuid <$> parse_uuid s
  end.

Definition allowed (choices : option (list string)) (v : argval) : bool :=
  match choices, v with
  | None, _ => true
  | Some l, AStr s => bool_decide (s ∈ l)
  | Some _, _ => false
  end.

Definition error {A} : res A := Raise (SystemExit 2).

(** ** Options and arguments *)
Inductive token :=
  | Opt (o : option_spec) (explicit : option string)
  | Unknown
  | Arg (s : string).

(** [s.split("=", 1)] when [s] has one *)
Fixpoint split_eq (s : string) : option (string * string) :=
  match s with
  | EmptyString => None
  | String c s' =>
      if Ascii.eqb c "="%char then Some (EmptyString, s')
      else '(k, v) ← split_eq s'; Some (String c k, v)
  end.

Definition find_flag (ps : parser_spec) (flag : string) : option option_spec :=
  find (fun o => bool_decide (flag ∈ os_flags o)) (ps_options ps).

(** The options [flag] abbreviates, one for each matching spelling. *)
Definition abbreviated (ps : parser_spec) (flag : string) : list option_spec :=
  concat ((fun o => (fun _ => o) <$> filter (fun f => startswith flag f = true) (os_flags o))
    <$> ps_options ps).

(** [^-\d+$|^-\d*\.\d+$] *)
Definition negative_number (s : string) : bool :=
  match str_to_list s with
  | "-"%char :: l =>
      let '(digits, rest) := span_digits l in
      match rest with
      | [] => bool_decide (digits <> [])
      | "."%char :: rest' => let '(frac, rest'') := span_digits rest' in
                             bool_decide (frac <> []) && bool_decide (rest'' = [])
      | _ => false
      end
  | _ => false
  end.

Definition classify (ps : parser_spec) (arg : string) : res token :=
  if negb (startswith "-" arg) then Ok (Arg arg)
  else
    match find_flag ps arg with
    | Some o => Ok (Opt o None)
    | None =>
        if (String.length arg =? 1)%nat then Ok (Arg arg)
        else
          let split := split_eq arg in
          match split ≫= (fun kv => o ← find_flag ps (fst kv); Some (o, snd kv)) with
          | Some (o, v) => Ok (Opt o (Some v))
          | None =>
              let '(prefix, explicit) :=
                if startswith "--" arg then
                  match split with Some (k, v) => (k, Some v) | None => (arg, None) end
                else (arg, None) in
              let short := if startswith "--" arg then None
                           else o ← find_flag ps (str_take 2 arg); Some o in
              match short, abbreviated ps prefix with
              | Some o, [] => Ok (Opt o (Some (str_of_list (drop 2 (str_to_list arg)))))
              | None, [o] => Ok (Opt o explicit)
              | None, [] =>
                  if negative_number arg then Ok (Arg arg)
                  else if bool_decide (" "%char ∈ str_to_list arg) then Ok (Arg arg)
                  else Ok Unknown
              | _, _ => error
              end
          end
    end.

(** ** Parsing *)

(** What the last option still takes. *)
Inductive mode := Idle | Want (o : option_spec) | Collect (o : option_spec) (values : list string).

Record state := State {
  st_ns : namespace;
  st_seen : list string;
  st_positional : bool;   (* the positional was given *)
  st_extras : bool;       (* arguments nobody takes *)
}.

Definition assign (dest : string) (v : argval) (st : state) : state :=
  State (<[dest := v]> (st_ns st)) (dest :: st_seen st) (st_positional st) (st_extras st).

(** The values of a list option, kept as texts: each must be of its type. *)
Definition collect (o : option_spec) (ty : argtype) (some : bool) (values : list string) (st : state) : res state :=
  mapR (fun s => of_option (SystemExit 2) (convert ty s)) values ;;
  if some && (length values =? 0)%nat then error else Ok (assign (os_dest o) (AList values) st).

Definition store_value (o : option_spec) (s : string) (st : state) : res state :=
  match os_action o with
  | Store ty choices =>
      v ← of_option (SystemExit 2) (convert ty s);
      if allowed choices v then Ok (assign (os_dest o) v st) else error
  | StoreMany ty some => collect o ty some [s] st
  | Help | StoreTrue => error
  end.

(** Before the next option, or at the end. *)
Definition close (m : mode) (st : state) : res state :=
  match m with
  | Idle => Ok st
  | Want _ => error
  | Collect o values =>
      match os_action o with StoreMany ty some => collect o ty some values st | _ => error end
  end.

Definition take_argument (ps : parser_spec) (s : string) (st : state) : res state :=
  match ps_positional ps with
  | Some (dest, ty) =>
      if st_positional st then Ok (State (st_ns st) (st_seen st) true true)
      else
        v ← of_option (SystemExit 2) (convert ty s);
        Ok (State (<[dest := v]> (st_ns st)) (st_seen st) true (st_extras st))
  | None => Ok (State (st_ns st) (st_seen st) (st_positional st) true)
  end.

Fixpoint consume (ps : parser_spec) (m : mode) (tokens : list token) (st : state) : res state :=
  match tokens with
  | [] => close m st
  | Arg s :: rest =>
      match m with
      | Idle => st ← take_argument ps s st; consume ps Idle rest st
      | Want o => st ← store_value o s st; consume ps Idle rest st
      | Collect o values => consume ps (Collect o (values ++ [s])) rest st
      end
  | Unknown :: rest =>
      st ← close m st;
      consume ps Idle rest (State (st_ns st) (st_seen st) (st_positional st) true)
  | Opt o explicit :: rest =>
      st ← close m st;
      match os_action o, explicit with
      | Help, None => Raise (SystemExit 0)
      | StoreTrue, None => consume ps Idle rest (assign (os_dest o) (ABool true) st)
      | Store _ _, None => consume ps (Want o) rest st
      | StoreMany _ _, None => consume ps (Collect o []) rest st
      | _, Some v => st ← store_value o v st; consume ps Idle rest st
      end
  end.

Definition defaults (ps : parser_spec) : namespace :=
  list_to_map ((fun o => (os_dest o, os_default o)) <$>
    filter (fun o => os_dest o <> "help") (ps_options ps)).

Definition missing (ps : parser_spec) (st : state) : bool :=
  existsb (fun o => os_required o && negb (bool_decide (os_dest o ∈ st_seen st))) (ps_options ps) ||
  (bool_decide (is_Some (ps_positional ps)) && negb (st_positional st)).

Definition parse_options (ps : parser_spec) (args : list string) : res namespace :=
  tokens ← mapR (classify ps) args;
  st ← consume ps Idle tokens (State (defaults ps) [] false false);
  if missing ps st || st_extras st then error else Ok (st_ns st).

(** The command and what its parser makes of the rest; flags before it that
    nobody knows make the parse fail in the end. *)
Fixpoint parse_command (commands : list (string * parser_spec)) (extras : bool) (argv : list string) :
    res (string * namespace) :=
  match argv with
  | [] => error
  | cmd :: rest =>
      token ← classify (MkParser [help_option] None) cmd;
      match token with
      | Opt _ None => Raise (SystemExit 0)
      | Opt _ (Some _) => error
      | Unknown => parse_command commands true rest
      | Arg name =>
          match find (fun c => bool_decide (fst c = name)) commands with
          | Some (_, ps) => ns ← parse_options ps rest; if extras then error else Ok (name, ns)
          | None => error
          end
      end
  end.

(** ** Facts *)
Lemma hex_value_digit x : (x < 16)%N -> hex_value (hex_digit x) = Some x /\ hex_digit x <> "-"%char.
Proof.
  intros Hx. assert (Hl : x ∈ N.of_nat <$> seq 0 16).
  { apply list_elem_of_fmap. exists (N.to_nat x). split; [lia|]. apply elem_of_seq. lia. }
  clear Hx. revert x Hl. apply Forall_forall. repeat (constructor; [by split|]). constructor.
Qed.

Lemma hex_digits_value_app acc l k :
  hex_digits_value acc (l ++ k) = hex_digits_value acc l ≫= fun acc' => hex_digits_value acc' k.
Proof.
  revert acc. induction l as [|c l IH]; intros acc; [done|]. cbn [app hex_digits_value].
  destruct (hex_value c); [apply IH|done].
Qed.

Lemma hex_digits_value_fixed n x acc :
  (x < 16 ^ N.of_nat n)%N -> hex_digits_value acc (hex_fixed n x) = Some (acc * 16 ^ N.of_nat n + x)%N.
Proof.
  revert x acc. induction n as [|n IH]; intros x acc Hx; cbn [hex_fixed].
  - simpl in *. f_equal. lia.
  - rewrite Nat2N.inj_succ, N.pow_succ_r' in Hx |- *.
    rewrite hex_digits_value_app, IH by (apply N.Div0.div_lt_upper_bound; lia).
    simpl. destruct (hex_value_digit (x mod 16)) as [-> _]; [by apply N.mod_lt|]. simpl. f_equal.
    rewrite (N.div_mod x 16) at 3 by done. lia.
Qed.

Lemma hex_fixed_no_hyphen n x : Forall (fun c => c <> "-"%char) (hex_fixed n x).
Proof.
  revert x. induction n as [|n IH]; intros x; [constructor|]. cbn [hex_fixed].
  apply Forall_app. split; [apply IH|]. apply Forall_singleton.
  by apply hex_value_digit, N.mod_lt.
Qed.

(** [str(u)] reads back as [u]. *)
Lemma parse_uuid_str u : (u < 2 ^ 128)%N -> parse_uuid (uuid_str u) = Some u.
Proof.
  intros Hu. unfold parse_uuid. rewrite uuid_str_list. cbv zeta.
  pose proof (hex_fixed_no_hyphen 32 u) as Hn. pose proof (hex_fixed_length 32 u) as Hl.
  pose proof (hex_digits_value_fixed 32 u 0 Hu) as Hv. revert Hn Hl Hv.
  generalize (hex_fixed 32 u). intros h Hn Hl Hv.
  assert (E : filter (fun c => c <> "-"%char)
    (take 8 h ++ "-"%char :: take 4 (drop 8 h) ++ "-"%char :: take 4 (drop 12 h) ++
     "-"%char :: take 4 (drop 16 h) ++ "-"%char :: take 12 (drop 20 h)) = h).
  { assert (Hf : forall c k, Forall (fun c => c <> "-"%char) k ->
      filter (fun c => c <> "-"%char) (k ++ "-"%char :: c) = k ++ filter (fun c => c <> "-"%char) c).
    { intros c k Hk. rewrite filter_app, (filter_all _ k) by done. by rewrite filter_cons_False by (intros Hq; by apply Hq). }
    rewrite !Hf, filter_all by auto using Forall_take, Forall_drop.
    rewrite <- (take_drop 8 h) at 6. f_equal. rewrite <- (take_drop 4 (drop 8 h)) at 2. rewrite drop_drop. f_equal.
    rewrite <- (take_drop 4 (drop (8 + 4) h)) at 1. rewrite drop_drop. f_equal.
    rewrite <- (take_drop 4 (drop (8 + 4 + 4) h)) at 1. rewrite drop_drop. f_equal.
    apply take_ge. rewrite length_drop. lia. }
  rewrite E, bool_decide_eq_true_2, Hv by done. done.
Qed.

Lemma startswith_hyphen s :
  startswith "-" s = match str_to_list s with c :: _ => bool_decide (c = "-"%char) | [] => false end.
Proof.
  destruct s as [|c s]; [done|]. unfold startswith. cbn [strip_prefix str_to_list].
  destruct (decide ("-"%char = c)) as [<-|H]; [done|]. rewrite bool_decide_eq_false_2; [done|congruence].
Qed.

Lemma uuid_str_no_hyphen u : startswith "-" (uuid_str u) = false.
Proof.
  rewrite startswith_hyphen, uuid_str_list. cbv zeta.
  pose proof (hex_fixed_no_hyphen 32 u) as Hn. pose proof (hex_fixed_length 32 u) as Hl.
  destruct (hex_fixed 32 u) as [|c h]; [done|]. apply Forall_cons in Hn as [Hc _].
  by apply bool_decide_eq_false_2.
Qed.

Lemma classify_argument ps s : startswith "-" s = false -> classify ps s = Ok (Arg s).
Proof. intros H. unfold classify. by rewrite H. Qed.
