(* ===== verification/Cli.v ===== *)
(** [__main__.py]: the command line of the platform.

    Each command is a function of the parsed arguments; [main] loads [.env],
    parses and runs one.  Printed lines, error lines and written files are
    lists; the exit status is the result, and an exception nobody catches is
    raised.  The web server ([uvicorn.run]) is a parameter. *)

From Stdlib Require Import QArith.
From S2P Require Import Prelude PyString PyDecimal Json JsonParse Env Database Store Leases Engine LlmCache.
From S2P Require Import Workspace Agent Invariants Runner Scenarios Workers Refinement Injector Supervisor.
From S2P Require Import Timeline Evals EvalRun Argparse.

(** ** The commands and their options *)
Definition submit_parser : parser_spec := MkParser
  [help_option; store "--steps" "steps" TInt (AInt 20);
   store "--step-delay" "step_delay" TFloat (AFloat 0%Q); store "--count" "count" TInt (AInt 1)] None.

Definition run_parser : parser_spec := MkParser [help_option] (Some ("run_id", TUuid)).

Definition api_parser : parser_spec := MkParser
  [help_option; store "--host" "host" TStr (AStr "127.0.0.1"); store "--port" "port" TInt (AInt 8000)] None.

Definition worker_parser (pid : Z) : parser_spec := MkParser
  [help_option; store "--id" "id" TStr (AStr ("worker-" +:+ string_of_Z pid));
   store "--lease" "lease" TFloat (AFloat (5#1)%Q); store "--poll" "poll" TFloat (AFloat (1#5)%Q)] None.

Definition chaos_parser : parser_spec := MkParser
  [help_option; MkOption ["--seed"] "seed" (Argparse.Store TInt None) ANone true;
   store "--runs" "runs" TInt (AInt 30); store "--workers" "workers" TInt (AInt 3);
   store "--lease" "lease" TFloat (AFloat (2#1)%Q);
   MkOption ["--workload"] "workload" (Argparse.Store TStr (Some ["toy"; "agent"; "mixed"])) (AStr "mixed") false;
   store "--faults" "faults" TInt ANone; store "--timeout" "timeout" TFloat (AFloat (300#1)%Q);
   MkOption ["--unsafe-no-fencing"] "unsafe_no_fencing" StoreTrue (ABool false) false] None.

Definition eval_parser : parser_spec := MkParser
  [help_option; MkOption ["--real"] "real" StoreTrue (ABool false) false;
   store "--workers" "workers" TInt (AInt 3); store "--budget" "budget" TStr (AStr "0.05");
   store "--max-total-usd" "max_total_usd" TStr (AStr "1.00");
   MkOption ["--suite"] "suite" (Argparse.Store TStr (Some ["standard"; "challenge"])) (AStr "standard") false;
   store "--timeout" "timeout" TFloat (AFloat (900#1)%Q);
   MkOption ["--only"] "only" (StoreMany TStr false) ANone false; store "--out" "out" TStr ANone] None.

Definition commands (pid : Z) : list (string * parser_spec) :=
  [("migrate", MkParser [help_option] None); ("submit", submit_parser); ("status", run_parser);
   ("timeline", run_parser); ("api", api_parser); ("worker", worker_parser pid);
   ("chaos", chaos_parser); ("eval", eval_parser)].

(** ** The arguments of each command *)
Record chaos_args := ChaosArgs {
  ca_seed : Z; ca_runs : Z; ca_workers : Z; ca_lease : Q; ca_workload : string; ca_faults : option Z;
  ca_timeout : Q; ca_unsafe_no_fencing : bool;
}.

Record eval_args := EvalArgs {
  ea_real : bool; ea_workers : Z; ea_budget : string; ea_max_total_usd : string; ea_suite : string;
  ea_timeout : Q; ea_only : option (list string); ea_out : option string;
}.

Inductive command :=
  | Migrate
  | SubmitToy (steps : Z) (step_delay : Q) (count : Z)
  | Status (run_id : uuid)
  | ShowTimeline (run_id : uuid)
  | Api (host : string) (port : Z)
  | Worker (id : string) (lease poll : Q)
  | Chaos (args : chaos_args)
  | Eval (args : eval_args).

(** Attributes of the namespace; the parser gives each its type. *)
Section Attributes.
Context (ns : namespace).
Definition attr_int (dest : string) : option Z := match ns !! dest with Some (AInt z) => Some z | _ => None end.
Definition attr_float (dest : string) : option Q := match ns !! dest with Some (AFloat q) => Some q | _ => None end.
Definition attr_str (dest : string) : option string := match ns !! dest with Some (AStr s) => Some s | _ => None end.
Definition attr_bool (dest : string) : option bool := match ns !! dest with Some (ABool b) => Some b | _ => None end.
Definition attr_uuid (dest : string) : option uuid := match ns !! dest with Some (AUuid u) => Some u | _ => None end.
Definition attr_list (dest : string) : option (list string) := match ns !! dest with Some (AList l) => Some l | _ => None end.
End Attributes.

Definition to_command (name : string) (ns : namespace) : option command :=
  if bool_decide (name = "migrate") then Some Migrate
  else if bool_decide (name = "submit") then
    steps ← attr_int ns "steps"; delay ← attr_float ns "step_delay"; count ← attr_int ns "count";
    Some (SubmitToy steps delay count)
  else if bool_decide (name = "status") then Status <$> attr_uuid ns "run_id"
  else if bool_decide (name = "timeline") then ShowTimeline <$> attr_uuid ns "run_id"
  else if bool_decide (name = "api") then
    host ← attr_str ns "host"; port ← attr_int ns "port"; Some (Api host port)
  else if bool_decide (name = "worker") then
    id ← attr_str ns "id"; lease ← attr_float ns "lease"; poll ← attr_float ns "poll";
    Some (Worker id lease poll)
  else if bool_decide (name = "chaos") then
    seed ← attr_int ns "seed"; runs ← attr_int ns "runs"; workers ← attr_int ns "workers";
    lease ← attr_float ns "lease"; workload ← attr_str ns "workload"; timeout ← attr_float ns "timeout";
    unsafe ← attr_bool ns "unsafe_no_fencing";
    Some (Chaos (ChaosArgs seed runs workers lease workload (attr_int ns "faults") timeout unsafe))
  else if bool_decide (name = "eval") then
    real ← attr_bool ns "real"; workers ← attr_int ns "workers"; budget ← attr_str ns "budget";
    cap ← attr_str ns "max_total_usd"; suite ← attr_str ns "suite"; timeout ← attr_float ns "timeout";
    Some (Eval (EvalArgs real workers budget cap suite timeout (attr_list ns "only") (attr_str ns "out")))
  else None.

Definition parse_args (pid : Z) (argv : list string) : res command :=
  '(name, ns) ← parse_command (commands pid) false argv;
  of_option (SystemExit 2) (to_command name ns).

Example parse_chaos :
  parse_args 1 ["chaos"; "--seed=7"; "--work"; "toy"] = Raise (SystemExit 2) /\
  parse_args 1 ["chaos"; "--seed=7"; "--workl"; "toy"; "--faults"; "-1"; "--unsafe"] =
    Ok (Chaos (ChaosArgs 7 30 3 (2#1)%Q "toy" (Some (-1)) (300#1)%Q true)) /\
  parse_args 1 ["chaos"] = Raise (SystemExit 2) /\
  parse_args 1 ["chaos"; "-h"] = Raise (SystemExit 0) /\
  parse_args 1 ["eval"; "--only"; "01"; "02"; "--real"] =
    Ok (Eval (EvalArgs true 3 "0.05" "1.00" "standard" (900#1)%Q (Some ["01"; "02"]) None)).
Proof. vm_compute. done. Qed.

(** ** Running a command *)

(** [json.dumps(v, indent=2)] *)
Fixpoint dumps_indent (level : nat) (v : json) : string :=
  let newline := chr 10 +:+ spaces (2 * (level + 1)) in
  match v with
  | JArr ((_ :: _) as l) =>
      "[" +:+ newline +:+ join ("," +:+ newline) (map (dumps_indent (level + 1)) l) +:+
      chr 10 +:+ spaces (2 * level) +:+ "]"
  | JObj ((_ :: _) as kvs) =>
      "{" +:+ newline +:+
      join ("," +:+ newline)
        (map (fun kv => json_quote (fst kv) +:+ ": " +:+ dumps_indent (level + 1) (snd kv)) kvs) +:+
      chr 10 +:+ spaces (2 * level) +:+ "}"
  | _ => dumps false v
  end.

Example dumps_indent_value :
  dumps_indent 0 (JObj [("a", JInt 1); ("b", JArr [JStr "x"; JObj []])]) =
    join (chr 10) ["{"; "  " +:+ json_quote "a" +:+ ": 1,"; "  " +:+ json_quote "b" +:+ ": [";
                   "    " +:+ json_quote "x" +:+ ","; "    {}"; "  ]"; "}"].
Proof. vm_compute. reflexivity. Qed.

(** A system with a schema. *)
Class HasSchema (S Schema : Type) : Type := {
  get_schema : S -> Schema * list string;
  put_schema : Schema * list string -> S -> S;
}.

Definition on_schema {S Schema A} `{HasSchema S Schema} (m : M (Schema * list string) A) : M S A :=
  fun s => let '(r, x) := m (get_schema s) in (r, put_schema x s).

(** The process: the system with the injector, what was printed, and the
    files written. *)
Record cli (S : Type) := CliState {
  cl_sup : sup S;
  cl_out : list string;
  cl_err : list string;
  cl_files : list (string * string);
}.
Arguments CliState {S}.
Arguments cl_sup {S}.
Arguments cl_out {S}.
Arguments cl_err {S}.
Arguments cl_files {S}.

Section Cli.
Context {S Schema B P : Type} `{HasDb S} `{HasFs S} `{HasSchema S Schema} `{Processes S} `{Docker S}.
Context `{Sandbox B} `{Provider (any_provider P) world}.
(** The migrations: their texts and what PostgreSQL does with one. *)
Context (MIGRATIONS : list (string * string)) (exec : string -> M Schema unit).
(** Texts of floats and times, and of exceptions. *)
Context (float_str fixed1 fixed1_5 fixed0 : Q -> string) (fixed5 : dec -> string).
Context (float_text : Q -> string) (round_to : nat -> Q -> Q) (float_repr : string -> string).
Context (secs : Z -> string) (exc_str exc_repr : exn -> string).
(** The package's directory, the suites, [DockerRunner()] and the client of
    [anthropic]; the time of a run; [uvicorn.run]. *)
Context (SRC : string) (SUITES : string -> option (list task_dir)) (docker : B) (client : res unit).
Context (latency : run_row -> Q) (uvicorn_run : string -> Z -> M S unit).

Definition on_sup {A} (m : M (sup S) A) : M (cli S) A := fun s =>
  let '(r, x) := m (cl_sup s) in (r, CliState x (cl_out s) (cl_err s) (cl_files s)).
Definition cli_db {A} (m : M db A) : M (cli S) A := on_sup (with_db m).

Definition print (line : string) : M (cli S) unit :=
  modify (fun s => CliState (cl_sup s) (cl_out s ++ [line]) (cl_err s) (cl_files s)).
Definition print_err (line : string) : M (cli S) unit :=
  modify (fun s => CliState (cl_sup s) (cl_out s) (cl_err s ++ [line]) (cl_files s)).
Definition write_file (path_ text : string) : M (cli S) unit :=
  modify (fun s => CliState (cl_sup s) (cl_out s) (cl_err s) (cl_files s ++ [(path_, text)])).

(** [os.environ["DATABASE_URL"]] *)
Definition dsn (env : environ) : res string :=
  of_option (KeyError "DATABASE_URL") (env !! "DATABASE_URL").

Definition migrate_db : M (cli S) (list string) :=
  on_sup (on_os (on_schema (Migrations.apply_migrations exec MIGRATIONS))).

Definition _migrate (env : environ) : M (cli S) unit :=
  lift_res (dsn env) ;;
  applied ← migrate_db;
  print ("applied: " +:+
         (if bool_decide (applied = []) then "nothing (up to date)" else join ", " applied)).

(** [for _ in range(count)]; [keys]: the times and identifiers drawn. *)
Fixpoint submit_loop (spec : json) (count : nat) (keys : list (Z * uuid * uuid)) : M (cli S) unit :=
  match count, keys with
  | Datatypes.S count', (now, rid, tid) :: keys' =>
      r ← cli_db (submit_run now rid tid spec (inl "1.0"));
      print (uuid_str r) ;;
      submit_loop spec count' keys'
  | _, _ => mret tt
  end.

Definition _submit (env : environ) (steps : Z) (step_delay : Q) (count : Z)
    (keys : list (Z * uuid * uuid)) : M (cli S) unit :=
  lift_res (dsn env) ;;
  let spec := JObj [("kind", JStr "toy"); ("steps", JInt steps);
                    ("step_delay", JFloat (float_text step_delay))] in
  submit_loop spec (Z.to_nat count) keys.

Definition _status (env : environ) (rid : uuid) : M (cli S) unit :=
  lift_res (dsn env) ;;
  row ← cli_db (gets (fun d => r ← runs d !! rid; Some (r, count_events rid d)));
  print match row with
        | None => "not found"
        | Some (r, n) =>
            run_status_str (run_status_of r) +:+ " events=" +:+ string_of_Z n +:+
            " spent=" +:+ string_of_dec (of_numeric 6 (run_spent_usd r))
        end.

Definition _timeline (env : environ) (rid : uuid) : M (cli S) unit :=
  lift_res (dsn env) ;;
  text ← cli_db (build_timeline secs rid);
  print text.

(** What a run of the harness draws and is given. *)
Record drawn := Drawn {
  dr_specs : list json;
  dr_schedule : list Fault;
  dr_keys : list (Z * uuid * uuid);
  dr_tmp : path;
  dr_rounds : nat;
}.

Definition config_of (a : chaos_args) : ChaosConfig :=
  MkChaosConfig (ca_seed a) (Z.to_nat (ca_runs a)) (Z.to_nat (ca_workers a)) (ca_lease a)
    (ca_workload a) (Z.to_nat <$> ca_faults a) (ca_timeout a) (ca_unsafe_no_fencing a).

(** The exit status; [None]: the model ran out of rounds. *)
Definition _chaos (env : environ) (a : chaos_args) (dr : drawn) : M (cli S) (option Z) :=
  url ← lift_res (dsn env);
  migrate_db ;;
  let cfg := config_of a in
  let inj := MkInjector url (ca_lease a) ("/" +:+ path_str (dr_tmp dr ++ ["ws"]))
               (ca_unsafe_no_fencing a) false in
  report ← on_sup (run_chaos env SRC float_str fixed1 fixed1_5 inj cfg (dr_specs dr) (dr_schedule dr)
                     (dr_keys dr) (dr_rounds dr));
  match report with
  | None => mret None
  | Some r =>
      print (render float_str fixed1 fixed0 r) ;;
      mret (Some (if passed (cr_invariants r) then 0 else 1))
  end.

Definition unfinished (r : TaskResult) : Prop := tr_run_status r = "timeout" \/ tr_run_status r = "error".

(** [summary["unfinished"]] *)
Definition count_unfinished (results : list TaskResult) : Z :=
  Z.of_nat (length (filter unfinished results)).

Definition incomplete_text (n total : Z) : string :=
  chr 10 +:+ "INCOMPLETE: " +:+ string_of_Z n +:+ " of " +:+ string_of_Z total +:+
  " tasks hit a timeout or a platform/provider error (e.g. a quota), so the pass rate above is " +:+
  "NOT a result. Nothing was written to --out.".

(** After the runs: the table, the summary, and the file if it is one. *)
Definition report_evals (env : environ) (a : eval_args) (results : list TaskResult) : M (cli S) Z :=
  model ← lift_res (model_name env (ea_real a));
  let summary := summarize float_text round_to results (if ea_real a then "real" else "mock") model in
  table ← lift_res (render_table fixed5 fixed1 results);
  print table ;;
  print "" ;;
  print (dumps_indent 0 (JObj summary)) ;;
  if negb (count_unfinished results =? 0) then
    print_err (incomplete_text (count_unfinished results) (Z.of_nat (length results))) ;;
    mret 3
  else
    (match ea_out a with
     | Some out =>
         if bool_decide (out = "") then mret tt
         else write_file out (dumps_indent 0
                (dumps_value summary (results_json float_text results)) +:+ chr 10)
     | None => mret tt
     end) ;;
    mret 0.

Definition is_config_error (e : exn) : bool := match e with EvalConfigError => true | _ => false end.

Definition _eval (env : environ) (a : eval_args) (dr : drawn) : M (cli S) (option Z) :=
  url ← lift_res (dsn env);
  migrate_db ;;
  results ← try_except
    (per_run ← lift_res (of_option InvalidOperation (dec_of_string (ea_budget a)));
     cap ← lift_res (of_option InvalidOperation (dec_of_string (ea_max_total_usd a)));
     rs ← on_sup (run_evals env SRC float_str float_repr SUITES docker latency url (ea_real a)
              (Z.to_nat (ea_workers a)) per_run cap (ea_timeout a) (ea_only a) (ea_suite a)
              (dr_keys dr) (dr_tmp dr) (dr_rounds dr));
     mret (Some rs))
    is_config_error (fun e => print_err ("eval refused: " +:+ exc_str e) ;; mret None);
  match results with
  | None => mret (Some 2)
  | Some None => mret None
  | Some (Some rs) => code ← report_evals env a rs; mret (Some code)
  end.

(** [run_worker] until the keyboard interrupts it: one entry per turn, with
    the times of its claim and its handlers and the clock of its commits. *)
Fixpoint worker_loop (env : environ) (id : string) (lease : Z) (poll : Q) (ctx : EngineContext P B)
    (turns : list (Z * Z * (nat -> Z) * nat)) : M S unit :=
  match turns with
  | [] => mret tt
  | (now, later, clock, rounds) :: turns' =>
      claim ← on_world (full_turn env client (Ok docker) ctx (fencing_enabled env) exc_str exc_repr
                now later id lease 5 500000 clock rounds);
      (match claim with None => sleep poll | Some _ => mret tt end) ;;
      worker_loop env id lease poll ctx turns'
  end.

(** The context of the command line: no provider and no sandbox of its own. *)
Definition cli_context (root : path) : EngineContext P B := MkEngineContext None None root.

Definition _worker (env : environ) (id : string) (lease poll : Q) (root : path)
    (turns : list (Z * Z * (nat -> Z) * nat)) : M (cli S) unit :=
  lift_res (dsn env) ;;
  on_sup (on_os (worker_loop env id (Qround.Qfloor (lease * (1000000#1))%Q) poll (cli_context root) turns)).

Definition run_command (env : environ) (c : command) (dr : drawn) (root : path)
    (turns : list (Z * Z * (nat -> Z) * nat)) : M (cli S) (option Z) :=
  match c with
  | Migrate => _migrate env ;; mret (Some 0)
  | SubmitToy steps delay count => _submit env steps delay count (dr_keys dr) ;; mret (Some 0)
  | Status rid => _status env rid ;; mret (Some 0)
  | ShowTimeline rid => _timeline env rid ;; mret (Some 0)
  | Api host port => on_sup (on_os (uvicorn_run host port)) ;; mret (Some 0)
  | Worker id lease poll => _worker env id lease poll root turns ;; mret (Some 0)
  | Chaos a => _chaos env a dr
  | Eval a => _eval env a dr
  end.

(** [main(argv)]: [file] is the text of [.env]. *)
Definition main (file : option string) (os_environ : environ) (pid : Z) (argv : list string)
    (dr : drawn) (root : path) (turns : list (Z * Z * (nat -> Z) * nat)) : M (cli S) (option Z) :=
  let '(loaded, env) := load_dotenv file os_environ in
  lift_res loaded ;;
  c ← lift_res (parse_args pid argv);
  run_command env c dr root turns.
(** ** What a command leaves behind *)

(** What is written to files and printed when the rest of the system runs. *)
Definition kept (files : list (string * string)) (out : list string) (s : cli S) : Prop :=
  cl_files s = files /\ cl_out s = out.
Definition files_kept (files : list (string * string)) (s : cli S) : Prop := cl_files s = files.

Lemma on_sup_kept files out {A} (m : M (sup S) A) : stable (kept files out) (on_sup m).
Proof. intros s Hs. unfold on_sup. by destruct (m (cl_sup s)). Qed.
Lemma on_sup_files files {A} (m : M (sup S) A) : stable (files_kept files) (on_sup m).
Proof. intros s Hs. unfold on_sup. by destruct (m (cl_sup s)). Qed.
Lemma migrate_db_files files : stable (files_kept files) migrate_db.
Proof. apply on_sup_files. Qed.
Lemma cli_db_files files {A} (m : M db A) : stable (files_kept files) (cli_db m).
Proof. apply on_sup_files. Qed.
Lemma print_files files line : stable (files_kept files) (print line).
Proof. by intros s. Qed.
Lemma print_err_files files line : stable (files_kept files) (print_err line).
Proof. by intros s. Qed.
Lemma lift_kept (K : cli S -> Prop) {A} (r : res A) : stable K (lift_res r).
Proof. by intros s. Qed.

#[local] Hint Resolve on_sup_kept on_sup_files migrate_db_files cli_db_files print_files print_err_files lift_kept : phx_inv.

Lemma submit_loop_files files spec count keys : stable (files_kept files) (submit_loop spec count keys).
Proof.
  revert keys. induction count as [|count IH]; intros keys; [destruct keys as [|[[]]]; apply stable_ret|].
  destruct keys as [|[[now rid] tid] keys]; simpl; [apply stable_ret|].
  apply stable_bind; [apply on_sup_files|]. intros r. apply stable_bind; auto with phx_inv.
Qed.

Lemma print_run line s r s' :
  print line s = (r, s') ->
  r = Ok tt /\ cl_files s' = cl_files s /\ cl_out s' = cl_out s ++ [line] /\ cl_err s' = cl_err s.
Proof. by intros [= <- <-]. Qed.

(** A report that is not a result writes nothing. *)
Lemma report_evals_Ok env a results s code s' :
  report_evals env a results s = (Ok code, s') ->
  (code = 0 /\ Forall (fun r => ~ unfinished r) results /\
   match ea_out a with
   | Some out => if bool_decide (out = "") then cl_files s' = cl_files s
                 else exists text, cl_files s' = cl_files s ++ [(out, text)]
   | None => cl_files s' = cl_files s
   end) \/
  (code = 3 /\ Exists unfinished results /\ cl_files s' = cl_files s).
Proof.
  unfold report_evals. intros E. apply bind_Ok_inv in E as (model & s1 & E1 & E).
  injection E1 as _ <-. apply bind_Ok_inv in E as (table & s2 & E1 & E). injection E1 as _ <-.
  apply bind_Ok_inv in E as (u1 & s3 & E1 & E). apply print_run in E1 as (_ & F1 & _).
  apply bind_Ok_inv in E as (u2 & s4 & E1 & E). apply print_run in E1 as (_ & F2 & _).
  apply bind_Ok_inv in E as (u3 & s5 & E1 & E). apply print_run in E1 as (_ & F3 & _).
  assert (F : cl_files s5 = cl_files s) by congruence. clear F1 F2 F3 u1 u2 u3.
  destruct (count_unfinished results =? 0) eqn:Hc; cbn [negb] in E; bool_to_prop.
  - left. apply bind_Ok_inv in E as (u & s6 & E1 & E). injection E as <- <-. split; [done|]. split.
    + apply Forall_forall. intros r Hr Hu. unfold count_unfinished in Hc.
      assert (Hin : r ∈ filter unfinished results) by (by apply list_elem_of_filter).
      destruct (filter unfinished results); [by apply not_elem_of_nil in Hin|done].
    + rewrite <- F. destruct (ea_out a) as [out|]; [|by injection E1 as _ <-].
      destruct (bool_decide _); injection E1 as _ <-; [done|]. by eexists.
  - right. apply bind_Ok_inv in E as (u & s6 & E1 & E). injection E as <- <-. injection E1 as _ <-.
    split; [done|]. split; [|done].
    unfold count_unfinished in Hc. destruct (filter unfinished results) as [|r l] eqn:Hf; [done|].
    assert (Hin : r ∈ filter unfinished results) by (rewrite Hf; constructor).
    apply list_elem_of_filter in Hin as [Hu Hr]. apply Exists_exists. by exists r.
Qed.

Lemma chaos_Ok env a dr s code s' :
  _chaos env a dr s = (Ok (Some code), s') ->
  exists url inj report s1 s2,
    dsn env = Ok url /\ in_database_url inj = url /\ in_unsafe_no_fencing inj = ca_unsafe_no_fencing a /\
    run_chaos env SRC float_str fixed1 fixed1_5 inj (config_of a) (dr_specs dr) (dr_schedule dr)
      (dr_keys dr) (dr_rounds dr) s1 = (Ok (Some report), s2) /\
    cl_files s' = cl_files s /\ cl_out s' = cl_out s ++ [render float_str fixed1 fixed0 report] /\
    code = if passed (cr_invariants report) then 0 else 1.
Proof.
  unfold _chaos. intros E. apply bind_Ok_inv in E as (url & s1 & E1 & E).
  injection E1 as Hurl <-. apply bind_Ok_inv in E as (names & s2 & E1 & E).
  pose proof (stable_run _ _ _ _ _ (on_sup_kept _ _ _) (conj eq_refl eq_refl) E1) as [F1 O1].
  apply bind_Ok_inv in E as ([report|] & s3 & E2 & E); [|done].
  pose proof (stable_run _ _ _ _ _ (on_sup_kept _ _ _) (conj eq_refl eq_refl) E2) as [F2 O2].
  apply bind_Ok_inv in E as (u & s4 & E3 & E). apply print_run in E3 as (_ & F3 & O3 & _).
  injection E as <- <-. unfold on_sup in E2.
  match type of E2 with (let '(_, _) := ?m in _) = _ => destruct m as [r x] eqn:Er end.
  injection E2 as -> <-. eexists url, _, report, _, x. split_and!; [done| | |exact Er|..].
  - done.
  - done.
  - congruence.
  - by rewrite O3, O2, O1.
  - done.
Qed.

Lemma eval_Ok env a dr s code s' :
  _eval env a dr s = (Ok (Some code), s') ->
  (code = 2 /\ cl_files s' = cl_files s) \/
  exists url per_run cap rs s1 s2,
    dsn env = Ok url /\ dec_of_string (ea_budget a) = Some per_run /\
    dec_of_string (ea_max_total_usd a) = Some cap /\
    run_evals env SRC float_str float_repr SUITES docker latency url (ea_real a) (Z.to_nat (ea_workers a))
      per_run cap (ea_timeout a) (ea_only a) (ea_suite a) (dr_keys dr) (dr_tmp dr) (dr_rounds dr) s1 =
      (Ok (Some rs), s2) /\
    ((code = 0 /\ Forall (fun r => ~ unfinished r) rs /\
      match ea_out a with
      | Some out => if bool_decide (out = "") then cl_files s' = cl_files s
                    else exists text, cl_files s' = cl_files s ++ [(out, text)]
      | None => cl_files s' = cl_files s
      end) \/
     (code = 3 /\ Exists unfinished rs /\ cl_files s' = cl_files s)).
Proof.
  unfold _eval. intros E. apply bind_Ok_inv in E as (url & s1 & E1 & E).
  injection E1 as Hurl <-. apply bind_Ok_inv in E as (names & s2 & E1 & E).
  pose proof (stable_run _ _ _ _ _ (on_sup_files _ _) eq_refl E1) as F1. unfold files_kept in F1.
  apply bind_Ok_inv in E as (results & s3 & E2 & E).
  assert (F2 : cl_files s3 = cl_files s2).
  { refine (stable_run (files_kept _) _ _ _ _ _ eq_refl E2). apply stable_try; [|intros e].
    - apply stable_bind; [apply lift_kept|]. intros per_run. apply stable_bind; [apply lift_kept|]. intros cap.
      apply stable_bind; auto with phx_inv.
    - by apply stable_bind; auto with phx_inv. }
  destruct results as [[rs|]|]; [|done|left; injection E as <- <-; split; congruence].
  right. apply bind_Ok_inv in E as (code' & s4 & E3 & E). injection E as <- <-.
  unfold try_except in E2.
  match type of E2 with match ?m with _ => _ end = _ => destruct m as [[v|e] x] eqn:Er end.
  - injection E2 as -> <-. apply bind_Ok_inv in Er as (per_run & y1 & Ep & Er).
    apply bind_Ok_inv in Er as (cap & y2 & Ec & Er). apply bind_Ok_inv in Er as (rs' & y3 & Er & Ef).
    injection Ef as -> <-. unfold lift_res in Ep, Ec.
    destruct (dec_of_string (ea_budget a)) as [b|]; [|done]. injection Ep as -> <-.
    destruct (dec_of_string (ea_max_total_usd a)) as [c|]; [|done]. injection Ec as -> <-.
    unfold on_sup in Er. match type of Er with (let '(_, _) := ?m in _) = _ => destruct m as [r z] eqn:Ez end.
    injection Er as -> <-. exists url, per_run, cap, rs, (cl_sup s2), z. split_and!; [done..|].
    apply report_evals_Ok in E3. rewrite F2, F1 in E3. exact E3.
  - destruct (is_config_error e); [|done]. apply bind_Ok_inv in E2 as (u & y & _ & E2). done.
Qed.

(** C34: what the exit status says.  [chaos] exits with 0 exactly when every
    invariant of the report it printed passed.  [eval] exits with 0 only when
    all its tasks were decided, and only then is the [--out] file written,
    once; a run with a timeout or a platform error exits with 3 and a refused
    one with 2, and neither writes anything.  Every other command exits with 0
    and writes no file, and arguments that do not parse run nothing. *)
Theorem exit_status file os_environ pid argv dr root turns s r s' :
  main file os_environ pid argv dr root turns s = (r, s') ->
  match load_dotenv file os_environ, parse_args pid argv with
  | (Raise e, _), _ | (Ok _, _), Raise e => r = Raise e /\ s' = s
  | (Ok _, env), Ok c =>
      forall code, r = Ok (Some code) ->
      match c with
      | Chaos a =>
          exists inj report s1 s2,
            dsn env = Ok (in_database_url inj) /\ in_unsafe_no_fencing inj = ca_unsafe_no_fencing a /\
            run_chaos env SRC float_str fixed1 fixed1_5 inj (config_of a) (dr_specs dr) (dr_schedule dr)
              (dr_keys dr) (dr_rounds dr) s1 = (Ok (Some report), s2) /\
            cl_files s' = cl_files s /\ cl_out s' = cl_out s ++ [render float_str fixed1 fixed0 report] /\
            code = if passed (cr_invariants report) then 0 else 1
      | Eval a =>
          (code = 2 /\ cl_files s' = cl_files s) \/
          exists url per_run cap rs s1 s2,
            dsn env = Ok url /\ dec_of_string (ea_budget a) = Some per_run /\
            dec_of_string (ea_max_total_usd a) = Some cap /\
            run_evals env SRC float_str float_repr SUITES docker latency url (ea_real a)
              (Z.to_nat (ea_workers a)) per_run cap (ea_timeout a) (ea_only a) (ea_suite a)
              (dr_keys dr) (dr_tmp dr) (dr_rounds dr) s1 = (Ok (Some rs), s2) /\
            ((code = 0 /\ Forall (fun r => ~ unfinished r) rs /\
              match ea_out a with
              | Some out => if bool_decide (out = "") then cl_files s' = cl_files s
                            else exists text, cl_files s' = cl_files s ++ [(out, text)]
              | None => cl_files s' = cl_files s
              end) \/
             (code = 3 /\ Exists unfinished rs /\ cl_files s' = cl_files s))
      | _ => code = 0 /\ cl_files s' = cl_files s
      end
  end.
Proof.
  unfold main. destruct (load_dotenv file os_environ) as [[names|e] env]; [|by intros [= <- <-]].
  destruct (parse_args pid argv) as [c|e]; [|by intros [= <- <-]]. intros E code ->.
  change (run_command env c dr root turns s = (Ok (Some code), s')) in E.
  assert (Hz : forall m : M (cli S) unit, stable (files_kept (cl_files s)) m ->
    (m ;; mret (Some 0)) s = (Ok (Some code), s') -> code = 0 /\ cl_files s' = cl_files s).
  { intros m Hm E1. apply bind_Ok_inv in E1 as (u & s1 & E1 & E2). injection E2 as <- <-.
    split; [done|]. exact (stable_run _ _ _ _ _ Hm eq_refl E1). }
  destruct c; cbn [run_command] in E; first [apply chaos_Ok in E as (url & inj & report & s1 & s2 & Hu & <- & E);
    by exists inj, report, s1, s2 | by apply eval_Ok in E | eapply Hz; [|exact E]].
  - apply stable_bind; [apply lift_kept|]. intros u. apply stable_bind; auto with phx_inv.
  - apply stable_bind; [apply lift_kept|]. intros u. apply submit_loop_files.
  - apply stable_bind; [apply lift_kept|]. intros u. apply stable_bind; auto with phx_inv.
  - apply stable_bind; [apply lift_kept|]. intros u. apply stable_bind; auto with phx_inv.
  - auto with phx_inv.
  - apply stable_bind; auto with phx_inv.
Qed.
End Cli.

(** ** The arguments the program itself writes *)
Lemma digits_val_nonneg ds : 0 <= digits_val ds.
Proof.
  rewrite digits_val_unfold. assert (H : forall acc, 0 <= acc -> 0 <= foldl digit_step acc ds); [|by apply H].
  induction ds as [|c ds IH]; intros acc Hacc; [done|]. cbn [foldl]. apply IH. unfold digit_step, digit_val.
  destruct (_ && _) eqn:E; cbn [default from_option id]; lia.
Qed.

(** The text of a positive number has no minus sign. *)
Lemma positive_text_no_hyphen s d :
  dec_of_string s = Some d -> (0 < Q_of_dec d)%Q -> startswith "-" s = false.
Proof.
  intros Hs Hd. rewrite startswith_hyphen. unfold dec_of_string, parse_dec in Hs.
  destruct (str_to_list s) as [|c l]; [done|].
  apply bool_decide_eq_false. intros ->. cbn [split_sign] in Hs. destruct (span_digits l) as [ip l2].
  match type of Hs with (let '(_, _) := ?m in _) = _ => destruct m as [fp l3] end.
  destruct (ip ++ fp) as [|x ds]; [done|].
  destruct (parse_exp l3) as [e|]; [|done]. injection Hs as <-.
  unfold Q_of_dec in Hd. cbn [dcoef dexp] in Hd. pose proof (digits_val_nonneg (x :: ds)) as Hn.
  assert (Hp : (0 < Qpower (10#1) (e - Z.of_nat (length fp)))%Q) by (by apply Qpower.Qpower_0_lt).
  assert (Hle : (inject_Z (- digits_val (x :: ds)) <= 0)%Q).
  { change 0%Q with (inject_Z 0). rewrite <- Zle_Qle. lia. }
  apply (Qlt_irrefl 0). eapply Qlt_le_trans; [exact Hd|].
  rewrite <- (Qmult_0_l (Qpower (10#1) (e - Z.of_nat (length fp)))).
  apply Qmult_le_compat_r; [done|]. by apply Qlt_le_weak.
Qed.

Lemma parse_run_id u :
  (u < 2 ^ 128)%N -> parse_options run_parser [uuid_str u] = Ok {["run_id" := AUuid u]}.
Proof.
  intros Hu. unfold parse_options. cbn [mapR]. rewrite classify_argument by apply uuid_str_no_hyphen.
  unfold mbind, res_bind, mret, res_ret. cbn [consume]. unfold take_argument. cbn [run_parser ps_positional st_positional].
  unfold mbind, res_bind. cbn [convert]. by rewrite parse_uuid_str.
Qed.

Lemma parse_worker_options pid id text d :
  startswith "-" id = false -> startswith "-" text = false -> dec_of_string text = Some d ->
  parse_options (worker_parser pid) ["--id"; id; "--lease"; text] =
    Ok (<["lease" := AFloat (Q_of_dec d)]> (<["id" := AStr id]> (defaults (worker_parser pid)))).
Proof.
  intros Hid Htext Hd. unfold parse_options. cbn [mapR].
  rewrite (classify_argument _ id), (classify_argument _ text) by done.
  change (classify (worker_parser pid) "--id") with
    (Ok (Opt (store "--id" "id" TStr (AStr ("worker-" +:+ string_of_Z pid))) None)).
  change (classify (worker_parser pid) "--lease") with
    (Ok (Opt (store "--lease" "lease" TFloat (AFloat (5#1)%Q)) None)).
  unfold mbind, res_bind, mret, res_ret. cbn -[dec_of_string Q_of_dec defaults].
  rewrite Hd. done.
Qed.

Lemma parse_command_found cs cmd name ps rest :
  startswith "-" cmd = false -> find (fun c => bool_decide (fst c = cmd)) cs = Some (name, ps) ->
  parse_command cs false (cmd :: rest) = (ns ← parse_options ps rest; Ok (cmd, ns)).
Proof.
  intros Hcmd Hf. cbn [parse_command]. rewrite classify_argument by done.
  unfold mbind, res_bind. by rewrite Hf.
Qed.

(** C35: the arguments the platform writes are the ones its parser reads.  An
    identifier printed by [submit] selects that run in [status] and
    [timeline]; the command line an injector starts a worker with parses to a
    worker of that name with the injector's lease, as long as the text of the
    lease is its value. *)
Theorem arguments_roundtrip pid :
  (forall u, (u < 2 ^ 128)%N ->
     parse_args pid ["status"; uuid_str u] = Ok (Status u) /\
     parse_args pid ["timeline"; uuid_str u] = Ok (ShowTimeline u)) /\
  (forall float_str inj n d, 0 <= n -> (0 < in_lease_seconds inj)%Q ->
     dec_of_string (float_str (in_lease_seconds inj)) = Some d ->
     (Q_of_dec d == in_lease_seconds inj)%Q ->
     exists lease, (lease == in_lease_seconds inj)%Q /\
       parse_args pid (drop 2 (worker_args float_str inj (worker_name n))) =
         Ok (Worker (worker_name n) lease (1#5)%Q)).
Proof.
  split.
  - intros u Hu. pose proof (parse_run_id u Hu) as Hp. unfold parse_args.
    rewrite !(parse_command_found _ _ _ run_parser) by done. by rewrite Hp.
  - intros float_str inj n d Hn Hpos Hd Hv. exists (Q_of_dec d). split; [done|].
    assert (Hp : parse_options (worker_parser pid)
        ["--id"; worker_name n; "--lease"; float_str (in_lease_seconds inj)] =
      Ok (<["lease" := AFloat (Q_of_dec d)]> (<["id" := AStr (worker_name n)]> (defaults (worker_parser pid))))).
    { apply parse_worker_options; [done| |done]. apply (positive_text_no_hyphen _ d); [done|]. by rewrite Hv. }
    unfold parse_args, worker_args. cbn [drop].
    rewrite (parse_command_found _ _ "worker" (worker_parser pid)) by done. by rewrite Hp.
Qed.
