(* ===== verification/Witnesses.v ===== *)
(** The properties of the development at concrete inputs: a toy run of three
    steps submitted, claimed by worker A and half executed, and small file
    systems, logs and messages.  Every witness applies its theorem and
    evaluates the hypotheses. *)

From S2P Require Import Prelude PyDecimal Json Database Store Leases Engine Budget Sha256.
From S2P Require Import LlmCache Workspace Agent Execution Invariants System Safety Progress.

(** ** A run of three steps *)
Definition w_str (e : exn) : string := "boom".
Definition w_spec : json := JObj [("kind", JStr "toy"); ("steps", JInt 3)].
Definition w_toy : ToyWorkflow := MkToyWorkflow 3 (Dec 1 (-4)).
Definition w_c : Claim := MkClaim 1 1 "A" 1.
Definition w_stale : Claim := MkClaim 1 1 "Z" 0.
Definition w_o (i : Z) : StepOutcome := toy_step w_toy w_c i.
Definition w_row (spent : Z) : run_row := RunRow w_spec Running 10000 spent 0 None.
Definition w_task : task_row := TaskRow 1 Leased (Some "A"%stdpp) (Some 60) 1 0.

(** Submitted, claimed, one step committed. *)
Definition w_d1 : db := snd (submit_run 0 1%N 1%N w_spec (inl "1.0"%stdpp) db_empty).
Definition w_d2 : db := snd (claim_task 0 ∅ "A" 60 w_d1).
Definition w_d3 : db := snd (commit_step true 1 w_c 0 (w_o 0) w_d2).

(** The state after one commit. *)
Definition w_sys : sys := Sys w_d3 (set_pc 0%N w_c Replaying ∅).

Lemma w_toy_cost : whole_micros (Dec 1 (-4)) 100.
Proof. by split; [vm_compute|]. Qed.

Lemma w_billed i : billed (w_o i).
Proof.
  split; [|done]. rewrite <- payload_cost_commit with (c := w_c).
  by apply (next_step_billed (S := db) w_toy w_c i [] db_empty db_empty).
Qed.

Lemma w_reachable fencing : reachable fencing w_str w_str w_sys.
Proof.
  unfold reachable.
  eapply rtc_l; [by apply (step_submit _ _ _ 0 1%N 1%N w_spec (inl "1.0"%stdpp) db_empty w_d1)|].
  eapply rtc_l; [by apply (step_claim _ _ _ 0%N 0 ∅ "A" 60 w_c w_d1 w_d2)|].
  eapply rtc_l; [by apply (step_read _ _ _ 0%N w_c [] w_d2 w_d2)|].
  eapply rtc_l; [by apply (step_compute _ _ _ 0%N w_c [] (Replayed []) (w_o 0)); [|left|apply w_billed]|].
  eapply rtc_l; [|apply rtc_refl]. destruct fencing;
    by apply (step_commit _ _ _ 0%N w_c 0 (w_o 0) 1 true w_d2 w_d3).
Qed.

Lemma w_gapless rid : gapless rid w_d3.
Proof. exact (di_gapless _ (inv_db _ (reachable_inv _ _ _ _ (w_reachable true))) rid). Qed.

Lemma w_keyed rid : keyed rid w_d3.
Proof. exact (di_keyed _ (inv_db _ (reachable_inv _ _ _ _ (w_reachable true))) rid). Qed.

(** ** The system *)
Lemma reachable_consistent_witness :
  reachable false w_str w_str w_sys /\
  run_spent_usd (w_row 100) = stored_spend [Dec 1 (-4)] /\
  run_spent_usd (w_row 100) = sumZ [100].
Proof.
  split; [apply w_reachable|].
  destruct (reachable_consistent w_str w_str false w_sys (w_reachable false)) as (_ & H & Hm & _). split.
  - destruct (H 1%N (w_row 100) eq_refl) as (costs & Hc & Hs & _).
    assert (E : mapR event_cost (events_of 1 w_d3) = Ok [Dec 1 (-4)]) by (by_vm).
    cbn [sys_db w_sys] in Hc. rewrite Hc in E. injection E as ->. exact Hs.
  - apply (Hm 1%N (w_row 100) [100] eq_refl). constructor; [|constructor].
    exists (Dec 1 (-4)). split; [by_vm|apply w_toy_cost].
Defined.

Lemma fenced_chaos_passes_witness :
  reachable true w_str w_str w_sys /\ NoDup [1%N] /\
  exists log, log_integrity [1%N] w_d3 = Ok log /\ ir_passed log = true.
Proof.
  assert (Hnd : NoDup [1%N]) by apply NoDup_singleton.
  split; [apply w_reachable|]. split; [exact Hnd|].
  destruct (fenced_chaos_passes w_str w_str w_sys [1%N] (w_reachable true) Hnd) as (log & spend & Hc & Hl & _).
  exists log. split; [|exact Hl]. unfold check_all in Hc. cbn [sys_db w_sys] in Hc.
  destruct (log_integrity [1%N] w_d3) as [l|e]; [|discriminate Hc].
  unfold mbind, res_bind in Hc. destruct (spend_consistency [1%N] w_d3); [|discriminate Hc].
  exact (f_equal (fun r => match r with Ok (_ :: x :: _) => Ok x | _ => Ok l end) Hc).
Defined.

(** The run of [race_toy] of one step, committed and so ended. *)
Definition w_short : ToyWorkflow := MkToyWorkflow 1 (Dec 1 (-4)).
Definition w_end : db := snd (commit_step true 1 w_c 0 (toy_step w_short w_c 0) w_d2).
Definition w_end_row : run_row := finish_run_row Succeeded 1 (w_row 100).

Lemma w_end_reachable : reachable true w_str w_str (Sys w_end ∅).
Proof.
  unfold reachable.
  eapply rtc_l; [by apply (step_submit _ _ _ 0 1%N 1%N w_spec (inl "1.0"%stdpp) db_empty w_d1)|].
  eapply rtc_l; [by apply (step_claim _ _ _ 0%N 0 ∅ "A" 60 w_c w_d1 w_d2)|].
  eapply rtc_l; [by apply (step_read _ _ _ 0%N w_c [] w_d2 w_d2)|].
  eapply rtc_l.
  { apply (step_compute _ _ _ 0%N w_c [] (Replayed []) (toy_step w_short w_c 0)); [done|by left|].
    split; [|done]. rewrite <- payload_cost_commit with (c := w_c).
    by apply (next_step_billed (S := db) w_short w_c 0 [] db_empty db_empty). }
  eapply rtc_l; [|apply rtc_refl].
  by apply (step_commit _ _ _ 0%N w_c 0 (toy_step w_short w_c 0) 1 true w_d2 w_end).
Qed.

Lemma ended_run_frozen_witness :
  reachable true w_str w_str (Sys w_end ∅) /\
  step true w_str w_str (Sys w_end ∅) (Sys (snd (reap_expired 99 ∅ w_end)) ∅) /\
  runs (snd (reap_expired 99 ∅ w_end)) !! 1%N = Some w_end_row.
Proof.
  assert (Hst : step true w_str w_str (Sys w_end ∅) (Sys (snd (reap_expired 99 ∅ w_end)) ∅))
    by (by apply (step_reap _ _ _ 99 ∅ 0%nat w_end)).
  split; [apply w_end_reachable|]. split; [exact Hst|].
  exact (proj1 (ended_run_frozen w_str w_str _ _ 1%N w_end_row w_end_reachable Hst eq_refl eq_refl)).
Defined.

(** ** Commits *)
Lemma commit_step_correct_witness :
  gapless 1 w_d3 /\ runs w_d3 !! 1%N = Some (w_row 100) /\
  commit_step true 2 w_c 1 (w_o 1) w_d3 = (Ok true, snd (commit_step true 2 w_c 1 (w_o 1) w_d3)) /\
  fence_ok true 2 w_c w_d3 = true.
Proof.
  split; [apply w_gapless|]. split; [reflexivity|].
  assert (E : commit_step true 2 w_c 1 (w_o 1) w_d3 = (Ok true, snd (commit_step true 2 w_c 1 (w_o 1) w_d3)))
    by (by_vm).
  split; [exact E|].
  pose proof (commit_step_correct true 2 w_c 1 (w_o 1) w_d3 (w_row 100) (w_gapless 1) eq_refl) as H.
  rewrite E in H. apply H.
Defined.

Lemma commit_step_at_most_once_witness :
  commit_step true 1 w_c 0 (w_o 0) w_d2 = (Ok true, w_d3) /\
  snd (commit_step false 9 w_stale 0 (w_o 5) w_d3) = w_d3.
Proof.
  assert (E : commit_step true 1 w_c 0 (w_o 0) w_d2 = (Ok true, w_d3)) by (by_vm).
  split; [exact E|].
  apply (commit_step_at_most_once true false 1 9 w_c w_stale 0 (w_o 0) (w_o 5) w_d2 w_d3 w_d3);
    [by_vm|apply w_gapless|exact E|by exists []; rewrite app_nil_r|reflexivity].
Defined.

Lemma handle_error_correct_witness :
  gapless 1 w_d3 /\ keyed 1 w_d3 /\ retries w_c RuntimeError 1 = false /\
  fst (_handle_error w_str w_str true 2 w_c RuntimeError 1 500 w_d3) = Ok tt.
Proof.
  split; [apply w_gapless|]. split; [apply w_keyed|]. split; [reflexivity|].
  apply (handle_error_correct w_str w_str 2 w_c RuntimeError 1 500 w_d3 (w_row 100) w_task
           (w_gapless 1) (w_keyed 1) eq_refl eq_refl). vm_compute. reflexivity.
Defined.

(** ** Event store and leases *)
Lemma append_event_gapless_witness :
  runs w_d3 !! 1%N = Some (w_row 100) /\
  fst (append_event false 2 1 "k"%stdpp "note" [] w_d3) = Ok (MkAppendResult 2 true) /\
  (forall rid, gapless rid (snd (append_event false 2 1 "k"%stdpp "note" [] w_d3))).
Proof.
  split; [reflexivity|]. split; [by_vm|].
  pose proof (append_event_gapless false 2 1 "k"%stdpp "note" [] w_d3 (w_row 100) w_gapless eq_refl) as H.
  assert (E : append_event false 2 1 "k"%stdpp "note" [] w_d3 =
    (Ok (MkAppendResult 2 true), snd (append_event false 2 1 "k"%stdpp "note" [] w_d3))) by (by_vm).
  rewrite E in H. exact (proj1 H).
Defined.

(** A payload with a NUL character is refused. *)
Lemma append_event_nul :
  append_event false 2 1 "k"%stdpp "note" [("stdout", JStr (String "000" EmptyString))] w_d3 =
    (Raise UntranslatableCharacterError, w_d3).
Proof. by_vm. Qed.

Lemma append_event_idempotent_witness :
  append_event true 5 1 (step_key 1 0) "other" [] w_d3 = (Ok (MkAppendResult 1 false), w_d3).
Proof.
  assert (E : append_event true 1 1 (step_key 1 0) "toy_step" (commit_payload w_c (w_o 0)) w_d2 =
    (Ok (MkAppendResult 1 true),
     snd (append_event true 1 1 (step_key 1 0) "toy_step" (commit_payload w_c (w_o 0)) w_d2)))
    by (by_vm).
  pose proof (append_event_idempotent true true 1 5 1 (step_key 1 0) "toy_step" "other" _ [] w_d2 _ _ E) as _.
  assert (E3 : append_event true 9 1 (step_key 1 0) "x" [] w_d3 = (Ok (MkAppendResult 1 false), w_d3))
    by (by_vm).
  exact (append_event_idempotent true true 9 5 1 (step_key 1 0) "x" "other" [] [] w_d3 _ _ E3).
Defined.

Lemma step_key_injective_witness : step_key 1 2 = step_key 1 2 /\ (1%N = 1%N /\ 2 = 2).
Proof. split; [reflexivity|]. by apply (step_key_injective 1 1 2 2). Defined.

Lemma stale_claim_powerless_witness :
  claim_task 0 ∅ "A" 60 w_d1 = (Ok (Some w_c), w_d2) /\
  assert_lease true 1 w_stale w_d2 = (Raise LeaseLostError, w_d2).
Proof.
  assert (E : claim_task 0 ∅ "A" 60 w_d1 = (Ok (Some w_c), w_d2)) by (by_vm).
  split; [exact E|].
  exact (proj2 (proj2 (stale_claim_powerless 0 1 ∅ "A" 60 60 0 w_d1 w_d2 w_c w_stale w_d2 E
    (reflexivity w_d2) eq_refl ltac:(simpl; lia)))).
Defined.

(** A schema that is the list of the scripts run, none of which fails. *)
Definition w_exec (sql : string) : M (list string) unit := modify (fun s => s ++ [sql]).

Lemma apply_migrations_once_witness :
  NoDup ["002.sql"; "001.sql"]%stdpp /\
  snd (Migrations.apply_migrations w_exec [("002.sql", "b"); ("001.sql", "a")]%stdpp ([], [])) =
    (["a"; "b"], ["001.sql"; "002.sql"])%stdpp /\
  Migrations.apply_migrations w_exec [("002.sql", "b"); ("001.sql", "a")]%stdpp
    (["a"; "b"], ["001.sql"; "002.sql"])%stdpp = (Ok [], (["a"; "b"], ["001.sql"; "002.sql"])%stdpp).
Proof.
  assert (Hnd : NoDup ["002.sql"; "001.sql"]%stdpp) by (apply (bool_decide_unpack _); vm_compute; exact I).
  split; [exact Hnd|]. split; [reflexivity|].
  exact (proj2 (proj2 (MigrationFacts.apply_migrations_once w_exec
    [("002.sql", "b"); ("001.sql", "a")]%stdpp ([], []) ["001.sql"; "002.sql"]%stdpp _ Hnd eq_refl))).
Defined.

(** ** Budgets *)
Definition w_event (i : Z) (payload : dict) : event := Event 1 (i + 1) "agent_step" payload (step_key 1 i).
Definition w_action (sig : string) : dict :=
  [("tool", JStr "run_code"); ("_sig", JStr sig); ("args", JObj [("path", JStr "main.py")])].
Definition w_agent_event (i : Z) (sig : string) : event :=
  w_event i [("action", JObj (w_action sig)); ("cost_usd", JStr "0.00035")].
Definition w_log (n : nat) : list event :=
  (fun i => w_agent_event i (string_of_Z i)) <$> seqZ 0 (Z.of_nat n).

Lemma check_limits_correct_witness :
  spent_from_events (w_log 3) = Ok (Dec 105 (-5)) /\
  check_limits (w_log 3) (Dec 1 0) 20 = Ok (Some LoopDetected) /\ stuck 3 (actions_of (w_log 3)).
Proof.
  assert (E : check_limits (w_log 3) (Dec 1 0) 20 = Ok (Some LoopDetected)) by (by_vm).
  split; [by_vm|]. split; [exact E|].
  destruct (check_limits_correct (w_log 3) (Dec 1 0) 20 (Dec 105 (-5))) as (l & Hl & _ & _ & H & _);
    [by_vm|by repeat constructor|].
  rewrite E in Hl. injection Hl as <-. by apply H.
Defined.

Lemma fingerprint_public_witness :
  _fingerprint (JObj (w_action "a")) = _fingerprint (JObj (reverse (w_action "b"))).
Proof.
  apply fingerprint_public.
  apply same_obj with (mid := public_items (w_action "a")).
  - apply (bool_decide_unpack _); vm_compute; exact I.
  - repeat (constructor; [split; [reflexivity|apply same_refl]|]). constructor.
  - vm_compute. apply Permutation_swap.
Defined.

(** ** Cached calls *)
Definition w_script : MockProvider := MkMockProvider [write "a.py" "print(1)"; finish "done"].
Definition w_msgs : list json := [JObj [("role", JStr "user"); ("content", JStr "hi")]].
Definition w_resp : LLMResponse := MkLLMResponse (write "a.py" "print(1)") 100 50 (Dec 35 (-5)).

Lemma w_mock_cost : whole_micros (Dec 35 (-5)) 350.
Proof. by split; [vm_compute|]. Qed.

Lemma cache_key_scoped_witness :
  cache_key "mock" 1 0 w_msgs = cache_key "mock" 1 0 w_msgs /\
  ((1%N = 1%N /\ 0 = 0) \/
   (key_blob "mock" 1 0 w_msgs <> key_blob "mock" 1 0 w_msgs /\
    sha256 (key_blob "mock" 1 0 w_msgs) = sha256 (key_blob "mock" 1 0 w_msgs))).
Proof.
  split; [reflexivity|].
  by apply (cache_key_scoped "mock" 1 1 0 0 w_msgs w_msgs).
Defined.

Lemma complete_cached_correct_witness :
  int4 0 = Ok 0 /\ int4 1 = Ok 1 /\
  get_db (snd (complete w_script w_msgs (put_db
    (set_provider_calls (provider_calls w_d2 ++
       [CallRow 1 0 (cache_key "mock" 1 0 w_msgs) 1 (Some "A"%stdpp)]) w_d2) w_d2))) =
    set_provider_calls (provider_calls w_d2 ++
       [CallRow 1 0 (cache_key "mock" 1 0 w_msgs) 1 (Some "A"%stdpp)]) w_d2.
Proof.
  split; [reflexivity|]. split; [reflexivity|].
  exact (proj2 (complete_cached_correct w_script 1 0 w_msgs 1 (Some "A"%stdpp) w_d2 eq_refl eq_refl)).
Defined.

Lemma answered_step_not_asked_again_witness :
  let s1 := snd (complete_cached w_script 1 0 w_msgs 1 (Some "A"%stdpp) w_d2) in
  complete_cached w_script 1 0 w_msgs 1 (Some "A"%stdpp) w_d2 = (Ok w_resp, s1) /\
  exists resp', complete_cached w_script 1 0 w_msgs 2 (Some "B"%stdpp) s1 = (Ok resp', s1) /\
    resp_action resp' = resp_action w_resp /\ whole_micros (resp_cost_usd resp') 350.
Proof.
  intros s1.
  assert (E : complete_cached w_script 1 0 w_msgs 1 (Some "A"%stdpp) w_d2 = (Ok w_resp, s1))
    by (by_vm).
  split; [exact E|].
  destruct (answered_step_not_asked_again w_script 1 0 w_msgs w_msgs 1 2 (Some "A"%stdpp)
    (Some "B"%stdpp) w_d2 s1 s1 w_resp) as (resp' & H & Ha & _ & _ & Hc);
    [reflexivity|reflexivity|by_vm|exact E|reflexivity|
     repeat (constructor; [apply same_refl|]); constructor|].
  exists resp'. split; [exact H|]. split; [exact Ha|]. exact (Hc 350 w_mock_cost).
Defined.

(** An action with a NUL character is not cached: its step's retry asks the
    provider again. *)
Definition w_nul_script : MockProvider := MkMockProvider [write "a.py" (String "000" EmptyString)].

Lemma nul_action_paid_again :
  let ask attempt := complete_cached w_nul_script 1 0 w_msgs attempt (Some "A"%stdpp) in
  let s1 := snd (ask 1 w_d2) in let s2 := snd (ask 2 s1) in
  fst (ask 1 w_d2) = Raise UntranslatableCharacterError /\ fst (ask 2 s1) = Raise UntranslatableCharacterError /\
  length (provider_calls s2) = (2 + length (provider_calls w_d2))%nat.
Proof. split_and!; by_vm. Qed.

(** ** Files *)
#[local] Instance w_sandbox : Sandbox unit :=
  fun _ _ _ => mret (MkSandboxResult 0 "1" "" false false 3 false).

Definition w_ra : path := ["ws"; "a1"]%stdpp.
Definition w_rb : path := ["ws"; "a2"]%stdpp.
Definition w_f1 : fs := snd (materialize_workspace w_ra [] ∅).
Definition w_f2 : fs := snd (_execute w_str tt w_ra (write "a.py" "print(1)") w_f1).
Definition w_write_event : event :=
  w_event 0 [("action", JObj (write "a.py" "print(1)")); ("observation", JObj [("ok", JBool true)])].

Lemma w_fresh (root : path) : root <> [] -> (".."%stdpp ∉ root) -> fresh_root ∅ root.
Proof. intros. split_and!; [done|done|by left|done]. Qed.

Lemma w_ra_fresh : fresh_root ∅ w_ra.
Proof. apply w_fresh; [done|]. apply (bool_decide_unpack _); vm_compute; exact I. Qed.
Lemma w_rb_fresh : fresh_root ∅ w_rb.
Proof. apply w_fresh; [done|]. apply (bool_decide_unpack _); vm_compute; exact I. Qed.

Lemma w_f1_ok : ws_ok w_f1 w_ra.
Proof.
  destruct (materialize_empty ∅ w_ra w_ra_fresh) as (f' & Hm & Hw & _).
  unfold w_f1. by rewrite Hm.
Qed.

Lemma materialize_confined_witness :
  fresh_root ∅ w_ra /\ ws_ok (snd (materialize_workspace w_ra [w_write_event] ∅)) w_ra.
Proof.
  split; [apply w_ra_fresh|].
  exact (proj1 (materialize_confined w_ra [w_write_event] ∅ w_ra_fresh)).
Defined.

Lemma safe_join_confined_witness :
  ws_ok w_f1 w_ra /\
  safe_join w_ra (JStr "src/a.py") w_f1 = (Ok (w_ra ++ ["src"; "a.py"]%stdpp), w_f1) /\
  safe_join w_ra (JStr "src/../../x") w_f1 = (Raise UnsafePathError, w_f1).
Proof.
  pose proof w_f1_ok as Hw.
  split; [exact Hw|]. split.
  - exact (proj2 (safe_join_confined w_ra (JStr "src/a.py") w_f1) Hw "src/a.py"%stdpp eq_refl).
  - exact (proj2 (safe_join_confined w_ra (JStr "src/../../x") w_f1) Hw "src/../../x"%stdpp eq_refl).
Defined.

Lemma w_worked : worked w_str tt w_ra ∅ [w_write_event] w_f2.
Proof.
  apply (worked_step w_str tt w_ra ∅ [] w_f1 w_write_event (write "a.py" "print(1)") [("ok", JBool true)]).
  - apply worked_start. by_vm.
  - by_vm.
  - by_vm.
  - by_vm.
  - split; [discriminate|]. intros _. eexists _, _. split; reflexivity.
Qed.

Lemma takeover_workspace_witness :
  worked w_str tt w_ra ∅ [w_write_event] w_f2 /\
  exists g', materialize_workspace w_rb [w_write_event] ∅ = (Ok tt, g') /\
    g' !! (w_rb ++ ["a.py"]%stdpp) = Some (NFile "print(1)").
Proof.
  split; [apply w_worked|].
  destruct (takeover_workspace w_str tt w_ra w_rb ∅ ∅ [w_write_event] w_f2 w_worked w_ra_fresh w_rb_fresh)
    as (g' & Hm & Ht).
  exists g'. split; [exact Hm|]. rewrite Ht. by_vm.
Defined.

Definition w_number_action : dict :=
  [("tool", JStr "write_file"); ("args", JObj [("path", JStr "n.txt"); ("content", JInt 7)])].
Definition w_number_event : event :=
  w_event 0 [("action", JObj w_number_action); ("observation", JObj [("ok", JBool true)])].

Lemma non_text_content_not_rebuilt_witness :
  fst (_execute w_str tt w_ra w_number_action w_f1) = Ok [("ok", JBool true)] /\
  fst (materialize_workspace w_ra [w_number_event] ∅) = Raise TypeError.
Proof.
  split; [by_vm|].
  pose proof w_f1_ok as Hw.
  refine (proj2 (non_text_content_not_rebuilt w_str tt w_ra "n.txt"%stdpp (JInt 7) w_number_event w_f1
    (snd (_execute w_str tt w_ra w_number_action w_f1)) w_ra ∅ w_f1 Hw _ _ _ _ _ Hw _)).
  - by_vm.
  - discriminate.
  - by_vm.
  - by_vm.
  - by_vm.
  - exists (snd (mkdir (removelast (w_ra ++ path_parts "n.txt"%stdpp)) w_f1)). by_vm.
Defined.

(** ** Executions *)
Definition w_agent_spec : dict := [("kind", JStr "agent"); ("prompt", JStr "print hello")].
Definition w_agent : AgentWorkflow MockProvider unit := MkAgentWorkflow w_agent_spec w_script tt ["ws"%stdpp] 5.
Definition w_world : world := World w_d2 ∅ None.

Lemma w_replayable : replayable 1 w_d2.
Proof. split_and!; [reflexivity|reflexivity|]. exists (w_row 0). by_vm. Qed.

Lemma agent_task_terminates_witness :
  replayable 1 (get_db w_world) /\ 5 < Z.of_nat 6 /\
  (fst (execute_task (H0 := agent_workflow w_str) true (fun _ => 5) w_agent w_c 6 w_world) = Ok (Some tt) \/
   exists e, fst (execute_task (H0 := agent_workflow w_str) true (fun _ => 5) w_agent w_c 6 w_world) = Raise e).
Proof.
  split; [exact w_replayable|]. split; [lia|].
  apply (agent_task_terminates w_str true (fun _ => 5) w_agent w_c 6 w_world w_replayable);
    vm_compute; [discriminate|reflexivity].
Defined.

Lemma w_live rounds : live_for (fun _ => 5) w_c rounds w_d3.
Proof. exists w_task. split; [by_vm|]. split; [reflexivity|]. by intros. Qed.

Lemma toy_execute_completes_witness :
  live_for (fun _ => 5) w_c 2 w_d3 /\ runs w_d3 !! 1%N = Some (w_row 100) /\
  exists d', execute_task true (fun _ => 5) w_toy w_c 2 w_d3 = (Ok (Some tt), d') /\
    exists row', runs d' !! 1%N = Some row' /\ run_status_of row' = Succeeded /\ run_spent_usd row' = 300.
Proof.
  split; [apply w_live|]. split; [reflexivity|].
  destruct (toy_execute_completes (fun _ => 5) w_toy w_c 100 w_toy_cost eq_refl 2 w_d3 (w_row 100) (w_live 2)
    (w_gapless 1) (w_keyed 1) eq_refl) as (d' & E & _ & _ & _ & (row' & Hr & Hs & Hsp) & _);
    [vm_compute; split; [reflexivity|discriminate]|discriminate|by_vm|].
  exists d'. split; [exact E|]. exists row'. split; [exact Hr|]. split; [exact Hs|]. rewrite Hsp. vm_compute.
  reflexivity.
Defined.

Lemma toy_never_finishes_witness :
  live_for (fun _ => 5) w_c 7 w_d3 /\
  exists d', execute_task true (fun _ => 5) (MkToyWorkflow 0 (Dec 1 (-4))) w_c 7 w_d3 = (Ok None, d') /\
    Z.of_nat (length (events_of 1 d')) = 8.
Proof.
  split; [apply w_live|].
  destruct (toy_never_finishes (fun _ => 5) (MkToyWorkflow 0 (Dec 1 (-4))) w_c 100 w_toy_cost eq_refl 7 w_d3 (w_row 100)
    (w_live 7) (w_gapless 1) (w_keyed 1) eq_refl) as (d' & E & Hn);
    [vm_compute; discriminate|discriminate|by_vm|].
  exists d'. split; [exact E|]. etrans; [exact Hn|]. by_vm.
Defined.

(** ** Checks *)
Lemma log_integrity_correct_witness :
  Forall engine_event (er_event <$> events race_d6) /\
  exists r, log_integrity [1%N] race_d6 = Ok r /\ ir_passed r = false.
Proof.
  assert (He : Forall engine_event (er_event <$> events race_d6)).
  { constructor; [exists "B"%stdpp, 2, false; by_vm|]. constructor; [exists "A"%stdpp, 1, false; by_vm|].
    constructor. }
  split; [exact He|].
  destruct (log_integrity_correct [1%N] race_d6 He) as (r & Hr & _).
  exists r. split; [exact Hr|]. vm_compute in Hr. injection Hr as <-. reflexivity.
Defined.

Lemma termination_correct_witness :
  NoDup [1%N] /\ ir_passed (termination [1%N] w_end) = true.
Proof.
  assert (Hnd : NoDup [1%N]) by apply NoDup_singleton. split; [exact Hnd|].
  apply (termination_correct [1%N] w_end Hnd). intros rid Hin%list_elem_of_singleton. subst.
  exists w_end_row. split; reflexivity.
Defined.
