(* ===== verification/LoopRuns.v ===== *)
(** Concrete runs of the event loops: one worker that claims a toy run, beats
    and works; one that is too late; one whose caller's cancellation is lost.
    They witness the theorems of [EventLoop] and [Healthy]. *)

From S2P Require Import Prelude PyDecimal Json Database Store Leases Engine Budget LlmCache.
From S2P Require Import Execution Invariants System Safety Workers EventLoop Healthy Witnesses.

Definition r_settings : settings := Settings "A" 60 20 5 10.
Definition r_proc (ph : phase) : proc := goto ph (proc_start r_settings).
Definition r_state (now : Z) (d : db) (p : proc) : loops := Loops now d {[0%N := p]}.

(** The run is submitted and claimed at time 0. *)
Definition r_claimed : loops :=
  r_state 0 w_d2 (r_proc (Awaiting w_c (Main Replaying) (Beating 0))).

Lemma r_insert p p' : <[0%N := p']> ({[0%N := p]} : gmap N proc) = {[0%N := p']}.
Proof. apply insert_singleton_eq. Qed.

Section Runs.
Context (fencing faulty : bool).
Local Abbreviation loop_step := (loop_step fencing faulty w_str w_str).

(** A step of the only worker. *)
Lemma r_step now d d' p ph :
  worker_step fencing faulty w_str w_str now p d d' ph ->
  loop_step (r_state now d p) (r_state now d' (goto ph p)).
Proof.
  intros Hw. unfold r_state. rewrite <- (r_insert p (goto ph p)).
  by eapply ls_worker; [apply lookup_singleton_eq|].
Qed.

Lemma r_claimed_reachable : loop_reachable fencing faulty w_str w_str r_claimed.
Proof.
  exists 0.
  eapply rtc_l; [by apply (ls_submit _ _ _ _ 0 1%N 1%N w_spec (inl "1.0"%stdpp) db_empty w_d1)|].
  eapply rtc_l; [by apply (ls_start _ _ _ _ 0 0%N r_settings)|].
  apply rtc_once. apply (r_step 0 w_d1 w_d2 (proc_start r_settings)).
  by apply (ws_claim _ _ _ _ 0 (proc_start r_settings) ∅ w_c).
Qed.

Lemma r_extend s s' :
  loop_reachable fencing faulty w_str w_str s -> rtc loop_step s s' ->
  loop_reachable fencing faulty w_str w_str s'.
Proof. intros [now H] H'. exists now. by etrans. Qed.
End Runs.

(** The lease ran out before the heartbeat had its turn, and the reaper of the
    same process takes the task back. *)
Definition r_late : loops := r_state 100 w_d2 (r_proc (Awaiting w_c (Main Replaying) (Beating 0))).
Definition r_reaped : loops :=
  r_state 100 (snd (reap_expired 100 ∅ w_d2))
    (set_reaper (ReapAfter 100) (r_proc (Awaiting w_c (Main Replaying) (Beating 0)))).

Lemma r_late_reachable : loop_reachable true true w_str w_str r_late.
Proof.
  eapply r_extend; [apply r_claimed_reachable|]. apply rtc_once. by apply ls_tick; [|left].
Qed.

Lemma r_reaps : rtc (loop_step true true w_str w_str) r_late r_reaped.
Proof.
  apply rtc_once. unfold r_reaped, r_late, r_state.
  rewrite <- (r_insert (r_proc (Awaiting w_c (Main Replaying) (Beating 0)))
    (set_reaper (ReapAfter 100) (r_proc (Awaiting w_c (Main Replaying) (Beating 0))))).
  by eapply (ls_reap _ _ _ _ 100 0%N _ ∅ 1%nat); [apply lookup_singleton_eq|..].
Qed.

(** A worker that is told to stop before it claims anything. *)
Definition r_stopped : loops := r_state 0 db_empty (goto (Exited Stopped) (set_stop (proc_start r_settings))).

Lemma r_stopped_reachable fencing faulty : loop_reachable fencing faulty w_str w_str r_stopped.
Proof.
  exists 0. eapply rtc_l; [by apply (ls_start _ _ _ _ 0 0%N r_settings)|].
  eapply rtc_l; [by apply (ls_set_stop _ _ _ _ 0 0%N (proc_start r_settings))|].
  change (<[0%N := proc_start r_settings]> ∅ : gmap N proc) with ({[0%N := proc_start r_settings]} : gmap N proc).
  rewrite r_insert. apply rtc_once, r_step. by apply ws_stop.
Qed.

(** ** A takeover *)
Lemma r_go fencing faulty now d d' p ph :
  loop_reachable fencing faulty w_str w_str (r_state now d p) ->
  worker_step fencing faulty w_str w_str now p d d' ph ->
  loop_reachable fencing faulty w_str w_str (r_state now d' (goto ph p)).
Proof. intros Hr Hw. eapply r_extend; [exact Hr|]. by apply rtc_once, r_step. Qed.

(** A worker on a claim reads its log, computes the step and commits it. *)
Lemma r_commits now c evs i o d d' p hb :
  loop_reachable true true w_str w_str (r_state now d (goto (Awaiting c (Main Replaying) hb) p)) ->
  read_events (claim_run_id c) d = (Ok evs, d) -> i = Z.of_nat (length evs) -> billed o ->
  so_final o = false -> commit_step true now c i o d = (Ok true, d') ->
  loop_reachable true true w_str w_str (r_state now d' (goto (Awaiting c (Main Replaying) hb) p)).
Proof.
  intros Hr Hevs -> Hb Ho Hc.
  pose proof (r_go _ _ _ _ _ _ _ Hr (ws_main _ _ _ _ now (goto (Awaiting c (Main Replaying) hb) p) c
    Replaying _ hb d d eq_refl (ms_read _ now c evs d d Hevs))) as H1.
  pose proof (r_go _ _ _ _ _ _ _ H1 (ws_main _ _ _ _ now (goto (Awaiting c (Main (Replayed evs)) hb) p) c
    (Replayed evs) _ hb d d eq_refl (ms_compute _ now c (Replayed evs) evs o d (or_introl eq_refl) Hb))) as H2.
  pose proof (r_go _ _ _ _ _ _ _ H2 (ws_main _ _ _ _ now
    (goto (Awaiting c (Main (Ready (Z.of_nat (length evs)) o)) hb) p) c
    (Ready (Z.of_nat (length evs)) o) _ hb d d' eq_refl (ms_commit _ now c _ o true d d' Hc))) as H3.
  rewrite Ho in H3. exact H3.
Qed.

(** Worker A commits its first step and is killed; at 100 a new process reaps
    the task, claims it again and commits the next step. *)
Definition r_c2 : Claim := MkClaim 1 1 "A" 2.
Definition r_o2 : StepOutcome := toy_step w_toy r_c2 1.
Definition r_d1 : db := snd (commit_step true 0 w_c 0 (w_o 0) w_d2).
Definition r_d2 : db := snd (reap_expired 100 ∅ r_d1).
Definition r_d3 : db := snd (claim_task 100 ∅ "A" 60 r_d2).
Definition r_d4 : db := snd (commit_step true 100 r_c2 1 r_o2 r_d3).
Definition r_new : proc := set_reaper (ReapAfter 100) (proc_start r_settings).
Definition r_taken : loops := r_state 100 r_d4 (goto (Awaiting r_c2 (Main Replaying) (Beating 100)) r_new).

Lemma r_taken_reachable : loop_reachable true true w_str w_str r_taken.
Proof.
  assert (H1 : loop_reachable true true w_str w_str
    (r_state 0 r_d1 (r_proc (Awaiting w_c (Main Replaying) (Beating 0))))).
  { by apply (r_commits 0 w_c [] 0 (w_o 0) w_d2 r_d1 (proc_start r_settings) (Beating 0)
      (r_claimed_reachable true true)); [..|apply w_billed| |]. }
  assert (H2 : loop_reachable true true w_str w_str (r_state 100 r_d2 r_new)).
  { eapply r_extend; [exact H1|].
    eapply rtc_l; [by apply (ls_tick _ _ _ _ 0 100); [|left]|].
    eapply rtc_l; [by apply (ls_kill _ _ _ _ 100 0%N)|]. unfold r_state. rewrite delete_singleton_eq.
    eapply rtc_l; [by apply (ls_start _ _ _ _ 100 0%N r_settings)|].
    change (<[0%N := proc_start r_settings]> ∅ : gmap N proc) with ({[0%N := proc_start r_settings]} : gmap N proc).
    rewrite <- (r_insert (proc_start r_settings) r_new). apply rtc_once.
    by apply (ls_reap _ _ _ _ 100 0%N (proc_start r_settings) ∅ 1%nat); [apply lookup_singleton_eq|..]. }
  pose proof (r_go _ _ _ _ _ _ _ H2 (ws_claim _ _ _ _ 100 r_new ∅ r_c2 r_d2 r_d3 eq_refl eq_refl eq_refl)) as H3.
  apply (r_commits 100 r_c2 (events_of 1 r_d3) 1 r_o2 r_d3 r_d4 r_new (Beating 100) H3); [done..| |done|done].
  split; [by apply payload_cost_dec|done].
Qed.

(** ** The theorems at these runs *)
Lemma loop_refines_witness : System.reachable true w_str w_str (system_of r_claimed).
Proof. exact (loop_refines true false w_str w_str r_claimed (r_claimed_reachable true false)). Defined.

Lemma refused_for_ever_witness :
  claim_ok w_d2 w_c /\ fence_ok true 0 w_c w_d2 = true /\
  fence_ok true 100 w_c (lo_db r_reaped) = false.
Proof.
  assert (Hc : claim_ok w_d2 w_c) by (exists w_task; split; [reflexivity|by split]).
  split; [exact Hc|]. split; [reflexivity|].
  exact (refused_for_ever true true w_str w_str r_late r_reaped w_c r_late_reachable r_reaps Hc eq_refl).
Defined.

Lemma in_time_keeps_lease_witness : exists since t, Beating 0 = Beating since /\
  tasks w_d2 !! 1%N = Some t /\ held_by w_c t = true /\
  task_lease_expires_at t = Some (since + 60) /\ 0 < since + 60.
Proof.
  exact (in_time_keeps_lease w_str w_str r_claimed 0%N _ (r_claimed_reachable true false) eq_refl
    ltac:(reflexivity)).
Defined.

Lemma worker_exit_witness : exists p, lo_procs r_stopped !! 0%N = Some p /\ pr_reaper p = ReaperDone /\
  pr_stop p = true.
Proof.
  eexists. split; [reflexivity|].
  exact (worker_exit true true w_str w_str r_stopped 0%N _ Stopped (r_stopped_reachable true true)
    eq_refl eq_refl).
Defined.

(** The claim of the first worker is made without a crash or an error. *)
Definition r_smooth_phase (ph : phase) : Prop :=
  match ph with Awaiting _ (Ended (Raised _)) _ | Handling _ _ _ _ => False | _ => True end.

Lemma r_smooth_step now d d' ps ph :
  r_smooth_phase ph -> loop_step true false w_str w_str (Loops now d ps) (r_state now d' (r_proc ph)) ->
  (forall k, is_Some (ps !! k) -> k = 0%N) ->
  smooth_step w_str w_str (Loops now d ps) (r_state now d' (r_proc ph)).
Proof.
  intros Hph Hst Hps. split; [split; [done|]; split|].
  - intros k p Hp. unfold r_state in Hp. cbn [lo_procs] in Hp. apply lookup_singleton_Some in Hp as [<- <-]. by split.
  - intros k Hk. rewrite (Hps k Hk). simpl. by eexists.
  - intros k p Hp. unfold r_state in Hp. cbn [lo_procs] in Hp. apply lookup_singleton_Some in Hp as [<- <-]. exact Hph.
Qed.

(** A step of the only worker. *)
Lemma r_smooth_worker now d d' ph ph' :
  r_smooth_phase ph' -> worker_step true false w_str w_str now (r_proc ph) d d' ph' ->
  pr_reaper (r_proc ph) = ReapNow -> (forall how, ph' <> Exited how) ->
  smooth_step w_str w_str (r_state now d (r_proc ph)) (r_state now d' (r_proc ph')).
Proof.
  intros Hph Hw Hr He. apply r_smooth_step; [done| |by intros k [p [<- _]%lookup_singleton_Some]].
  assert (Hg : goto ph' (r_proc ph) = r_proc ph').
  { unfold r_proc in *. unfold goto in *. simpl in *. rewrite Hr. by destruct ph'. }
  rewrite <- Hg. by apply r_step.
Qed.

Lemma r_claimed_smooth : smooth_reachable w_str w_str r_claimed.
Proof.
  exists 0. eapply rtc_l.
  { split; [split; [by apply (ls_submit _ _ _ _ 0 1%N 1%N w_spec (inl "1.0"%stdpp) db_empty w_d1)|]|].
    - split; [apply map_Forall_empty|done].
    - apply map_Forall_empty. }
  eapply rtc_l; [apply (r_smooth_step 0 w_d1 w_d1 ∅ Head); [done| |by intros k [p Hp]]|].
  { by apply (ls_start _ _ _ _ 0 0%N r_settings). }
  apply rtc_once, r_smooth_worker; [done| |done|done].
  by apply (ws_claim _ _ _ _ 0 (proc_start r_settings) ∅ w_c).
Qed.

(** It reads the log, misses the cache and asks the provider. *)
Definition r_asked_d : db := snd (insert_call 1 0 "key" 1 (Some "A") w_d2).
Definition r_asked : loops := r_state 0 r_asked_d (r_proc (Awaiting w_c (Main (Asked [] "key")) (Beating 0))).

Lemma r_asked_smooth : smooth_reachable w_str w_str r_asked.
Proof.
  destruct r_claimed_smooth as [now H]. exists now. etrans; [exact H|].
  eapply rtc_l; [apply (r_smooth_worker 0 w_d2 w_d2 _ (Awaiting w_c (Main (Replayed [])) (Beating 0))); [done| |done|done]|].
  { by eapply ws_main, ms_read. }
  eapply rtc_l; [apply (r_smooth_worker 0 w_d2 w_d2 _ (Awaiting w_c (Main (Missed [] "key")) (Beating 0))); [done| |done|done]|].
  { by eapply ws_main, ms_miss. }
  apply rtc_once, r_smooth_worker; [done| |done|done]. by eapply ws_main, ms_ask.
Qed.

Lemma one_worker_per_run_witness :
  fst <$> kept_claim (Awaiting w_c (Main Replaying) (Beating 0)) = Some w_c /\ (0 = 0)%N.
Proof.
  split; [reflexivity|].
  exact (one_worker_per_run w_str w_str r_claimed 0%N 0%N _ _ w_c w_c (r_claimed_reachable true false)
    eq_refl eq_refl ltac:(reflexivity) ltac:(reflexivity) eq_refl eq_refl eq_refl).
Defined.

Lemma no_takeover_witness : reap_expired 0 ∅ w_d2 = (Ok 0%nat, w_d2) /\ task_status_of <$> tasks w_d2 !! 1%N = Some Leased.
Proof.
  split; [|reflexivity].
  exact (proj1 (no_takeover_without_crash w_str w_str ltac:(by intros e) r_claimed (smooth_calm _ _ _ r_claimed_smooth)) ∅).
Defined.

(** ** A cancellation that is lost *)

(** When the heartbeat failed with an error, a later cancellation of the worker
    itself is taken for the heartbeat's: the worker goes on, and claims the
    next task. *)
Lemma cancellation_lost : exists s p, loop_reachable true true w_str w_str s /\
  lo_procs s !! 0%N = Some p /\ pr_cancelled p = true /\ pr_phase p = Head.
Proof.
  set (p1 := r_proc (Awaiting w_c (Main Replaying) HbDone)).
  set (p2 := set_cancelled (goto (cancel_worker (pr_phase p1)) p1)).
  exists (r_state 0 w_d2 (goto Head p2)), (goto Head p2). split; [|done].
  eapply r_extend; [apply r_claimed_reachable|].
  eapply rtc_l; [apply (r_step true true 0 w_d2 w_d2 _ (Awaiting w_c (Main Replaying) HbDone))|].
  { by eapply (ws_beat_fails _ _ _ _ 0 (r_proc (Awaiting w_c (Main Replaying) (Beating 0))) w_c 0). }
  eapply rtc_l; [|apply rtc_once, (r_step true true 0 w_d2 w_d2 p2 Head)].
  - unfold r_state. rewrite <- (r_insert p1 p2).
    by eapply ls_cancel, lookup_singleton_eq.
  - by apply (ws_cancelled _ _ _ _ 0 p2 w_c Replaying HbDone).
Qed.

(** A heartbeat that failed is not restarted: the task goes on without one. *)
Lemma unwatched_task : exists s p c, loop_reachable true true w_str w_str s /\
  lo_procs s !! 0%N = Some p /\ pr_phase p = Awaiting c (Main Replaying) HbDone /\
  tasks (lo_db s) !! claim_task_id c = Some w_task.
Proof.
  set (p1 := r_proc (Awaiting w_c (Main Replaying) HbDone)).
  exists (r_state 0 w_d2 p1), p1, w_c. split; [|done].
  eapply r_extend; [apply r_claimed_reachable|].
  apply rtc_once, (r_step true true 0 w_d2 w_d2 (r_proc (Awaiting w_c (Main Replaying) (Beating 0)))
    (Awaiting w_c (Main Replaying) HbDone)).
  by eapply (ws_beat_fails _ _ _ _ 0 (r_proc (Awaiting w_c (Main Replaying) (Beating 0))) w_c 0).
Qed.
