(* ===== verification/Platform.v ===== *)
(** The properties of the providers, the sandbox runner, the API, the zombie
    replay, the refinement of the workers, the chaos run and the evaluation at
    concrete inputs.  Every witness applies its theorem and evaluates the
    hypotheses. *)

From Stdlib Require Import QArith.
From S2P Require Import Prelude PyString PyDecimal Json Env JsonParse Database Store Leases Engine.
From S2P Require Import LlmCache Workspace Agent Anthropic OpenAI Execution Invariants System Safety.
From S2P Require Import Budget Runner Scenarios Workers Refinement Attempts Overshoot Injector Supervisor Timeline Api Evals EvalRun.

(** ** Documents *)
Definition p_document : json :=
  JObj [("tool", JStr "write_file"); ("cost", JFloat "-2.5e-07");
        ("args", JObj [("path", JStr "main.py"); ("n", JInt (-3))]); ("l", JArr [JNull; JBool true])].

Lemma p_document_ok : py_json id p_document.
Proof.
  repeat match goal with
  | |- py_json _ _ => constructor
  | |- Forall _ _ => constructor
  | |- float_text _ _ => by_vm
  | |- NoDup _ => apply (bool_decide_unpack _); vm_compute; exact I
  end.
Defined.

Example loads_dumps_document : loads id (dumps false p_document) = Ok p_document.
Proof. by_vm. Qed.

(** ** The environment *)
Definition p_file : option string := Some ("A = 'x'" +:+ chr 10 +:+ "C=3" +:+ chr 10 +:+ "A=4").
Definition p_env : environ := {[ "C" := "old" ]}.
Definition p_env' : environ := <["A" := "x"]> p_env.

Lemma load_dotenv_witness :
  p_env ⊆ p_env' /\ load_dotenv p_file p_env' = (Ok [], p_env').
Proof.
  assert (H : load_dotenv p_file p_env = (Ok ["A"], p_env')) by by_vm.
  destruct (load_dotenv_correct p_file p_env _ _ H) as [Hs Hn]. split; [exact Hs|].
  apply (Hn ["A"] eq_refl).
Defined.

(** ** Conversations *)
Definition p_action : json :=
  JObj [("tool", JStr "write_file"); ("args", JObj [("path", JStr "a.py"); ("content", JStr "1")])].
Definition p_text : json := JObj [("tool", JStr "invalid"); ("args", JObj [("text", JStr "hmm")])].
Definition p_event (seq : Z) (action : json) : event :=
  Event 1 seq "agent_step" [("action", action); ("observation", JObj [("ok", JBool true)])] "".
Definition p_events : list event := [p_event 1 p_action; p_event 2 p_text].
Definition p_spec : dict := [("prompt", JStr "task")].
Definition p_messages : list json :=
  match build_messages p_spec p_events with Ok l => l | Raise _ => [] end.

Lemma conversation_witness :
  to_openai_messages p_messages =
    Ok (system_message :: user_message (JStr "task") :: concat (imap openai_turn (omap turn_of p_events))).
Proof.
  apply (conversation_correct p_spec p_events p_messages (JStr "task")); [by_vm|by_vm|].
  repeat constructor; intros _; vm_compute; eexists; reflexivity.
Defined.

(** ** Answers *)
#[local] Instance p_sandbox : Sandbox unit :=
  fun _ _ _ => mret (MkSandboxResult 0 "1" "" false false 3 false).

Definition p_message : dict :=
  [("tool_calls", JArr [JObj [("function", JObj
     [("name", JStr "finish"); ("arguments", JStr "not json")])]])].

Lemma parse_action_witness :
  usable [("tool", JStr "finish"); ("args", JObj [])] /\
  forall e, fst (_execute (fun _ => "error") tt ["ws"] [("tool", JStr "finish"); ("args", JObj [])] ∅)
              = Raise e -> tool_exn tt ["ws"] e.
Proof.
  apply (parse_action_executable id p_message _ (fun _ => "error") tt ["ws"] ∅). by_vm.
Defined.

Definition p_call : dict :=
  [("tool_calls", JArr [JObj [("function", JObj
     [("name", JStr "run_code"); ("arguments", JObj [("path", JStr "a.py")])]);
     ("extra_content", JStr "sig")]])].
Definition p_called : dict :=
  [("tool", JStr "run_code"); ("args", JObj [("path", JStr "a.py")]); ("_ext", JStr "sig")].

Lemma action_roundtrip_witness :
  exists m, openai_assistant [] 0 (JObj [("role", JStr "assistant"); ("action", JObj p_called)]) =
      Ok ([JObj m], 0) /\ parse_action id m = Ok p_called.
Proof.
  apply (action_roundtrip id p_call p_called [] 0); [by_vm|by vm_compute|].
  intros args E. vm_compute in E. injection E as <-.
  constructor; [apply (bool_decide_unpack _); vm_compute; exact I|repeat constructor].
Defined.

(** ** Requests: overloaded, then an answer *)
Definition p_respond (k : nat) : res HttpResponse :=
  match k with
  | O => Ok (MkHttpResponse 429 "7" "")
  | _ => Ok (MkHttpResponse 200 "" "{}")
  end.
Definition p_provider : OpenAICompatProvider := MkOpenAICompatProvider "m" "0" "0" (13#1)%Q.

Example post_retries :
  let r := _post id p_respond (fun _ => 1%Q) (fun _ => 0%Q) p_provider JNull (Net [] 0 0) in
  fst r = Ok [] /\ (Qred ∘ fst <$> net_sent (snd r)) = [13%Q; 0%Q].
Proof. vm_compute. done. Qed.

Lemma post_witness :
  exists k r n', _post id p_respond (fun _ => 1%Q) (fun _ => 0%Q) p_provider JNull (Net [] 0 0) = (r, n') /\
    (k < MAX_ATTEMPTS)%nat.
Proof.
  destruct (post_correct id p_respond (fun _ => 1%Q) (fun _ => 0%Q)
    ltac:(intros; vm_compute; discriminate) p_provider JNull (Net [] 0 0)) as (k & r & n' & E & Hk & _).
  exists k, r, n'. by split.
Defined.

(** ** The sandbox *)

(** A Docker whose containers end at once and print one chunk. *)
Definition docker_state : Type := gset string * fs.

#[local] Instance p_docker : Docker docker_state := {|
  containers_create cfg s :=
    if bool_decide (c_name cfg ∈ fst s) then (Raise APIError, s)
    else (Ok (c_name cfg), ({[c_name cfg]} ∪ fst s, snd s));
  container_start _ := mret tt;
  container_wait _ _ := mret 0;
  container_kill _ := mret tt;
  container_remove c s :=
    if bool_decide (c ∈ fst s) then (Ok tt, (fst s ∖ {[c]}, snd s)) else (Raise NotFound, s);
  container_logs _ stdout := mret (if stdout then [["h"; "i"]%char] else []);
  container_oom _ := mret false;
  containers_list _ := gets (fun s => elements (fst s));
  images_get _ := mret tt;
  images_pull _ := mret tt;
  clock := mret 0%Q
|}.
#[local] Instance p_has_fs : HasFs docker_state := {| get_fs := snd; put_fs f s := (fst s, f) |}.

#[local] Instance p_docker_laws : DockerLaws docker_state fst.
Proof.
  split; try done.
  - intros cfg s c s'. simpl. case_bool_decide; [done|]. by intros [= <- <-].
  - intros cfg s e s'. simpl. case_bool_decide; [|done]. by intros [= _ <-].
  - intros c s s'. simpl. case_bool_decide; [|done]. by intros [= <-].
  - intros c s s'. simpl. case_bool_decide; [done|]. by intros [= <-].
  - intros c s e s'. simpl. case_bool_decide; [done|]. by intros [= _ <-].
Qed.

Definition p_run : res SandboxResult * docker_state :=
  runner_run str_of_list ["ws"] ["python"; "main.py"] None "x" (∅, ∅).

Lemma run_cleans_up_witness :
  (fst (snd p_run) = ∅ \/
   exists c s1 e, fst (container_remove c s1) = Raise e /\ e <> NotFound /\ fst p_run = Raise e) /\
  match fst p_run with Ok res => sb_stdout res = "hi" | Raise _ => False end /\
  forall res, fst p_run = Ok res -> ran str_of_list ["ws"] ["python"; "main.py"] default_policy "x" (∅, ∅) res.
Proof.
  destruct (run_cleans_up str_of_list fst ["ws"] ["python"; "main.py"] None "x" (∅, ∅) (fst p_run) (snd p_run))
    as [Hc Hran]; [discriminate|by_vm|].
  split; [exact Hc|]. split; [by_vm|exact Hran].
Defined.

(** ** The API *)
Definition p_body : SubmitRequest :=
  MkSubmitRequest KindAgent (Some "print hello") (Some "stuck_loop") 20 20 "0.0" (Dec 5 (-2)).

Lemma submit_witness :
  exists cap b, budget_cap ∅ = Ok cap /\ numeric 10 4 (sr_budget_usd p_body) = Ok b /\
    dec_ltb cap (sr_budget_usd p_body) = false /\ bounded_spec (to_spec p_body).
Proof.
  pose proof (submit_bounded ∅ None p_body 0 1%N 1%N db_empty
    (fst (submit ∅ None p_body 0 1%N 1%N db_empty)) (snd (submit ∅ None p_body 0 1%N 1%N db_empty))
    ltac:(by_vm)) as H.
  assert (E : fst (submit ∅ None p_body 0 1%N 1%N db_empty) = Ok (uuid_str 1)) by by_vm.
  rewrite E in H. destruct H as (_ & _ & cap & b & Hc & _ & Hle & Hb & _ & _ & _ & _ & Hs).
  by exists cap, b.
Defined.

(** A request without the key is refused whatever it asks for. *)
Definition p_keyed : environ := {["PHOENIX_API_KEY" := "sesame"]}.

Definition p_route (rq : request) : res content * db :=
  route p_keyed string_of_Z string_of_Z (fun _ => NotJson)
    (fun text => if bool_decide (text = "1") then Some 1%N else None) PlainText (Ok tt) 0 1%N 1%N rq db_empty.

Lemma routes_guarded_witness :
  http_status (GetRun (Some "guess") "x") (fst (p_route (GetRun (Some "guess") "x"))) = 401 /\
  http_status (GetRun (Some "sesame") "x") (fst (p_route (GetRun (Some "sesame") "x"))) = 422 /\
  http_status (GetRun (Some "sesame") "1") (fst (p_route (GetRun (Some "sesame") "1"))) = 404 /\
  http_status (PostRuns (Some "guess") "{") (fst (p_route (PostRuns (Some "guess") "{"))) = 422.
Proof.
  destruct (routes_guarded p_keyed string_of_Z string_of_Z (fun _ => NotJson)
    (fun text => if bool_decide (text = "1") then Some 1%N else None) PlainText (Ok tt) 0 1%N 1%N
    (GetRun (Some "guess") "x") db_empty) as (_ & _ & H & _).
  destruct (H eq_refl "sesame" ltac:(by_vm) ltac:(discriminate) ltac:(discriminate)) as (_ & Ha & _).
  split; [|split_and!; by_vm]. unfold p_route. rewrite Ha. by_vm.
Defined.

(** ** The zombie *)

(** A generator that always draws the low end. *)
#[local] Instance p_rng : Rng unit := {|
  rng_random := mret 0%Q;
  rng_uniform a _ := mret a;
  rng_randint a _ := mret a;
  rng_below _ := mret O
|}.
#[local] Instance p_rng_laws : RngLaws unit.
Proof.
  split.
  - intros g. by exists 0%Q, g.
  - intros a b g H. exists a, g. split; [done|]. split; [apply Qle_refl|done].
  - intros a b g H. exists a, g. split; [done|lia].
  - intros n g H. by exists O, g.
Qed.

Lemma zombie_witness :
  exists (n1 n2 n3 : nat) d', (1 <= n3 <= 3)%nat /\
    zombie_replay true (fun _ => 0) tt 1%N 1%N 12 db_empty = (Ok (1%N, Z.of_nat n3, 0), d') /\
    finished 1%N 12 (replicate n1 1 ++ replicate n2 2 ++ [] ++ replicate (12 - n1 - n2 - 0) 2) d'.
Proof.
  destruct (zombie_replay_correct true (fun _ => 0) ltac:(intros; cbv beta; lia) ltac:(intros; cbv beta; lia) tt 1%N 1%N)
    as (n1 & n2 & n3 & d' & _ & _ & H3 & E & Hf).
  exists n1, n2, n3, d'. split; [exact H3|]. split; [exact E|exact Hf].
Defined.

Example zombie_rejected :
  fst (zombie_replay true (fun _ => 0) tt 1%N 1%N 12 db_empty) = Ok (1%N, 1, 0) /\
  fst (zombie_replay false (fun _ => 0) tt 1%N 1%N 12 db_empty) = Ok (1%N, 0, 1).
Proof. split; by_vm. Qed.

(** ** A deployment: a toy run and an agent run, two workers *)
#[local] Instance p_any_provider : Provider (any_provider MockProvider) world := {|
  provider_name _ := "mock";
  complete p messages :=
    match p with
    | Given q | Scripted q => complete q messages
    | _ => raise RuntimeError
    end
|}.

#[local] Instance p_any_laws : ProviderLaws (any_provider MockProvider) world.
Proof. by intros [] messages s. Qed.

Definition p_ctx : EngineContext MockProvider unit := MkEngineContext None (Some tt) ["ws"].
Definition p_toy_spec : json := JObj [("kind", JStr "toy"); ("steps", JInt 2)].
Definition p_agent_spec : json :=
  JObj [("kind", JStr "agent"); ("prompt", JStr "hello");
        ("mock_script", JArr [JObj (run "main.py"); JObj (finish "done")])].

(** What every exception says. *)
Definition p_text_of (e : exn) : string := "boom".

Definition p_turn (now : Z) (worker : string) : activity :=
  Turn now (now + 9) worker 60 5 1 (fun _ => now + 1) 30.
Definition p_activities : list activity :=
  [Submit 0 1%N 1%N p_toy_spec (inl "1.0"); Submit 0 2%N 2%N p_agent_spec (inl "1.0");
   p_turn 1 "A"; Reap 2 ∅; p_turn 3 "B"; p_turn 4 "A"].
Definition p_deployed : world :=
  deploy ∅ (Ok tt) (Ok tt) p_ctx p_text_of p_text_of p_activities (World db_empty ∅ None).

Example p_deployed_ends :
  ((fun r => (run_status_of r, run_spent_usd r)) <$> runs (w_db p_deployed) !! 1%N,
   (fun r => (run_status_of r, run_spent_usd r)) <$> runs (w_db p_deployed) !! 2%N)
  = (Some (Succeeded, 200), Some (Succeeded, 700)).
Proof. by_vm. Qed.

Lemma p_toy_costs : micros_costs (events_of 1 (w_db p_deployed)) [100; 100].
Proof.
  apply costs_micros with (costs := [Dec 1 (-4); Dec 1 (-4)]); [by_vm|]. by repeat constructor; vm_compute.
Qed.

Lemma p_agent_costs : micros_costs (events_of 2 (w_db p_deployed)) [350; 350].
Proof.
  apply costs_micros with (costs := [Dec 35 (-5); Dec 35 (-5)]); [by_vm|]. by repeat constructor; vm_compute.
Qed.

Lemma p_whole rid : rid ∈ [1%N; 2%N] -> whole_costs rid (w_db p_deployed).
Proof.
  intros Hin. apply elem_of_cons in Hin as [->|Hin%list_elem_of_singleton]; [eexists; apply p_toy_costs|].
  subst. eexists. apply p_agent_costs.
Qed.

Lemma deployment_witness :
  exists log spend, check_all [1%N; 2%N] (w_db p_deployed) =
      Ok [termination [1%N; 2%N] (w_db p_deployed); log;
          no_double_billing [1%N; 2%N] (w_db p_deployed); spend] /\
    ir_passed log = true /\ ir_passed spend = true.
Proof.
  destruct (deployment_sound ∅ (Ok tt) (Ok tt) p_ctx p_text_of p_text_of p_activities
    ∅ [1%N; 2%N] ltac:(apply (bool_decide_unpack _); vm_compute; exact I))
    as (log & spend & H & Hl & _ & Hs & _).
  exists log, spend. split; [exact H|]. split; [exact Hl|exact (Hs p_whole)].
Defined.

(** The agent's run paid twice, well below its budget and its 20 steps. *)
Lemma budget_overshoot_witness :
  match runs (w_db p_deployed) !! 2%N with
  | Some row => agent_limit (run_task_spec row) = Some 20 /\ run_spent_usd row = 700 /\
      run_spent_usd row < run_budget_usd row * 100 + 350
  | None => False
  end.
Proof.
  destruct (runs (w_db p_deployed) !! 2%N) as [row|] eqn:Hrow; [|by vm_compute in Hrow].
  assert (Hm : agent_limit (run_task_spec row) = Some 20)
    by (vm_compute in Hrow; injection Hrow as <-; by_vm).
  split; [exact Hm|].
  destruct (budget_overshoot ∅ (Ok tt) (Ok tt) p_ctx p_text_of p_text_of p_activities ∅ 2%N row 20 Hrow Hm)
    as [_ H].
  destruct (H [350; 350] p_agent_costs) as [Hs [Hz|(before & z & after & Hsplit & Hz & Ha & _ & Hlt)]];
    [by inversion Hz|]. split; [exact Hs|].
  assert (z ∈ [350; 350]) as Hin by (rewrite Hsplit; apply elem_of_app; right; left).
  assert (z = 350) as -> by (clear -Hin; set_solver). exact Hlt.
Defined.

(** The first worker's turn alone: it claims the toy run and finishes it. *)
Local Abbreviation p_perform := (perform ∅ (Ok tt) (Ok tt) p_ctx p_text_of p_text_of).
Definition p_submitted : world :=
  p_perform (Submit 0 1%N 1%N p_toy_spec (inl "1.0")) (World db_empty ∅ None).
Definition p_turned : res (option Claim) * world :=
  full_turn ∅ (Ok tt) (Ok tt) p_ctx true p_text_of p_text_of 1 10 "A" 60 5 1 (fun _ => 2) 10 p_submitted.

Lemma worker_turn_witness :
  fst p_turned = Ok (Some (MkClaim 1 1 "A" 1)) /\
  rtc (step true p_text_of p_text_of) (Sys (w_db p_submitted) ∅) (Sys (w_db (snd p_turned)) ∅).
Proof.
  split; [vm_compute; reflexivity|].
  exact (worker_turn_refines ∅ (Ok tt) (Ok tt) p_ctx true p_text_of p_text_of
    1 10 "A" 60 5 1 (fun _ => 2) 10 p_submitted (fst p_turned) (snd p_turned) 0%N ∅
    eq_refl (surjective_pairing p_turned)).
Defined.

(** An agent whose answers break off: its only attempt ends the run. *)
Definition p_broken_spec : json :=
  JObj [("kind", JStr "agent"); ("prompt", JStr "hello"); ("mock_script", JArr [JObj (run "main.py")])].
Definition p_broken : world :=
  p_perform (Submit 0 3%N 3%N p_broken_spec (inl "1.0")) (World db_empty ∅ None).
Definition p_attempt : res (option Claim) * world :=
  full_turn ∅ (Ok tt) (Ok tt) p_ctx true p_text_of p_text_of 1 10 "A" 60 1 1 (fun _ => 2) 30 p_broken.

Lemma p_outside : outside_ok (P := MockProvider) (B := unit) (Ok tt) (Ok tt) p_text_of p_text_of.
Proof.
  split; try done. intros [q|q|m|q] messages s; try done; cbn; apply lf_mock_answer.
Qed.

Lemma attended_run_ends_witness :
  run_status_of <$> runs (w_db (snd p_attempt)) !! 3%N = Some Failed /\
  exists r, runs (w_db (snd p_attempt)) !! 3%N = Some r /\ TERMINAL (run_status_of r) = true.
Proof.
  split; [by_vm|].
  apply (attended_run_ends ∅ (Ok tt) (Ok tt) p_ctx p_text_of p_text_of 1 p_outside 3%N 1%nat sys_init
    (Sys (w_db (snd p_attempt)) ∅)); [apply rtc_refl| |lia|reflexivity].
  apply (attended_turn _ _ _ _ _ _ _ _ 0%nat sys_init p_broken ∅ 1 10 "A"%string 60 1 (fun _ => 2) 30%nat
    (MkClaim 3 3 "A" 1) (RunRow p_broken_spec Pending 10000 0 0 None) (snd p_attempt)).
  - apply attended_none. exact (perform_path ∅ (Ok tt) (Ok tt) p_ctx p_text_of p_text_of
      (Submit 0 3%N 3%N p_broken_spec (inl "1.0")) (World db_empty ∅ None)).
  - by_vm.
  - reflexivity.
  - by_vm.
  - split_and!; [done|lia|]. intros n [= <-]. by vm_compute.
  - reflexivity.
  - lia.
  - intros; lia.
  - apply rtc_refl.
Defined.

(** ** A turn with the code's own provider

    A run without a script on a worker that may pay: [real_provider] builds
    the OpenAI-compatible provider, and the endpoint answers with one call of
    [finish] for one token, at ten cents a million. *)
Definition g_env : environ :=
  <["PHOENIX_REAL_LLM" := "1"]> (<["PHOENIX_PROVIDER" := "gemini"]>
    (<["GEMINI_API_KEY" := "k"]> {["PHOENIX_USD_PER_MTOK_IN" := "0.10"]})).

Definition g_respond (k : nat) : res HttpResponse := Ok (MkHttpResponse 200 "" (dumps false (JObj
  [("choices", JArr [JObj [("message", JObj [("tool_calls", JArr [JObj [("function", JObj
      [("name", JStr "finish"); ("arguments", JStr "{}")])]])])]]);
   ("usage", JObj [("prompt_tokens", JInt 1); ("completion_tokens", JInt 0); ("total_tokens", JInt 1)])]))).

(** Every call has its own clock and record of requests. *)
#[local] Instance g_net : HasNet world := {| get_net _ := Net [] 0 0; put_net _ s := s |}.

#[local] Instance g_provider : Provider (any_provider Empty_set) world := {|
  provider_name p :=
    match p with
    | Given e => match (e : Empty_set) with end
    | Gemini q => provider_name (Provider := openai_provider id g_respond (fun _ => 0%Q) (fun _ => 0%Q) g_env) q
    | Claude model => "anthropic:" +:+ model
    | Scripted _ => "mock"
    end;
  complete p messages :=
    match p with
    | Given e => match (e : Empty_set) with end
    | Gemini q => openai_complete id g_respond (fun _ => 0%Q) (fun _ => 0%Q) g_env q messages
    | Claude _ => raise RuntimeError
    | Scripted q => complete q messages
    end
|}.

#[local] Instance g_laws : ProviderLaws (any_provider Empty_set) world.
Proof.
  intros [[]|q|model|q] messages s; [|done|done].
  by apply (openai_provider_laws id g_respond (fun _ => 0%Q) (fun _ => 0%Q) g_env).
Qed.

Definition g_ctx : EngineContext Empty_set unit := MkEngineContext None (Some tt) ["ws"].
Definition g_spec : json := JObj [("kind", JStr "agent"); ("prompt", JStr "hello")].
Definition g_deployed : world :=
  deploy g_env (Ok tt) (Ok tt) g_ctx p_text_of p_text_of
    [Submit 0 1%N 1%N g_spec (inl "1.0"); Turn 1 10 "A" 60 5 1 (fun _ => 2) 30] (World db_empty ∅ None).

(** The step cost a tenth of a millionth, which its event records and the
    spend column rounds away: the run has ended as it should, and the spend
    check fails. *)
Example price_mismatch :
  (fun r => (run_status_of r, run_spent_usd r)) <$> runs (w_db g_deployed) !! 1%N = Some (Succeeded, 0) /\
  match spend_consistency [1%N] (w_db g_deployed) with Ok r => ir_passed r = false | Raise _ => False end.
Proof. split; by_vm. Qed.

(** ** A chaos run whose workers do nothing: it kills one, replaces it, and
    times out *)
Record p_os := POs { po_children : gset string; po_time : Q; po_db : db; po_fs : fs }.

#[local] Instance p_os_db : HasDb p_os := {|
  get_db := po_db; put_db d s := POs (po_children s) (po_time s) d (po_fs s) |}.

#[local] Instance p_os_fs : HasFs p_os := {|
  get_fs := po_fs; put_fs f s := POs (po_children s) (po_time s) (po_db s) f |}.

Definition p_signal (n : string) : M p_os unit := fun s =>
  (if bool_decide (n ∈ po_children s) then Ok tt else Raise NoSuchProcess, s).

#[local] Instance p_processes : Processes p_os := {|
  popen n _ _ s := (Ok tt, POs ({[n]} ∪ po_children s) (po_time s) (po_db s) (po_fs s));
  poll n s := (Ok (bool_decide (n ∈ po_children s)), s);
  ps_kill := p_signal; ps_suspend := p_signal; ps_resume := p_signal;
  proc_wait n s := (Ok tt, POs (po_children s ∖ {[n]}) (po_time s) (po_db s) (po_fs s));
  monotonic s := (Ok (po_time s), s);
  sleep q s := (Ok tt, POs (po_children s) (po_time s + q)%Q (po_db s) (po_fs s));
  containers_running _ := mret [];
|}.

#[local] Instance p_no_docker : Docker p_os := {|
  containers_create _ := raise DockerException; container_start _ := raise DockerException;
  container_wait _ _ := raise DockerException; container_kill _ := raise NotFound;
  container_remove _ := raise NotFound; container_logs _ _ := raise DockerException;
  container_oom _ := raise DockerException; containers_list _ := mret [];
  images_get _ := mret tt; images_pull _ := raise DockerException;
  clock s := (Ok (po_time s), s);
|}.

#[local] Instance p_process_laws : ProcessLaws po_children po_time.
Proof.
  split; try (by intros; split; [|apply Qle_refl]).
  - by intros n env args s s' [= <-].
  - done.
  - intros. apply Qle_refl.
  - intros n s. exists (bool_decide (n ∈ po_children s)), s. split; [done|]. split; [apply Qle_refl|].
    case_bool_decide; [done|set_solver].
  - intros n s Hn. simpl. by rewrite bool_decide_eq_true_2.
  - intros n s e. simpl. case_bool_decide; [done|by intros [= <-]].
  - intros n s Hn. simpl. by rewrite bool_decide_eq_true_2.
  - intros n s Hn. simpl. by rewrite bool_decide_eq_true_2.
  - intros n s. eexists. split; [done|]. split; [done|apply Qle_refl].
  - intros s. eexists _, _. split; [done|]. split; [done|]. split; apply Qle_refl.
  - intros q s. eexists. split; [done|]. split; [done|apply Qle_refl].
  - done.
Qed.

Definition p_cfg : ChaosConfig := MkChaosConfig 7 1 2 (2#1)%Q "toy" None (1#1)%Q false.
Definition p_injector : Injector := MkInjector "dsn" (2#1)%Q "ws" false false.
Definition p_schedule : list Fault := [MkFault (3#10)%Q FAULT_KILL (6#10)%Q 0%Q; MkFault (9#1)%Q FAULT_KILL 0%Q 0%Q].
Definition p_chaos : res (option ChaosReport) * sup p_os :=
  run_chaos ∅ "src" (fun _ => "2.0") (fun _ => "1.0") (fun _ => "  0.4") p_injector p_cfg [p_toy_spec]
    p_schedule [(0, 1%N, 1%N)] 7 (Sup (POs ∅ 0%Q db_empty ∅) [] 0).

Example p_chaos_report :
  match fst p_chaos with
  | Ok (Some r) => (cr_applied r, cr_fired r, cr_timed_out r, cr_statuses r, passed (cr_invariants r))
  | _ => ([], 0, false, [], true)
  end = (["t=  0.4s kill -9 w2"], 1, true, [("pending", 1)], false) /\ su_n (snd p_chaos) = 3.
Proof. vm_compute. done. Qed.


Lemma injected_worker_witness :
  exists script, @Scripted MockProvider (MkMockProvider [run "main.py"]) = Scripted script.
Proof.
  exact (injected_worker_never_pays (B := unit) {[ "PHOENIX_REAL_LLM" := "1" ]} "src" p_injector
    (Some ("PHOENIX_REAL_LLM=1" +:+ chr 10)) (Ok [])
    (worker_environ {[ "PHOENIX_REAL_LLM" := "1" ]} "src" p_injector) (Ok tt)
    [("mock_script", JArr [JObj (run "main.py")])] (MkEngineContext None None ["ws"])
    (Scripted (MkMockProvider [run "main.py"])) eq_refl eq_refl ltac:(by_vm) ltac:(by_vm)).
Defined.

(** ** An evaluation of one task that no worker picks up *)
Definition p_task_json : string :=
  dumps false (JObj [("id", JStr "01"); ("name", JStr "fizzbuzz"); ("difficulty", JStr "easy");
    ("prompt", JStr "p"); ("mock", JObj [("fail_first", JInt 1); ("outcome", JStr "pass")])]).
Definition p_suites (name : string) : option (list task_dir) :=
  if bool_decide (name = "standard")
  then Some [MkTaskDir "01_fizzbuzz" (Some p_task_json) "test" "solution" "wrong"] else None.

Definition p_evals (usd : dec) : res (option (list TaskResult)) * sup p_os :=
  run_evals ∅ "src" (fun _ => "30.0") id p_suites tt (fun _ => 0%Q) "dsn" false 2 usd (Dec 1 0)
    (1#1)%Q None "standard" [(0, 1%N, 1%N)] ["tmp"] 5 (Sup (POs ∅ 0%Q db_empty ∅) [] 0).

Example p_evals_result :
  match fst (p_evals (Dec 5 (-2))) with
  | Ok (Some [r]) => (tr_id r, tr_run_status r, tr_passed r)
  | _ => (JNull, "", true)
  end = (JStr "01", "timeout", false) /\ fst (p_evals (Dec 2 0)) = Raise EvalConfigError.
Proof. vm_compute. done. Qed.

Lemma run_evals_witness :
  (fst (p_evals (Dec 5 (-2))) <> Ok None /\
   (po_children (su_os (snd (p_evals (Dec 5 (-2))))) = ∅ \/ fst (p_evals (Dec 5 (-2))) = Raise NoSuchProcess)) /\
  fst (p_evals (Dec 2 0)) = Raise EvalConfigError /\ snd (p_evals (Dec 2 0)) = Sup (POs ∅ 0%Q db_empty ∅) [] 0.
Proof.
  assert (H : match load_tasks id (default [] (p_suites "standard")) with Ok _ => true | _ => false end = true)
    by by_vm.
  destruct (load_tasks id (default [] (p_suites "standard"))) as [all|] eqn:Hall; [|done].
  assert (Hlen : length (filter (fun t => selected None t = true) all) = 1%nat).
  { change (length (filter (fun t => selected None t = true) (match Ok all with Ok l => l | Raise _ => [] end)) = 1%nat).
    rewrite <- Hall. by_vm. }
  pose proof (fun usd : dec => run_evals_correct (B := unit) po_children po_time ltac:(done)
    ltac:(intros i s; by split; [|apply Qle_refl])
    ltac:(intros i s; by split; [|apply Qle_refl]) ∅ "src" (fun _ => "30.0") id p_suites tt (fun _ => 0%Q)
    "dsn" false 2 usd (Dec 1 0) (1#1)%Q None "standard" [(0, 1%N, 1%N)] ["tmp"] 4
    (POs ∅ 0%Q db_empty ∅) (default [] (p_suites "standard")) all (fst (p_evals usd))
    (snd (p_evals usd)) eq_refl ltac:(vm_compute; reflexivity) eq_refl Hall (surjective_pairing _)) as H4.
  cbv zeta in H4. rewrite Hlen in H4. split.
  - destruct (H4 (Dec 5 (-2))) as [_ H5]. destruct H5 as (_ & Hn & _ & Hr); [|by split].
    split; [by_vm|discriminate].
  - destruct (H4 (Dec 2 0)) as [H5 _]. apply H5. intros [Hc _]. vm_compute in Hc. discriminate Hc.
Defined.
