(* ===== verification/BuildOrder.v ===== *)
(** [evals/challenge/C06_build_order/solution.py]: the reference solution of an
    evaluation task, Kahn's algorithm with a heap, against the task's text. *)

From S2P Require Import Prelude PyString Json Env.

(** ** The program *)
Abbreviation dependencies := (list (string * list string)).

(** [deps.get(t, ())]: the keys of a dict are distinct. *)
Definition requirements (deps : dependencies) (t : string) : list string :=
  default [] (list_to_map (M := gmap string (list string)) deps !! t).

(** [set(deps)] with every prerequisite *)
Definition tasks (deps : dependencies) : gset string :=
  list_to_set (deps.*1 ++ mjoin deps.*2).

Definition prereq_of (deps : dependencies) (t : string) : gset string :=
  list_to_set (requirements deps t).

(** What the loop changes; [ready] is the heap, as the sorted list of its
    members. *)
Record build := Build {
  bo_ready : list string;
  bo_prereq : gmap string (gset string);
  bo_order : list string;
}.

Definition heappush (x : string) (heap : list string) : list string := insert_by str_leb x heap.

(** [for d in dependents[t]] *)
Fixpoint release (t : string) (ds : list string) (s : build) : build :=
  match ds with
  | [] => s
  | d :: ds' =>
      let rest := default ∅ (bo_prereq s !! d) ∖ {[t]} in
      release t ds'
        (Build (if bool_decide (rest = ∅) then heappush d (bo_ready s) else bo_ready s)
               (<[d := rest]> (bo_prereq s)) (bo_order s))
  end.

(** [prereq], in the order its keys are iterated over, and [dependents] *)
Definition prereq_init (ts : list string) (deps : dependencies) : gmap string (gset string) :=
  list_to_map ((fun t => (t, prereq_of deps t)) <$> ts).
Definition dependents (ts : list string) (deps : dependencies) (p : string) : list string :=
  filter (fun t => p ∈ prereq_of deps t) ts.

Section Loop.
Context (dependents : string -> list string).

(** [while ready]; [None]: out of fuel *)
Fixpoint build_loop (fuel : nat) (s : build) : option build :=
  match bo_ready s with
  | [] => Some s
  | t :: ready =>
      match fuel with
      | O => None
      | S fuel' => build_loop fuel' (release t (dependents t) (Build ready (bo_prereq s) (bo_order s ++ [t])))
      end
  end.
End Loop.

(** [ts]: the order in which the set of the tasks is iterated over. *)
Definition build_order_on (ts : list string) (deps : dependencies) : option (res (list string)) :=
  let ready := filter (fun t => prereq_of deps t = ∅) ts in
  s ← build_loop (dependents ts deps) (length ts)
        (Build (sort_by str_leb ready) (prereq_init ts deps) []);
  Some (if bool_decide (length (bo_order s) = length ts) then Ok (bo_order s) else Raise ValueError).

Definition build_order (deps : dependencies) : res (list string) :=
  default (Raise ValueError) (build_order_on (elements (tasks deps)) deps).

(** The task's own test *)
Example build_order_tests :
  build_order [("c", ["a"; "b"]); ("b", ["a"]); ("a", [])] = Ok ["a"; "b"; "c"] /\
  build_order [("d", ["b"; "c"]); ("b", ["a"]); ("c", ["a"]); ("e", [])] = Ok ["a"; "b"; "c"; "d"; "e"] /\
  build_order [("b", ["a"])] = Ok ["a"; "b"] /\
  build_order [("z", []); ("m", []); ("a", [])] = Ok ["a"; "m"; "z"] /\
  build_order [] = Ok [] /\
  build_order [("b", ["a"; "a"]); ("c", ["b"; "a"])] = Ok ["a"; "b"; "c"] /\
  build_order [("x", ["b"]); ("y", ["a"]); ("a", []); ("b", [])] = Ok ["a"; "b"; "x"; "y"] /\
  build_order [("x", ["y"]); ("y", ["x"])] = Raise ValueError /\
  build_order [("a", ["a"])] = Raise ValueError /\
  build_order [("a", ["b"]); ("b", ["c"]); ("c", ["a"]); ("d", [])] = Raise ValueError.
Proof. vm_compute. split_and!; reflexivity. Qed.

(** ** What the task asks for *)

(** [t] waits for [p]. *)
Definition needs (deps : dependencies) (t p : string) : Prop := p ∈ requirements deps t.

#[export] Instance needs_dec deps t p : Decision (needs deps t p).
Proof. unfold needs. apply _. Defined.

Definition free (deps : dependencies) (done : list string) (t : string) : Prop :=
  forall p, needs deps t p -> p ∈ done.

(** Each task is, when its turn comes, the smallest of those left whose
    prerequisites are done. *)
Definition greedy (deps : dependencies) (order : list string) : Prop :=
  forall done t rest, order = done ++ t :: rest ->
    free deps done t /\
    forall u, u ∈ tasks deps -> u ∉ done -> free deps done u -> str_leb t u = true.

(** ** Cycles of a relation *)
Section Cycle.
Context {A : Type} `{EqDecision A} (R : relation A).

Fixpoint linked (x : A) (l : list A) : Prop :=
  match l with [] => True | y :: l' => R x y /\ linked y l' end.

Lemma linked_tc x l y : linked x l -> y ∈ l -> tc R x y.
Proof.
  revert x. induction l as [|z l IH]; intros x; [by intros _ ?%not_elem_of_nil|].
  intros [Hxz Hl] [->|Hy]%elem_of_cons; [by apply tc_once|]. eapply tc_l; [done|]. by apply IH.
Qed.

Lemma linked_cycle x l : linked x l -> ~ NoDup (x :: l) -> exists t, tc R t t.
Proof using EqDecision0.
  revert x. induction l as [|y l IH]; intros x Hl Hnd; [destruct Hnd; apply NoDup_singleton|].
  destruct (decide (x ∈ y :: l)) as [Hx|Hx]; [exists x; by eapply linked_tc|].
  apply (IH y); [by destruct Hl|]. intros Hn. apply Hnd. by constructor.
Qed.

(** A finite set in which everything has a successor holds a cycle. *)
Lemma endless_cycle (C : A -> Prop) (xs : list A) x :
  (forall x, C x -> exists y, R x y /\ C y) -> (forall x, C x -> x ∈ xs) -> C x -> exists t, tc R t t.
Proof using EqDecision0.
  intros Hs Hxs Hx.
  assert (Hlong : forall n x, C x -> exists l, length l = n /\ linked x l /\ Forall C (x :: l)).
  { induction n as [|n IH]; intros z Hz; [exists []; by repeat constructor|].
    destruct (Hs z Hz) as (y & Hy & Hcy). destruct (IH y Hcy) as (l & <- & Hl & Hc).
    exists (y :: l). split; [done|]. split; [by split|by constructor]. }
  destruct (Hlong (length xs) x Hx) as (l & Hlen & Hl & Hc). apply (linked_cycle x l Hl). intros Hnd.
  assert (Hsub : x :: l ⊆+ xs).
  { apply NoDup_submseteq; [done|]. intros y Hy. rewrite Forall_forall in Hc. by apply Hxs, Hc. }
  apply submseteq_length in Hsub. simpl in Hsub. lia.
Qed.
End Cycle.

(** ** Correctness *)
Section Correct.
Context (deps : dependencies) (ts : list string) (Hts : ts ≡ₚ elements (tasks deps)).
Local Abbreviation prereq := (prereq_of deps).
Local Abbreviation leb := (fun x y => Is_true (str_leb x y)).

Lemma elem_of_ts t : t ∈ ts <-> t ∈ tasks deps.
Proof using Hts. by rewrite Hts, elem_of_elements. Qed.

Lemma ts_NoDup : NoDup ts.
Proof using Hts. rewrite Hts. apply NoDup_elements. Qed.

Lemma elem_of_prereq p t : p ∈ prereq t <-> needs deps t p.
Proof. unfold prereq_of, needs. by rewrite elem_of_list_to_set. Qed.

Lemma needs_task t p : needs deps t p -> p ∈ ts.
Proof using Hts.
  rewrite elem_of_ts. unfold needs, requirements, tasks.
  destruct (list_to_map deps !! t) as [ps|] eqn:E; [|by intros ?%not_elem_of_nil].
  intros Hp. apply elem_of_list_to_map_2 in E. apply elem_of_list_to_set, elem_of_app. right.
  apply list_elem_of_join. exists ps. split; [done|]. apply list_elem_of_fmap. by exists (t, ps).
Qed.

Lemma free_prereq done t : free deps done t <-> prereq t ∖ list_to_set done = ∅.
Proof.
  unfold free. rewrite elem_of_equiv_empty_L. split.
  - intros H p. rewrite elem_of_difference, elem_of_prereq, elem_of_list_to_set. intros [Hp Hn]. by apply Hn, H.
  - intros H p Hp. specialize (H p). rewrite elem_of_difference, elem_of_prereq, elem_of_list_to_set in H.
    destruct (decide (p ∈ done)); [done|]. by destruct H.
Qed.

Record loop_inv (s : build) : Prop := {
  li_nodup : NoDup (bo_order s ++ bo_ready s);
  li_sorted : Sorted leb (bo_ready s);
  li_prereq : forall t, t ∈ ts -> bo_prereq s !! t = Some (prereq t ∖ list_to_set (bo_order s));
  li_ready : forall t, t ∈ bo_order s ++ bo_ready s <-> t ∈ ts /\ free deps (bo_order s) t;
  li_greedy : greedy deps (bo_order s);
}.

Lemma heappush_Permutation x h : heappush x h ≡ₚ x :: h.
Proof. apply insert_by_Permutation. Qed.

Lemma heappush_Sorted x h : Sorted leb h -> Sorted leb (heappush x h).
Proof. apply insert_by_Sorted, str_leb_total. Qed.

Lemma release_spec t ds s :
  NoDup ds ->
  let s' := release t ds s in
  let rest d := default ∅ (bo_prereq s !! d) ∖ {[t]} in
  bo_order s' = bo_order s /\
  bo_ready s' ≡ₚ filter (fun d => rest d = ∅) ds ++ bo_ready s /\
  (Sorted leb (bo_ready s) -> Sorted leb (bo_ready s')) /\
  (forall u, bo_prereq s' !! u = if decide (u ∈ ds) then Some (rest u) else bo_prereq s !! u).
Proof.
  revert s. induction ds as [|d ds IH]; intros s Hnd; cbn zeta; [done|].
  apply NoDup_cons in Hnd as [Hd Hnd]. cbn [release].
  set (rest := default ∅ (bo_prereq s !! d) ∖ {[t]}).
  set (s1 := Build _ _ _). specialize (IH s1 Hnd). cbn zeta in IH.
  destruct IH as (Ho & Hr & Hs & Hp). split_and!; [done|..].
  - rewrite Hr. subst s1. cbn [bo_ready bo_prereq].
    rewrite (filter_ext_elem (fun d0 => default ∅ (<[d:=rest]> (bo_prereq s) !! d0) ∖ {[t]} = ∅)
      (fun d0 => default ∅ (bo_prereq s !! d0) ∖ {[t]} = ∅) ds).
    2:{ intros x Hx. rewrite lookup_insert_ne; [done|]. by intros <-. }
    fold rest. destruct (decide (rest = ∅)) as [He|He].
    + rewrite bool_decide_eq_true_2, filter_cons_True by done. rewrite heappush_Permutation. simpl.
      by rewrite Permutation_middle.
    + rewrite bool_decide_eq_false_2, filter_cons_False by done. done.
  - intros Hsort. apply Hs. subst s1. cbn [bo_ready]. case_bool_decide; [by apply heappush_Sorted|done].
  - intros u. rewrite Hp. subst s1. cbn [bo_prereq].
    destruct (decide (u ∈ ds)) as [Hu|Hu].
    + rewrite decide_True by (by constructor). rewrite lookup_insert_ne; [done|]. by intros <-.
    + destruct (decide (u = d)) as [->|Hne].
      * rewrite decide_True by constructor. by rewrite lookup_insert_eq.
      * rewrite decide_False by (rewrite elem_of_cons; tauto). by rewrite lookup_insert_ne.
Qed.

Lemma loop_inv_init :
  loop_inv (Build (sort_by str_leb (filter (fun t => prereq t = ∅) ts)) (prereq_init ts deps) []).
Proof using Hts.
  pose proof ts_NoDup as Hnd. split; cbn [bo_order bo_ready bo_prereq app].
  - rewrite sort_by_Permutation. by apply NoDup_filter.
  - apply sort_by_Sorted, str_leb_total.
  - intros t Ht. cbn [list_to_set]. rewrite difference_empty_L. unfold prereq_init. apply elem_of_list_to_map_1.
    + rewrite <- list_fmap_compose. simpl. by rewrite list_fmap_id.
    + apply list_elem_of_fmap. by exists t.
  - intros t. rewrite elem_of_sort_by, list_elem_of_filter, free_prereq.
    cbn [list_to_set]. rewrite difference_empty_L. tauto.
  - intros [|] t rest; discriminate.
Qed.

(** One turn of the loop: [t] is popped. *)
Section Step.
Context (s : build) (t : string) (ready : list string) (Hi : loop_inv s) (Er : bo_ready s = t :: ready).
Local Abbreviation done := (bo_order s).
Local Abbreviation s' :=
  (release t (dependents ts deps t) (Build ready (bo_prereq s) (bo_order s ++ [t]))).

Lemma popped_free : t ∈ ts /\ free deps done t.
Proof using Hi Er. apply (li_ready s Hi). rewrite Er. apply elem_of_app. right. constructor. Qed.

Lemma popped_fresh : t ∉ done.
Proof using Hi Er.
  intros Hin. pose proof (li_nodup s Hi) as Hnd. rewrite Er in Hnd.
  apply NoDup_app in Hnd as (_ & Hx & _). apply (Hx t Hin). constructor.
Qed.

Lemma rest_after u : u ∈ ts ->
  default ∅ (bo_prereq s !! u) ∖ {[t]} = prereq u ∖ list_to_set (done ++ [t]).
Proof using Hi.
  intros Hu. rewrite (li_prereq s Hi u Hu). simpl. rewrite list_to_set_app_L. simpl.
  by rewrite (right_id_L ∅ (∪)), difference_difference_l_L.
Qed.

Lemma elem_of_dependents u : u ∈ dependents ts deps t <-> u ∈ ts /\ needs deps u t.
Proof. unfold dependents. rewrite list_elem_of_filter, elem_of_prereq. tauto. Qed.

Lemma released : 
  let rest d := default ∅ (bo_prereq s !! d) ∖ {[t]} in
  bo_order s' = done ++ [t] /\
  bo_ready s' ≡ₚ filter (fun d => rest d = ∅) (dependents ts deps t) ++ ready /\
  (Sorted leb ready -> Sorted leb (bo_ready s')) /\
  (forall u, bo_prereq s' !! u =
     if decide (u ∈ dependents ts deps t) then Some (rest u) else bo_prereq s !! u).
Proof using Hts. apply (release_spec t (dependents ts deps t) (Build ready _ _)), NoDup_filter, ts_NoDup. Qed.

Lemma elem_of_released u : u ∈ bo_ready s' <->
  (u ∈ ts /\ needs deps u t /\ free deps (done ++ [t]) u) \/ u ∈ ready.
Proof using Hts Hi.
  destruct released as (_ & Hrel & _). rewrite Hrel.
  rewrite elem_of_app, list_elem_of_filter, elem_of_dependents, free_prereq.
  split; (intros [Hu|]; [left|by right]).
  - destruct Hu as [He [Hu Hn]]. by rewrite <- rest_after.
  - destruct Hu as (Hu & Hn & He). by rewrite rest_after.
Qed.

Lemma free_more u : free deps done u -> free deps (done ++ [t]) u.
Proof. intros Hf p Hp. apply elem_of_app. left. by apply Hf. Qed.

Lemma step_NoDup : NoDup ((done ++ [t]) ++ bo_ready s').
Proof using Hts Hi Er.
  pose proof (li_nodup s Hi) as Hnd. rewrite Er in Hnd. destruct released as (_ & Hrel & _). rewrite Hrel.
  rewrite <- app_assoc. simpl. rewrite (Permutation_app_comm _ ready), app_comm_cons, app_assoc.
  apply NoDup_app. split; [done|]. split; [|by apply NoDup_filter, NoDup_filter, ts_NoDup].
  intros u Hu Hin. apply list_elem_of_filter in Hin as [_ Hin]. apply elem_of_dependents in Hin as [_ Hn].
  apply popped_fresh. rewrite <- Er in Hu. apply (li_ready s Hi) in Hu as [_ Hf]. by apply Hf.
Qed.

Lemma step_ready u : u ∈ (done ++ [t]) ++ bo_ready s' <-> u ∈ ts /\ free deps (done ++ [t]) u.
Proof using Hts Hi Er.
  pose proof (li_ready s Hi) as Hr. rewrite Er in Hr. rewrite elem_of_app, elem_of_released. split.
  - intros [Hu|[(Hu & _ & Hf)|Hu]]; [|done|].
    + apply elem_of_app in Hu as [Hu|Hu].
      * destruct (proj1 (Hr u)); [apply elem_of_app; by left|]. split; [done|by apply free_more].
      * apply list_elem_of_singleton in Hu as ->. split; [apply popped_free|apply free_more, popped_free].
    + destruct (proj1 (Hr u)); [apply elem_of_app; right; by constructor|]. split; [done|by apply free_more].
  - intros [Hu Hf]. destruct (decide (needs deps u t)) as [Hn|Hn]; [right; by left|].
    assert (Hin : u ∈ done ++ t :: ready).
    { apply Hr. split; [done|]. intros p Hpn. specialize (Hf p Hpn).
      apply elem_of_app in Hf as [Hf|Hx]; [done|]. apply list_elem_of_singleton in Hx. by subst p. }
    rewrite elem_of_app, elem_of_cons in Hin. rewrite elem_of_app, list_elem_of_singleton. tauto.
Qed.

(** The heap is sorted: what is popped is the smallest of the ready ones. *)
Lemma popped_least u : u ∈ tasks deps -> u ∉ done -> free deps done u -> str_leb t u = true.
Proof using Hts Hi Er.
  intros Hu Hud Huf. pose proof (li_sorted s Hi) as Hsort. rewrite Er in Hsort.
  assert (Hin : u ∈ done ++ t :: ready).
  { rewrite <- Er. apply (li_ready s Hi). split; [by apply elem_of_ts|done]. }
  apply elem_of_app in Hin as [|Hin]; [done|]. apply elem_of_cons in Hin as [->|Hin]; [apply str_leb_refl|].
  assert (Htr : Transitive leb).
  { intros a b c Hab Hbc. apply Is_true_true in Hab, Hbc. apply Is_true_true. by eapply str_leb_trans. }
  apply Sorted_StronglySorted in Hsort; [|done]. inversion Hsort as [|? ? _ Hall]. subst.
  rewrite Forall_forall in Hall. by apply Is_true_true, Hall.
Qed.

Lemma step_greedy : greedy deps (done ++ [t]).
Proof using Hts Hi Er.
  intros pre x post E. destruct (decide (post = [])) as [->|Hne].
  - apply app_inj_tail in E as [<- <-]. split; [apply popped_free|apply popped_least].
  - destruct (exists_last Hne) as (post' & y & ->).
    rewrite app_comm_cons, app_assoc in E. apply app_inj_tail in E as [E _]. by eapply (li_greedy s Hi).
Qed.

Lemma step_prereq u : u ∈ ts -> bo_prereq s' !! u = Some (prereq u ∖ list_to_set (done ++ [t])).
Proof using Hts Hi.
  intros Hu. destruct released as (_ & _ & _ & Hrel). rewrite Hrel.
  rewrite <- (rest_after u Hu), (li_prereq s Hi u Hu).
  destruct (decide _) as [|Hd]; [done|]. f_equal. simpl. rewrite elem_of_dependents in Hd. apply set_eq. intros x.
  rewrite !elem_of_difference, elem_of_singleton, elem_of_prereq. split; [|tauto].
  intros [Hx Hn]. split; [done|]. intros ->. by apply Hd.
Qed.

Lemma loop_inv_step : loop_inv s'.
Proof using Hts Hi Er.
  destruct released as (Eo & _ & Hs & _). split; rewrite ?Eo.
  - apply step_NoDup.
  - apply Hs. pose proof (li_sorted s Hi) as Hsort. rewrite Er in Hsort. by inversion Hsort.
  - apply step_prereq.
  - apply step_ready.
  - apply step_greedy.
Qed.
End Step.

Lemma loop_inv_sub s : loop_inv s -> bo_order s ++ bo_ready s ⊆+ ts.
Proof using Hts. intros Hi. apply NoDup_submseteq; [apply Hi|]. intros t Ht. by apply Hi in Ht as [? _]. Qed.

(** Fuel for one turn per task is enough. *)
Lemma build_loop_ends fuel s :
  loop_inv s -> (length ts <= length (bo_order s) + fuel)%nat ->
  exists s', build_loop (dependents ts deps) fuel s = Some s' /\ loop_inv s' /\ bo_ready s' = [].
Proof using Hts.
  revert s. induction fuel as [|fuel IH]; intros s Hi Hl.
  - exists s. destruct (bo_ready s) as [|t ready] eqn:Er; [by simpl; rewrite Er|].
    apply loop_inv_sub, submseteq_length in Hi. rewrite Er, length_app in Hi. simpl in Hi. lia.
  - cbn [build_loop]. destruct (bo_ready s) as [|t ready] eqn:Er; [by exists s|].
    pose proof (loop_inv_step s t ready Hi Er) as Hi'. apply IH; [done|].
    pose proof (release_spec t (dependents ts deps t) (Build ready (bo_prereq s) (bo_order s ++ [t]))
      ltac:(apply NoDup_filter, ts_NoDup)) as [-> _].
    cbn [bo_order]. rewrite length_app. simpl. lia.
Qed.

(** When the heap runs empty early, the tasks left wait for each other. *)
Lemma stuck_cycle s :
  loop_inv s -> bo_ready s = [] -> length (bo_order s) <> length ts ->
  exists t, tc (needs deps) t t.
Proof using Hts.
  intros Hi Er Hlen. pose proof (loop_inv_sub s Hi) as Hsub. rewrite Er, app_nil_r in Hsub.
  assert (Hleft : forall u, u ∈ ts -> u ∉ bo_order s -> exists p, needs deps u p /\ p ∉ bo_order s).
  { intros u Hu Hn. destruct (decide (Exists (fun p => p ∉ bo_order s) (requirements deps u))) as [He|He].
    - apply Exists_exists in He as (p & Hp & Hpn). by exists p.
    - destruct Hn. apply not_Exists_Forall in He; [|apply _].
      pose proof (li_ready s Hi u) as Hr. rewrite Er, app_nil_r in Hr. apply Hr. split; [done|].
      intros p Hp. rewrite Forall_forall in He. specialize (He p Hp). by apply dec_stable in He. }
  assert (Hex : exists u, u ∈ ts /\ u ∉ bo_order s).
  { destruct (decide (Exists (fun u => u ∉ bo_order s) ts)) as [He|He].
    - by apply Exists_exists in He.
    - exfalso. apply not_Exists_Forall in He; [|apply _]. rewrite Forall_forall in He. apply Hlen.
      apply Nat.le_antisymm; [by apply submseteq_length|]. apply submseteq_length, NoDup_submseteq; [apply ts_NoDup|].
      intros u Hu. by apply dec_stable, He. }
  destruct Hex as (u & Hu & Hun).
  eapply (endless_cycle (needs deps) (fun x => x ∈ ts /\ x ∉ bo_order s) ts); [|by intros x [? _]|by split].
  intros x [Hx Hxn]. destruct (Hleft x Hx Hxn) as (p & Hp & Hpn). exists p.
  split; [done|]. split; [by eapply needs_task|done].
Qed.

(** An order the task asks for leaves no room for a cycle. *)
Lemma greedy_acyclic order t :
  greedy deps order -> order ≡ₚ ts -> ~ tc (needs deps) t t.
Proof using Hts.
  intros Hg Hp Hc.
  assert (Hlt : forall done rest, order = done ++ rest -> forall x y, tc (needs deps) x y -> x ∈ done -> y ∈ done).
  { intros done rest E x y Hxy. induction Hxy as [x y Hn|x z y Hn _ IH]; intros Hx.
    - apply list_elem_of_split in Hx as (d1 & d2 & ->). rewrite <- app_assoc in E. simpl in E.
      destruct (Hg _ _ _ E) as [Hf _]. apply elem_of_app. left. by apply Hf.
    - apply IH. apply list_elem_of_split in Hx as (d1 & d2 & ->). rewrite <- app_assoc in E. simpl in E.
      destruct (Hg _ _ _ E) as [Hf _]. apply elem_of_app. left. by apply Hf. }
  assert (Ht : t ∈ order).
  { rewrite Hp. clear Hlt. remember t as x eqn:Ex in Hc at 1. clear Ex.
    induction Hc as [x y Hn|x z y _ _ IH]; [by eapply needs_task|done]. }
  apply list_elem_of_split in Ht as (done & rest & E).
  assert (Hnd : NoDup order) by (rewrite Hp; apply ts_NoDup). rewrite E in Hnd.
  apply NoDup_app in Hnd as (_ & Hnd & _). assert (Ht : t ∉ done) by (intros Hin; apply (Hnd t Hin); constructor).
  apply Ht. destruct (Hg _ _ _ E) as [Hf _]. inversion Hc as [? ? Hn|? z ? Hn Htc]; subst; [by apply Hf|].
  eapply (Hlt done); [done|exact Htc|by apply Hf].
Qed.

(** Orders the task asks for are equal. *)
Lemma greedy_unique order order' :
  greedy deps order -> greedy deps order' -> order ≡ₚ ts -> order' ≡ₚ ts -> order = order'.
Proof using Hts.
  intros Hg Hg' Hp Hp'. assert (Hpp : order ≡ₚ order') by (by rewrite Hp, Hp').
  assert (H : forall done rest rest', order = done ++ rest -> order' = done ++ rest' -> rest = rest').
  2:{ by apply (H []). }
  intros done rest. revert done. induction rest as [|x rest IH]; intros done rest' E E'.
  - rewrite E, E', app_nil_r in Hpp. apply Permutation_length in Hpp. rewrite length_app in Hpp.
    destruct rest'; [done|simpl in Hpp; lia].
  - rewrite E, E' in Hpp. apply app_Permutation_inj_l in Hpp || apply (Permutation_app_inv_l done) in Hpp.
    destruct rest' as [|y rest']; [by apply Permutation_sym, Permutation_nil in Hpp|].
    destruct (Hg _ _ _ E) as [Hf Hmin], (Hg' _ _ _ E') as [Hf' Hmin'].
    assert (Hy : y ∈ x :: rest) by (rewrite Hpp; constructor).
    assert (Hx : x ∈ y :: rest') by (rewrite <- Hpp; constructor).
    assert (Hnot : forall z, z ∈ x :: rest -> z ∈ tasks deps /\ z ∉ done).
    { intros z Hz. assert (Hnd : NoDup order) by (rewrite Hp; apply ts_NoDup).
      split; [apply elem_of_ts; rewrite <- Hp, E; apply elem_of_app; by right|].
      rewrite E in Hnd. apply NoDup_app in Hnd as (_ & Hnd & _). intros Hd. by eapply Hnd. }
    assert (x = y) as <-.
    { destruct (Hnot y Hy) as [Hyt Hyd]. destruct (Hnot x ltac:(constructor)) as [Hxt Hxd].
      by apply str_leb_antisym; [apply Hmin|apply Hmin']. }
    f_equal. apply (IH (done ++ [x])); by rewrite <- app_assoc.
Qed.


Lemma build_order_on_cases :
  (exists order, build_order_on ts deps = Some (Ok order) /\ order ≡ₚ ts /\ greedy deps order) \/
  (build_order_on ts deps = Some (Raise ValueError) /\ exists t, tc (needs deps) t t).
Proof using Hts.
  unfold build_order_on.
  destruct (build_loop_ends (length ts) _ loop_inv_init) as (s & -> & Hi & Er); [done|]. simpl.
  destruct (decide (length (bo_order s) = length ts)) as [Hl|Hl].
  - left. exists (bo_order s). rewrite bool_decide_eq_true_2 by done. split; [done|].
    split; [|apply Hi]. pose proof (loop_inv_sub s Hi) as Hsub. rewrite Er, app_nil_r in Hsub.
    by apply submseteq_length_Permutation; [|rewrite Hl].
  - right. rewrite bool_decide_eq_false_2 by done. split; [done|]. by eapply stuck_cycle.
Qed.
End Correct.

(** C36: the reference solution meets its task.  However the set of the tasks
    is iterated over, the loop ends and the answer is the same: either the one
    order of all the tasks in which each task is, when its turn comes, the
    alphabetically smallest of those whose prerequisites are done - no other
    order has this property - or, exactly when some task waits for itself
    through others, a ValueError. *)
Theorem build_order_correct deps ts :
  ts ≡ₚ elements (tasks deps) ->
  build_order_on ts deps = Some (build_order deps) /\
  match build_order deps with
  | Ok order =>
      order ≡ₚ elements (tasks deps) /\ greedy deps order /\
      (forall order', order' ≡ₚ elements (tasks deps) -> greedy deps order' -> order' = order) /\
      forall t, ~ tc (needs deps) t t
  | Raise e => e = ValueError /\ exists t, tc (needs deps) t t
  end.
Proof.
  intros Hts. unfold build_order.
  destruct (build_order_on_cases deps _ (reflexivity (elements (tasks deps))))
    as [(order & E & Hp & Hg)|(E & Hc)],
    (build_order_on_cases deps ts Hts) as [(order' & E' & Hp' & Hg')|(E' & Hc')]; rewrite E, E'; simpl.
  - rewrite Hts in Hp'. split; [|split_and!; [done|done| |]].
    + do 2 f_equal. by apply (greedy_unique deps _ (reflexivity _)).
    + intros o Ho Hgo. by apply (greedy_unique deps _ (reflexivity _)).
    + intros t. by eapply greedy_acyclic.
  - destruct Hc' as [t Hc']. exfalso. by eapply (greedy_acyclic deps _ (reflexivity _)).
  - destruct Hc as [t Hc]. exfalso. by eapply (greedy_acyclic deps ts Hts).
  - done.
Qed.

(** Two iteration orders of one set of tasks, and a cycle. *)
Lemma build_order_witness :
  let deps := [("d", ["b"; "c"]); ("b", ["a"]); ("c", ["a"])] in
  build_order_on ["d"; "c"; "a"; "b"] deps = Some (build_order deps) /\
  build_order_on ["y"; "x"] [("x", ["y"]); ("y", ["x"])] = Some (Raise ValueError).
Proof.
  cbv zeta. split.
  - refine (proj1 (build_order_correct _ ["d"; "c"; "a"; "b"] _)).
    apply (bool_decide_unpack _). vm_compute. exact I.
  - refine (eq_trans (proj1 (build_order_correct _ ["y"; "x"] _)) _); [|by_vm].
    apply (bool_decide_unpack _). vm_compute. exact I.
Defined.
