(* ===== verification/Ledger.v ===== *)
(** [evals/challenge/C05_ledger/solution.py]: the reference solution of an
    evaluation task, a ledger whose transfers are idempotent. *)

From S2P Require Import Prelude PyString Env.

(** ** The class *)
Record Ledger := MkLedger {
  balances : gmap string Z;
  applied : gset string;
  hist : gmap string (list (string * Z));
}.

Definition ledger_init : Ledger := MkLedger ∅ ∅ ∅.

Definition open (account : string) (amount : Z) : M Ledger unit := fun s =>
  if bool_decide (is_Some (balances s !! account)) then (Raise ValueError, s)
  else (Ok tt, MkLedger (<[account := amount]> (balances s)) (applied s) (<[account := []]> (hist s))).

(** [self.balances[k] += d] and [self.hist[k].append(e)] *)
Definition add_balance (k : string) (d : Z) : M Ledger unit := fun s =>
  match balances s !! k with
  | Some b => (Ok tt, MkLedger (<[k := b + d]> (balances s)) (applied s) (hist s))
  | None => (Raise (KeyError k), s)
  end.
Definition append_hist (k : string) (e : string * Z) : M Ledger unit := fun s =>
  match hist s !! k with
  | Some h => (Ok tt, MkLedger (balances s) (applied s) (<[k := h ++ [e]]> (hist s)))
  | None => (Raise (KeyError k), s)
  end.

Definition invalid_transfer (src dst : string) (amount : Z) (s : Ledger) : bool :=
  (amount <=? 0) || bool_decide (src = dst) || bool_decide (balances s !! src = None) ||
  bool_decide (balances s !! dst = None).

Definition transfer (txid src dst : string) (amount : Z) : M Ledger bool :=
  done ← gets (fun s => bool_decide (txid ∈ applied s));
  if (done : bool) then mret false
  else
    invalid ← gets (invalid_transfer src dst amount);
    if (invalid : bool) then raise ValueError
    else
      funds ← gets (fun s => default 0 (balances s !! src));
      if funds <? amount then raise ValueError
      else
        add_balance src (- amount) ;;
        add_balance dst amount ;;
        append_hist src (txid, - amount) ;;
        append_hist dst (txid, amount) ;;
        modify (fun s => MkLedger (balances s) ({[txid]} ∪ applied s) (hist s)) ;;
        mret true.

Definition balance (account : string) : M Ledger Z := fun s =>
  (of_option (KeyError account) (balances s !! account), s).
Definition history (account : string) : M Ledger (list (string * Z)) := fun s =>
  (of_option (KeyError account) (hist s !! account), s).

(** The test of the task, up to the replays. *)
Example ledger_test :
  let run := fun ops => foldl (fun s (op : M Ledger unit) => snd (op s)) ledger_init ops in
  let t txid src dst n := transfer txid src dst n ;; mret tt in
  let s := run [open "a" 100; open "b" 0; t "t1" "a" "b" 40; t "t1" "a" "b" 40; t "t1" "nope" "nope" (-5);
                t "t2" "a" "b" 60; t "t3" "a" "b" 1; t "t3" "a" "a" 1; t "t9" "b" "a" 10; t "t3" "a" "b" 5] in
  fst (history "a" s) = Ok [("t1", -40); ("t2", -60); ("t9", 10); ("t3", -5)] /\
  fst (history "b" s) = Ok [("t1", 40); ("t2", 60); ("t9", -10); ("t3", 5)] /\
  transfer "t4" "a" "b" 6 s = (Raise ValueError, s) /\ fst (balance "a" s) = Ok 5 /\
  fst (transfer "t1" "nope" "nope" (-5) s) = Ok false.
Proof. vm_compute. split_and!; reflexivity. Qed.

(** Money in the ledger. *)
Definition total (m : gmap string Z) : Z := map_fold (fun _ b acc => b + acc) 0 m.

Lemma total_insert k b m : total (<[k := b]> m) = total m - default 0 (m !! k) + b.
Proof.
  assert (Hf : forall m', m' !! k = None -> total (<[k := b]> m') = total m' + b).
  { intros m' Hk. unfold total. rewrite map_fold_insert_L; [simpl; lia|intros; simpl; lia|done]. }
  destruct (m !! k) as [c|] eqn:E; simpl; [|rewrite Hf by done; lia].
  rewrite <- insert_delete_eq, Hf by apply lookup_delete_eq.
  assert (Hc : total m = total (delete k m) + c); [|lia].
  rewrite <- (insert_delete_id m k c) at 1 by done.
  unfold total. rewrite map_fold_insert_L; [simpl; lia|intros; simpl; lia|apply lookup_delete_eq].
Qed.

Definition solvent (s : Ledger) : Prop :=
  (forall k b, balances s !! k = Some b -> 0 <= b) /\ dom (hist s) = dom (balances s).

(** A transfer on every branch.  One already applied changes nothing; an
    invalid one, or one the source cannot pay, is refused and changes nothing;
    any other moves the money, is recorded once on both sides, leaves the
    total as it was and no balance below zero. *)
Lemma transfer_correct txid src dst amount s :
  solvent s ->
  match transfer txid src dst amount s with
  | (Ok false, s') => txid ∈ applied s /\ s' = s
  | (Ok true, s') =>
      (txid ∉ applied s) /\ 0 < amount /\ src <> dst /\ solvent s' /\
      total (balances s') = total (balances s) /\ applied s' = {[txid]} ∪ applied s /\
      exists bs bd hs hd,
        balances s !! src = Some bs /\ balances s !! dst = Some bd /\ amount <= bs /\
        hist s !! src = Some hs /\ hist s !! dst = Some hd /\
        balances s' = <[dst := bd + amount]> (<[src := bs - amount]> (balances s)) /\
        hist s' = <[dst := hd ++ [(txid, amount)]]> (<[src := hs ++ [(txid, - amount)]]> (hist s))
  | (Raise e, s') =>
      e = ValueError /\ s' = s /\ (txid ∉ applied s) /\
      (amount <= 0 \/ src = dst \/ balances s !! src = None \/ balances s !! dst = None \/
       (exists b, balances s !! src = Some b /\ b < amount))
  end.
Proof.
  intros [Hpos Hdom]. unfold transfer, mbind, M_bind, gets, mret, M_ret, raise. cbn beta iota.
  case_bool_decide as Ha; [done|]. destruct (invalid_transfer src dst amount s) eqn:Hv.
  { unfold invalid_transfer in Hv. split_and!; [done..|].
    rewrite !orb_true_iff, Z.leb_le, !bool_decide_eq_true in Hv. tauto. }
  unfold invalid_transfer in Hv. bool_to_prop.
  destruct (balances s !! src) as [bs|] eqn:Es; [|done]. destruct (balances s !! dst) as [bd|] eqn:Ed; [|done].
  cbn [default from_option id]. destruct (bs <? amount) eqn:Hf; bool_to_prop.
  { split_and!; [done..|]. do 4 right. by exists bs. }
  assert (Hh : forall k b, balances s !! k = Some b -> exists h, hist s !! k = Some h).
  { intros k b Hk. apply elem_of_dom_2 in Hk. rewrite <- Hdom in Hk. by apply elem_of_dom in Hk as [h Hk]; exists h. }
  destruct (Hh _ _ Es) as [hs Ehs]. destruct (Hh _ _ Ed) as [hd Ehd].
  unfold add_balance at 1. rewrite Es. unfold add_balance. cbn [balances applied hist].
  rewrite lookup_insert_ne, Ed by done. unfold append_hist at 1. cbn [balances applied hist]. rewrite Ehs.
  unfold append_hist. cbn [balances applied hist]. rewrite lookup_insert_ne, Ehd by done. unfold modify.
  cbn [balances applied hist]. split_and!; try done; [split; cbn [balances hist]|..].
  - intros k b Hk. apply lookup_insert_Some in Hk as [[_ <-]|[_ Hk]].
    + specialize (Hpos _ _ Ed). lia.
    + apply lookup_insert_Some in Hk as [[_ <-]|[_ Hk]]; [lia|by eapply Hpos].
  - rewrite !dom_insert_L. by rewrite Hdom.
  - rewrite !total_insert, lookup_insert_ne, Ed, Es by done. simpl. lia.
  - exists bs, bd, hs, hd. split_and!; done.
Qed.
