(* ===== verification/Limiter.v ===== *)
(** [evals/challenge/C07_rate_limiter/solution.py]: the reference solution of
    an evaluation task, a sliding-window rate limiter, against the full record
    its test keeps.  A time is the exact value of its float. *)

From Stdlib Require Import QArith.
From S2P Require Import Prelude PyString Env.

(** ** The class and its task *)
Section Limiter.
Context (limit : Z) (window : Q).

(** [self.events] *)
Abbreviation events := (gmap string (list Q)).

(** [while q and q[0] <= t - self.window: q.popleft()] *)
Fixpoint expire (t : Q) (q : list Q) : list Q :=
  match q with
  | x :: q' => if Qle_bool x (t - window) then expire t q' else q
  | [] => []
  end.

Definition allow (key : string) (t : Q) : M events bool := fun s =>
  let q := expire t (default [] (s !! key)) in
  if Z.of_nat (length q) <? limit then (Ok true, <[key := q ++ [t]]> s)
  else (Ok false, <[key := q]> s).

Fixpoint answers (calls : list (string * Q)) (s : events) : list bool :=
  match calls with
  | [] => []
  | (key, t) :: calls' =>
      match allow key t s with
      | (Ok b, s') => b :: answers calls' s'
      | (Raise _, s') => answers calls' s'
      end
  end.

(** What the task asks for: the allowed requests so far are kept, and those of
    the key in the window are counted. *)
Definition recent (t : Q) (x : Q) : Prop := Qle_bool x (t - window) = false /\ Qle_bool x t = true.

Definition may_pass (allowed : list (string * Q)) (key : string) (t : Q) : bool :=
  Z.of_nat (length (filter (fun e => fst e = key /\ recent t (snd e)) allowed)) <? limit.

Fixpoint expected (calls allowed : list (string * Q)) : list bool :=
  match calls with
  | [] => []
  | (key, t) :: calls' =>
      if may_pass allowed key t then true :: expected calls' (allowed ++ [(key, t)])
      else false :: expected calls' allowed
  end.

(** The requests that were let through, in order. *)
Fixpoint let_through (calls : list (string * Q)) (bs : list bool) : list (string * Q) :=
  match calls, bs with
  | c :: calls', b :: bs' => (if (b : bool) then [c] else []) ++ let_through calls' bs'
  | _, _ => []
  end.
End Limiter.

Example limiter_test :
  answers 2 (10#1)%Q [("a", 0%Q); ("a", 1%Q); ("a", (5#1)%Q); ("a", (10#1)%Q); ("a", (21#2)%Q); ("a", (11#1)%Q); ("b", (5#1)%Q)] ∅ =
  [true; true; false; true; false; true; true].
Proof. vm_compute. reflexivity. Qed.

Section LimiterFacts.
Context (limit : Z) (window : Q).
Local Abbreviation expire := (expire window).
Local Abbreviation recent := (recent window).
Local Abbreviation in_order := (StronglySorted Qle).

(** The allowed times of a key: those forgotten, then those kept. *)
Definition times (key : string) (allowed : list (string * Q)) : list Q :=
  (filter (fun e => fst e = key) allowed).*2.

Definition remembers (now : Q) (s : gmap string (list Q)) (allowed : list (string * Q)) : Prop :=
  forall key, exists old, times key allowed = old ++ default [] (s !! key) /\
    Forall (fun x => x <= now - window)%Q old /\ in_order (default [] (s !! key)) /\
    Forall (fun x => x <= now)%Q (default [] (s !! key)).

Lemma count_recent key t allowed :
  length (filter (fun e : string * Q => fst e = key /\ recent t (snd e)) allowed) =
  length (filter (recent t) (times key allowed)).
Proof.
  induction allowed as [|[k x] l IH]; [done|]. unfold times in *. cbn [fst snd] in *.
  destruct (decide (k = key)) as [Hk|Hk].
  - rewrite (filter_cons_True (fun e => fst e = key)) by done. cbn [fmap list_fmap snd].
    destruct (decide (recent t x)).
    + rewrite !filter_cons_True by done. simpl. by rewrite IH.
    + rewrite !filter_cons_False by (simpl; tauto). done.
  - rewrite (filter_cons_False (fun e => fst e = key)), filter_cons_False by (simpl; tauto). done.
Qed.

Lemma expire_spec t q :
  in_order q -> Forall (fun x => x <= t)%Q q ->
  exists old, q = old ++ expire t q /\ Forall (fun x => x <= t - window)%Q old /\
    filter (recent t) (expire t q) = expire t q.
Proof.
  intros Hs. induction Hs as [|x q Hs IH Hx]; intros Ht; [by exists []|].
  apply Forall_cons in Ht as [Hxt Ht]. simpl. destruct (Qle_bool x (t - window)) eqn:E.
  - destruct (IH Ht) as (old & Eq & Hold & Hf). exists (x :: old). simpl. rewrite <- Eq.
    split; [done|]. split; [|done]. constructor; [by apply Qle_bool_iff|done].
  - exists []. split; [done|]. split; [constructor|]. apply filter_all.
    assert (Hlate : forall y, (x <= y)%Q -> (y <= t)%Q -> recent t y).
    { intros y Hxy Hyt. split; [|by apply Qle_bool_iff]. destruct (Qle_bool y (t - window)) eqn:E'; [|done].
      apply Qle_bool_iff in E'. assert (Hc : (x <= t - window)%Q) by (by eapply Qle_trans).
      apply Qle_bool_iff in Hc. congruence. }
    constructor; [apply Hlate; [apply Qle_refl|done]|].
    rewrite Forall_forall in Hx, Ht |- *. intros y Hy. apply Hlate; auto.
Qed.

Lemma filter_old t old : Forall (fun x => x <= t - window)%Q old -> filter (recent t) old = [].
Proof.
  intros Ho. apply filter_none. eapply Forall_impl; [exact Ho|]. intros x Hx [Hr _].
  apply Qle_bool_iff in Hx. congruence.
Qed.

Lemma times_snoc key allowed k t :
  times key (allowed ++ [(k, t)]) = times key allowed ++ (if decide (k = key) then [t] else []).
Proof.
  unfold times. rewrite filter_app, fmap_app. f_equal. destruct (decide (k = key)) as [H|H].
  - by rewrite filter_cons_True.
  - by rewrite filter_cons_False.
Qed.

Lemma in_order_snoc q t : in_order q -> Forall (fun x => x <= t)%Q q -> in_order (q ++ [t]).
Proof.
  induction 1 as [|x q Hs IH Hx]; intros Ht; [by repeat constructor|].
  apply Forall_cons in Ht as [Hxt Ht]. simpl. constructor; [by apply IH|].
  apply Forall_app. split; [done|]. by constructor.
Qed.

(** One call: the answer is the one the task asks for, and the times are
    remembered. *)
Lemma allow_step now key t s allowed :
  remembers now s allowed -> (now <= t)%Q ->
  let pass := may_pass limit window allowed key t in
  fst (allow limit window key t s) = Ok pass /\
  remembers t (snd (allow limit window key t s)) (allowed ++ if pass then [(key, t)] else []).
Proof.
  intros Hr Ht pass. destruct (Hr key) as (old & Eq & Hold & Hord & Hnow).
  assert (Hnt : forall l, Forall (fun x => x <= now)%Q l -> Forall (fun x => x <= t)%Q l).
  { intros l Hl. eapply Forall_impl; [exact Hl|]. intros x Hx. exact (Qle_trans _ _ _ Hx Ht). }
  assert (Hot : forall l, Forall (fun x => x <= now - window)%Q l -> Forall (fun x => x <= t - window)%Q l).
  { intros l Hl. eapply Forall_impl; [exact Hl|]. intros x Hx. eapply Qle_trans; [exact Hx|].
    by apply Qplus_le_compat; [|apply Qle_refl]. }
  destruct (expire_spec t (default [] (s !! key)) Hord (Hnt _ Hnow)) as (gone & Eg & Hgone & Hf).
  set (q := expire t (default [] (s !! key))) in *.
  assert (Hpass : pass = (Z.of_nat (length q) <? limit)).
  { unfold pass, may_pass. rewrite count_recent, Eq, Eg, !filter_app, Hf.
    by rewrite (filter_old t old), (filter_old t gone) by auto. }
  assert (Hord' : in_order q) by (rewrite Eg in Hord; by apply StronglySorted_app_1_r in Hord).
  assert (Hq : Forall (fun x => x <= t)%Q q).
  { apply Hnt. rewrite Eg in Hnow. by apply Forall_app in Hnow as [_ ?]. }
  unfold allow. fold q. rewrite <- Hpass. clearbody pass. split; [by destruct pass|]. intros k.
  destruct (decide (key = k)) as [<-|Hne].
  - exists (old ++ gone). destruct pass; cbn [snd]; rewrite lookup_insert_eq; cbn [default from_option id].
    + rewrite times_snoc, decide_True, Eq, Eg, <- !app_assoc by done. split; [done|].
      split; [by apply Forall_app; auto|]. split; [by apply in_order_snoc|].
      apply Forall_app. split; [done|]. constructor; [apply Qle_refl|done].
    + rewrite app_nil_r, Eq, Eg, <- !app_assoc. split; [done|]. split; [by apply Forall_app; auto|done].
  - destruct (Hr k) as (old' & Eq' & Hold' & Hord'' & Hnow'). exists old'.
    replace (snd _ !! k) with (s !! k) by (by destruct pass; simpl; rewrite lookup_insert_ne).
    split; [|by auto]. destruct pass; [|by rewrite app_nil_r].
    rewrite times_snoc, decide_False by done. by rewrite app_nil_r.
Qed.

Lemma answers_expected now calls s allowed :
  remembers now s allowed -> Forall (fun c => now <= snd c)%Q calls ->
  StronglySorted (fun c d : string * Q => (snd c <= snd d)%Q) calls ->
  answers limit window calls s = expected limit window calls allowed.
Proof.
  revert now s allowed. induction calls as [|[key t] calls IH]; intros now s allowed Hr Hnow Hs; [done|].
  apply Forall_cons in Hnow as [Ht _]. inversion Hs as [|? ? Hs' Hle]; subst.
  destruct (allow_step now key t s allowed Hr Ht) as [Ea Hr'].
  cbn [answers expected]. destruct (allow limit window key t s) as [r s'] eqn:E. cbn [fst snd] in *. subst r.
  destruct (may_pass limit window allowed key t); f_equal.
  - by eapply IH.
  - rewrite app_nil_r in Hr'. by eapply IH.
Qed.

Local Abbreviation calls_in_order := (StronglySorted (fun c d : string * Q => (snd c <= snd d)%Q)).

Definition in_window (key : string) (t : Q) (l : list (string * Q)) : Z :=
  Z.of_nat (length (filter (fun e => fst e = key /\ recent t (snd e)) l)).

Lemma in_window_snoc key t l e :
  in_window key t (l ++ [e]) =
  in_window key t l + if decide (fst e = key /\ recent t (snd e)) then 1 else 0.
Proof.
  unfold in_window. rewrite filter_app, length_app, Nat2Z.inj_add. f_equal.
  destruct (decide _) as [Hd|Hd]; [by rewrite filter_cons_True|by rewrite filter_cons_False].
Qed.

(** A window that ends later and still holds [t] saw no more before it. *)
Lemma in_window_shift key t T l :
  Forall (fun e => snd e <= t)%Q l -> recent T t -> in_window key T l <= in_window key t l.
Proof.
  intros Hl [H1 H2]. apply Qle_bool_iff in H2. unfold in_window. apply inj_le.
  induction Hl as [|[k x] l Hx _ IH]; [done|]. cbn [snd] in Hx.
  destruct (decide (k = key /\ recent T x)) as [[Hk [H3 H4]]|Hn].
  - rewrite !filter_cons_True; [simpl; lia|..|done].
    split; [done|]. split; [|by apply Qle_bool_iff]. destruct (Qle_bool x (t - window)) eqn:E; [|done].
    apply Qle_bool_iff in E. cbn [snd] in *. assert (Hc : (x <= T - window)%Q).
    { eapply Qle_trans; [exact E|]. by apply Qplus_le_compat; [|apply Qle_refl]. }
    apply Qle_bool_iff in Hc. congruence.
  - rewrite filter_cons_False by done. etrans; [exact IH|].
    destruct (decide (k = key /\ recent t x)); [rewrite filter_cons_True by done; simpl; lia|by rewrite filter_cons_False].
Qed.

Lemma windows_bounded now calls allowed key T :
  Forall (fun e => snd e <= now)%Q allowed -> Forall (fun c => now <= snd c)%Q calls -> calls_in_order calls ->
  (forall k t, in_window k t allowed <= Z.max 0 limit) ->
  in_window key T (allowed ++ let_through calls (expected limit window calls allowed)) <= Z.max 0 limit.
Proof.
  revert now allowed. induction calls as [|[k t] calls IH]; intros now allowed Ha Hnow Hs Hw.
  { cbn. rewrite app_nil_r. apply Hw. }
  apply Forall_cons in Hnow as [Ht _]. inversion Hs as [|? ? Hs' Hle]; subst. cbn [snd] in Ht.
  assert (Ha' : Forall (fun e => snd e <= t)%Q allowed).
  { eapply Forall_impl; [exact Ha|]. intros e He. exact (Qle_trans _ _ _ He Ht). }
  cbn [expected]. destruct (may_pass limit window allowed k t) eqn:Hp; cbn [let_through app].
  - rewrite cons_middle, app_assoc. apply (IH t); [|done|done|].
    + apply Forall_app. split; [done|]. constructor; [apply Qle_refl|done].
    + intros k' t'. rewrite in_window_snoc. cbn [fst snd]. destruct (decide _) as [[-> Hr]|_]; [|rewrite Z.add_0_r; apply Hw].
      pose proof (in_window_shift k' t t' allowed Ha' Hr). unfold may_pass in Hp. apply Z.ltb_lt in Hp.
      fold (in_window k' t allowed) in Hp. lia.
  - by apply (IH t).
Qed.

(** The limiter is the one its task describes.  When calls arrive in the
    order of their times, every answer is the one a full record of the allowed
    requests would give, although expired ones are forgotten; so no window of
    the given length lets more than [limit] requests of a key through. *)
Theorem limiter_correct calls :
  calls_in_order calls ->
  answers limit window calls ∅ = expected limit window calls [] /\
  forall key t, in_window key t (let_through calls (answers limit window calls ∅)) <= Z.max 0 limit.
Proof.
  intros Hs. assert (E : answers limit window calls ∅ = expected limit window calls []).
  { destruct calls as [|[k t] calls]; [done|]. apply (answers_expected t); [|constructor; [apply Qle_refl|]|done].
    - intros key. exists []. unfold times. rewrite lookup_empty. by repeat constructor.
    - by inversion Hs. }
  split; [done|]. rewrite E. intros key T. destruct calls as [|[k t] calls]; [change (0 <= Z.max 0 limit); lia|].
  apply (windows_bounded t ((k, t) :: calls) []); [constructor|constructor; [apply Qle_refl|]|done|].
  - by inversion Hs.
  - intros k' t'. change (0 <= Z.max 0 limit). lia.
Qed.
End LimiterFacts.
