(* ===== verification/LfuCache.v ===== *)
(** [evals/challenge/C10_lfu_cache/solution.py]: the reference solution of an
    evaluation task, a cache of three dicts, against the one-table model of the
    task's test. *)

From S2P Require Import Prelude PyString Env.

(** ** The class and the model of its test *)

(** A key with its number of uses and the time of its last use. *)
Definition lex_ltb (x y : Z * Z) : bool :=
  (fst x <? fst y) || ((fst x =? fst y) && (snd x <? snd y)).

(** [min(keys, key=...)]: the first of the smallest, a ValueError for none *)
Definition min_by {K} (l : list (K * (Z * Z))) : res K :=
  match l with
  | [] => Raise ValueError
  | x :: l' => Ok (fst (foldl (fun m y => if lex_ltb (snd y) (snd m) then y else m) x l'))
  end.

Section LFU.
Context {K V : Type} `{Countable K}.

Record LFUCache := MkLFU {
  cap : Z;
  vals : gmap K V;
  freq : gmap K Z;
  last : gmap K Z;
  tick : Z;
}.

Definition lfu_init (capacity : Z) : LFUCache := MkLFU capacity ∅ ∅ ∅ 0.

Definition _touch (k : K) : M LFUCache unit :=
  modify (fun s => MkLFU (cap s) (vals s) (<[k := default 0 (freq s !! k) + 1]> (freq s))
                     (<[k := tick s + 1]> (last s)) (tick s + 1)).

(** [None]: -1 *)
Definition get (k : K) : M LFUCache (option V) :=
  known ← gets (fun s => vals s !! k);
  match known with
  | None => mret None
  | Some _ => _touch k ;; gets (fun s => vals s !! k)
  end.

(** [self.freq[x], self.last[x]] *)
Definition weight (s : LFUCache) (x : K) : res (K * (Z * Z)) :=
  f ← of_option (KeyError "") (freq s !! x);
  l ← of_option (KeyError "") (last s !! x);
  mret (x, (f, l)).

Definition victim (s : LFUCache) : res K :=
  ws ← mapR (weight s) (map_to_list (vals s)).*1;
  min_by ws.

Definition put (k : K) (v : V) : M LFUCache unit :=
  off ← gets (fun s => cap s <=? 0);
  if (off : bool) then mret tt
  else
    full ← gets (fun s => bool_decide (vals s !! k = None) && (cap s <=? Z.of_nat (size (vals s))));
    (if (full : bool) then
       x ← (fun s => (victim s, s));
       modify (fun s => MkLFU (cap s) (delete x (vals s)) (delete x (freq s)) (delete x (last s)) (tick s))
     else mret tt) ;;
    modify (fun s => MkLFU (cap s) (<[k := v]> (vals s)) (freq s) (last s) (tick s)) ;;
    _touch k.

(** The model of the task's test: one entry [value, uses, stamp] per key. *)
Record Model := MkModel { m_cap : Z; m_items : gmap K (V * (Z * Z)); m_t : Z }.

Definition model_init (capacity : Z) : Model := MkModel capacity ∅ 0.

Definition _use (k : K) : M Model unit := fun s =>
  match m_items s !! k with
  | Some (v, (uses, _)) =>
      (Ok tt, MkModel (m_cap s) (<[k := (v, (uses + 1, m_t s + 1))]> (m_items s)) (m_t s + 1))
  | None => (Raise (KeyError ""), MkModel (m_cap s) (m_items s) (m_t s + 1))
  end.

Definition model_get (k : K) : M Model (option V) :=
  known ← gets (fun s => m_items s !! k);
  match known with
  | None => mret None
  | Some _ => _use k ;; gets (fun s => fst <$> m_items s !! k)
  end.

Definition model_victim (s : Model) : res K := min_by (prod_map id snd <$> map_to_list (m_items s)).

Definition model_put (k : K) (v : V) : M Model unit :=
  off ← gets (fun s => m_cap s <=? 0);
  if (off : bool) then mret tt
  else
    known ← gets (fun s => m_items s !! k);
    match known with
    | Some (_, w) => modify (fun s => MkModel (m_cap s) (<[k := (v, w)]> (m_items s)) (m_t s))
    | None =>
        full ← gets (fun s => m_cap s <=? Z.of_nat (size (m_items s)));
        (if (full : bool) then
           x ← (fun s => (model_victim s, s));
           modify (fun s => MkModel (m_cap s) (delete x (m_items s)) (m_t s))
         else mret tt) ;;
        modify (fun s => MkModel (m_cap s) (<[k := (v, (0, 0))]> (m_items s)) (m_t s))
    end ;;
    _use k.

(** Histories of calls, and what they answer. *)
Inductive cache_call := Get (k : K) | Put (k : K) (v : V).

Definition lfu_call (c : cache_call) : M LFUCache (option V) :=
  match c with Get k => get k | Put k v => put k v ;; mret None end.
Definition model_call (c : cache_call) : M Model (option V) :=
  match c with Get k => model_get k | Put k v => model_put k v ;; mret None end.

Fixpoint outputs {S} (call : cache_call -> M S (option V)) (cs : list cache_call) (s : S) : list (res (option V)) :=
  match cs with
  | [] => []
  | c :: cs' => let '(r, s') := call c s in r :: outputs call cs' s'
  end.
End LFU.
Arguments LFUCache K V {_ _}.
Arguments Model K V {_ _}.
Arguments cache_call : clear implicits.

Example lfu_test :
  outputs lfu_call [Put 1 1; Put 2 2; Get 1; Put 3 3; Get 2; Get 3; Put 4 4; Get 1; Get 3; Get 4] (lfu_init 2) =
    Ok <$> [None; None; Some 1; None; None; Some 3; None; None; Some 3; Some 4] /\
  outputs lfu_call [Put 1 1; Put 2 2; Put 1 10; Put 3 3; Get 2; Get 1; Get 3; Get 99] (lfu_init 2) =
    Ok <$> [None; None; None; None; None; Some 10; Some 3; None] /\
  outputs lfu_call [Put 1 1; Get 1] (lfu_init 0) = Ok <$> [None; None].
Proof. vm_compute. split_and!; reflexivity. Qed.

Section MinBy.
Context {K : Type}.

Lemma lex_trans x y z : lex_ltb x y = false -> lex_ltb y z = false -> lex_ltb x z = false.
Proof. unfold lex_ltb. destruct x, y, z; simpl. rewrite !orb_false_iff, !andb_false_iff, !Z.ltb_ge, !Z.eqb_neq. lia. Qed.

Lemma lex_asym x y : lex_ltb x y = true -> lex_ltb y x = false.
Proof.
  unfold lex_ltb. destruct x, y; simpl.
  rewrite orb_true_iff, orb_false_iff, andb_true_iff, andb_false_iff, !Z.ltb_lt, !Z.ltb_ge, Z.eqb_eq, Z.eqb_neq. lia.
Qed.

Lemma lex_refl x : lex_ltb x x = false.
Proof. unfold lex_ltb. destruct x; simpl. rewrite orb_false_iff, andb_false_iff, !Z.ltb_ge. lia. Qed.

Local Abbreviation smaller := (fun m y : K * (Z * Z) => if lex_ltb (snd y) (snd m) then y else m).

Lemma min_by_foldl x l :
  let m := foldl smaller x l in
  m ∈ x :: l /\ forall y, y ∈ x :: l -> lex_ltb (snd y) (snd m) = false.
Proof.
  revert x. induction l as [|y l IH]; intros x; cbn zeta.
  - simpl. split; [constructor|]. intros y ->%list_elem_of_singleton. apply lex_refl.
  - cbn [foldl]. destruct (lex_ltb (snd y) (snd x)) eqn:E.
    + destruct (IH y) as [Hin Hmin]. split; [by constructor|]. intros z [->|Hz]%elem_of_cons; [|by apply Hmin].
      eapply lex_trans; [|apply (Hmin y); constructor]. by apply lex_asym.
    + destruct (IH x) as [Hin Hmin]. split.
      { apply elem_of_cons in Hin as [->|Hin]; [constructor|by do 2 constructor]. }
      intros z [->|[->|Hz]%elem_of_cons]%elem_of_cons.
      * apply Hmin. constructor.
      * eapply lex_trans; [exact E|apply Hmin; constructor].
      * apply Hmin. by constructor.
Qed.

(** One entry is below all others: it is the minimum, in whatever order. *)
Lemma min_by_strict (l : list (K * (Z * Z))) x w :
  (x, w) ∈ l -> (forall y w', (y, w') ∈ l -> (y, w') = (x, w) \/ lex_ltb w w' = true) -> min_by l = Ok x.
Proof.
  intros Hin Hlt. destruct l as [|e l]; [by apply not_elem_of_nil in Hin|]. unfold min_by.
  destruct (min_by_foldl e l) as [Hm Hmin]. destruct (foldl smaller e l) as [z wz].
  destruct (Hlt z wz Hm) as [[= -> ->]|Hc]; [done|]. specialize (Hmin _ Hin). cbn [snd] in Hmin. congruence.
Qed.

Lemma min_by_in (l : list (K * (Z * Z))) :
  l <> [] -> exists x w, min_by l = Ok x /\ (x, w) ∈ l /\ forall y w', (y, w') ∈ l -> lex_ltb w' w = false.
Proof.
  intros Hl. destruct l as [|e l]; [done|]. unfold min_by. destruct (min_by_foldl e l) as [Hm Hmin].
  destruct (foldl smaller e l) as [z wz]. exists z, wz. split; [done|]. split; [done|].
  intros y w' Hy. by apply (Hmin (y, w')).
Qed.
End MinBy.

Section LFUFacts.
Context {K V : Type} `{Countable K}.
Implicit Types (s : LFUCache K V) (m : Model K V).

(** The cache [s] is the model [m], whose stamps are distinct. *)
Record represents s m : Prop := {
  re_cap : cap s = m_cap m;
  re_vals : vals s = fst <$> m_items m;
  re_freq : freq s = (fun e => fst (snd e)) <$> m_items m;
  re_last : last s = (fun e => snd (snd e)) <$> m_items m;
  re_tick : tick s = m_t m;
  re_stamps : forall k e k' e', m_items m !! k = Some e -> m_items m !! k' = Some e' ->
    snd (snd e) = snd (snd e') -> k = k';
  re_past : map_Forall (fun _ e => snd (snd e) <= m_t m) (m_items m);
  re_size : Z.of_nat (size (m_items m)) <= Z.max 0 (m_cap m);
}.

Lemma represents_init c : represents (lfu_init c) (model_init c).
Proof.
  split; try (simpl; by rewrite ?fmap_empty).
  change (0 <= Z.max 0 c). lia.
Qed.

Lemma weight_of s m x v w :
  represents s m -> m_items m !! x = Some (v, w) -> weight s x = Ok (x, w).
Proof.
  intros Hr Hx. assert (Hf : freq s !! x = Some (fst w)) by (by rewrite (re_freq s m Hr), lookup_fmap, Hx).
  assert (Hl : last s !! x = Some (snd w)) by (by rewrite (re_last s m Hr), lookup_fmap, Hx).
  unfold weight. rewrite Hf. unfold mbind, res_bind. cbn. rewrite Hl. by destruct w.
Qed.

(** What [min] looks at, on both sides. *)
Lemma weights_of s m :
  represents s m -> exists ws, mapR (weight s) (map_to_list (vals s)).*1 = Ok ws /\
    forall x w, (x, w) ∈ ws <-> exists v, m_items m !! x = Some (v, w).
Proof.
  intros Hr.
  assert (Hkeys : forall x, x ∈ (map_to_list (vals s)).*1 <-> is_Some (m_items m !! x)).
  { intros x. rewrite (re_vals s m Hr). rewrite list_elem_of_fmap. split.
    - intros ([y v] & -> & Hy%elem_of_map_to_list). rewrite lookup_fmap in Hy.
      by apply fmap_Some in Hy as (e & He & _); exists e.
    - intros [e He]. exists (x, fst e). split; [done|]. apply elem_of_map_to_list. by rewrite lookup_fmap, He. }
  assert (Hw : forall l, (forall x, x ∈ l -> is_Some (m_items m !! x)) ->
    exists ws, mapR (weight s) l = Ok ws /\
      forall x w, (x, w) ∈ ws <-> x ∈ l /\ exists v, m_items m !! x = Some (v, w)).
  { induction l as [|x l IH]; intros Hl.
    - exists []. split; [done|]. intros x w. split; [by intros ?%not_elem_of_nil|by intros [?%not_elem_of_nil _]].
    - destruct (Hl x) as [[v w] Hx]; [constructor|]. destruct IH as (ws & Ews & Hws); [intros; apply Hl; by constructor|].
      exists ((x, w) :: ws). split.
      + cbn [mapR]. rewrite (weight_of s m x v w Hr Hx). unfold mbind, res_bind. by rewrite Ews.
      + intros y w'. rewrite !elem_of_cons, Hws. split.
        * intros [[= -> ->]|[Hy He]]; [split; [by left|by exists v]|split; [by right|done]].
        * intros [[->|Hy] [v' He]]; [left; by simplify_eq|right; split; [done|by exists v']]. }
  destruct (Hw (map_to_list (vals s)).*1) as (ws & Ews & Hws); [by intros x ?%Hkeys|].
  exists ws. split; [done|]. intros x w. rewrite Hws, Hkeys. split; [by intros [_ ?]|].
  intros [v He]. split; [by rewrite He|by exists v].
Qed.

(** The victim: fewer uses than any other key, or as many and not used since. *)
Lemma victim_spec s m :
  represents s m -> m_items m <> ∅ ->
  exists x, victim s = Ok x /\ model_victim m = Ok x /\ exists f l v, m_items m !! x = Some (v, (f, l)) /\
    forall y v' f' l', m_items m !! y = Some (v', (f', l')) -> y <> x -> f < f' \/ f = f' /\ l < l'.
Proof.
  intros Hr Hne. destruct (weights_of s m Hr) as (ws & Ews & Hws).
  assert (Hwn : ws <> []).
  { apply map_choose in Hne as (k & [v w] & Hk). intros ->.
    apply (not_elem_of_nil (k, w)), Hws. by exists v. }
  destruct (min_by_in ws Hwn) as (x & [f l] & Ex & Hin & Hmin). apply Hws in Hin as [v Hx].
  assert (Hstrict : forall y v' f' l', m_items m !! y = Some (v', (f', l')) -> y <> x -> f < f' \/ f = f' /\ l < l').
  { intros y v' f' l' Hy Hyx. specialize (Hmin y (f', l') ltac:(apply Hws; by exists v')).
    assert (l <> l') by (intros ->; by apply Hyx, (re_stamps s m Hr y _ x _ Hy Hx)).
    unfold lex_ltb in Hmin. cbn [fst snd] in Hmin.
    rewrite orb_false_iff, andb_false_iff, !Z.ltb_ge, Z.eqb_neq in Hmin. lia. }
  exists x. split; [unfold victim; unfold mbind, res_bind; by rewrite Ews|]. split.
  - apply (min_by_strict _ x (f, l)).
    + apply list_elem_of_fmap. exists (x, (v, (f, l))). split; [done|]. by apply elem_of_map_to_list.
    + intros y [f' l'] ([z [v' w']] & [= -> <-] & Hz%elem_of_map_to_list)%list_elem_of_fmap.
      destruct (decide (z = x)) as [->|Hzx]; [left; by simplify_eq|right].
      specialize (Hstrict _ _ _ _ Hz Hzx). unfold lex_ltb. cbn [fst snd].
      rewrite orb_true_iff, andb_true_iff, !Z.ltb_lt, Z.eqb_eq. lia.
  - by exists f, l, v.
Qed.

(** An entry that is used now: an old one, or a new one there is room for. *)
Lemma entry_represents s m k v uses :
  represents s m ->
  is_Some (m_items m !! k) \/ Z.of_nat (size (m_items m)) < m_cap m ->
  represents
    (MkLFU (cap s) (<[k := v]> (vals s)) (<[k := uses]> (freq s)) (<[k := tick s + 1]> (last s)) (tick s + 1))
    (MkModel (m_cap m) (<[k := (v, (uses, m_t m + 1))]> (m_items m)) (m_t m + 1)).
Proof.
  intros Hr Hk. split; cbn [cap vals freq last tick m_cap m_items m_t].
  - apply Hr.
  - by rewrite fmap_insert, (re_vals s m Hr).
  - by rewrite fmap_insert, (re_freq s m Hr).
  - by rewrite fmap_insert, (re_last s m Hr), (re_tick s m Hr).
  - by rewrite (re_tick s m Hr).
  - assert (Hpast : forall k1 e1, m_items m !! k1 = Some e1 -> snd (snd e1) <> m_t m + 1).
    { intros k1 e1 He. pose proof (re_past s m Hr k1 e1 He). simpl in *. lia. }
    intros k1 e1 k2 e2 [[<- <-]|[Hn1 H1]]%lookup_insert_Some [[<- <-]|[Hn2 H2]]%lookup_insert_Some E; [done|..].
    + cbn [snd] in E. by destruct (Hpast _ _ H2).
    + cbn [snd] in E. by destruct (Hpast _ _ H1).
    + by eapply (re_stamps s m Hr).
  - apply map_Forall_insert_2; [simpl; lia|]. eapply map_Forall_impl; [apply (re_past s m Hr)|].
    intros k1 e1 He. simpl in *. lia.
  - pose proof (re_size s m Hr). destruct Hk as [Hs|Hs].
    + by rewrite map_size_insert_Some.
    + rewrite map_size_insert. destruct (m_items m !! k); unfold id; lia.
Qed.

Lemma evict_represents s m x :
  represents s m ->
  represents (MkLFU (cap s) (delete x (vals s)) (delete x (freq s)) (delete x (last s)) (tick s))
    (MkModel (m_cap m) (delete x (m_items m)) (m_t m)).
Proof.
  intros Hr. split; cbn [cap vals freq last tick m_cap m_items m_t].
  - apply Hr.
  - by rewrite fmap_delete, (re_vals s m Hr).
  - by rewrite fmap_delete, (re_freq s m Hr).
  - by rewrite fmap_delete, (re_last s m Hr).
  - apply Hr.
  - intros k1 e1 k2 e2 [_ H1]%lookup_delete_Some [_ H2]%lookup_delete_Some. by apply (re_stamps s m Hr).
  - intros k1 e1 [_ H1]%lookup_delete_Some. by apply (re_past s m Hr k1 e1).
  - pose proof (re_size s m Hr). rewrite map_size_delete. destruct (m_items m !! x); unfold id; lia.
Qed.

Lemma lookup_vals s m k : represents s m -> vals s !! k = fst <$> m_items m !! k.
Proof. intros Hr. by rewrite (re_vals s m Hr), lookup_fmap. Qed.

(** A new entry there is room for. *)
Lemma insert_simulates s m k v :
  represents s m -> m_items m !! k = None -> Z.of_nat (size (m_items m)) < m_cap m ->
  let s1 := MkLFU (cap s) (<[k := v]> (vals s)) (freq s) (last s) (tick s) in
  let m1 := MkModel (m_cap m) (<[k := (v, (0, 0))]> (m_items m)) (m_t m) in
  fst (_touch k s1) = Ok tt /\ fst (_use k m1) = Ok tt /\
  represents (snd (_touch k s1)) (snd (_use k m1)).
Proof.
  intros Hr Hk Hroom s1 m1. unfold _touch, _use, modify, s1, m1. cbn [m_items cap vals freq last tick m_cap m_t fst snd].
  rewrite lookup_insert_eq. cbn [fst snd]. split; [done|]. split; [done|]. rewrite insert_insert_eq.
  assert (Hf : freq s !! k = None) by (by rewrite (re_freq s m Hr), lookup_fmap, Hk).
  rewrite Hf. apply entry_represents; [done|by right].
Qed.

Lemma put_simulates s m k v :
  represents s m ->
  fst (put k v s) = Ok tt /\ fst (model_put k v m) = Ok tt /\
  represents (snd (put k v s)) (snd (model_put k v m)).
Proof.
  intros Hr. unfold put, model_put, mbind, M_bind, gets, mret, M_ret. rewrite (re_cap s m Hr).
  destruct (m_cap m <=? 0) eqn:Hcap; [done|]. bool_to_prop. rewrite (lookup_vals s m k Hr).
  assert (Hsize : size (vals s) = size (m_items m)) by (by rewrite (re_vals s m Hr), map_size_fmap).
  rewrite Hsize. destruct (m_items m !! k) as [[v0 [uses stamp]]|] eqn:Hk.
  - cbn [fmap option_fmap option_map andb]. rewrite bool_decide_eq_false_2 by done. cbn [andb].
    unfold _touch, _use, modify. cbn [m_items cap vals freq last tick m_cap m_t fst snd].
    rewrite lookup_insert_eq. cbn [m_items m_cap m_t fst snd]. split; [done|]. split; [done|].
    rewrite insert_insert_eq. assert (Hf : freq s !! k = Some uses) by (by rewrite (re_freq s m Hr), lookup_fmap, Hk).
    rewrite Hf. cbn [default from_option id]. 
    apply entry_represents; [done|left; by rewrite Hk].
  - cbn [fmap option_fmap option_map]. rewrite bool_decide_eq_true_2 by done. cbn [andb].
    rewrite (re_cap s m Hr). destruct (m_cap m <=? Z.of_nat (size (m_items m))) eqn:Hfull; bool_to_prop.
    + assert (Hne : m_items m <> ∅) by (intros He; rewrite He, map_size_empty in Hfull; lia).
      destruct (victim_spec s m Hr Hne) as (x & Ev & Em & f & l & v0 & Hx & _).
      unfold modify. cbn beta iota. rewrite Ev, Em. cbn beta iota.
      pose proof (evict_represents s m x Hr) as Hr'.
      apply (insert_simulates _ _ k v Hr').
      * cbn [m_items]. apply lookup_delete_None. by right.
      * pose proof (re_size s m Hr). cbn [m_items m_cap]. rewrite map_size_delete_Some by done.
        assert (size (m_items m) <> 0%nat) by (by apply map_size_ne_0_lookup_2 with (i := x); rewrite Hx). lia.
    + unfold modify. by apply insert_simulates.
Qed.

(** A call answers as the model does, and keeps representing it. *)
Lemma call_simulates s m c :
  represents s m ->
  exists o, fst (lfu_call c s) = Ok o /\ fst (model_call c m) = Ok o /\
    represents (snd (lfu_call c s)) (snd (model_call c m)).
Proof.
  intros Hr. destruct c as [k|k v]; cbn [lfu_call model_call].
  - unfold get, model_get, mbind, M_bind, gets. rewrite (lookup_vals s m k Hr).
    destruct (m_items m !! k) as [[v [uses stamp]]|] eqn:Hk; simpl; [|by exists None].
    unfold _touch, modify, _use. rewrite Hk. cbn [fst snd vals m_items].
    rewrite (lookup_vals s m k Hr), Hk, lookup_insert_eq. exists (Some v). split; [done|]. split; [done|].
    assert (Hf : freq s !! k = Some uses) by (by rewrite (re_freq s m Hr), lookup_fmap, Hk).
    rewrite Hf. cbn [default from_option id].
    assert (Hv : vals s = <[k := v]> (vals s)).
    { symmetry. apply insert_id. by rewrite (lookup_vals s m k Hr), Hk. }
    rewrite Hv at 1. apply entry_represents; [done|]. left. by rewrite Hk.
  - destruct (put_simulates s m k v Hr) as (H1 & H2 & H3). exists None.
    unfold mbind, M_bind. destruct (put k v s) as [r s'], (model_put k v m) as [r' m']. cbn [fst snd] in *.
    by rewrite H1, H2.
Qed.

(** The state after a history of calls. *)
Definition after {S} (call : cache_call K V -> M S (option V)) (cs : list (cache_call K V)) (x : S) : S :=
  foldl (fun x c => snd (call c x)) x cs.

Lemma call_cap s c : cap (snd (lfu_call c s)) = cap s.
Proof.
  destruct c as [k|k v]; cbn [lfu_call]; unfold get, put, _touch, mbind, M_bind, gets, mret, M_ret, modify.
  - by destruct (vals s !! k).
  - destruct (cap s <=? 0); [done|]. destruct (_ && _); [|done]. by destruct (victim s).
Qed.

Lemma after_cap s cs : cap (after lfu_call cs s) = cap s.
Proof.
  revert s. induction cs as [|c cs IH]; intros s; [done|]. unfold after in *. cbn [foldl].
  by rewrite IH, call_cap.
Qed.

Lemma calls_simulate cs s m :
  represents s m ->
  outputs lfu_call cs s = outputs model_call cs m /\
  Forall (fun r => exists o, r = Ok o) (outputs lfu_call cs s) /\
  represents (after lfu_call cs s) (after model_call cs m).
Proof.
  revert s m. induction cs as [|c cs IH]; intros s m Hr.
  { split; [done|]. split; [apply Forall_nil_2|done]. }
  destruct (call_simulates s m c Hr) as (o & E1 & E2 & Hr'). unfold after. cbn [outputs foldl].
  destruct (lfu_call c s) as [r s'], (model_call c m) as [r' m']. cbn [fst snd] in *. subst.
  destruct (IH s' m' Hr') as (H1 & H2 & H3). split; [by rewrite H1|]. split; [|done].
  constructor; [by exists o|done].
Qed.

(** C37: the cache implements its model.  On every history of calls it answers
    as the one-table model of the task's test does, raises nothing and never
    holds more than its capacity; and the key it would evict next is the one
    with fewer uses than every other, or with as many and its last use
    earlier, so that the order of the dict does not matter. *)
Theorem lfu_implements_model capacity cs :
  outputs lfu_call cs (lfu_init (K := K) (V := V) capacity) = outputs model_call cs (model_init capacity) /\
  Forall (fun r => exists o, r = Ok o) (outputs lfu_call cs (lfu_init (K := K) (V := V) capacity)) /\
  let s := after lfu_call cs (lfu_init capacity) in
  Z.of_nat (size (vals s)) <= Z.max 0 capacity /\
  (vals s <> ∅ -> exists x fx lx, victim s = Ok x /\ is_Some (vals s !! x) /\
     freq s !! x = Some fx /\ last s !! x = Some lx /\
     forall y, is_Some (vals s !! y) -> y <> x -> exists fy ly,
       freq s !! y = Some fy /\ last s !! y = Some ly /\ (fx < fy \/ fx = fy /\ lx < ly)).
Proof.
  destruct (calls_simulate cs _ _ (represents_init capacity)) as (Ho & Hok & Hr).
  split; [done|]. split; [done|]. set (s := after lfu_call cs _) in *. set (m := after model_call cs _) in *.
  assert (Hcap : m_cap m = capacity).
  { rewrite <- (re_cap s m Hr). apply (after_cap (lfu_init capacity) cs). }
  split.
  - rewrite (re_vals s m Hr), map_size_fmap, <- Hcap. apply Hr.
  - intros Hne. destruct (victim_spec s m Hr) as (x & Ev & _ & f & l & v & Hx & Hmin).
    { intros He. apply Hne. by rewrite (re_vals s m Hr), He, fmap_empty. }
    assert (Hlook : forall y v' f' l', m_items m !! y = Some (v', (f', l')) ->
      is_Some (vals s !! y) /\ freq s !! y = Some f' /\ last s !! y = Some l').
    { intros y v' f' l' Hy. by rewrite (re_vals s m Hr), (re_freq s m Hr), (re_last s m Hr), !lookup_fmap, Hy. }
    exists x, f, l. destruct (Hlook x v f l Hx) as (H1 & H2 & H3). split_and!; [done..|].
    intros y [vy Hy] Hyx. rewrite (lookup_vals s m y Hr) in Hy.
    apply fmap_Some in Hy as ([v' [f' l']] & Hy & _). destruct (Hlook y v' f' l' Hy) as (_ & H4 & H5).
    exists f', l'. split; [done|]. split; [done|]. by eapply Hmin.
Qed.
End LFUFacts.
