(* ===== verification/Codecs.v ===== *)
(** Reference solutions of the evaluation challenges that encode and decode
    text: [C01_rle_chunked] and [C09_convert_base], with their round trips. *)

From S2P Require Import Prelude PyString PyDecimal Json Env Argparse.

(** ** C01: run lengths in one digit *)

(** [c.isdigit()]: the digits and the superscripts of Latin-1 *)
Definition isdigit (c : ascii) : bool :=
  is_digit c || bool_decide (N_of_ascii c ∈ [178; 179; 185]%N).

Definition digit_char (k : nat) : ascii := ascii_of_nat (48 + k).

(** One run: [while n > 0] *)
Fixpoint chunks (c : ascii) (n fuel : nat) : list ascii :=
  match fuel, n with
  | S fuel', S _ =>
      let k := Nat.min n 9 in
      c :: (if (1 <? k)%nat then [digit_char k] else []) ++ chunks c (n - k) fuel'
  | _, _ => []
  end.

(** The run [s] starts with: its length [j - i] and what follows. *)
Fixpoint span_run (c : ascii) (s : list ascii) : nat * list ascii :=
  match s with
  | d :: s' => if Ascii.eqb d c then let '(n, r) := span_run c s' in (S n, r) else (0%nat, s)
  | [] => (0%nat, [])
  end.

Fixpoint encode_runs (fuel : nat) (s : list ascii) : list ascii :=
  match fuel, s with
  | S fuel', c :: s' =>
      let '(n, r) := span_run c s' in chunks c (S n) (S n) ++ encode_runs fuel' r
  | _, _ => []
  end.

(** [encode]: a turn of its loop takes a run, a turn of the inner one a chunk. *)
Definition encode (s : string) : string :=
  let l := str_to_list s in str_of_list (encode_runs (length l) l).

(** [c * int(t[i])]: [int] refuses the superscripts. *)
Fixpoint decode_list (t : list ascii) : res (list ascii) :=
  match t with
  | [] => Ok []
  | c :: t' =>
      match t' with
      | d :: t'' =>
          if isdigit d then
            n ← of_option ValueError (digit_val d);
            rest ← decode_list t''; Ok (replicate (Z.to_nat n) c ++ rest)
          else rest ← decode_list t'; Ok (c :: rest)
      | [] => Ok [c]
      end
  end.

Definition decode (t : string) : res string :=
  l ← decode_list (str_to_list t); Ok (str_of_list l).

Definition repeat_str (c : ascii) (n : nat) : string := str_of_list (replicate n c).

(** The task's own test *)
Example rle_test :
  encode "" = "" /\ decode "" = Ok "" /\ encode "aaabcc" = "a3bc2" /\
  encode (repeat_str "a" 12) = "a9a3" /\ encode (repeat_str "a" 10) = "a9a" /\
  encode (repeat_str "a" 9) = "a9" /\ encode (repeat_str "a" 19) = "a9a9a" /\ encode "ab" = "ab" /\
  decode "a9a3" = Ok (repeat_str "a" 12) /\ decode "a9ab" = Ok (repeat_str "a" 10 +:+ "b").
Proof. vm_compute. split_and!; reflexivity. Qed.

(** ** C09: bases *)
Definition DIGITS : list ascii := str_to_list "0123456789abcdefghijklmnopqrstuvwxyz".

(** [DIGITS.find(c)]; [None] is -1 *)
Fixpoint find_digit (c : ascii) (ds : list ascii) (i : Z) : option Z :=
  match ds with
  | [] => None
  | d :: ds' => if Ascii.eqb c d then Some i else find_digit c ds' (i + 1)
  end.

Fixpoint read_digits (base : Z) (cs : list ascii) (value : Z) : res Z :=
  match cs with
  | [] => Ok value
  | c :: cs' =>
      match find_digit c DIGITS 0 with
      | Some d => if base <=? d then Raise ValueError else read_digits base cs' (value * base + d)
      | None => Raise ValueError
      end
  end.

(** [while value]; [reversed(out)] is the accumulator. *)
Fixpoint write_digits (fuel : nat) (base value : Z) (out : list ascii) : list ascii :=
  match fuel with
  | O => out
  | S fuel' =>
      if value =? 0 then out
      else write_digits fuel' base (value / base) (nth (Z.to_nat (value mod base)) DIGITS "0"%char :: out)
  end.

(** A turn divides the value by two or more. *)
Definition digits_fuel (value : Z) : nat := S (Z.to_nat (Z.log2 value)).

Definition valid_base (b : Z) : bool := (2 <=? b) && (b <=? 36).

Definition convert (s : string) (from_base to_base : Z) : res string :=
  if negb (valid_base from_base && valid_base to_base) then Raise ValueError
  else
    let neg := startswith "-" s in
    let body := if neg then drop 1 (str_to_list s) else str_to_list s in
    if bool_decide (body = []) then Raise ValueError
    else
      value ← read_digits from_base (lower_char <$> body) 0;
      if value =? 0 then Ok "0"
      else Ok (str_of_list ((if neg then ["-"%char] else []) ++ write_digits (digits_fuel value) to_base value [])).

Example convert_test :
  convert "ff" 16 2 = Ok "11111111" /\ convert "FF" 16 10 = Ok "255" /\ convert "-255" 10 16 = Ok "-ff" /\
  convert "0" 2 10 = Ok "0" /\ convert "-0" 10 2 = Ok "0" /\ convert "000" 10 7 = Ok "0" /\
  convert "z" 36 10 = Ok "35" /\ convert "0012" 10 10 = Ok "12" /\ convert "10" 2 36 = Ok "2" /\
  (fun e => convert (fst (fst e)) (snd (fst e)) (snd e)) <$>
    [("", 10, 2); ("-", 10, 2); ("2", 2, 10); ("1_0", 10, 2); (" 10", 10, 2); ("10 ", 10, 2); ("+1", 10, 2);
     ("1.0", 10, 2); ("g", 16, 10); ("--1", 10, 2); ("1", 1, 10); ("1", 10, 37)]
    = replicate 12 (Raise ValueError).
Proof. vm_compute. split_and!; reflexivity. Qed.

(** [to_base] of the task's test *)
Definition to_base (n b : Z) : string :=
  if n =? 0 then "0"
  else str_of_list ((if n <? 0 then ["-"%char] else []) ++ write_digits (digits_fuel (Z.abs n)) b (Z.abs n) []).

(** ** Facts: run lengths *)
Definition no_digit_first (t : list ascii) : Prop := forall d t', t = d :: t' -> isdigit d = false.

Lemma decode_single c t : no_digit_first t -> decode_list (c :: t) = l ← decode_list t; Ok (c :: l).
Proof. intros Ht. destruct t as [|d t]; [done|]. cbn [decode_list]. by rewrite (Ht d t). Qed.

Lemma digit_char_spec k : (k <= 9)%nat -> isdigit (digit_char k) = true /\ digit_val (digit_char k) = Some (Z.of_nat k).
Proof. intros Hk. do 10 (destruct k as [|k]; [by split|]). lia. Qed.

Lemma decode_pair c k t :
  (k <= 9)%nat -> decode_list (c :: digit_char k :: t) = l ← decode_list t; Ok (replicate k c ++ l).
Proof.
  intros Hk. destruct (digit_char_spec k Hk) as [Hd Hv]. cbn [decode_list]. rewrite Hd, Hv. cbn [of_option].
  unfold mbind, res_bind. by rewrite Nat2Z.id.
Qed.

Lemma chunks_decode c n fuel t :
  (n <= fuel)%nat -> no_digit_first t ->
  decode_list (chunks c n fuel ++ t) = l ← decode_list t; Ok (replicate n c ++ l).
Proof.
  revert n. induction fuel as [|fuel IH]; intros n Hn Ht.
  - assert (n = 0%nat) as -> by lia. simpl. by destruct (decode_list t).
  - destruct n as [|n]; [simpl; by destruct (decode_list t)|]. cbn [chunks app].
    destruct (decide (n = 0%nat)) as [->|Hz].
    + simpl. destruct fuel; by apply decode_single.
    + assert (E : (1 <? Nat.min (S n) 9)%nat = true) by (apply Nat.ltb_lt; lia). rewrite E. cbn [app].
      rewrite decode_pair, IH by (done || lia). unfold mbind, res_bind. destruct (decode_list t) as [l|]; [|done].
      rewrite app_assoc, <- replicate_add. do 3 f_equal. lia.
Qed.

Lemma span_run_spec c s n r :
  span_run c s = (n, r) -> s = replicate n c ++ r /\ (length r <= length s)%nat.
Proof.
  revert n. induction s as [|d s IH]; intros n; simpl; [by intros [= <- <-]|].
  destruct (Ascii.eqb d c) eqn:E; [|intros [= <- <-]; simpl; split; [done|lia]].
  apply Ascii.eqb_eq in E as ->. destruct (span_run c s) as [n' r'] eqn:Es. intros [= <- <-].
  destruct (IH n' eq_refl) as [-> Hl]. simpl. split; [done|]. rewrite length_app in *. lia.
Qed.

Lemma encode_runs_head fuel s : Forall (fun c => isdigit c = false) s -> no_digit_first (encode_runs fuel s).
Proof.
  intros Hs d t' E. destruct fuel as [|fuel]; [done|]. destruct s as [|c s]; [done|]. cbn [encode_runs] in E.
  destruct (span_run c s). cbn [chunks app] in E. injection E as <- _. by inversion Hs.
Qed.

Lemma encode_runs_decode fuel s :
  (length s <= fuel)%nat -> Forall (fun c => isdigit c = false) s ->
  decode_list (encode_runs fuel s) = Ok s.
Proof.
  revert s. induction fuel as [|fuel IH]; intros s Hf Hs; [destruct s; [done|simpl in Hf; lia]|].
  destruct s as [|c s]; [done|]. cbn [encode_runs]. destruct (span_run c s) as [n r] eqn:E.
  apply span_run_spec in E as [-> Hl]. apply Forall_cons in Hs as [_ Hs]. apply Forall_app in Hs as [_ Hr].
  simpl in Hf. rewrite chunks_decode by (done || by apply encode_runs_head).
  rewrite IH; [done| |done]. lia.
Qed.

Lemma chunks_length c n fuel : (length (chunks c n fuel) <= 2 * n)%nat.
Proof.
  revert n. induction fuel as [|fuel IH]; intros n; [simpl; lia|]. destruct n as [|n]; [done|]. cbn [chunks].
  rewrite length_cons, length_app. specialize (IH (S n - Nat.min (S n) 9)%nat).
  destruct (1 <? Nat.min (S n) 9)%nat eqn:E; [apply Nat.ltb_lt in E|apply Nat.ltb_ge in E]; cbn [length]; lia.
Qed.

Lemma encode_runs_length fuel s : (length (encode_runs fuel s) <= 2 * length s)%nat.
Proof.
  revert s. induction fuel as [|fuel IH]; intros s; [simpl; lia|]. destruct s as [|c s]; [done|]. cbn [encode_runs].
  destruct (span_run c s) as [n r] eqn:E. apply span_run_spec in E as [-> _]. rewrite length_app.
  pose proof (chunks_length c (S n) (S n)). specialize (IH r). cbn [length]. rewrite length_app, length_replicate. lia.
Qed.

(** Decoding a text without digits encoded gives it back, and the code is at
    most twice as long. *)
Lemma decode_encode s :
  Forall (fun c => isdigit c = false) (str_to_list s) ->
  decode (encode s) = Ok s /\ (String.length (encode s) <= 2 * String.length s)%nat.
Proof.
  intros Hs. unfold decode, encode. rewrite str_to_of_list, encode_runs_decode by done.
  cbn. rewrite str_of_to_list. split; [done|].
  assert (Hl : forall x, String.length x = length (str_to_list x)) by (induction x; simpl; congruence).
  rewrite !Hl, str_to_of_list. apply encode_runs_length.
Qed.

(** ** Facts: bases *)
Lemma find_digit_nth d : 0 <= d < 36 ->
  let c := nth (Z.to_nat d) DIGITS "0"%char in
  find_digit c DIGITS 0 = Some d /\ lower_char c = c /\ c <> "-"%char.
Proof.
  intros Hd. assert (Hin : d ∈ seqZ 0 36) by (apply elem_of_seqZ; lia). clear Hd. revert d Hin. cbv zeta.
  apply Forall_forall, (bool_decide_unpack _). by_vm.
Qed.

Lemma read_digits_app base k l v :
  read_digits base (k ++ l) v = w ← read_digits base k v; read_digits base l w.
Proof.
  revert v. induction k as [|c k IH]; intros v; [done|]. cbn [app read_digits].
  destruct (find_digit c DIGITS 0); [|done]. destruct (_ <=? _); [done|apply IH].
Qed.

(** What is written reads back, in lower-case digits. *)
Lemma write_digits_spec fuel base v out :
  2 <= base <= 36 -> 0 <= v < 2 ^ Z.of_nat fuel ->
  exists l, write_digits fuel base v out = l ++ out /\
    (forall w, read_digits base l w = Ok (w * base ^ Z.of_nat (length l) + v)) /\
    Forall (fun c => lower_char c = c /\ c <> "-"%char) l /\ (v <> 0 -> l <> []).
Proof.
  intros Hb. revert v out. induction fuel as [|fuel IH]; intros v out Hv.
  - exists []. split; [done|]. change (2 ^ Z.of_nat 0) with 1 in Hv.
    split; [intros w; simpl; f_equal; lia|]. split; [constructor|lia].
  - cbn [write_digits]. destruct (v =? 0) eqn:E; bool_to_prop.
    + exists []. split; [done|]. split; [intros w; simpl; f_equal; lia|]. split; [constructor|lia].
    + rewrite Nat2Z.inj_succ, Z.pow_succ_r in Hv by lia.
      set (d := nth (Z.to_nat (v mod base)) DIGITS "0"%char).
      assert (Hm : 0 <= v mod base < base) by (apply Z.mod_pos_bound; lia).
      destruct (find_digit_nth (v mod base) ltac:(lia)) as (Hf & Hd). fold d in Hf, Hd.
      destruct (IH (v / base) (d :: out)) as (l & El & Hr & Hl & _).
      { split; [apply Z.div_pos; lia|]. apply Z.div_lt_upper_bound; [lia|]. nia. }
      exists (l ++ [d]). rewrite El, <- app_assoc. split; [done|].
      split; [|split; [apply Forall_app; split; [done|by constructor]|by destruct l]].
      intros w. rewrite read_digits_app, Hr. unfold mbind, res_bind. cbn [read_digits]. rewrite Hf.
      replace (base <=? v mod base) with false by (symmetry; apply Z.leb_gt; lia). f_equal.
      rewrite length_app, Nat2Z.inj_add, Z.pow_add_r by lia. change (base ^ Z.of_nat (length [d])) with (base ^ 1).
      rewrite Z.pow_1_r. rewrite (Z.div_mod v base) at 3 by lia. ring.
Qed.

Lemma digits_fuel_enough v : 0 <= v -> v < 2 ^ Z.of_nat (digits_fuel v).
Proof.
  intros Hv. unfold digits_fuel. rewrite Nat2Z.inj_succ, Z2Nat.id by apply Z.log2_nonneg.
  destruct (decide (v = 0)) as [->|Hn]; [done|]. apply Z.log2_spec. lia.
Qed.

Lemma valid_base_spec b : 2 <= b <= 36 -> valid_base b = true.
Proof. unfold valid_base. intros. apply andb_true_iff. rewrite !Z.leb_le. lia. Qed.

Lemma lower_id l : Forall (fun c => lower_char c = c /\ c <> "-"%char) l -> lower_char <$> l = l.
Proof. induction 1 as [|c l [Hc _] _ IH]; [done|]. cbn [fmap list_fmap]. f_equal; [done|exact IH]. Qed.

Lemma Ok_inj {A} (x y : A) : Ok x = Ok y -> x = y.
Proof. congruence. Qed.

(** What [convert] does with a sign and lower-case digits. *)
Lemma convert_body (neg : bool) l a b :
  Forall (fun c => lower_char c = c /\ c <> "-"%char) l -> l <> [] -> 2 <= a <= 36 -> 2 <= b <= 36 ->
  convert (str_of_list ((if neg then ["-"%char] else []) ++ l)) a b =
  v ← read_digits a l 0;
  if v =? 0 then Ok "0"
  else Ok (str_of_list ((if neg then ["-"%char] else []) ++ write_digits (digits_fuel v) b v [])).
Proof.
  intros Hl Hne Ha Hb. unfold convert. rewrite !valid_base_spec by done. cbn [andb negb].
  assert (Hs : startswith "-" (str_of_list ((if neg then ["-"%char] else []) ++ l)) = neg).
  { rewrite startswith_hyphen, str_to_of_list. destruct neg; [done|]. destruct Hl as [|c l [_ Hc] _]; [done|].
    by apply bool_decide_eq_false_2. }
  rewrite Hs, str_to_of_list.
  assert (Eb : (if neg then drop 1 ((if neg then ["-"%char] else []) ++ l)
                else (if neg then ["-"%char] else []) ++ l) = l) by (by destruct neg).
  rewrite Eb, bool_decide_eq_false_2 by done. by rewrite lower_id.
Qed.

Lemma to_base_eq (neg : bool) v b :
  0 <= v -> (v = 0 -> neg = false) ->
  to_base (if neg then - v else v) b =
  if v =? 0 then "0" else str_of_list ((if neg then ["-"%char] else []) ++ write_digits (digits_fuel v) b v []).
Proof.
  intros Hv Hz. unfold to_base. destruct (v =? 0) eqn:E; bool_to_prop; [subst v; by rewrite Hz|].
  destruct neg.
  - rewrite (proj2 (Z.eqb_neq (- v) 0)), (proj2 (Z.ltb_lt (- v) 0)), Z.abs_opp, Z.abs_eq by lia. done.
  - rewrite (proj2 (Z.eqb_neq v 0)), (proj2 (Z.ltb_ge v 0)), Z.abs_eq by lia. done.
Qed.

(** The text of an integer converts to its text in the other base. *)
Lemma convert_to_base n a b :
  2 <= a <= 36 -> 2 <= b <= 36 -> convert (to_base n a) a b = Ok (to_base n b).
Proof.
  intros Ha Hb.
  assert (En : n = if n <? 0 then - Z.abs n else Z.abs n) by (destruct (n <? 0) eqn:E; bool_to_prop; lia).
  assert (Hz : Z.abs n = 0 -> (n <? 0) = false) by (intros; apply Z.ltb_ge; lia).
  rewrite En, !to_base_eq by (done || lia). destruct (Z.abs n =? 0) eqn:E; bool_to_prop.
  { etrans; [apply (convert_body false ["0"%char] a b); [by repeat constructor|done..]|].
    cbn [read_digits]. change (find_digit "0" DIGITS 0) with (Some 0). cbv beta iota.
    replace (a <=? 0) with false by (symmetry; apply Z.leb_gt; lia). done. }
  destruct (write_digits_spec (digits_fuel (Z.abs n)) a (Z.abs n) [] Ha) as (l & El & Hread & Hlow & Hne).
  { split; [lia|]. apply digits_fuel_enough. lia. }
  rewrite El, app_nil_r, convert_body, Hread by auto. unfold mbind, res_bind.
  rewrite Z.mul_0_l, Z.add_0_l. by rewrite (proj2 (Z.eqb_neq (Z.abs n) 0)).
Qed.

Lemma read_digits_nonneg a l v w : 0 <= v -> 0 <= a -> read_digits a l v = Ok w -> 0 <= w.
Proof.
  revert v. induction l as [|c l IH]; intros v Hv Ha; cbn [read_digits]; [by intros [= <-]|].
  assert (Hf : forall d, find_digit c DIGITS 0 = Some d -> 0 <= d).
  { assert (H : forall ds i d, 0 <= i -> find_digit c ds i = Some d -> 0 <= d).
    { induction ds as [|x ds IHd]; intros i d Hi; simpl; [done|]. destruct (Ascii.eqb c x); [by intros [= <-]|].
      apply IHd. lia. }
    intros d. by apply H. }
  destruct (find_digit c DIGITS 0) as [d|]; [|done]. specialize (Hf d eq_refl).
  destruct (a <=? d); [done|]. apply IH; [nia|done].
Qed.

(** Conversion is exact, at any size.  The text of any integer in any base
    from 2 to 36, converted to any other, is its text there; whatever else is
    accepted is written as the canonical text of the number it stands for; and
    nothing is accepted in a base out of this range. *)
Theorem convert_exact a b :
  (2 <= a <= 36 -> 2 <= b <= 36 -> forall n, convert (to_base n a) a b = Ok (to_base n b)) /\
  (forall s r, convert s a b = Ok r ->
     2 <= a <= 36 /\ 2 <= b <= 36 /\
     exists n, r = to_base n b /\ forall b', 2 <= b' <= 36 -> convert s a b' = Ok (to_base n b')).
Proof.
  split; [by intros; apply convert_to_base|]. intros s r. unfold convert at 1.
  destruct (valid_base a) eqn:Ha; [|done]. destruct (valid_base b) eqn:Hb; [|done]. unfold valid_base in Ha, Hb.
  bool_to_prop. cbn [andb negb].
  set (neg := startswith "-" s). set (body := if neg then _ else _).
  destruct (bool_decide (body = [])) eqn:Hbody; [done|].
  destruct (read_digits a (lower_char <$> body) 0) as [v|] eqn:Ev; [|done].
  assert (Hv : 0 <= v) by (eapply (read_digits_nonneg a _ 0); [done|lia|exact Ev]).
  assert (Htext : forall b', (if v =? 0 then Ok "0"
      else Ok (str_of_list ((if neg then ["-"%char] else []) ++ write_digits (digits_fuel v) b' v []))) =
    Ok (to_base (if neg && negb (v =? 0) then - v else v) b')).
  { intros b'. rewrite to_base_eq; [|done|intros ->; by rewrite andb_false_r].
    destruct (v =? 0); [done|]. by rewrite andb_true_r. }
  unfold mbind, res_bind. rewrite Htext. intros E. apply Ok_inj in E as <-.
  split; [lia|]. split; [lia|]. eexists. split; [reflexivity|]. intros b' Hb'.
  unfold convert. rewrite !valid_base_spec by lia. cbn [andb negb]. fold neg. fold body.
  rewrite Hbody, Ev. apply Htext.
Qed.
