(* ===== verification/TextTasks.v ===== *)
(** Reference solutions of the evaluation challenges on text:
    [C02_semver_sort], [C03_nth_weekday], [C04_wrap_text], [C08_get_path]. *)

From S2P Require Import Prelude PyString PyDecimal Json Env Codecs.

(** ** Words and fields *)

(** [s.split()] *)
Fixpoint split_words (word : list ascii) (l : list ascii) : list string :=
  let flush rest := match word with [] => rest | _ => str_of_list (reverse word) :: rest end in
  match l with
  | [] => flush []
  | c :: l' => if is_space c then flush (split_words [] l') else split_words (c :: word) l'
  end.
Definition split (s : string) : list string := split_words [] (str_to_list s).

(** [s.split(sep)] *)
Fixpoint split_on (sep : ascii) (s : string) : list string :=
  match s with
  | EmptyString => [EmptyString]
  | String c s' =>
      if Ascii.eqb c sep then EmptyString :: split_on sep s'
      else match split_on sep s' with w :: ws => String c w :: ws | [] => [String c EmptyString] end
  end.

(** [s.partition(sep)] without the separator *)
Definition partition (sep : ascii) (s : string) : string * string := default (s, EmptyString) (partition_at sep s).

(** ** C04: greedy wrapping *)
Section Wrap.
Context (width : nat).

(** [while len(w) > width] *)
Fixpoint break_word (fuel : nat) (lines : list string) (w : list ascii) : list string * list ascii :=
  match fuel with
  | O => (lines, w)
  | S fuel' =>
      if (width <? length w)%nat then break_word fuel' (lines ++ [str_of_list (take width w)]) (drop width w)
      else (lines, w)
  end.

Definition add_word (st : list string * string) (w : string) : list string * string :=
  let '(lines, cur) := st in
  if (width <? String.length w)%nat then
    let lines := if bool_decide (cur = "") then lines else lines ++ [cur] in
    let '(lines, rest) := break_word (String.length w) lines (str_to_list w) in (lines, str_of_list rest)
  else if bool_decide (cur = "") then (lines, w)
  else if (String.length cur + 1 + String.length w <=? width)%nat then (lines, cur +:+ " " +:+ w)
  else (lines ++ [cur], w).

Definition wrap_text (text : string) : list string :=
  let '(lines, cur) := foldl add_word ([], "") (split text) in
  if bool_decide (cur = "") then lines else lines ++ [cur].
End Wrap.

Example wrap_test :
  wrap_text 10 "the quick brown fox" = ["the quick"; "brown fox"] /\ wrap_text 1 "a b c" = ["a"; "b"; "c"] /\
  wrap_text 5 "supercalifragilistic" = ["super"; "calif"; "ragil"; "istic"] /\
  wrap_text 6 "hi supercalifragilistic yo" = ["hi"; "superc"; "alifra"; "gilist"; "ic yo"] /\
  wrap_text 5 "" = [] /\ wrap_text 5 ("   " +:+ chr 10 +:+ " ") = [] /\
  wrap_text 7 "  spaced   out  " = ["spaced"; "out"] /\ wrap_text 5 "ab cd" = ["ab cd"] /\
  wrap_text 4 "ab cd" = ["ab"; "cd"] /\ wrap_text 3 "abcdef gh" = ["abc"; "def"; "gh"] /\
  wrap_text 3 "abcdefg h" = ["abc"; "def"; "g h"].
Proof. vm_compute. split_and!; reflexivity. Qed.

(** ** C02: versions in order *)

(** An identifier of a pre-release, as the tuple it is compared by. *)
Inductive ident := Numeric (n : Z) | Alpha (s : string).

Definition ident_leb (x y : ident) : bool :=
  match x, y with
  | Numeric a, Numeric b => a <=? b
  | Numeric _, Alpha _ => true
  | Alpha _, Numeric _ => false
  | Alpha a, Alpha b => str_leb a b
  end.

(** [x <= y] of tuples *)
Fixpoint lex_leb {A} (leb : A -> A -> bool) (x y : list A) : bool :=
  match x, y with
  | [], _ => true
  | _ :: _, [] => false
  | a :: x', b :: y' => if leb a b then if leb b a then lex_leb leb x' y' else true else false
  end.

Record version := Version { ve_nums : list Z; ve_release : bool; ve_ids : list ident }.

Definition version_leb (x y : version) : bool :=
  let nums_le := lex_leb Z.leb (ve_nums x) (ve_nums y) in
  let nums_ge := lex_leb Z.leb (ve_nums y) (ve_nums x) in
  if nums_le && nums_ge then
    match ve_release x, ve_release y with
    | false, true => true
    | true, false => false
    | _, _ => lex_leb ident_leb (ve_ids x) (ve_ids y)
    end
  else nums_le.

Definition to_int (s : string) : res Z := of_option ValueError (parse_int (str_to_list s)).

(** [p.isdigit()] of a string *)
Definition isdigit_str (s : string) : bool := bool_decide (s <> "") && forallb isdigit (str_to_list s).

Definition _key (v : string) : res version :=
  let v := fst (partition "+" v) in
  let '(core, pre) := partition "-" v in
  nums ← mapR to_int (split_on "." core);
  if bool_decide (pre = "") then Ok (Version nums true [])
  else
    ids ← mapR (fun p => if isdigit_str p then n ← to_int p; mret (Numeric n) else mret (Alpha p)) (split_on "." pre);
    Ok (Version nums false ids).

(** [sorted(versions, key=_key)] *)
Definition sort_versions (versions : list string) : res (list string) :=
  keyed ← mapR (fun v => k ← _key v; mret (k, v)) versions;
  Ok (sort_by (fun x y => version_leb (fst x) (fst y)) keyed).*2.

Example semver_test :
  sort_versions ["1.0.0"; "1.0.0-rc.1"; "1.0.0-beta.11"; "1.0.0-beta.2"; "1.0.0-beta"; "1.0.0-alpha.beta";
                 "1.0.0-alpha.1"; "1.0.0-alpha"] =
    Ok ["1.0.0-alpha"; "1.0.0-alpha.1"; "1.0.0-alpha.beta"; "1.0.0-beta"; "1.0.0-beta.2"; "1.0.0-beta.11";
        "1.0.0-rc.1"; "1.0.0"] /\
  sort_versions ["1.10.0"; "1.9.0"; "1.2.10"; "1.2.9"] = Ok ["1.2.9"; "1.2.10"; "1.9.0"; "1.10.0"] /\
  sort_versions ["1.0.0+b"; "1.0.0+a"; "1.0.0"] = Ok ["1.0.0+b"; "1.0.0+a"; "1.0.0"] /\
  sort_versions ["2.0.0"; "1.9.9+zzz"; "1.9.9-rc.1+abc"] = Ok ["1.9.9-rc.1+abc"; "1.9.9+zzz"; "2.0.0"] /\
  sort_versions ["1.0.0-1"; "1.0.0-a"] = Ok ["1.0.0-1"; "1.0.0-a"] /\ sort_versions [] = Ok [].
Proof. vm_compute. split_and!; reflexivity. Qed.

(** ** C03: the n-th weekday of a month *)

(** [datetime.date]'s calendar: ordinals from 1 January of year 1, a Monday *)
Definition is_leap (y : Z) : bool :=
  (y mod 4 =? 0) && (negb (y mod 100 =? 0) || (y mod 400 =? 0)).
Definition days_before_year (y : Z) : Z := (y - 1) * 365 + (y - 1) / 4 - (y - 1) / 100 + (y - 1) / 400.
Definition days_in_month (y m : Z) : Z :=
  if m =? 2 then if is_leap y then 29 else 28
  else if bool_decide (m ∈ [4; 6; 9; 11]) then 30 else 31.
Definition days_before_month (y m : Z) : Z :=
  foldr Z.add 0 (days_in_month y <$> seqZ 1 (m - 1)).
Definition ordinal (y m d : Z) : Z := days_before_year y + days_before_month y m + d.
Definition weekday_of (y m d : Z) : Z := (ordinal y m d + 6) mod 7.

(** [f"{n:0w}"] of a number that is not negative *)
Definition zero_pad (w : nat) (n : Z) : string :=
  let s := string_of_Z n in str_of_list (replicate (w - String.length s) "0"%char) +:+ s.
Definition isoformat (y m d : Z) : string :=
  zero_pad 4 y +:+ "-" +:+ zero_pad 2 m +:+ "-" +:+ zero_pad 2 d.

Definition weekday_days (year month weekday : Z) : list Z :=
  filter (fun d => weekday_of year month d = weekday) (seqZ 1 (days_in_month year month)).

(** Months out of 1..12 and years out of 1..9999 are refused by [calendar] and
    [datetime]; [days[n]] counts from the end for a negative [n]. *)
Definition nth_weekday (year month n weekday : Z) : res string :=
  if negb ((1 <=? month) && (month <=? 12) && (1 <=? year) && (year <=? 9999)) then Raise ValueError
  else
    let days := weekday_days year month weekday in
    let len := Z.of_nat (length days) in
    if (n =? 0) || (len <? Z.abs n) then Raise ValueError
    else
      d ← of_option IndexError (days !! Z.to_nat (if 0 <? n then n - 1 else len + n));
      Ok (isoformat year month d).

Example weekday_test :
  nth_weekday 2024 11 4 3 = Ok "2024-11-28" /\ nth_weekday 2024 5 (-1) 0 = Ok "2024-05-27" /\
  nth_weekday 2024 9 1 6 = Ok "2024-09-01" /\ nth_weekday 2024 2 5 3 = Ok "2024-02-29" /\
  nth_weekday 2024 2 (-1) 3 = Ok "2024-02-29" /\ nth_weekday 2024 2 (-2) 3 = Ok "2024-02-22" /\
  nth_weekday 2023 1 1 6 = Ok "2023-01-01" /\ nth_weekday 2023 12 (-1) 6 = Ok "2023-12-31" /\
  nth_weekday 2023 2 5 1 = Raise ValueError /\ nth_weekday 2024 5 0 0 = Raise ValueError /\
  nth_weekday 2024 5 (-6) 0 = Raise ValueError /\ nth_weekday 2024 5 6 0 = Raise ValueError.
Proof. vm_compute. split_and!; reflexivity. Qed.

(** ** C08: paths into a document *)
Inductive step_token := Key (k : string) | Index (i : Z).

(** [path.index("]", i)]: what is before it and what follows *)
Fixpoint until_bracket (l : list ascii) : option (list ascii * list ascii) :=
  match l with
  | [] => None
  | c :: l' => if Ascii.eqb c "]"%char then Some ([], l') else '(a, b) ← until_bracket l'; Some (c :: a, b)
  end.

Definition flush (buf : list ascii) (tokens : list step_token) : list step_token :=
  match buf with [] => tokens | _ => tokens ++ [Key (str_of_list buf)] end.

(** The loop of [_parse], on the rest of the path; a turn takes a character at
    least.  [int] is taken without the spaces and underscores it allows. *)
Fixpoint parse_path (fuel : nat) (l buf : list ascii) (tokens : list step_token) : res (list step_token) :=
  match fuel, l with
  | S fuel', c :: l' =>
      match Ascii.eqb c backslash, l' with
      | true, "."%char :: l'' => parse_path fuel' l'' (buf ++ ["."%char]) tokens
      | _, _ =>
          if Ascii.eqb c "."%char then parse_path fuel' l' [] (flush buf tokens)
          else if Ascii.eqb c "["%char then
            '(inner, l'') ← of_option ValueError (until_bracket l');
            i ← of_option ValueError (parse_int inner);
            parse_path fuel' l'' [] (flush buf tokens ++ [Index i])
          else parse_path fuel' l' (buf ++ [c]) tokens
      end
  | _, _ => Ok (flush buf tokens)
  end.

Definition _parse (path : string) : res (list step_token) :=
  let l := str_to_list path in parse_path (length l) l [] [].

(** [None]: the default is returned *)
Definition step_into (cur : json) (t : step_token) : option json :=
  match t, cur with
  | Index i, JArr l =>
      let len := Z.of_nat (length l) in
      if (- len <=? i) && (i <? len) then l !! Z.to_nat (if i <? 0 then len + i else i) else None
  | Key k, JObj kvs => dget k kvs
  | _, _ => None
  end.

Fixpoint walk (cur : json) (ts : list step_token) (dflt : json) : json :=
  match ts with
  | [] => cur
  | t :: ts' => match step_into cur t with Some v => walk v ts' dflt | None => dflt end
  end.

Definition get_path (obj : json) (path : string) (dflt : json) : res json :=
  ts ← _parse path; Ok (walk obj ts dflt).

Example get_path_test :
  let D := JObj [("a", JObj [("b", JArr [JInt 10; JObj [("c", JStr "deep")]; JInt 30])]); ("a.b", JStr "dotted");
                 ("n", JNull); ("z", JInt 0); ("l", JArr [JArr [JInt 1; JInt 2]; JArr [JInt 3]])] in
  let get path := get_path D path (JStr "dflt") in
  get "a.b[1].c" = Ok (JStr "deep") /\ get "a.b[-1]" = Ok (JInt 30) /\ get "a.b[-3]" = Ok (JInt 10) /\
  get ("a" +:+ String backslash ".b") = Ok (JStr "dotted") /\ get "a.b[3]" = Ok (JStr "dflt") /\
  get "a.b[-4]" = Ok (JStr "dflt") /\ get "nope" = Ok (JStr "dflt") /\ get "a[0]" = Ok (JStr "dflt") /\
  get "l.x" = Ok (JStr "dflt") /\ get "n" = Ok JNull /\ get "z" = Ok (JInt 0) /\ get "" = Ok D /\
  get "l[1][0]" = Ok (JInt 3) /\ get "a.b[1].c.d.e" = Ok (JStr "dflt") /\ get "a[" = Raise ValueError.
Proof. vm_compute. split_and!; reflexivity. Qed.

(** ** Facts: wrapped lines *)
Section WrapFacts.
Context (width : nat) (Hw : (1 <= width)%nat).

Definition fits (line : string) : Prop := (1 <= String.length line <= width)%nat.

(** The letters of a text: all but the spaces between words. *)
Definition letters (l : list string) : list ascii :=
  filter (fun c => c <> " "%char) (mjoin (str_to_list <$> l)).

Lemma letters_app l k : letters (l ++ k) = letters l ++ letters k.
Proof. unfold letters. by rewrite fmap_app, join_app, filter_app. Qed.

Lemma letters_one s : letters [s] = filter (fun c => c <> " "%char) (str_to_list s).
Proof. unfold letters. simpl. by rewrite app_nil_r. Qed.

Lemma length_str s : String.length s = length (str_to_list s).
Proof. induction s; simpl; congruence. Qed.

Lemma break_word_spec fuel lines w lines' rest :
  (length w <= fuel)%nat -> break_word width fuel lines w = (lines', rest) ->
  Forall fits lines ->
  Forall fits lines' /\ (length rest <= width)%nat /\ (w <> [] -> rest <> []) /\
  letters lines' ++ filter (fun c => c <> " "%char) rest =
    letters lines ++ filter (fun c => c <> " "%char) w.
Proof using Hw.
  revert lines w. induction fuel as [|fuel IH]; intros lines w Hf E Hl; cbn [break_word] in E.
  - injection E as <- <-. split_and!; [done|lia|done|done].
  - destruct (width <? length w)%nat eqn:Ew; [apply Nat.ltb_lt in Ew|apply Nat.ltb_ge in Ew].
    + apply IH in E as (H1 & H2 & H3 & H4).
      * split_and!; [done|done| |].
        { intros _. apply H3. intros Hd. apply (f_equal length) in Hd. rewrite length_drop in Hd. simpl in Hd. lia. }
        rewrite H4, letters_app, letters_one, str_to_of_list, <- app_assoc, <- filter_app. by rewrite take_drop.
      * rewrite length_drop. lia.
      * apply Forall_app. split; [done|]. constructor; [|done]. unfold fits.
        rewrite length_str, str_to_of_list, length_take. lia.
    + injection E as <- <-. split_and!; [done|lia|done|done].
Qed.

Definition state_ok (st : list string * string) : Prop :=
  Forall fits (fst st) /\ (String.length (snd st) <= width)%nat.

Lemma add_word_ok st w :
  state_ok st -> w <> "" -> state_ok (add_word width st w) /\
  letters (fst (add_word width st w) ++ [snd (add_word width st w)]) = letters (fst st ++ [snd st; w]).
Proof using Hw.
  destruct st as [lines cur]. unfold state_ok. cbn [fst snd]. intros [Hl Hc] Hne.
  assert (Hflush : forall s, s <> "" -> (String.length s <= width)%nat -> fits s).
  { intros s Hs Hs'. split; [|done]. destruct s; [done|simpl; lia]. }
  assert (Hout : Forall fits (if bool_decide (cur = "") then lines else lines ++ [cur])).
  { case_bool_decide; [done|]. apply Forall_app. split; [done|]. constructor; [by apply Hflush|done]. }
  assert (Hlet : letters (if bool_decide (cur = "") then lines else lines ++ [cur]) = letters (lines ++ [cur])).
  { case_bool_decide as He; [|done]. subst cur. by rewrite letters_app, app_nil_r. }
  assert (Hpair : letters (lines ++ [cur; w]) = letters (lines ++ [cur]) ++ letters [w]).
  { by rewrite <- letters_app, <- app_assoc. }
  unfold add_word. destruct (width <? String.length w)%nat eqn:Ew; [|apply Nat.ltb_ge in Ew].
  - destruct (break_word _ _ _ _) as [lines' rest] eqn:E. cbn [fst snd].
    apply break_word_spec in E as (H1 & H2 & _ & H4); [|by rewrite length_str|done].
    rewrite length_str, str_to_of_list. split; [done|].
    rewrite letters_app, letters_one, str_to_of_list, H4, Hlet, Hpair. by rewrite letters_one.
  - rewrite Hpair, <- Hlet. destruct (bool_decide (cur = "")) eqn:Eb; bool_to_prop.
    + cbn [fst snd]. split; [done|]. by rewrite letters_app.
    + destruct (String.length cur + 1 + String.length w <=? width)%nat eqn:Ef; cbn [fst snd].
      * apply Nat.leb_le in Ef. rewrite length_str, !str_to_list_app, !length_app, <- !length_str. simpl String.length.
        split; [split; [done|lia]|].
        rewrite !letters_app, !letters_one, !str_to_list_app, !filter_app. simpl. by rewrite app_assoc.
      * split; [done|]. by rewrite letters_app.
Qed.

Lemma word_nonempty c word : str_of_list (reverse (c :: word)) <> "".
Proof.
  rewrite reverse_cons. intros E. apply (f_equal str_to_list) in E. rewrite str_to_of_list in E.
  by destruct (reverse word).
Qed.

Lemma split_words_nonempty word l : Forall (fun w => w <> "") (split_words word l).
Proof.
  revert word. induction l as [|c l IH]; intros word; cbn [split_words].
  - destruct word as [|c word]; [constructor|]. constructor; [apply word_nonempty|constructor].
  - destruct (is_space c); [|apply IH]. destruct word as [|d word]; [apply IH|].
    constructor; [apply word_nonempty|apply IH].
Qed.

(** Every line fits and is not empty, and the lines hold the words of the text,
    letter for letter. *)
Lemma wrap_text_correct text :
  Forall fits (wrap_text width text) /\ letters (wrap_text width text) = letters (split text).
Proof using Hw.
  unfold wrap_text. pose proof (split_words_nonempty [] (str_to_list text)) as Hne. fold (split text) in Hne.
  assert (H : forall st, state_ok st -> state_ok (foldl (add_word width) st (split text)) /\
    letters (fst (foldl (add_word width) st (split text)) ++ [snd (foldl (add_word width) st (split text))]) =
    letters (fst st ++ [snd st]) ++ letters (split text)).
  { induction Hne as [|w ws Hwne _ IH]; intros st Hst; [by cbn; rewrite app_nil_r|].
    cbn [foldl]. destruct (add_word_ok st w Hst Hwne) as [Hok Hlet]. destruct (IH _ Hok) as [Hok' Hlet'].
    split; [done|]. rewrite Hlet', Hlet. change (w :: ws) with ([w] ++ ws).
    assert (E : fst st ++ [snd st; w] = (fst st ++ [snd st]) ++ [w]) by (by rewrite <- app_assoc).
    by rewrite E, !letters_app, <- !app_assoc. }
  destruct (H ([], "")) as [[Hf Hl] Hlet]; [by split; [|simpl; lia]|].
  destruct (foldl _ _ _) as [lines cur]. cbn [fst snd] in *. simpl in Hlet. rewrite <- Hlet.
  case_bool_decide as Hc.
  - subst cur. by rewrite letters_app, app_nil_r.
  - split; [|done]. apply Forall_app. split; [done|]. constructor; [|done]. split; [|done]. destruct cur; [done|simpl; lia].
Qed.
End WrapFacts.
