(* ===== verification/Tasks.v ===== *)
(** Reference solutions of the standard evaluation tasks ([evals/tasks]), each
    with the assertions of its test, and the two planted wrong solutions, which
    fail theirs.  A float is the exact value of its text. *)

From Stdlib Require Import QArith.
From S2P Require Import Prelude PyString PyDecimal Json Env Argparse Codecs TextTasks.

(** ** 01 fizzbuzz *)
Definition fizzbuzz (n : Z) : list string :=
  (fun i => if i mod 15 =? 0 then "FizzBuzz" else if i mod 3 =? 0 then "Fizz"
            else if i mod 5 =? 0 then "Buzz" else string_of_Z i) <$> seqZ 1 n.

Example fizzbuzz_test :
  fizzbuzz 0 = [] /\ fizzbuzz 5 = ["1"; "2"; "Fizz"; "4"; "Buzz"] /\ List.last (fizzbuzz 15) "" = "FizzBuzz" /\
  length (fizzbuzz 100) = 100%nat.
Proof. vm_compute. split_and!; reflexivity. Qed.

(** ** 02 palindrome *)

(** [c.isalnum()] in Latin-1: letters, digits, superscripts and fractions *)
Definition isalnum (c : ascii) : bool :=
  let n := N_of_ascii c in
  let between a b := (a <=? n)%N && (n <=? b)%N in
  between 48%N 57%N || between 65%N 90%N || between 97%N 122%N ||
  bool_decide (n ∈ [170; 178; 179; 181; 185; 186; 188; 189; 190]%N) ||
  (between 192%N 255%N && negb (n =? 215)%N && negb (n =? 247)%N).

Definition is_palindrome (s : string) : bool :=
  let t := lower_char <$> filter (fun c => isalnum c = true) (str_to_list s) in
  bool_decide (t = reverse t).

Example palindrome_test :
  is_palindrome "A man, a plan, a canal: Panama" = true /\ is_palindrome "race a car" = false /\
  is_palindrome "" = true /\ is_palindrome "No 'x' in Nixon" = true /\ is_palindrome "ab" = false.
Proof. vm_compute. split_and!; reflexivity. Qed.

(** ** 03 sum_evens *)
Definition sum_evens (nums : list Z) : Z := foldl Z.add 0 (filter (fun n => n mod 2 = 0) nums).

Example sum_evens_test :
  sum_evens [] = 0 /\ sum_evens [1; 2; 3; 4] = 6 /\ sum_evens [-2; -3] = -2 /\ sum_evens [1; 3] = 0.
Proof. vm_compute. split_and!; reflexivity. Qed.

(** ** 04 reverse_words *)
Definition reverse_words (s : string) : string := join " " (reverse (split s)).

Example reverse_words_test :
  reverse_words "hello world" = "world hello" /\ reverse_words "  a   b  c " = "c b a" /\
  reverse_words "" = "" /\ reverse_words "one" = "one".
Proof. vm_compute. split_and!; reflexivity. Qed.

(** ** 05 word_count *)
Definition is_lower_letter (c : ascii) : bool := let n := N_of_ascii c in (97 <=? n)%N && (n <=? 122)%N.

(** [re.findall(r"[a-z]+", s)] *)
Fixpoint find_words (word l : list ascii) : list string :=
  let flush rest := match word with [] => rest | _ => str_of_list (reverse word) :: rest end in
  match l with
  | [] => flush []
  | c :: l' => if is_lower_letter c then find_words (c :: word) l' else flush (find_words [] l')
  end.

Definition count_words (ws : list string) : gmap string Z :=
  foldl (fun m w => <[w := default 0 (m !! w) + 1]> m) ∅ ws.
Definition word_count (text : string) : gmap string Z := count_words (find_words [] (str_to_list (lower text))).

Example word_count_test :
  word_count "The cat and the hat." = list_to_map [("the", 2); ("cat", 1); ("and", 1); ("hat", 1)] /\
  word_count "It's" = list_to_map [("it", 1); ("s", 1)] /\ word_count "" = ∅ /\ word_count "a A a" = {["a" := 3]}.
Proof. split_and!; apply (bool_decide_unpack _); vm_compute; exact I. Qed.

(** ** 06 two_sum *)
Fixpoint find_partner (x target j : Z) (l : list Z) : option Z :=
  match l with
  | [] => None
  | y :: l' => if x + y =? target then Some j else find_partner x target (j + 1) l'
  end.

Fixpoint two_sum_from (i : Z) (nums : list Z) (target : Z) : option (Z * Z) :=
  match nums with
  | [] => None
  | x :: nums' =>
      match find_partner x target (i + 1) nums' with
      | Some j => Some (i, j)
      | None => two_sum_from (i + 1) nums' target
      end
  end.
Definition two_sum (nums : list Z) (target : Z) : option (Z * Z) := two_sum_from 0 nums target.

Example two_sum_test :
  two_sum [2; 7; 11; 15] 9 = Some (0, 1) /\ two_sum [3; 2; 4] 6 = Some (1, 2) /\ two_sum [3; 3] 6 = Some (0, 1) /\
  two_sum [1; 2] 10 = None /\ two_sum [1; 2; 3; 4] 5 = Some (0, 3).
Proof. vm_compute. split_and!; reflexivity. Qed.

(** ** 07 roman *)
Definition roman_vals : list (Z * string) :=
  [(1000, "M"); (900, "CM"); (500, "D"); (400, "CD"); (100, "C"); (90, "XC"); (50, "L"); (40, "XL");
   (10, "X"); (9, "IX"); (5, "V"); (4, "IV"); (1, "I")].

(** [while n >= v]: a turn takes at least 1 off [n]. *)
Fixpoint take_value (fuel : nat) (v n : Z) (s : string) : string * Z :=
  match fuel with
  | O => ("", n)
  | S fuel' => if v <=? n then let '(t, n') := take_value fuel' v (n - v) s in (s +:+ t, n') else ("", n)
  end.

Fixpoint roman_from (vals : list (Z * string)) (n : Z) : string :=
  match vals with
  | [] => ""
  | (v, s) :: vals' => let '(t, n') := take_value (Z.to_nat n) v n s in t +:+ roman_from vals' n'
  end.
Definition to_roman (n : Z) : string := roman_from roman_vals n.

Example roman_test :
  to_roman 1 = "I" /\ to_roman 4 = "IV" /\ to_roman 9 = "IX" /\ to_roman 58 = "LVIII" /\
  to_roman 1994 = "MCMXCIV" /\ to_roman 3999 = "MMMCMXCIX".
Proof. vm_compute. split_and!; reflexivity. Qed.

(** ** 08 balanced *)
Definition opening (c : ascii) : option ascii :=
  match c with ")"%char => Some "("%char | "]"%char => Some "["%char | "}"%char => Some "{"%char | _ => None end.

Fixpoint balanced_from (stack : list ascii) (l : list ascii) : bool :=
  match l with
  | [] => match stack with [] => true | _ => false end
  | c :: l' =>
      if bool_decide (c ∈ str_to_list "([{") then balanced_from (c :: stack) l'
      else match opening c, stack with
           | Some o, t :: stack' => Ascii.eqb t o && balanced_from stack' l'
           | Some _, [] => false
           | None, _ => balanced_from stack l'
           end
  end.
Definition is_balanced (s : string) : bool := balanced_from [] (str_to_list s).

Example balanced_test :
  is_balanced <$> [""; "()[]{}"; "(]"; "([{}])"; "((("; "a(b)c"; ")("] = [true; true; false; true; false; true; false].
Proof. vm_compute. reflexivity. Qed.

(** ** 09 flatten *)
Fixpoint flatten_item (v : json) : list json :=
  match v with JArr l => mjoin (map flatten_item l) | _ => [v] end.
Definition flatten (nested : list json) : list json := mjoin (map flatten_item nested).

Example flatten_test :
  flatten [JInt 1; JArr [JInt 2; JArr [JInt 3; JArr [JInt 4]]; JInt 5]] = JInt <$> [1; 2; 3; 4; 5] /\
  flatten [] = [] /\ flatten [JArr []; JArr [JArr []]] = [] /\ flatten [JStr "ab"; JArr [JStr "c"]] = [JStr "ab"; JStr "c"].
Proof. vm_compute. split_and!; reflexivity. Qed.

(** ** 10 anagram_groups *)
Definition char_leb (a b : ascii) : bool := (N_of_ascii a <=? N_of_ascii b)%N.
Definition letters_key (w : string) : string := str_of_list (sort_by char_leb (str_to_list w)).

(** [groups.setdefault(k, []).append(w)] on the items of a dict *)
Fixpoint add_to_group (k w : string) (groups : list (string * list string)) : list (string * list string) :=
  match groups with
  | [] => [(k, [w])]
  | (k', g) :: groups' => if bool_decide (k' = k) then (k', g ++ [w]) :: groups' else (k', g) :: add_to_group k w groups'
  end.

Definition group_anagrams (words : list string) : list (list string) :=
  let groups := foldl (fun gs w => add_to_group (letters_key w) w gs) [] words in
  sort_by (lex_leb str_leb) ((fun g => sort_by str_leb (snd g)) <$> groups).

Example anagrams_test :
  group_anagrams ["eat"; "tea"; "tan"; "ate"; "nat"; "bat"] = [["ate"; "eat"; "tea"]; ["bat"]; ["nat"; "tan"]] /\
  group_anagrams [] = [] /\ group_anagrams [""] = [[""]] /\ group_anagrams ["a"; "a"] = [["a"; "a"]].
Proof. vm_compute. split_and!; reflexivity. Qed.

(** ** 11 lru_cache: an [OrderedDict], least recently used first *)
Section LRU.
Context {K V : Type} `{EqDecision K}.

Record LRUCache := MkLRU { capacity : Z; data : list (K * V) }.

Definition lookup_key (k : K) (d : list (K * V)) : option V :=
  snd <$> find (fun e => bool_decide (fst e = k)) d.
Definition without (k : K) (d : list (K * V)) : list (K * V) := filter (fun e => fst e <> k) d.

(** [None]: -1 *)
Definition lru_get (k : K) : M LRUCache (option V) := fun s =>
  match lookup_key k (data s) with
  | None => (Ok None, s)
  | Some v => (Ok (Some v), MkLRU (capacity s) (without k (data s) ++ [(k, v)]))
  end.

(** A key that is there moves to the end, as does a new one; then the first
    goes if there are too many. *)
Definition lru_put (k : K) (v : V) : M LRUCache unit := fun s =>
  let d := without k (data s) ++ [(k, v)] in
  (Ok tt, MkLRU (capacity s) (if capacity s <? Z.of_nat (length d) then drop 1 d else d)).
End LRU.
Arguments LRUCache : clear implicits.

Example lru_test :
  let put k v s := snd (lru_put k v s) in
  let get k s := fst (lru_get k s) in
  let c := put 3 3 (snd (lru_get 1 (put 2 2 (put 1 1 (MkLRU 2 []))))) in
  let c' := put 4 4 (snd (lru_get 2 c)) in
  let e := put 3 3 (put 1 10 (put 2 2 (put 1 1 (MkLRU 2 [])))) in
  get 2 c = Ok None /\ get 1 c' = Ok None /\ get 3 c' = Ok (Some 3) /\ get 4 c' = Ok (Some 4) /\
  get 1 (put 1 2 (put 1 1 (MkLRU 1 []))) = Ok (Some 2) /\ get 2 e = Ok None /\ get 1 e = Ok (Some 10).
Proof. vm_compute. split_and!; reflexivity. Qed.

(** ** 12 evaluate_expression *)
Inductive tok := Num (q : Q) | Sym (c : ascii).

(** [re.findall(r"\d+\.?\d*|[-+*/()]", expr)]; a turn takes a character. *)
Fixpoint tokenize (fuel : nat) (l : list ascii) : list tok :=
  match fuel, l with
  | S fuel', c :: l' =>
      if is_digit c then
        let '(whole, r) := span_digits l in
        let '(frac, r') := match r with "."%char :: r' => span_digits r' | _ => ([], r) end in
        Num (Q_of_dec (Dec (digits_val (whole ++ frac)) (- Z.of_nat (length frac)))) :: tokenize fuel' r'
      else if bool_decide (c ∈ str_to_list "-+*/()") then Sym c :: tokenize fuel' l'
      else tokenize fuel' l'
  | _, _ => []
  end.

(** A parser takes tokens off the front; [None] is out of fuel. *)
Abbreviation parsed := (option (res (Q * list tok))).

Definition then_parse (p : parsed) (k : Q -> list tok -> parsed) : parsed :=
  match p with
  | Some (Ok (v, ts)) => k v ts
  | Some (Raise e) => Some (Raise e)
  | None => None
  end.

Definition divide (a b : Q) (ts : list tok) : parsed :=
  Some (if Qeq_bool b 0 then Raise ZeroDivisionError else Ok (a / b, ts)%Q).

Definition is_sym (t : tok) (c : ascii) : bool := match t with Sym d => Ascii.eqb d c | Num _ => false end.

Fixpoint parse_expr (fuel : nat) (ts : list tok) : parsed :=
  match fuel with
  | O => None
  | S n => then_parse (parse_term n ts) (expr_loop n)
  end
with expr_loop (fuel : nat) (value : Q) (ts : list tok) : parsed :=
  match fuel, ts with
  | O, _ => None
  | S n, [] => Some (Ok (value, ts))
  | S n, t :: ts' =>
      if is_sym t "+" then then_parse (parse_term n ts') (fun v => expr_loop n (value + v)%Q)
      else if is_sym t "-" then then_parse (parse_term n ts') (fun v => expr_loop n (value - v)%Q)
      else Some (Ok (value, ts))
  end
with parse_term (fuel : nat) (ts : list tok) : parsed :=
  match fuel with
  | O => None
  | S n => then_parse (parse_factor n ts) (term_loop n)
  end
with term_loop (fuel : nat) (value : Q) (ts : list tok) : parsed :=
  match fuel, ts with
  | O, _ => None
  | S n, [] => Some (Ok (value, ts))
  | S n, t :: ts' =>
      if is_sym t "*" then then_parse (parse_factor n ts') (fun v => term_loop n (value * v)%Q)
      else if is_sym t "/" then then_parse (then_parse (parse_factor n ts') (divide value)) (term_loop n)
      else Some (Ok (value, ts))
  end
with parse_factor (fuel : nat) (ts : list tok) : parsed :=
  match fuel, ts with
  | O, _ => None
  | S n, [] => Some (Raise IndexError)
  | S n, t :: ts' =>
      if is_sym t "-" then then_parse (parse_factor n ts') (fun v ts'' => Some (Ok (- v, ts'')%Q))
      else if is_sym t "(" then
        then_parse (parse_expr n ts') (fun v ts'' =>
          Some (match ts'' with [] => Raise IndexError | _ :: rest => Ok (v, rest) end))
      else Some (match t with Num q => Ok (q, ts') | Sym _ => Raise ValueError end)
  end.

Definition expr_fuel (ts : list tok) : nat := 4 * length ts + 4.

(** [evaluate]: what follows the expression is ignored. *)
Definition evaluate (expr : string) : option (res Q) :=
  let l := str_to_list expr in
  let ts := tokenize (length l) l in
  r ← parse_expr (expr_fuel ts) ts;
  Some ('(v, _) ← r; Ok v).

Definition evaluates (expr : string) (q : Q) : bool :=
  match evaluate expr with Some (Ok v) => Qeq_bool v q | _ => false end.

Example evaluate_test :
  evaluates "1 + 2 * 3" 7 && evaluates "(1+2)*3" 9 && evaluates "-2 * -3" 6 && evaluates "10 / 4" (5#2) &&
  evaluates "2 * (3 + 4) - 5 / (1 + 1)" (23#2) && evaluates "-(2+3)" (-5#1) && evaluates "1 - 2 - 3" (-4#1) &&
  evaluates "8 / 2 / 2" 2 = true /\
  evaluate "1 / 0" = Some (Raise ZeroDivisionError) /\ evaluate "(1" = Some (Raise IndexError) /\
  evaluate "1 + )" = Some (Raise ValueError).
Proof. vm_compute. split_and!; reflexivity. Qed.

(** [p] ends, with a rest shorter than [k]. *)
Definition ends (p : parsed) (k : nat) : Prop :=
  exists r, p = Some r /\ forall v ts, r = Ok (v, ts) -> (length ts < k)%nat.

Lemma ends_Ok v ts k : (length ts < k)%nat -> ends (Some (Ok (v, ts))) k.
Proof. intros Hl. eexists. split; [done|]. by intros ? ? [= <- <-]. Qed.

Lemma ends_Raise e k : ends (Some (Raise e)) k.
Proof. by eexists. Qed.

Lemma ends_weaken p k k' : ends p k -> (k <= k')%nat -> ends p k'.
Proof. intros (r & -> & Hr) Hk. exists r. split; [done|]. intros v ts E. specialize (Hr v ts E). lia. Qed.

Lemma ends_then p f j k :
  ends p j -> (forall v ts, (length ts < j)%nat -> ends (f v ts) k) -> ends (then_parse p f) k.
Proof.
  intros (r & -> & Hr) Hf. destruct r as [[v ts]|e]; cbn [then_parse]; [by apply Hf, (Hr v)|apply ends_Raise].
Qed.

(** Four turns per token are enough for every parser. *)
Lemma parsers_end n :
  (forall ts, (4 * length ts + 3 <= n)%nat -> ends (parse_expr n ts) (length ts)) /\
  (forall v ts, (4 * length ts + 1 <= n)%nat -> ends (expr_loop n v ts) (S (length ts))) /\
  (forall ts, (4 * length ts + 2 <= n)%nat -> ends (parse_term n ts) (length ts)) /\
  (forall v ts, (4 * length ts + 1 <= n)%nat -> ends (term_loop n v ts) (S (length ts))) /\
  (forall ts, (4 * length ts + 1 <= n)%nat -> ends (parse_factor n ts) (length ts)).
Proof.
  induction n as [|n (He & Hel & Ht & Htl & Hf)]; [split_and!; intros; lia|].
  split_and!; [intros ts Hn|intros v ts Hn|intros ts Hn|intros v ts Hn|intros ts Hn];
    cbn [parse_expr expr_loop parse_term term_loop parse_factor].
  - apply (ends_then _ _ (length ts)); [apply Ht; lia|]. intros v ts' Hl.
    eapply ends_weaken; [apply Hel; lia|lia].
  - destruct ts as [|t ts]; [apply ends_Ok; simpl; lia|]. cbn [length] in Hn.
    destruct (is_sym t "+"); [|destruct (is_sym t "-"); [|apply ends_Ok; simpl; lia]].
    all: apply (ends_then _ _ (length ts)); [apply Ht; lia|]; intros w ts' Hl;
      eapply ends_weaken; [apply Hel; lia|simpl; lia].
  - apply (ends_then _ _ (length ts)); [apply Hf; lia|]. intros v ts' Hl.
    eapply ends_weaken; [apply Htl; lia|lia].
  - destruct ts as [|t ts]; [apply ends_Ok; simpl; lia|]. cbn [length] in Hn.
    destruct (is_sym t "*"); [|destruct (is_sym t "/"); [|apply ends_Ok; simpl; lia]].
    2: apply (ends_then _ _ (length ts)); [apply (ends_then _ _ (length ts)); [apply Hf; lia|];
      intros w ts' Hl; unfold divide; destruct (Qeq_bool _ _); [apply ends_Raise|apply ends_Ok; lia]|].
    1: apply (ends_then _ _ (length ts)); [apply Hf; lia|].
    all: intros w ts' Hl; eapply ends_weaken; [apply Htl; lia|simpl; lia].
  - destruct ts as [|t ts]; [apply ends_Raise|]. cbn [length] in Hn.
    destruct (is_sym t "-"); [|destruct (is_sym t "(")].
    + apply (ends_then _ _ (length ts)); [apply Hf; lia|]. intros w ts' Hl. apply ends_Ok. simpl. lia.
    + apply (ends_then _ _ (length ts)); [apply He; lia|]. intros w ts' Hl.
      destruct ts' as [|t' ts']; [apply ends_Raise|]. apply ends_Ok. simpl in *. lia.
    + destruct t; [apply ends_Ok; simpl; lia|apply ends_Raise].
Qed.

(** The solution always returns or raises. *)
Lemma evaluate_ends expr : exists r, evaluate expr = Some r.
Proof.
  unfold evaluate. set (ts := tokenize _ _).
  destruct (proj1 (parsers_end (expr_fuel ts)) ts) as (r & -> & _); [unfold expr_fuel; lia|]. by eexists.
Qed.

(** The planted wrong solution: one loop for all four operators, which takes
    every value of its dict of results. *)
Fixpoint wrong_expr (fuel : nat) (ts : list tok) : parsed :=
  match fuel with
  | O => None
  | S n => then_parse (wrong_factor n ts) (wrong_loop n)
  end
with wrong_loop (fuel : nat) (value : Q) (ts : list tok) : parsed :=
  match fuel, ts with
  | O, _ => None
  | S n, [] => Some (Ok (value, ts))
  | S n, t :: ts' =>
      if is_sym t "+" || is_sym t "-" || is_sym t "*" || is_sym t "/" then
        then_parse (then_parse (wrong_factor n ts') (fun rhs ts'' =>
          if Qeq_bool rhs 0 then Some (Raise ZeroDivisionError)
          else Some (Ok (if is_sym t "+" then (value + rhs)%Q else if is_sym t "-" then (value - rhs)%Q
                         else if is_sym t "*" then (value * rhs)%Q else (value / rhs)%Q, ts'')))) (wrong_loop n)
      else Some (Ok (value, ts))
  end
with wrong_factor (fuel : nat) (ts : list tok) : parsed :=
  match fuel, ts with
  | O, _ => None
  | S n, [] => Some (Raise IndexError)
  | S n, t :: ts' =>
      if is_sym t "-" then then_parse (wrong_factor n ts') (fun v ts'' => Some (Ok (- v, ts'')%Q))
      else if is_sym t "(" then
        then_parse (wrong_expr n ts') (fun v ts'' =>
          Some (match ts'' with [] => Raise IndexError | _ :: rest => Ok (v, rest) end))
      else Some (match t with Num q => Ok (q, ts') | Sym _ => Raise ValueError end)
  end.

Definition wrong_evaluate (expr : string) : option (res Q) :=
  let l := str_to_list expr in
  let ts := tokenize (length l) l in
  r ← wrong_expr (expr_fuel ts) ts;
  Some ('(v, _) ← r; Ok v).

Example wrong_evaluate_fails :
  match wrong_evaluate "1 + 2 * 3" with Some (Ok v) => Qeq_bool v 9 | _ => false end = true.
Proof. vm_compute. reflexivity. Qed.

(** ** 13 min_coins *)

(** [l[i]], counting from the end when [i] is negative *)
Definition py_index {A} (l : list A) (i : Z) : res A :=
  let len := Z.of_nat (length l) in
  of_option IndexError
    (if (- len <=? i) && (i <? len) then l !! Z.to_nat (if i <? 0 then len + i else i) else None).

(** [for c in coins] *)
Fixpoint try_coins (a : Z) (coins best : list Z) : res (list Z) :=
  match coins with
  | [] => Ok best
  | c :: coins' =>
      if c <=? a then
        x ← py_index best (a - c);
        y ← py_index best a;
        try_coins a coins' (if x + 1 <? y then <[Z.to_nat a := x + 1]> best else best)
      else try_coins a coins' best
  end.

(** [for a in range(1, amount + 1)] *)
Fixpoint fill_amounts (coins amounts best : list Z) : res (list Z) :=
  match amounts with
  | [] => Ok best
  | a :: amounts' => best ← try_coins a coins best; fill_amounts coins amounts' best
  end.

Definition min_coins (coins : list Z) (amount : Z) : res Z :=
  let inf := amount + 1 in
  best ← fill_amounts coins (seqZ 1 amount) (0 :: replicate (Z.to_nat amount) inf);
  b ← py_index best amount;
  Ok (if b =? inf then -1 else b).

(** The test's one large amount is left out. *)
Example min_coins_test :
  min_coins [1; 2; 5] 11 = Ok 3 /\ min_coins [2] 3 = Ok (-1) /\ min_coins [1] 0 = Ok 0 /\
  min_coins [186; 419; 83; 408] 629 = Ok (-1) /\ min_coins [1; 3; 4] 6 = Ok 2.
Proof. vm_compute. split_and!; reflexivity. Qed.

(** ** 14 merge_intervals *)
Definition interval_leb (x y : Z * Z) : bool := (fst x <? fst y) || ((fst x =? fst y) && (snd x <=? snd y)).

Section Merge.
(** [s <= out[-1][1]], or [<] in the planted wrong solution *)
Context (touches : Z -> Z -> bool).

(** [out], last interval first *)
Definition merge_step (out : list (Z * Z)) (i : Z * Z) : list (Z * Z) :=
  match out with
  | (s, e) :: out' => if touches (fst i) e then (s, Z.max e (snd i)) :: out' else i :: out
  | [] => [i]
  end.

Definition merge_with (intervals : list (Z * Z)) : list (Z * Z) :=
  reverse (foldl merge_step [] (sort_by interval_leb intervals)).
End Merge.

Definition merge_intervals : list (Z * Z) -> list (Z * Z) := merge_with Z.leb.
Definition wrong_merge_intervals : list (Z * Z) -> list (Z * Z) := merge_with Z.ltb.

Example merge_test :
  merge_intervals [(1, 3); (2, 6); (8, 10); (15, 18)] = [(1, 6); (8, 10); (15, 18)] /\
  merge_intervals [(1, 4); (4, 5)] = [(1, 5)] /\ merge_intervals [] = [] /\
  merge_intervals [(5, 6); (1, 2)] = [(1, 2); (5, 6)] /\ merge_intervals [(1, 10); (2, 3)] = [(1, 10)] /\
  wrong_merge_intervals [(1, 4); (4, 5)] = [(1, 4); (4, 5)].
Proof. vm_compute. split_and!; reflexivity. Qed.

(** ** 15 top_k_frequent *)

(** [Counter(words)]: the items of a dict, in the order of first use *)
Fixpoint count_in (w : string) (counts : list (string * Z)) : list (string * Z) :=
  match counts with
  | [] => [(w, 1)]
  | (w', n) :: counts' => if bool_decide (w' = w) then (w', n + 1) :: counts' else (w', n) :: count_in w counts'
  end.

Definition rank_leb (x y : string * Z) : bool :=
  (snd y <? snd x) || ((snd x =? snd y) && str_leb (fst x) (fst y)).

(** [k] is not negative. *)
Definition top_k_frequent (words : list string) (k : nat) : list string :=
  take k (sort_by rank_leb (foldl (fun m w => count_in w m) [] words)).*1.

Example top_k_test :
  top_k_frequent ["i"; "love"; "leetcode"; "i"; "love"; "coding"] 2 = ["i"; "love"] /\
  top_k_frequent ["the"; "day"; "is"; "sunny"; "the"; "the"; "the"; "sunny"; "is"; "is"] 4 =
    ["the"; "is"; "sunny"; "day"] /\
  top_k_frequent [] 3 = [] /\ top_k_frequent ["a"; "b"] 5 = ["a"; "b"] /\ top_k_frequent ["b"; "a"] 1 = ["a"].
Proof. vm_compute. split_and!; reflexivity. Qed.
