(* ===== verification/Bench.v ===== *)
(** The measurements of [bench/]: the percentile of [common.py], the counts
    [chaos_bench.py] and [demo.py] make of a chaos run and of the calls to the
    provider, and the command line [eval_bench.py] runs.  The scripts themselves are in
    [BenchRuns] and [Scripts]. *)

From Stdlib Require Import QArith Qround Lqa.
From S2P Require Import Prelude PyString PyDecimal Json Database Store Leases Engine Invariants Scenarios.
From S2P Require Import Injector Supervisor Argparse Cli.

(** ** Percentiles *)

(** [round(q)]: to the nearest integer, halves to the even one *)
Definition py_round (q : Q) : Z :=
  let n := Qfloor q in
  let r := (q - inject_Z n)%Q in
  if Qle_bool (1#2) r then
    if Qeq_bool r (1#2) then if Z.even n then n else n + 1 else n + 1
  else n.

(** [q * len(values)] is taken exact. *)
Definition percentile {A} (sorted_values : list A) (q : Q) : res A :=
  let n := Z.of_nat (length sorted_values) in
  let idx := Z.max 0 (Z.min (n - 1) (py_round (q * inject_Z n + (1#2))%Q - 1)) in
  of_option IndexError (sorted_values !! Z.to_nat idx).

(** The rank the docstring names: the least [k] with [q * n <= k]. *)
Definition nearest_rank (n : Z) (q : Q) : Z := Qceiling (q * inject_Z n)%Q.

Lemma Qfloor_eq q n : (inject_Z n <= q)%Q -> (q < inject_Z (n + 1))%Q -> Qfloor q = n.
Proof.
  intros H1 H2. pose proof (Qfloor_le q) as H3. pose proof (Qlt_floor q) as H4.
  assert (n < Qfloor q + 1) by (rewrite Zlt_Qlt; by eapply Qle_lt_trans).
  assert (Qfloor q < n + 1) by (rewrite Zlt_Qlt; by eapply Qle_lt_trans). lia.
Qed.

Definition is_integer (x : Q) : bool := Qeq_bool x (inject_Z (Qceiling x)).

(** Rounding [x + 0.5] rounds [x] up, except that an odd integer becomes the
    next one. *)
Lemma py_round_up x :
  py_round (x + (1#2))%Q = if is_integer x && Z.odd (Qceiling x) then Qceiling x + 1 else Qceiling x.
Proof.
  set (c := Qceiling x). pose proof (Qle_ceiling x) as Hc. pose proof (Qceiling_lt x) as Hl. fold c in Hc, Hl.
  assert (Hc1 : (inject_Z (c - 1) == inject_Z c - 1)%Q) by (unfold Zminus; by rewrite inject_Z_plus).
  assert (Hc2 : (inject_Z (c + 1) == inject_Z c + 1)%Q) by (by rewrite inject_Z_plus).
  unfold is_integer. fold c. destruct (Qeq_bool x (inject_Z c)) eqn:E.
  - apply Qeq_bool_iff in E. assert (Hf : Qfloor (x + (1#2))%Q = c).
    { apply Qfloor_eq; rewrite ?Hc2, E; lra. }
    unfold py_round. rewrite Hf.
    assert (Hr : ((x + (1#2) - inject_Z c) == (1#2))%Q) by lra.
    rewrite (proj2 (Qle_bool_iff _ _)) by lra. rewrite (proj2 (Qeq_bool_iff _ _)) by lra.
    rewrite <- Z.negb_even. by destruct (Z.even c).
  - assert (Hne : ~ (x == inject_Z c)%Q) by (intros Hx; apply Qeq_bool_iff in Hx; congruence).
    assert (Hlt : (x < inject_Z c)%Q) by (apply Qle_lteq in Hc as [|]; [done|tauto]).
    cbn [andb]. unfold py_round. destruct (Qlt_le_dec x (inject_Z c - (1#2))) as [Hs|Hs].
    + assert (Hf : Qfloor (x + (1#2))%Q = c - 1).
      { apply Qfloor_eq; [rewrite Hc1; lra|]. replace (c - 1 + 1) with c by lia. lra. }
      rewrite Hf, (proj2 (Qle_bool_iff _ _)) by (rewrite Hc1; lra).
      destruct (Qeq_bool (_ - _) _) eqn:E'; [|lia]. apply Qeq_bool_iff in E'.
      exfalso. rewrite Hc1 in Hl. lra.
    + assert (Hf : Qfloor (x + (1#2))%Q = c) by (apply Qfloor_eq; rewrite ?Hc2; lra).
      rewrite Hf. destruct (Qle_bool _ _) eqn:E'; [|done]. apply Qle_bool_iff in E'. lra.
Qed.

(** Where [q * n] is an odd integer the value above the nearest rank is taken;
    everywhere else it is the nearest rank. *)
Lemma percentile_rank {A} (values : list A) q :
  values <> [] -> (0 < q)%Q -> (q <= 1)%Q ->
  let n := Z.of_nat (length values) in
  let k := nearest_rank n q in
  1 <= k <= n /\
  percentile values q =
    of_option IndexError
      (values !! Z.to_nat (if is_integer (q * inject_Z n) && Z.odd k then Z.min k (n - 1) else k - 1)).
Proof.
  intros Hne Hq0 Hq1 n k.
  assert (Hn : 1 <= n) by (unfold n; destruct values; [done|simpl; lia]).
  assert (HnQ : (1 <= inject_Z n)%Q) by (change 1%Q with (inject_Z 1); by rewrite <- Zle_Qle).
  assert (Hk : 1 <= k <= n).
  { unfold k, nearest_rank. split.
    - assert (0 < Qceiling (q * inject_Z n)); [|lia]. rewrite Zlt_Qlt.
      eapply Qlt_le_trans; [|apply Qle_ceiling]. change (inject_Z 0) with 0%Q. nra.
    - rewrite <- (Qceiling_Z n) at 2. apply Qceiling_resp_le. nra. }
  split; [done|]. unfold percentile. fold n. rewrite py_round_up. unfold nearest_rank in k. fold k.
  do 2 f_equal. destruct (_ && _); f_equal; lia.
Qed.

(** The 95th percentile of twenty measurements is their maximum: the 19th is
    the nearest rank. *)
Lemma p95_of_twenty {A} (values : list A) :
  length values = 20%nat ->
  percentile values (19#20) = of_option IndexError (values !! 19%nat) /\ nearest_rank 20 (19#20) = 19.
Proof. intros Hl. unfold percentile. rewrite Hl. by split. Qed.

(** ** Counts of a chaos run *)

(** Calls to the provider, and the distinct (run, step) pairs they were for. *)
Definition provider_call_count (run_ids : list uuid) (d : db) : Z :=
  Z.of_nat (length (filter (fun c => call_run_id c ∈ run_ids) (provider_calls d))).
Definition distinct_steps (run_ids : list uuid) (d : db) : Z :=
  Z.of_nat (length (remove_dups (call_key <$> filter (fun c => call_run_id c ∈ run_ids) (provider_calls d)))).
Definition duplicate_llm_calls (run_ids : list uuid) (d : db) : Z :=
  provider_call_count run_ids d - distinct_steps run_ids d.

(** [sum(k in a for a in applied)] *)
Definition applied_count (k : string) (applied : list string) : Z :=
  Z.of_nat (length (filter (fun a => is_substring k a = true) applied)).

(** One entry of [per_seed]; [round1] is [round(x, 1)]. *)
Definition seed_entry (round1 : Q -> string) (seed : Z) (r : ChaosReport) (d : db) : dict :=
  [("seed", JInt seed); ("passed", JBool (passed (cr_invariants r)));
   ("duration_s", JFloat (round1 (cr_duration_s r)));
   ("statuses", JObj (prod_map id JInt <$> cr_statuses r));
   ("faults_scheduled", JInt (Z.of_nat (length (cr_schedule r)))); ("faults_hit", JInt (cr_fired r));
   ("kill_9", JInt (applied_count "kill -9" (cr_applied r)));
   ("suspend", JInt (applied_count " suspend " (cr_applied r)));
   ("docker_kill", JInt (applied_count "docker kill phoenix-sbx" (cr_applied r)));
   ("takeovers", JInt (cr_takeovers r)); ("provider_calls", JInt (provider_call_count (cr_run_ids r) d));
   ("duplicate_llm_calls", JInt (duplicate_llm_calls (cr_run_ids r) d));
   ("invariants", JObj ((fun i => (ir_name i, JBool (ir_passed i))) <$> cr_invariants r))].

(** No call was repeated exactly when every step was asked for once. *)
Lemma duplicate_llm_calls_zero run_ids d :
  0 <= duplicate_llm_calls run_ids d /\
  (duplicate_llm_calls run_ids d = 0 <->
   NoDup (call_key <$> filter (fun c => call_run_id c ∈ run_ids) (provider_calls d))).
Proof.
  unfold duplicate_llm_calls, provider_call_count, distinct_steps.
  set (keys := call_key <$> _). rewrite <- (length_fmap call_key). fold keys.
  assert (Hsub : remove_dups keys ⊆+ keys).
  { apply NoDup_submseteq; [apply NoDup_remove_dups|]. intros x. by rewrite elem_of_remove_dups. }
  pose proof (submseteq_length _ _ Hsub) as Hle. split; [lia|]. split; intros H.
  - rewrite <- (submseteq_length_Permutation _ _ Hsub); [apply NoDup_remove_dups|lia].
  - assert (Hle' : keys ⊆+ remove_dups keys).
    { apply NoDup_submseteq; [done|]. intros x. by rewrite elem_of_remove_dups. }
    apply submseteq_length in Hle'. lia.
Qed.

(** ** The command line of [eval_bench.py] *)

(** [args.index("--suite")]: the value after the first one *)
Fixpoint suite_of (args : list string) : res string :=
  match args with
  | [] => Ok "standard"
  | a :: args' =>
      if bool_decide (a = "--suite") then of_option IndexError (head args') else suite_of args'
  end.

Definition eval_bench_args (RESULTS : string) (args : list string) : res (list string) :=
  suite ← suite_of args;
  let mode := if bool_decide ("--real" ∈ args) then "gemini" else "mock" in
  let name := "eval-" +:+ mode +:+ (if bool_decide (suite = "standard") then "" else "-" +:+ suite) in
  Ok (["eval"; "--out"; RESULTS +:+ "/" +:+ name +:+ ".json"] ++ args).

Example eval_bench_challenge :
  eval_bench_args "results" ["--suite"; "challenge"] =
    Ok ["eval"; "--out"; "results/eval-mock-challenge.json"; "--suite"; "challenge"] /\
  (argv ← eval_bench_args "results" ["--real"; "--workers"; "1"]; parse_args 1 argv) =
    Ok (Eval (EvalArgs true 1 "0.05" "1.00" "standard" (900#1)%Q None (Some "results/eval-gemini.json"))).
Proof. vm_compute. split; reflexivity. Qed.
