(* ===== verification/BenchRuns.v ===== *)
(** The scripts of [bench/] as programs: the recovery trials, the demo, the
    chaos runs over several seeds and the sandbox timings, with what they
    print and save.

    They drive the injector and read the database as the chaos harness does.
    Every script loads [.env], migrates the database and works until it has
    its numbers; the loops that wait without a deadline take fuel and say so
    when it is used up. *)

From Stdlib Require Import QArith Qround Lqa.
From S2P Require Import Prelude PyString PyDecimal Json JsonParse Env Database Store Leases Engine LlmCache.
From S2P Require Import Workspace Agent Execution Invariants System Safety Progress Runner Scenarios Workers EventLoop Healthy Refinement Injector Supervisor.
From S2P Require Import Timeline Evals EvalRun Argparse Cli Bench.

(** ** Statistics *)

Definition Q_leb (a b : Q) : bool := Qle_bool a b.

(** [statistics.median]: the middle value, or the mean of the two. *)
Definition median (data : list Q) : res Q :=
  let data := sort_by Q_leb data in
  let n := length data in
  match n with
  | O => Raise ValueError
  | _ =>
      if Nat.odd n then of_option IndexError (data !! Nat.div2 n)
      else
        a ← of_option IndexError (data !! (Nat.div2 n - 1)%nat);
        b ← of_option IndexError (data !! Nat.div2 n);
        Ok ((a + b) / (2#1))%Q
  end.

(** ** The recovery trial *)
Definition LEASE : Q := 2#1.
Definition STEPS : Z := 20.

Definition toy_trial_spec (float_text : Q -> string) : json :=
  JObj [("kind", JStr "toy"); ("steps", JInt STEPS); ("step_delay", JFloat (float_text (1#5)%Q))].

(** [next(w for w in inj.workers if w.name == name)]: a generator that ends
    inside a coroutine raises [RuntimeError]. *)
Definition find_worker (name : option string) (ws : list worker) : res worker :=
  of_option RuntimeError (head (filter (fun w => name = Some (wk_name w)) ws)).

(** [min] and [max] of a column; NULL of no rows. *)
Definition column_min (l : list Z) : option Z :=
  match l with [] => None | x :: l' => Some (foldr Z.min x l') end.
Definition column_max (l : list Z) : option Z :=
  match l with [] => None | x :: l' => Some (foldr Z.max x l') end.

(** When the events of a run by one attempt were committed. *)
Definition committed_at (rid : uuid) (attempt : Z) (d : db) : list Z :=
  er_created_at <$> filter (fun row => ev_run_id (er_event row) = rid /\ ev_attempt (er_event row) = attempt)
    (events d).

(** The gap the query computes: the first event of attempt 2 after the last
    one of attempt 1. *)
Definition recovery_gap (rid : uuid) (d : db) : option Z :=
  t2 ← column_min (committed_at rid 2 d);
  t1 ← column_max (committed_at rid 1 d);
  Some (t2 - t1).

(** The lease owner of a run's task: [fetchval] of no row or of NULL is [None]. *)
Definition holder_of (rid : uuid) (d : db) : option string := t ← task_of rid d; task_lease_owner t.

(** What a trial gives: its gap in microseconds and whether the log is clean;
    [StillStarting]: the rounds of the loop without a deadline are used up;
    [StillRunning]: those of the other, which never happens. *)
Inductive trial := Trial (gap : Z) (clean : bool) | StillStarting | StillRunning.

Section Trial.
Context {S : Type} `{HasDb S} `{Processes S} `{Docker S}.
Context (os_environ : environ) (SRC : string) (float_str float_text : Q -> string).

(** [Injector(...)]: no workers yet. *)
Definition new_injector : M (sup S) unit := modify (fun s => Sup (su_os s) [] 0).

Fixpoint wait_events (rid : uuid) (rounds : nat) : M (sup S) bool :=
  match rounds with
  | O => mret false
  | Datatypes.S rounds' =>
      n ← with_db (gets (count_events rid));
      if n <? 5 then on_os (sleep (1#20)) ;; wait_events rid rounds' else mret true
  end.

Fixpoint wait_succeeded (rid : uuid) (deadline : Q) (rounds : nat) : M (sup S) bool :=
  match rounds with
  | O => mret false
  | Datatypes.S rounds' =>
      status ← with_db (gets (fun d => run_status_of <$> runs d !! rid));
      if bool_decide (status = Some Succeeded) then mret true
      else
        t ← on_os monotonic;
        if negb (Qle_bool t deadline) then raise RuntimeError
        else on_os (sleep (1#10)) ;; wait_succeeded rid deadline rounds'
  end.

Definition trial_body (inj : Injector) (now : Z) (rid tid : uuid) (rounds1 rounds2 : nat) : M (sup S) trial :=
  spawn_worker os_environ SRC float_str inj ;;
  spawn_worker os_environ SRC float_str inj ;;
  run_id ← with_db (submit_run now rid tid (toy_trial_spec float_text) (inl "1.0"));
  started ← wait_events run_id rounds1;
  if negb (started : bool) then mret StillStarting
  else
    holder ← with_db (gets (holder_of run_id));
    ws ← gets su_workers;
    victim ← lift_res (find_worker holder ws);
    kill victim ;;
    t ← on_os monotonic;
    done ← wait_succeeded run_id (t + (60#1))%Q rounds2;
    if negb (done : bool) then mret StillRunning
    else
      gap ← with_db (gets (recovery_gap run_id));
      integrity ← with_db (fun d => (log_integrity [run_id] d, d));
      n ← with_db (gets (count_events run_id));
      gap ← lift_res (of_option TypeError gap);
      mret (Trial gap (ir_passed integrity && (n =? STEPS))).

Definition one_trial (dsn ws : string) (now : Z) (rid tid : uuid) (rounds1 rounds2 : nat) : M (sup S) trial :=
  new_injector ;;
  let inj := MkInjector dsn LEASE ws false false in
  try_finally (trial_body inj now rid tid rounds1 rounds2) shutdown.
End Trial.

(** ** A trial ends and leaves nothing behind *)
Section TrialFacts.
Context {S : Type} `{HasDb S} `{Processes S} `{Docker S} (children : S -> gset string) (time : S -> Q).
Context `{!ProcessLaws children time}.
Context (os_environ : environ) (SRC : string) (float_str float_text : Q -> string).
Local Abbreviation good := (good children time).
Local Abbreviation childless := (childless children).

Lemma good_with_db t {A} (m : M db A) : stable (good t) (with_db m).
Proof. apply (with_db_good children time). Qed.
Lemma good_spawn t inj : stable (good t) (spawn_worker os_environ SRC float_str inj).
Proof. apply (spawn_good children time). Qed.
Lemma good_monotonic t : stable (good t) (on_os monotonic).
Proof. apply (monotonic_good children time). Qed.
Lemma good_sleep t q : (0 <= q)%Q -> stable (good t) (on_os (sleep q)).
Proof. apply (sleep_good children time). Qed.
Lemma good_kill t w : stable (good t) (kill w).
Proof. apply (kill_good children time). Qed.
Lemma good_lift t {A} (r : res A) : stable (good t) (lift_res r).
Proof. by intros s Hs. Qed.
#[local] Hint Resolve good_with_db good_spawn good_monotonic good_sleep good_kill good_lift : phx_inv.

(** A computation that reaches [shutdown] leaves no process. *)
Lemma finally_shutdown {A} (m : M (sup S) A) s r s' t :
  stable (good t) m -> good t s -> try_finally m shutdown s = (r, s') ->
  (childless s' \/ r = Raise NoSuchProcess) /\
  ((exists s1, m s = (r, s1)) \/ exists e, r = Raise e).
Proof.
  intros Hm Hg. unfold try_finally. specialize (Hm s Hg). destruct (m s) as [r0 s1]. simpl in Hm.
  destruct (shutdown s1) as [rs s2] eqn:Es.
  destruct (shutdown_reaps children time _ _ _ _ Hm Es) as [_ [-> | Hc]].
  - intros [= <- <-]. split; [by right|]. right. by eexists.
  - destruct rs as [u|e]; intros [= <- <-]; (split; [by left|]); [left; by eexists|right; by eexists].
Qed.

Lemma wait_events_good t rid rounds : stable (good t) (wait_events rid rounds).
Proof.
  induction rounds as [|rounds IH]; simpl; [auto with phx_inv|]. apply stable_bind; [auto with phx_inv|].
  intros n. destruct (n <? 5); [|auto with phx_inv]. apply stable_bind; [by apply good_sleep|done].
Qed.

Lemma wait_succeeded_good t rid deadline rounds : stable (good t) (wait_succeeded rid deadline rounds).
Proof.
  induction rounds as [|rounds IH]; simpl; [auto with phx_inv|]. apply stable_bind; [auto with phx_inv|].
  intros st. destruct (bool_decide _); [auto with phx_inv|]. apply stable_bind; [auto with phx_inv|].
  intros q. destruct (negb _); [auto with phx_inv|]. apply stable_bind; [by apply good_sleep|done].
Qed.
#[local] Hint Resolve wait_events_good wait_succeeded_good : phx_inv.

(** The wait for the run ends within its minute. *)
Lemma wait_succeeded_ends rid deadline rounds s :
  good (time (su_os s)) s ->
  (deadline < time (su_os s) + inject_Z (Z.of_nat rounds) * (1#10))%Q ->
  fst (wait_succeeded rid deadline (Datatypes.S rounds) s) <> Ok false.
Proof.
  revert s. induction rounds as [|rounds IH]; intros s Hg Hd; cbn [wait_succeeded];
    set (m := with_db _); pose proof (good_with_db (time (su_os s))
      (gets (fun d => run_status_of <$> runs d !! rid)) s Hg) as Hg1; fold m in Hg1;
    unfold mbind, M_bind; destruct (m s) as [[st|e] s1]; try done; simpl in Hg1;
    (destruct (bool_decide _); [done|]); unfold on_os at 1;
    destruct (monotonic_reads children time (su_os s1)) as (t & o & Em & Hc & Ht1 & Ht2); rewrite Em;
    pose proof (proj2 Hg1) as Hl1; unfold later_than in Hl1; simpl in Hl1;
    (destruct (Qle_bool t deadline) eqn:Hle; [|done]); apply Qle_bool_iff in Hle; cbn [negb].
  - change (inject_Z (Z.of_nat 0)) with (0#1)%Q in Hd. exfalso. lra.
  - set (s2 := Sup o (su_workers s1) (su_n s1)).
    assert (Hg2 : good (time (su_os s)) s2).
    { pose proof (good_monotonic (time (su_os s)) s1 Hg1) as H4. unfold on_os in H4. by rewrite Em in H4. }
    unfold on_os at 1. destruct (sleep_passes children time (1#10) (su_os s2)) as (o2 & Es & _ & Hq).
    pose proof (good_sleep (time (su_os s)) (1#10) ltac:(done) s2 Hg2) as Hg3.
    unfold on_os in Hg3. rewrite Es in Hg3 |- *. simpl in Hg3. apply IH.
    + split; [apply Hg3|apply Qle_refl].
    + simpl in *. rewrite Nat2Z.inj_succ, <- Z.add_1_r, inject_Z_plus in Hd.
      change (inject_Z 1) with (1#1)%Q in Hd. lra.
Qed.

Lemma trial_body_good t inj now rid tid r1 r2 :
  stable (good t) (trial_body os_environ SRC float_str float_text inj now rid tid r1 r2).
Proof.
  unfold trial_body. apply stable_bind; [auto with phx_inv|]. intros _.
  apply stable_bind; [auto with phx_inv|]. intros _. apply stable_bind; [auto with phx_inv|]. intros x.
  apply stable_bind; [auto with phx_inv|]. intros [|]; cbn [negb]; [|auto with phx_inv].
  apply stable_bind; [auto with phx_inv|]. intros holder. apply stable_bind; [auto with phx_inv|]. intros ws.
  apply stable_bind; [auto with phx_inv|]. intros w. apply stable_bind; [auto with phx_inv|]. intros _.
  apply stable_bind; [auto with phx_inv|]. intros q. apply stable_bind; [auto with phx_inv|].
  intros [|]; cbn [negb]; [|auto with phx_inv]. do 4 (apply stable_bind; [auto with phx_inv|]; intros ?). auto with phx_inv.
Qed.

(** A recovery trial ends and leaves nothing behind.  Once the run has its
    first five events, the trial comes to its end within the minute it allows
    the takeover, with a result or an error, whatever the processes do; and
    however it ended, every worker it started is over and reaped, unless
    [shutdown] lost one between two polls. *)
Lemma one_trial_ends dsn ws now rid tid r1 rounds s r s' :
  children (su_os s) = ∅ -> (60 < inject_Z (Z.of_nat rounds) * (1#10))%Q ->
  one_trial os_environ SRC float_str float_text dsn ws now rid tid r1 (Datatypes.S rounds) s = (r, s') ->
  r <> Ok StillRunning /\ (childless s' \/ r = Raise NoSuchProcess).
Proof.
  intros Hc Hto E. unfold one_trial, new_injector, modify in E. unfold mbind at 1, M_bind at 1 in E.
  set (s0 := Sup (su_os s) [] 0) in *. set (inj := MkInjector _ _ _ _ _) in E. cbv zeta in E.
  assert (Hg : good (time (su_os s)) s0).
  { split; [split; simpl; [by rewrite Hc|constructor|by split]|apply Qle_refl]. }
  destruct (finally_shutdown _ _ _ _ _
    (trial_body_good (time (su_os s)) inj now rid tid r1 (Datatypes.S rounds)) Hg E) as [Hcl Hr].
  split; [|done]. destruct Hr as [[s1 Hm]|[e ->]]; [|done]. intros ->. clear E Hcl.
  unfold trial_body in Hm. apply bind_Ok_inv in Hm as (x1 & s2 & E1 & Hm).
  apply bind_Ok_inv in Hm as (x2 & s3 & E2 & Hm). apply bind_Ok_inv in Hm as (x3 & s4 & E3 & Hm).
  apply bind_Ok_inv in Hm as ([|] & s5 & E4 & Hm); [|done]. cbn [negb] in Hm.
  apply bind_Ok_inv in Hm as (x5 & s6 & E5 & Hm). apply bind_Ok_inv in Hm as (x6 & s7 & E6 & Hm).
  apply bind_Ok_inv in Hm as (x7 & s8 & E7 & Hm). apply bind_Ok_inv in Hm as (x8 & s9 & E8 & Hm).
  apply bind_Ok_inv in Hm as (t & s10 & E9 & Hm). apply bind_Ok_inv in Hm as (dn & s11 & E10 & Hm).
  assert (Hg9 : good (time (su_os s)) s9).
  { eapply stable_run; [apply (good_kill _ x7)| |exact E8]. eapply stable_run; [apply good_lift| |exact E7].
    injection E6 as _ <-. eapply stable_run; [apply good_with_db| |exact E5].
    eapply stable_run; [apply wait_events_good| |exact E4]. eapply stable_run; [apply good_with_db| |exact E3].
    eapply stable_run; [apply good_spawn| |exact E2]. by eapply stable_run; [apply good_spawn| |exact E1]. }
  unfold on_os in E9. destruct (monotonic_reads children time (su_os s9)) as (t' & o & Em & Hco & Ht1 & Ht2).
  rewrite Em in E9. injection E9 as <- <-.
  set (s10 := Sup o (su_workers s9) (su_n s9)) in *.
  pose proof (wait_succeeded_ends rid (t' + 60)%Q rounds s10) as Hend.
  assert (x3 = rid) as -> by (unfold with_db, on_os, on_db in E3;
    destruct (submit_run _ _ _ _ _ _) as [[y|y] d] eqn:Es; [|done];
    apply submit_run_id in Es as ->; by injection E3 as <- _).
  rewrite E10 in Hend. destruct dn.
  - cbn [negb] in Hm. do 4 (apply bind_Ok_inv in Hm as (? & ? & _ & Hm)). done.
  - apply Hend; [|simpl; lra|done]. split; [|apply Qle_refl].
    pose proof (good_monotonic (time (su_os s)) s9 Hg9) as H4. unfold on_os in H4. rewrite Em in H4. apply H4.
Qed.
End TrialFacts.

(** ** What a trial measured *)

(** The database as a trial leaves its loop: the run has succeeded; its gap is
    the one the query computes, and it is clean when the log check passed and
    the log has every step once. *)
Definition measured (rid : uuid) (d : db) (gap : Z) (clean : bool) : Prop :=
  (exists row, runs d !! rid = Some row /\ run_status_of row = Succeeded) /\
  recovery_gap rid d = Some gap /\
  exists integrity, log_integrity [rid] d = Ok integrity /\
    (clean = true <-> ir_passed integrity = true /\ length (events_of rid d) = 20%nat).

Section Measured.
Context {S : Type} `{HasDbLaws S} `{Processes S} `{Docker S}.
Context (os_environ : environ) (SRC : string) (float_str float_text : Q -> string).

(** Reading the database leaves it. *)
Lemma with_db_reads {A} (f : db -> res A) (s : sup S) :
  with_db (fun d => (f d, d)) s = (f (get_db (su_os s)), s).
Proof. unfold with_db, on_os, on_db. rewrite put_get_db. by destruct s. Qed.

Lemma with_db_gets {A} (f : db -> A) (s : sup S) : with_db (gets f) s = (Ok (f (get_db (su_os s))), s).
Proof. exact (with_db_reads (fun d => Ok (f d)) s). Qed.

Lemma wait_succeeded_sees rid deadline rounds (s s' : sup S) :
  wait_succeeded rid deadline rounds s = (Ok true, s') ->
  run_status_of <$> runs (get_db (su_os s')) !! rid = Some Succeeded.
Proof.
  revert s. induction rounds as [|rounds IH]; intros s E; [done|]. cbn [wait_succeeded] in E.
  unfold mbind at 1, M_bind at 1 in E. rewrite with_db_gets in E.
  destruct (bool_decide _) eqn:Hb; [injection E as <-; by apply bool_decide_eq_true in Hb|].
  apply bind_Ok_inv in E as (t & s1 & _ & E). destruct (negb _); [done|].
  apply bind_Ok_inv in E as (u & s2 & _ & E). by eapply IH.
Qed.

Lemma trial_body_measured inj now rid tid r1 r2 (s s' : sup S) gap clean :
  trial_body os_environ SRC float_str float_text inj now rid tid r1 r2 s = (Ok (Trial gap clean), s') ->
  measured rid (get_db (su_os s')) gap clean.
Proof.
  intros Hm. unfold trial_body in Hm. apply bind_Ok_inv in Hm as (x1 & s2 & E1 & Hm).
  apply bind_Ok_inv in Hm as (x2 & s3 & E2 & Hm). apply bind_Ok_inv in Hm as (x3 & s4 & E3 & Hm).
  assert (x3 = rid) as -> by (unfold with_db, on_os, on_db in E3;
    destruct (submit_run _ _ _ _ _ _) as [[y|y] d] eqn:Es; [|done];
    apply submit_run_id in Es as ->; by injection E3 as <- _).
  apply bind_Ok_inv in Hm as ([|] & s5 & E4 & Hm); [|done]. cbn [negb] in Hm.
  apply bind_Ok_inv in Hm as (x5 & s6 & E5 & Hm). apply bind_Ok_inv in Hm as (x6 & s7 & E6 & Hm).
  apply bind_Ok_inv in Hm as (x7 & s8 & E7 & Hm). apply bind_Ok_inv in Hm as (x8 & s9 & E8 & Hm).
  apply bind_Ok_inv in Hm as (t & s10 & E9 & Hm). apply bind_Ok_inv in Hm as ([|] & s11 & E10 & Hm); [|done].
  cbn [negb] in Hm. apply wait_succeeded_sees in E10.
  unfold mbind, M_bind in Hm. rewrite with_db_gets, with_db_reads in Hm.
  destruct (log_integrity [rid] _) as [integrity|] eqn:Hi; [|done]. rewrite with_db_gets in Hm.
  destruct (recovery_gap rid _) as [g|] eqn:Hg; [|done]. injection Hm as <- <- <-. unfold measured.
  destruct (runs _ !! rid) as [row|] eqn:Hrow; [|done]. injection E10 as Hst.
  split_and!; [by exists row|done|]. exists integrity. split; [done|].
  rewrite andb_true_iff, Z.eqb_eq. unfold count_events, STEPS. apply and_iff_compat_l. lia.
Qed.

(** A trial of [one_trial]: its workers are the injector's own, and it ends
    with [shutdown]. *)
Lemma one_trial_measured dsn ws now rid tid r1 r2 (s s' : sup S) gap clean :
  one_trial os_environ SRC float_str float_text dsn ws now rid tid r1 r2 s = (Ok (Trial gap clean), s') ->
  exists s1, measured rid (get_db (su_os s1)) gap clean /\
    trial_body os_environ SRC float_str float_text (MkInjector dsn LEASE ws false false) now rid tid r1 r2
      (Sup (su_os s) [] 0) = (Ok (Trial gap clean), s1) /\
    shutdown s1 = (Ok tt, s').
Proof.
  unfold one_trial, new_injector, modify, try_finally. unfold mbind at 1, M_bind at 1.
  destruct (trial_body _ _ _ _ _ _ _ _ _ _ _) as [r s1] eqn:Eb. intros E. exists s1.
  destruct (shutdown s1) as [[[]|e] s2]; [|done]. injection E as -> <-.
  split_and!; [by eapply trial_body_measured|done|done].
Qed.
End Measured.

(** ** What the gap measures *)
Section Gap.

(** Folding [min] or [max] gives an extreme element. *)
Lemma fold_extreme (op : Z -> Z -> Z) (R : Z -> Z -> Prop) `{!PreOrder R} :
  (forall x y, op x y = x /\ R x y \/ op x y = y /\ R y x) ->
  forall x l, foldr op x l ∈ x :: l /\ Forall (R (foldr op x l)) (x :: l).
Proof.
  intros Hop x l. induction l as [|y l [IH1 IH2]]; simpl; [split; [left|by constructor]|].
  apply Forall_cons in IH2 as [H1 H2]. rewrite !Forall_cons.
  destruct (Hop y (foldr op x l)) as [[-> Hr]|[-> Hr]].
  - split; [by right; left|]. split_and!; [by etrans|done|].
    eapply Forall_impl; [exact H2|]. intros z Hz. by etrans.
  - split; [|done]. apply elem_of_cons in IH1 as [->|]; [by left|by do 2 right].
Qed.

Lemma column_min_Some l m : column_min l = Some m <-> m ∈ l /\ Forall (fun x => m <= x) l.
Proof.
  destruct l as [|x l]; [split; [done|by intros [?%not_elem_of_nil _]]|].
  destruct (fold_extreme Z.min Z.le ltac:(lia) x l) as [H1 H2]. simpl. split; [by intros [= <-]|].
  intros [H3 H4]. f_equal. rewrite Forall_forall in H2, H4. apply H2 in H3. apply H4 in H1. lia.
Qed.

Lemma column_max_Some l m : column_max l = Some m <-> m ∈ l /\ Forall (fun x => x <= m) l.
Proof.
  destruct l as [|x l]; [split; [done|by intros [?%not_elem_of_nil _]]|].
  destruct (fold_extreme Z.max (flip Z.le) ltac:(unfold flip; lia) x l) as [H1 H2]. simpl.
  split; [by intros [= <-]|].
  intros [H3 H4]. f_equal. rewrite Forall_forall in H2, H4. apply H2 in H3. apply H4 in H1. unfold flip in H3. lia.
Qed.

(** A list sorted by a key splits where the key passes a bound. *)
Lemma sorted_split {A} (f : A -> Z) k l :
  StronglySorted (fun x y => f x <= f y) l ->
  exists l1 l2, l = l1 ++ l2 /\ Forall (fun x => f x <= k) l1 /\ Forall (fun x => k < f x) l2.
Proof.
  induction 1 as [|x l Hs IH Hx]; [by exists [], []|]. destruct (decide (f x <= k)) as [Hle|Hgt].
  - destruct IH as (l1 & l2 & -> & H1 & H2). exists (x :: l1), l2. split_and!; [done|by constructor|done].
  - exists [], (x :: l). split_and!; [done..|]. constructor; [lia|].
    eapply Forall_impl; [exact Hx|]. simpl. lia.
Qed.

Lemma StronglySorted_filter {A} (R : A -> A -> Prop) (P : A -> Prop) `{forall x, Decision (P x)} l :
  StronglySorted R l -> StronglySorted R (filter P l).
Proof.
  induction 1 as [|x l Hs IH Hx]; [constructor|]. rewrite filter_cons. case_decide; [|done].
  constructor; [done|]. rewrite Forall_forall in *. intros y [_ Hy]%list_elem_of_filter. by apply Hx.
Qed.

Lemma StronglySorted_fmap_le {A} (f : A -> Z) l :
  Sorted Z.le (f <$> l) -> StronglySorted (fun x y => f x <= f y) l.
Proof.
  intros Hs. apply Sorted_StronglySorted in Hs; [|intros x y z; lia].
  induction l as [|x l IH]; [constructor|]. rewrite fmap_cons in Hs.
  apply StronglySorted_inv in Hs as [Hs Hx]. constructor; [by apply IH|].
  rewrite Forall_forall in Hx. apply Forall_forall. intros y Hy. by apply Hx, list_elem_of_fmap_2.
Qed.

Definition run_rows (rid : uuid) (d : db) : list event_row :=
  filter (fun row => ev_run_id (er_event row) = rid) (events d).

Lemma rows_of_events rid d : er_event <$> run_rows rid d = events_of rid d.
Proof.
  unfold run_rows, events_of. induction (events d) as [|row l IH]; [done|]. rewrite fmap_cons, !filter_cons.
  simpl. destruct (decide (ev_run_id (er_event row) = rid)); [by rewrite fmap_cons, IH|done].
Qed.

Lemma elem_of_committed_at rid a d x :
  x ∈ committed_at rid a d <->
  exists row, row ∈ run_rows rid d /\ ev_attempt (er_event row) = a /\ x = er_created_at row.
Proof.
  unfold committed_at, run_rows. rewrite list_elem_of_fmap. split.
  - intros (row & -> & [[Hr Ha] Hin]%list_elem_of_filter). exists row. by rewrite list_elem_of_filter.
  - intros (row & [Hr Hin]%list_elem_of_filter & Ha & ->). exists row. by rewrite list_elem_of_filter.
Qed.

(** The last row of attempt 1 and the first of attempt 2 are neighbours. *)
Lemma takeover_rows (f : event_row -> Z) rows r1 r2 :
  StronglySorted (fun x y => f x <= f y) rows -> r1 ∈ rows -> f r1 = 1 -> r2 ∈ rows -> f r2 = 2 ->
  exists pre e1 e2 post, rows = pre ++ e1 :: e2 :: post /\ f e1 = 1 /\ f e2 = 2 /\
    Forall (fun x => f x <= 1) pre /\ Forall (fun x => 2 <= f x) post.
Proof.
  intros Hs H1 F1 H2 F2. destruct (sorted_split f 1 rows Hs) as (l1 & l2 & -> & Hl1 & Hl2).
  assert (H1' : r1 ∈ l1).
  { apply elem_of_app in H1 as [|H1]; [done|]. rewrite Forall_forall in Hl2. specialize (Hl2 _ H1). lia. }
  assert (H2' : r2 ∈ l2).
  { apply elem_of_app in H2 as [H2|]; [|done]. rewrite Forall_forall in Hl1. specialize (Hl1 _ H2). lia. }
  destruct l1 as [|e1 pre _] using rev_ind; [by apply not_elem_of_nil in H1'|].
  destruct l2 as [|e2 post]; [by apply not_elem_of_nil in H2'|]. exists pre, e1, e2, post.
  apply Forall_app in Hl1 as [Hpre He1]. apply Forall_cons in He1 as [He1 _].
  apply Forall_cons in Hl2 as [He2 Hpost].
  apply StronglySorted_app in Hs as (_ & Hs1 & Hs2). rewrite <- app_assoc. simpl.
  assert (f e1 = 1).
  { apply elem_of_app in H1' as [Hin|Hin%list_elem_of_singleton]; [|by rewrite <- Hin].
    pose proof (StronglySorted_app_1_elem_of _ _ _ r1 e1 Hs1 Hin ltac:(left)). simpl in *. lia. }
  assert (f e2 = 2).
  { apply elem_of_cons in H2' as [->|Hin]; [done|]. apply StronglySorted_inv in Hs2 as [_ Hx].
    rewrite Forall_forall in Hx. specialize (Hx _ Hin). lia. }
  split_and!; [done..|]. eapply Forall_impl; [exact Hpost|]. simpl. lia.
Qed.

(** C38: the recovery gap is the time between two neighbouring steps.  In every
    run of the workers with fencing, whatever happened, the gap the benchmark
    computes for a run is never negative, and it is the time from the last
    step committed by the first attempt to the very next step of the run,
    which the second attempt committed. *)
Theorem recovery_gap_correct exc_str exc_repr faulty s rid g :
  loop_reachable true faulty exc_str exc_repr s -> recovery_gap rid (lo_db s) = Some g ->
  0 <= g /\
  exists pre e1 e2 post, run_rows rid (lo_db s) = pre ++ e1 :: e2 :: post /\
    ev_attempt (er_event e1) = 1 /\ ev_attempt (er_event e2) = 2 /\
    g = er_created_at e2 - er_created_at e1.
Proof.
  intros Hr Hg. set (d := lo_db s) in *.
  pose proof (reachable_fenced _ _ _ (loop_system true faulty exc_str exc_repr s Hr)) as Hf.
  pose proof (reachable_stamped _ _ _ _ _ Hr) as [Hst _]. simpl in Hf. fold d in Hf, Hst.
  unfold recovery_gap in Hg. destruct (column_min _) as [t2|] eqn:E2; [|done].
  destruct (column_max _) as [t1|] eqn:E1; [|done]. injection Hg as <-.
  apply column_min_Some in E2 as [I2 M2]. apply column_max_Some in E1 as [I1 M1].
  apply elem_of_committed_at in I2 as (r2 & H2 & F2 & ->), I1 as (r1 & H1 & F1 & ->).
  rewrite Forall_forall in M1, M2.
  assert (Hatt : StronglySorted (fun x y => ev_attempt (er_event x) <= ev_attempt (er_event y)) (run_rows rid d)).
  { apply (StronglySorted_fmap_le (fun row => ev_attempt (er_event row))).
    pose proof (fi_sorted d Hf rid) as Hs. apply Sorted_inv in Hs as [Hs _].
    by rewrite <- rows_of_events, <- list_fmap_compose in Hs. }
  assert (Hcr : StronglySorted (fun x y => er_created_at x <= er_created_at y) (run_rows rid d))
    by (by apply StronglySorted_filter, StronglySorted_fmap_le).
  destruct (takeover_rows _ _ r1 r2 Hatt H1 F1 H2 F2) as (pre & e1 & e2 & post & Hrows & A1 & A2 & Hpre & Hpost).
  assert (Hin1 : e1 ∈ run_rows rid d) by (rewrite Hrows; apply elem_of_app; right; left).
  assert (Hin2 : e2 ∈ run_rows rid d) by (rewrite Hrows; apply elem_of_app; right; right; left).
  pose proof (M1 _ (proj2 (elem_of_committed_at _ _ _ _) (ex_intro _ e1 (conj Hin1 (conj A1 eq_refl))))) as L1.
  pose proof (M2 _ (proj2 (elem_of_committed_at _ _ _ _) (ex_intro _ e2 (conj Hin2 (conj A2 eq_refl))))) as L2.
  rewrite Hrows in Hcr, H1, H2.
  assert (U1 : er_created_at r1 <= er_created_at e1).
  { apply elem_of_app in H1 as [Hin|Hin].
    - exact (StronglySorted_app_1_elem_of _ _ _ _ _ Hcr Hin ltac:(left)).
    - apply elem_of_cons in Hin as [->|Hin]; [lia|]. apply elem_of_cons in Hin as [->|Hin]; [lia|].
      rewrite Forall_forall in Hpost. specialize (Hpost _ Hin). lia. }
  apply StronglySorted_app in Hcr as (_ & _ & Hcr). apply StronglySorted_inv in Hcr as [Hcr He1].
  apply Forall_cons in He1 as [He12 _].
  assert (U2 : er_created_at e2 <= er_created_at r2).
  { apply elem_of_app in H2 as [Hin|Hin].
    - rewrite Forall_forall in Hpre. specialize (Hpre _ Hin). lia.
    - apply elem_of_cons in Hin as [->|Hin]; [lia|]. apply elem_of_cons in Hin as [->|Hin]; [lia|].
      apply StronglySorted_inv in Hcr as [_ Hx]. rewrite Forall_forall in Hx. by apply Hx. }
  split; [lia|]. exists pre, e1, e2, post. split_and!; [done..|lia].
Qed.
End Gap.

(** C9: without a crash or an error no call to a model is repeated.  In every
    run of the workers in which heartbeats are in time, no process is killed or
    cancelled and no execution raises, every step of every run is asked for at
    most once, so that the count of repeated calls that [chaos_bench.py] and
    [demo.py] print is zero for any choice of runs. *)
Theorem no_repeated_call exc_str exc_repr s run_ids :
  smooth_reachable exc_str exc_repr s ->
  duplicate_llm_calls run_ids (lo_db s) = 0 /\ NoDup (call_key <$> provider_calls (lo_db s)).
Proof.
  intros Hr%(smooth_texts _ _ (fun _ => ""%string) (fun _ => ""%string)).
  assert (Hnul : texts_nul_free (fun _ => ""%string) (fun _ => ""%string)) by done.
  pose proof (smooth_calls _ _ Hnul s Hr) as Hone.
  pose proof (calm_loop_reachable _ _ _ (smooth_calm _ _ _ Hr)) as Hl.
  pose proof (di_billing _ (inv_db _ (li_sys _ (reachable_loops_ok _ _ _ _ _ Hl)))) as Hn. simpl in Hn.
  assert (Hkeys : forall l, Forall (fun cr => call_attempt cr = 1) l -> NoDup (call_id <$> l) -> NoDup (call_key <$> l)).
  { induction l as [|cr l IH]; [constructor|]. rewrite !fmap_cons, Forall_cons. intros [H1 Hl1] [Hx Hn1]%NoDup_cons.
    constructor; [|by apply IH]. intros (cr' & Heq & Hin)%list_elem_of_fmap. apply Hx.
    apply list_elem_of_fmap. exists cr'. split; [|done]. unfold call_id. rewrite Forall_forall in Hl1.
    by rewrite Heq, H1, (Hl1 cr' Hin). }
  split; [|by apply Hkeys]. apply duplicate_llm_calls_zero. specialize (Hkeys _ Hone Hn). clear -Hkeys.
  induction (provider_calls (lo_db s)) as [|cr l IH]; [constructor|]. rewrite fmap_cons in Hkeys.
  apply NoDup_cons in Hkeys as [Hx Hl]. rewrite filter_cons. case_decide; [|by apply IH]. rewrite fmap_cons.
  constructor; [|by apply IH]. intros (cr' & Heq & [_ Hin]%list_elem_of_filter)%list_elem_of_fmap. apply Hx.
  apply list_elem_of_fmap. by exists cr'.
Qed.
