(* ===== verification/Scripts.v ===== *)
(** The [main] functions of [bench/], with what they print and save under
    [bench/results/].  The numbers of a script are what its trials measured;
    the theorems say that the summaries it prints belong to them. *)

From Stdlib Require Import QArith Qround Lqa.
From S2P Require Import Prelude PyString PyDecimal Json JsonParse Env Database Store Leases Engine LlmCache.
From S2P Require Import Workspace Agent Invariants Runner Scenarios Workers Injector Supervisor.
From S2P Require Import Timeline Evals EvalRun Argparse Cli Bench BenchRuns.

(** ** [common.py] *)

(** [database_url()]: [.env] first, then [os.environ]; the environment it
    leaves. *)
Definition database_url (file : option string) (os_environ : environ) : res (string * environ) :=
  let '(loaded, env) := load_dotenv file os_environ in
  loaded ≫= fun _ =>
  match env !! "DATABASE_URL" with
  | Some url => if bool_decide (url = "") then Raise (SystemExit 1) else Ok (url, env)
  | None => Raise (SystemExit 1)
  end.

(** [{**d, **e}] *)
Definition dict_merge (d e : dict) : dict := foldl (fun d kv => dset (fst kv) (snd kv) d) d e.

(** [sum(s[k] for s in entries)] of numbers and booleans *)
Definition json_number (v : json) : res Z :=
  match v with JInt n => Ok n | JBool b => Ok (Z.b2z b) | _ => Raise TypeError end.
Fixpoint total (k : string) (entries : list dict) : res Z :=
  match entries with
  | [] => Ok 0
  | s :: entries' =>
      v ← dindex k s;
      n ← json_number v;
      rest ← total k entries';
      mret (n + rest)
  end.

(** Seconds of a difference of two times. *)
Definition seconds (micros : Z) : Q := (inject_Z micros / (1000000#1))%Q.

(** ** [recovery_bench.py] *)
Section RecoverySummary.
(** [round(x, 2)] as JSON writes it, and [str] of a float. *)
Context (round2 float_text : Q -> string).

(** The summary of the trials' gaps and verdicts. *)
Definition recovery_summary (trials : Z) (results : list (Z * bool)) : res dict :=
  let gaps := sort_by Q_leb ((fun r => seconds (fst r)) <$> results) in
  lowest ← of_option IndexError (head gaps);
  middle ← median gaps;
  p95 ← percentile gaps (19#20)%Q;
  highest ← of_option IndexError (last gaps);
  mret
    [("config", JObj [("lease_seconds", JFloat (float_text LEASE)); ("steps", JInt STEPS);
                      ("trials", JInt trials); ("workers", JInt 2)]);
     ("all_clean", JBool (forallb snd results));
     ("recovery_gap_s", JObj [("min", JFloat (round2 lowest)); ("median", JFloat (round2 middle));
                              ("p95", JFloat (round2 p95)); ("max", JFloat (round2 highest))]);
     ("trials_detail", JArr ((fun g => JFloat (round2 g)) <$> gaps))].
End RecoverySummary.

(** ** The command lines of the scripts *)
Definition trials_of (default : Z) (argv : list string) : res Z :=
  ns ← parse_options (MkParser [help_option; store "--trials" "trials" TInt (AInt default)] None) argv;
  of_option (SystemExit 2) (attr_int ns "trials").

Definition chaos_bench_parser : parser_spec := MkParser
  [help_option; MkOption ["--seeds"] "seeds" (StoreMany TInt true) (AList (string_of_Z <$> [1; 2; 3; 4; 5])) false;
   store "--runs" "runs" TInt (AInt 30)] None.

Definition chaos_bench_args (argv : list string) : res (list Z * Z) :=
  ns ← parse_options chaos_bench_parser argv;
  texts ← of_option (SystemExit 2) (attr_list ns "seeds");
  seeds ← mapR (fun s => of_option (SystemExit 2) (parse_int (str_to_list s))) texts;
  runs ← of_option (SystemExit 2) (attr_int ns "runs");
  Ok (seeds, runs).

Example bench_args :
  trials_of 8 [] = Ok 8 /\ trials_of 20 ["--tri=3"] = Ok 3 /\ trials_of 8 ["--trials"; "x"] = Raise (SystemExit 2) /\
  chaos_bench_args [] = Ok ([1; 2; 3; 4; 5], 30) /\
  chaos_bench_args ["--seeds"; "7"; "-2"; "--runs"; "4"] = Ok ([7; -2], 4) /\
  chaos_bench_args ["--seeds"; "--runs"; "4"] = Raise (SystemExit 2) /\
  chaos_bench_args ["--seeds"; "1"; "two"; "-h"] = Raise (SystemExit 2).
Proof. vm_compute. done. Qed.

(** ** [demo.py] *)

(** The rows of a worker in mid-run: leased tasks with two events or more. *)
Definition held_tasks (ids : list uuid) (d : db) : list task_row :=
  filter (fun t => task_status_of t = Leased /\ task_run_id t ∈ ids /\ 2 <= count_events (task_run_id t) d)
    (snd <$> map_to_list (tasks d)).

(** The runs that needed a takeover. *)
Definition taken_runs (ids : list uuid) (d : db) : list uuid :=
  task_run_id <$> filter (fun t => task_run_id t ∈ ids /\ 1 < task_attempt t) (snd <$> map_to_list (tasks d)).

Definition DEMO_SPEC : json :=
  JObj [("kind", JStr "agent"); ("prompt", JStr "print hello"); ("mock_scenario", JStr "fail_twice_then_fix")].

Section Scripts.
Context {S Schema : Type} `{HasDb S} `{HasFs S} `{HasSchema S Schema} `{Processes S} `{Docker S}.
Context (MIGRATIONS : list (string * string)) (exec : string -> M Schema unit).
(** Texts of floats and times; the package and result directories; the
    versions [platform] reports; [time.perf_counter()]. *)
Context (float_str float_text fixed1 fixed1_5 round1 round2 : Q -> string) (secs : Z -> string).
Context (SRC RESULTS python os_name : string) (perf_counter : M S Q) (decode : list ascii -> string).

Definition environment : dict := [("python", JStr python); ("os", JStr os_name)].

Definition save (name : string) (data : dict) : M (cli S) unit :=
  let data := dict_merge [("environment", JObj environment)] data in
  let text := dumps_indent 0 (JObj data) in
  Cli.write_file (RESULTS +:+ "/" +:+ name +:+ ".json") (text +:+ chr 10) ;;
  print text.

(** [one_trial] for [_ in range(trials)]: [draws] are the times, identifiers
    and directories drawn.  [None]: a trial ran out of rounds. *)
Fixpoint all_trials (dsn : string) (env : environ) (trials : nat)
    (draws : list (Z * uuid * uuid * string)) (r1 r2 : nat) : M (cli S) (option (list (Z * bool))) :=
  match trials, draws with
  | Datatypes.S trials', (now, rid, tid, ws) :: draws' =>
      t ← on_sup (one_trial env SRC float_str float_text dsn ws now rid tid r1 r2);
      match t with
      | Trial gap clean =>
          rest ← all_trials dsn env trials' draws' r1 r2;
          mret (cons (gap, clean) <$> rest)
      | _ => mret None
      end
  | _, _ => mret (Some [])
  end.

Definition recovery_main (file : option string) (os_environ : environ) (trials : Z)
    (draws : list (Z * uuid * uuid * string)) (r1 r2 : nat) : M (cli S) (option unit) :=
  '(dsn, env) ← lift_res (database_url file os_environ);
  migrate_db MIGRATIONS exec ;;
  results ← all_trials dsn env (Z.to_nat trials) draws r1 r2;
  match results with
  | None => mret None
  | Some results =>
      data ← lift_res (recovery_summary round2 float_text trials results);
      save "recovery" data ;;
      mret (Some tt)
  end.

(** [chaos_bench.py]: a seed with its plan and what the run draws. *)
Fixpoint all_seeds (dsn : string) (env : environ) (seeds : list Z) (runs : Z) (draws : list drawn) :
    M (cli S) (option (list dict)) :=
  match seeds, draws with
  | seed :: seeds', dr :: draws' =>
      let cfg := MkChaosConfig seed (Z.to_nat runs) 3 LEASE "mixed" None (300#1)%Q false in
      let inj := MkInjector dsn LEASE ("/" +:+ path_str (dr_tmp dr ++ ["ws"])) false false in
      report ← on_sup (new_injector ;;
        run_chaos env SRC float_str fixed1 fixed1_5 inj cfg (dr_specs dr) (dr_schedule dr) (dr_keys dr)
          (dr_rounds dr));
      match report with
      | None => mret None
      | Some r =>
          entry ← cli_db (gets (seed_entry round1 seed r));
          print ("seed " +:+ string_of_Z seed +:+ ": " +:+
                 (if passed (cr_invariants r) then "PASS" else "FAIL")) ;;
          rest ← all_seeds dsn env seeds' runs draws';
          mret (cons entry <$> rest)
      end
  | _, _ => mret (Some [])
  end.

Definition chaos_summary (seeds : list Z) (runs : Z) (per_seed : list dict) : res dict :=
  passed_ ← total "passed" per_seed;
  faults_hit ← total "faults_hit" per_seed;
  kill_9 ← total "kill_9" per_seed;
  suspend_ ← total "suspend" per_seed;
  docker_kill_ ← total "docker_kill" per_seed;
  takeovers ← total "takeovers" per_seed;
  calls ← total "provider_calls" per_seed;
  duplicates ← total "duplicate_llm_calls" per_seed;
  mret
    [("config", JObj [("seeds", JArr (JInt <$> seeds)); ("runs_per_seed", JInt runs);
                      ("workload", JStr "mixed"); ("workers", JInt 3)]);
     ("seeds_passed", JInt passed_); ("total_runs", JInt (runs * Z.of_nat (length seeds)));
     ("faults_hit", JInt faults_hit); ("kill_9", JInt kill_9); ("suspend", JInt suspend_);
     ("docker_kill", JInt docker_kill_); ("takeovers", JInt takeovers); ("provider_calls", JInt calls);
     ("duplicate_llm_calls", JInt duplicates); ("per_seed", JArr (JObj <$> per_seed))].

Definition chaos_main (file : option string) (os_environ : environ) (seeds : list Z) (runs : Z)
    (draws : list drawn) : M (cli S) (option unit) :=
  '(dsn, env) ← lift_res (database_url file os_environ);
  migrate_db MIGRATIONS exec ;;
  per_seed ← all_seeds dsn env seeds runs draws;
  match per_seed with
  | None => mret None
  | Some per_seed =>
      data ← lift_res (chaos_summary seeds runs per_seed);
      save "chaos" data ;;
      mret (Some tt)
  end.

(** [demo.py]: the lease owner of the first task that is in mid-run.  [None]:
    the rounds of the loop without a deadline are used up. *)
Fixpoint wait_held (ids : list uuid) (rounds : nat) : M (sup S) (option (option string)) :=
  match rounds with
  | O => mret None
  | Datatypes.S rounds' =>
      held ← with_db (gets (held_tasks ids));
      match held with
      | t :: _ => mret (Some (task_lease_owner t))
      | [] => on_os (sleep (1#20)) ;; wait_held ids rounds'
      end
  end.

(** The loop with the deadline: the statuses read last, if any were. *)
Fixpoint wait_statuses (ids : list uuid) (deadline : Q) (rounds : nat) (rows : option (list run_status)) :
    M (sup S) (option (option (list run_status))) :=
  match rounds with
  | O => mret None
  | Datatypes.S rounds' =>
      t ← on_os monotonic;
      if Qle_bool deadline t then mret (Some rows)
      else
        rows ← with_db (gets (fun d => (fun p => run_status_of (snd p)) <$> select_runs ids d));
        if forallb TERMINAL rows then mret (Some (Some rows))
        else on_os (sleep (3#10)) ;; wait_statuses ids deadline rounds' (Some rows)
  end.

Definition count_status (st : run_status) (rows : list run_status) : nat :=
  length (filter (fun r => r = st) rows).

Definition demo_report (ids : list uuid) (rows : option (list run_status)) : M (cli S) unit :=
  statuses ← lift_res (of_option NameError rows);
  print ("   runs: " +:+ text_of_nat (count_status Succeeded statuses) +:+ "/10 succeeded") ;;
  taken ← cli_db (gets (taken_runs ids));
  print ("   runs that needed a takeover: " +:+ text_of_nat (length taken)) ;;
  (match taken with
   | rid :: _ =>
       text ← cli_db (build_timeline secs rid);
       print (chr 10 +:+ text +:+ chr 10)
   | [] => mret tt
   end) ;;
  calls ← cli_db (gets (provider_call_count ids));
  distinct ← cli_db (gets (distinct_steps ids));
  print ("3. LLM calls: " +:+ string_of_Z calls +:+ ", distinct (run, step): " +:+ string_of_Z distinct +:+
         ", repeated: " +:+ string_of_Z (calls - distinct)).

(** [None]: a loop ran out of rounds; [keys] are the draws of the ten runs. *)
Definition demo_body (env : environ) (inj : Injector) (keys : list (Z * uuid * uuid)) (r1 r2 : nat) :
    M (cli S) (option unit) :=
  print "1. starting 2 workers, submitting 10 runs" ;;
  on_sup (spawn_worker env SRC float_str inj) ;;
  on_sup (spawn_worker env SRC float_str inj) ;;
  ids ← on_sup (submit_all (replicate 10 DEMO_SPEC) keys);
  owner ← on_sup (wait_held ids r1);
  match owner with
  | None => mret None
  | Some owner =>
      ws ← on_sup (gets su_workers);
      victim ← lift_res (find_worker owner ws);
      print ("2. kill -9 " +:+ wk_name victim +:+ " while it holds a lease") ;;
      on_sup (kill victim) ;;
      on_sup (spawn_worker env SRC float_str inj) ;;
      t ← on_sup (on_os monotonic);
      rows ← on_sup (wait_statuses ids (t + (120#1))%Q r2 None);
      match rows with
      | None => mret None
      | Some rows => demo_report ids rows ;; mret (Some tt)
      end
  end.

Definition demo_main (file : option string) (os_environ : environ) (ws : string)
    (keys : list (Z * uuid * uuid)) (r1 r2 : nat) : M (cli S) (option unit) :=
  '(dsn, env) ← lift_res (database_url file os_environ);
  migrate_db MIGRATIONS exec ;;
  on_sup new_injector ;;
  let inj := MkInjector dsn LEASE ws false false in
  try_finally (demo_body env inj keys r1 r2) (on_sup shutdown).

(** [sandbox_bench.py]: one run of [python main.py], timed from outside and by
    the runner, in milliseconds. *)
Definition sandbox_run (ws : path) (name : string) : M (cli S) SandboxResult :=
  on_sup (on_os (runner_run decode ws ["python"; "main.py"] (Some default_policy) name)).

Definition sandbox_trial (ws : path) (name : string) : M (cli S) (Q * Q) :=
  t ← on_sup (on_os perf_counter);
  res ← sandbox_run ws name;
  t' ← on_sup (on_os perf_counter);
  if (sb_exit_code res =? 0) && bool_decide (strip (sb_stdout res) = "1") then
    mret (((t' - t) * (1000#1))%Q, inject_Z (sb_duration_ms res))
  else raise AssertionError.

Fixpoint sandbox_trials (ws : path) (trials : nat) (names : list string) : M (cli S) (list (Q * Q)) :=
  match trials, names with
  | Datatypes.S trials', name :: names' =>
      x ← sandbox_trial ws name;
      rest ← sandbox_trials ws trials' names';
      mret (x :: rest)
  | _, _ => mret []
  end.

Definition sandbox_summary (trials : Z) (times : list (Q * Q)) : res dict :=
  let wall := sort_by Q_leb (fst <$> times) in
  let inner := sort_by Q_leb (snd <$> times) in
  wall_median ← median wall;
  wall_p95 ← percentile wall (19#20)%Q;
  wall_max ← of_option IndexError (last wall);
  inner_median ← median inner;
  inner_p95 ← percentile inner (19#20)%Q;
  mret
    [("config", JObj [("trials", JInt trials); ("image", JStr (image default_policy));
                      ("command", JStr "python main.py")]);
     ("wall_ms", JObj [("median", JInt (py_round wall_median)); ("p95", JInt (py_round wall_p95));
                       ("max", JInt (py_round wall_max))]);
     ("container_start_to_exit_ms", JObj [("median", JInt (py_round inner_median));
                                          ("p95", JInt (py_round inner_p95))])].

(** [ws] is what [mkdtemp] made; the first name is the warm-up's. *)
Definition sandbox_main (trials : Z) (ws : path) (warm_up : string) (names : list string) : M (cli S) unit :=
  on_sup (on_os (ensure_image (image default_policy))) ;;
  on_sup (on_os (with_fs (write_text (ws ++ ["main.py"]) ("print(1)" +:+ chr 10)))) ;;
  sandbox_run ws warm_up ;;
  times ← sandbox_trials ws (Z.to_nat trials) names;
  data ← lift_res (sandbox_summary trials times);
  save "sandbox" data.
End Scripts.

(** ** The numbers of a summary *)
Lemma Q_leb_total a b : Q_leb a b = false -> Q_leb b a = true.
Proof.
  unfold Q_leb. intros Hn. apply Qle_bool_iff. destruct (Qlt_le_dec b a) as [|Hle]; [by apply Qlt_le_weak|].
  apply Qle_bool_iff in Hle. congruence.
Qed.

Lemma sorted_bounds (l : list Q) :
  l <> [] -> exists lo hi, head (sort_by Q_leb l) = Some lo /\ last (sort_by Q_leb l) = Some hi /\
    forall x, x ∈ sort_by Q_leb l -> (lo <= x <= hi)%Q.
Proof.
  intros Hne.
  assert (Hs : StronglySorted (fun x y => Is_true (Q_leb x y)) (sort_by Q_leb l)).
  { apply Sorted_StronglySorted; [|apply sort_by_Sorted, Q_leb_total].
    intros x y z. unfold Q_leb. rewrite !Is_true_true, !Qle_bool_iff. apply Qle_trans. }
  destruct l as [|a l']; [done|]. assert (Ha : a ∈ sort_by Q_leb (a :: l')) by (apply elem_of_sort_by; left).
  set (q := sort_by Q_leb (a :: l')) in *. clearbody q.
  destruct q as [|lo q]; [by apply not_elem_of_nil in Ha|]. destruct (last (lo :: q)) as [hi|] eqn:El;
    [|by apply last_None in El].
  exists lo, hi. split_and!; [done..|]. intros x Hx. apply last_Some in El as [pre El]. split.
  - apply elem_of_cons in Hx as [->|Hx]; [apply Qle_refl|]. apply StronglySorted_inv in Hs as [_ Hs].
    rewrite Forall_forall in Hs. apply Hs in Hx. by apply Is_true_true, Qle_bool_iff in Hx.
  - rewrite El in Hs, Hx. apply elem_of_app in Hx as [Hx|Hx%list_elem_of_singleton]; [|rewrite Hx; apply Qle_refl].
    pose proof (StronglySorted_app_1_elem_of _ _ _ x hi Hs Hx ltac:(left)) as Hle.
    by apply Is_true_true, Qle_bool_iff in Hle.
Qed.

(** The median lies between any bounds of the data. *)
Lemma median_between l lo hi :
  l <> [] -> (forall x, x ∈ l -> (lo <= x <= hi)%Q) -> exists m, median l = Ok m /\ (lo <= m <= hi)%Q.
Proof.
  intros Hne Hb. unfold median. set (q := sort_by Q_leb l).
  assert (Hq : forall x, x ∈ q -> (lo <= x <= hi)%Q) by (intros x Hx; by apply Hb, (elem_of_sort_by Q_leb)).
  assert (Hlen : length q <> 0%nat).
  { unfold q. rewrite sort_by_length. by destruct l. }
  assert (Hat : forall i, (i < length q)%nat -> exists x, q !! i = Some x /\ (lo <= x <= hi)%Q).
  { intros i [x Hx]%lookup_lt_is_Some. exists x. split; [done|]. by apply Hq, (list_elem_of_lookup_2 _ i). }
  pose proof (Nat.div2_odd (length q)) as Hodd. destruct (length q) as [|n] eqn:El; [done|].
  destruct (Nat.odd (Datatypes.S n)) eqn:Ho; cbn [Nat.b2n] in Hodd.
  - destruct (Hat (Nat.div2 (Datatypes.S n))) as (x & -> & Hx); [lia|]. by exists x.
  - destruct (Hat (Nat.div2 (Datatypes.S n) - 1)%nat) as (x & -> & Hx); [lia|].
    destruct (Hat (Nat.div2 (Datatypes.S n))) as (y & -> & Hy); [lia|]. simpl. eexists. split; [done|].
    assert (E : forall z, ((z / (2#1)) == z * (1#2))%Q) by (intros z; reflexivity). rewrite E. lra.
Qed.

Lemma percentile_between (l : list Q) q lo hi :
  l <> [] -> (0 < q)%Q -> (q <= 1)%Q -> (forall x, x ∈ l -> (lo <= x <= hi)%Q) ->
  exists p, percentile l q = Ok p /\ p ∈ l /\ (lo <= p <= hi)%Q.
Proof.
  intros Hne H0 H1 Hb. destruct (percentile_rank l q Hne H0 H1) as [Hk ->].
  set (i := Z.to_nat _). assert (Hi : (i < length l)%nat).
  { unfold i. destruct (_ && _); lia. }
  destruct (lookup_lt_is_Some_2 l i Hi) as [p Hp]. rewrite Hp. exists p.
  assert (p ∈ l) by (by apply (list_elem_of_lookup_2 _ i)). split_and!; [done..|by apply Hb|by apply Hb].
Qed.

(** The recovery summary of any trials: it exists, and its numbers are in
    order - minimum, then median and 95th percentile, then maximum - with every
    gap between the first and the last. *)
Lemma recovery_summary_correct round2 float_text trials results :
  results <> [] ->
  let gaps := sort_by Q_leb ((fun r => seconds (fst r)) <$> results) in
  exists lo mid p95 hi data, recovery_summary round2 float_text trials results = Ok data /\
    dget "recovery_gap_s" data =
      Some (JObj [("min", JFloat (round2 lo)); ("median", JFloat (round2 mid));
                  ("p95", JFloat (round2 p95)); ("max", JFloat (round2 hi))]) /\
    (lo <= mid <= hi)%Q /\ (lo <= p95 <= hi)%Q /\ lo ∈ gaps /\ p95 ∈ gaps /\ hi ∈ gaps /\
    (forall g b, (g, b) ∈ results -> (lo <= seconds g <= hi)%Q) /\
    (dget "all_clean" data = Some (JBool true) <-> forall g b, (g, b) ∈ results -> b = true).
Proof.
  intros Hne gaps. set (raw := (fun r => seconds (fst r)) <$> results) in *.
  assert (Hraw : raw <> []) by (by destruct results).
  destruct (sorted_bounds raw Hraw) as (lo & hi & Hlo & Hhi & Hb). fold gaps in Hlo, Hhi, Hb.
  assert (Hgaps : gaps <> []) by (by destruct gaps).
  destruct (median_between gaps lo hi Hgaps Hb) as (mid & Hmid & Bmid).
  destruct (percentile_between gaps (19#20) lo hi Hgaps ltac:(reflexivity) ltac:(done) Hb) as (p & Hp & Ip & Bp).
  exists lo, mid, p, hi. eexists. split.
  { unfold recovery_summary. fold raw gaps. rewrite Hlo, Hhi. cbn [of_option mbind res_bind].
    rewrite Hmid. cbn [mbind res_bind]. rewrite Hp. reflexivity. }
  split; [reflexivity|]. split; [done|]. split; [done|]. split_and!.
  - by apply head_Some_elem_of.
  - done.
  - by apply last_Some_elem_of.
  - intros g b Hin. apply Hb, elem_of_sort_by, list_elem_of_fmap. by exists (g, b).
  - change (Some (JBool (forallb snd results)) = Some (JBool true) <-> forall g b, (g, b) ∈ results -> b = true).
    split.
    + intros [= Hall] g b Hin. rewrite forallb_forall in Hall. by apply (Hall (g, b)), list_elem_of_In.
    + intros Hall. do 2 f_equal. apply forallb_forall. intros [g b] Hin%list_elem_of_In. by eapply Hall.
Qed.

(** ** The recovery script *)
Section RecoveryFacts.
Context {S Schema : Type} `{HasDbLaws S} `{HasFs S} `{HasSchema S Schema} `{Processes S} `{Docker S}.
Context (children : S -> gset string) (time : S -> Q) `{!ProcessLaws children time}.
Context (put_schema_calm : forall x s, children (put_schema x s) = children s /\ time (put_schema x s) = time s).
Context (MIGRATIONS : list (string * string)) (exec : string -> M Schema unit).
Context (float_str float_text round2 : Q -> string) (SRC RESULTS python os_name : string).
Local Abbreviation childless := (childless children).
Local Abbreviation all_trials := (all_trials float_str float_text SRC).

(** No process of the script is left, unless [shutdown] lost one. *)
Definition clean_up {A} (r : res A) (s : cli S) : Prop := childless (cl_sup s) \/ r = Raise NoSuchProcess.

Lemma all_trials_reap dsn env trials draws r1 rounds s r s' :
  (60 < inject_Z (Z.of_nat rounds) * (1#10))%Q -> childless (cl_sup s) ->
  all_trials dsn env trials draws r1 (Datatypes.S rounds) s = (r, s') ->
  clean_up r s' /\ files_kept (cl_files s) s' /\
  forall l, r = Ok (Some l) -> (length l <= trials)%nat /\ (trials <= length draws -> length l = trials)%nat.
Proof using All.
  intros Hto. revert draws s r s'. induction trials as [|trials IH]; intros draws s r s' Hc.
  { simpl. intros [= <- <-]. split_and!; [by left|done|]. by intros l [= <-]. }
  destruct draws as [|[[[now rid] tid] ws] draws].
  { simpl. intros [= <- <-]. split_and!; [by left|done|]. intros l [= <-]. simpl. lia. }
  cbn [Scripts.all_trials]. unfold mbind at 1, M_bind at 1. intros E. unfold on_sup at 1 in E.
  destruct (one_trial env SRC float_str float_text dsn ws now rid tid r1 (Datatypes.S rounds) (cl_sup s))
    as [r0 s1] eqn:E1.
  pose proof (one_trial_ends children time env SRC float_str float_text _ _ _ _ _ _ _ _ _ _ Hc Hto E1) as [_ Hr0].
  destruct r0 as [t|e].
  2: { injection E as <- <-. split; [|by split]. destruct Hr0 as [?|[= ->]]; [by left|by right]. }
  destruct Hr0 as [Hc1|]; [|done].
  destruct t as [gap clean| |]; [|injection E as <- <-; split; [by left|by split]..].
  unfold mbind, M_bind in E. destruct (all_trials _ _ _ _ _ _ _) as [r2 s2] eqn:E2.
  apply IH in E2 as (Hcl & Hf & Hl); [|exact Hc1]. unfold files_kept in Hf. simpl in Hf.
  destruct r2 as [o|e]; injection E as <- <-.
  - split_and!; [destruct Hcl; [by left|done]|done|]. intros l. destruct o as [l0|]; [|done].
    intros [= <-]. destruct (Hl l0 eq_refl). simpl. split; lia.
  - split; [|by split]. destruct Hcl as [?|[= ->]]; [by left|by right].
Qed.

Lemma migrate_childless s r s' :
  childless (cl_sup s) -> migrate_db MIGRATIONS exec s = (r, s') ->
  childless (cl_sup s') /\ files_kept (cl_files s) s'.
Proof.
  intros Hc E. split; [|by eapply (stable_run _ _ _ _ _ (migrate_db_files _ _ _)) in E].
  unfold migrate_db, on_sup, on_os, on_schema in E.
  destruct (Migrations.apply_migrations _ _ _) as [rm x]. injection E as _ <-. unfold Supervisor.childless. simpl.
  by rewrite (proj1 (put_schema_calm _ _)).
Qed.

(** [trials_measured draws s results s']: trials of these draws, one after the
    other, took [s] to [s'], and each result is what the database showed when
    its trial's run had succeeded, before [shutdown]. *)
Inductive trials_measured (dsn : string) (env : environ) (r1 r2 : nat) :
    list (Z * uuid * uuid * string) -> sup S -> list (Z * bool) -> sup S -> Prop :=
  | measured_none s : trials_measured dsn env r1 r2 [] s [] s
  | measured_trial now rid tid ws draws s s1 s2 gap clean results s' :
      trial_body env SRC float_str float_text (MkInjector dsn LEASE ws false false) now rid tid r1 r2
        (Sup (su_os s) [] 0) = (Ok (Trial gap clean), s1) ->
      measured rid (get_db (su_os s1)) gap clean ->
      shutdown s1 = (Ok tt, s2) ->
      trials_measured dsn env r1 r2 draws s2 results s' ->
      trials_measured dsn env r1 r2 ((now, rid, tid, ws) :: draws) s ((gap, clean) :: results) s'.

Lemma all_trials_measured dsn env trials draws r1 r2 s results s' :
  all_trials dsn env trials draws r1 r2 s = (Ok (Some results), s') ->
  trials_measured dsn env r1 r2 (take trials draws) (cl_sup s) results (cl_sup s').
Proof using All.
  revert draws s results. induction trials as [|trials IH]; intros draws s results E.
  { injection E as <- <-. constructor. }
  destruct draws as [|[[[now rid] tid] ws] draws]; [injection E as <- <-; constructor|].
  cbn [Scripts.all_trials] in E. apply bind_Ok_inv in E as (t & s1 & E1 & E).
  unfold on_sup in E1. destruct (one_trial _ _ _ _ _ _ _ _ _ _ _ (cl_sup s)) as [r x] eqn:Et.
  injection E1 as -> <-. destruct t as [gap clean| |]; [|done..].
  apply bind_Ok_inv in E as ([rest|] & s2 & E2 & E); [|done]. injection E as <- <-.
  apply one_trial_measured in Et as (s3 & Hm & Hb & Hs). cbn [take]. by econstructor; [..|exact (IH _ _ _ E2)].
Qed.

(** C39: the recovery benchmark reports what it measured, and cleans up.  From a
    machine without workers, whatever the killed and surviving processes do,
    it leaves no worker behind (unless [shutdown] lost one between two polls);
    it writes a file only when every trial came to its end, and then the file
    holds the summary of the results of the trials asked for, in their order:
    each is the gap the query computes on the database as its trial left it,
    where the trial's run has succeeded, and is clean exactly when the log
    check passed there and the log had the twenty steps.  The summary's gaps
    lie between its minimum and its maximum, which are two of them, and it is
    all clean exactly when every trial was.  With no trials it fails. *)
Theorem recovery_main_correct file os_environ trials draws r1 rounds s r s' :
  (60 < inject_Z (Z.of_nat rounds) * (1#10))%Q -> childless (cl_sup s) ->
  (Z.to_nat trials <= length draws)%nat ->
  recovery_main MIGRATIONS exec float_str float_text round2 SRC RESULTS python os_name
    file os_environ trials draws r1 (Datatypes.S rounds) s = (r, s') ->
  clean_up r s' /\
  match r with
  | Ok (Some _) => exists dsn env applied s0 results data,
      database_url file os_environ = Ok (dsn, env) /\ migrate_db MIGRATIONS exec s = (Ok applied, s0) /\
      trials_measured dsn env r1 (Datatypes.S rounds) (take (Z.to_nat trials) draws) (cl_sup s0) results (cl_sup s') /\
      length results = Z.to_nat trials /\
      recovery_summary round2 float_text trials results = Ok data /\
      (exists lo mid p95 hi, dget "recovery_gap_s" data =
         Some (JObj [("min", JFloat (round2 lo)); ("median", JFloat (round2 mid));
                     ("p95", JFloat (round2 p95)); ("max", JFloat (round2 hi))]) /\
         lo ∈ (seconds ∘ fst <$> results) /\ hi ∈ (seconds ∘ fst <$> results) /\
         (lo <= mid <= hi)%Q /\ (lo <= p95 <= hi)%Q /\
         forall g b, (g, b) ∈ results -> (lo <= seconds g <= hi)%Q) /\
      (dget "all_clean" data = Some (JBool true) <-> forall g b, (g, b) ∈ results -> b = true) /\
      cl_files s' = cl_files s ++ [(RESULTS +:+ "/recovery.json",
        dumps_indent 0 (JObj (dict_merge [("environment", JObj (environment python os_name))] data)) +:+ chr 10)]
  | _ => cl_files s' = cl_files s
  end.
Proof using All.
  intros Hto Hc Hd E. unfold recovery_main in E. unfold mbind at 1, M_bind at 1, lift_res at 1 in E.
  destruct (database_url file os_environ) as [[dsn env]|e]; [|injection E as <- <-; split; [by left|done]].
  unfold mbind at 1, M_bind at 1 in E.
  destruct (migrate_db MIGRATIONS exec s) as [rm s1] eqn:Em.
  destruct (migrate_childless _ _ _ Hc Em) as [Hc1 Hf1]. unfold files_kept in Hf1.
  destruct rm as [ap|e]; [|injection E as <- <-; split; [by left|done]].
  unfold mbind at 1, M_bind at 1 in E.
  destruct (all_trials dsn env (Z.to_nat trials) draws r1 (Datatypes.S rounds) s1) as [rt s2] eqn:Et.
  pose proof (fun l => all_trials_measured dsn env (Z.to_nat trials) draws r1 (Datatypes.S rounds) s1 l s2) as Htm.
  rewrite Et in Htm.
  apply all_trials_reap in Et as (Hc2 & Hf2 & Hl); [|done..]. unfold files_kept in Hf2. rewrite Hf1 in Hf2.
  destruct rt as [[results|]|e]; [|injection E as <- <-; split; [|done]; destruct Hc2; [by left|done]|].
  2: { injection E as <- <-. split; [|done]. destruct Hc2 as [?|[= ->]]; [by left|by right]. }
  destruct Hc2 as [Hc2|]; [|done]. destruct (Hl results eq_refl) as [_ Hlen]. specialize (Hlen Hd).
  unfold mbind at 1, M_bind at 1, lift_res at 1 in E.
  destruct (recovery_summary _ _ trials results) as [data|e] eqn:Es;
    [|injection E as <- <-; split; [by left|done]].
  assert (Hne : results <> []) by (by intros ->).
  destruct (recovery_summary_correct round2 float_text trials results Hne)
    as (lo & mid & p95 & hi & data' & Es' & Hgap & Hmid & Hp95 & Hlo & _ & Hhi & Hb & Hclean).
  rewrite Es in Es'. injection Es' as <-. apply elem_of_sort_by in Hlo, Hhi.
  injection E as <- <-. split; [by left|]. exists dsn, env, ap, s1, results, data. simpl. rewrite Hf2.
  split_and!; try done; [by apply Htm|]. by exists lo, mid, p95, hi.
Qed.
End RecoveryFacts.

(** ** The demo *)
Section DemoFacts.
Context {S Schema : Type} `{HasDb S} `{HasFs S} `{HasSchema S Schema} `{Processes S} `{Docker S}.
Context (children : S -> gset string) (time : S -> Q) `{!ProcessLaws children time}.
Context (put_schema_calm : forall x s, children (put_schema x s) = children s /\ time (put_schema x s) = time s).
Context (MIGRATIONS : list (string * string)) (exec : string -> M Schema unit).
Context (float_str : Q -> string) (secs : Z -> string) (SRC : string).
Local Abbreviation childless := (childless children).
Local Abbreviation good := (good children time).

(** The demo's second loop waits as an evaluation does. *)
Lemma wait_statuses_rounds ids deadline rounds rows s :
  wait_rounds ids deadline rounds s =
    (match fst (wait_statuses ids deadline rounds rows s) with
     | Ok o => Ok (bool_decide (is_Some o))
     | Raise e => Raise e
     end, snd (wait_statuses ids deadline rounds rows s)).
Proof using All.
  revert rows s. induction rounds as [|rounds IH]; intros rows s; [done|].
  cbn [wait_rounds wait_statuses]. unfold mbind, M_bind, with_db, on_db, gets, on_os.
  destruct (monotonic (su_os s)) as [[t|e] o1]; [|done]. destruct (Qle_bool deadline t); [done|].
  cbn [su_os su_workers su_n]. set (d := get_db o1). set (rs := _ <$> select_runs ids d).
  assert (Hall : all_terminal ids d = forallb TERMINAL rs).
  { unfold all_terminal, rs. by induction (select_runs ids d) as [|x l IHl]; [|simpl; rewrite IHl]. }
  rewrite Hall. destruct (forallb TERMINAL rs); [done|].
  cbn [su_os su_workers su_n]. destruct (sleep (3#10) (put_db d o1)) as [[u|e] o2]; [apply IH|done].
Qed.

Lemma wait_statuses_ends ids deadline rounds rows s :
  good (time (su_os s)) s -> (deadline < time (su_os s) + inject_Z (Z.of_nat rounds) * (3#10))%Q ->
  fst (wait_statuses ids deadline (Datatypes.S rounds) rows s) <> Ok None.
Proof using All.
  intros Hg Hd Hn. apply (wait_rounds_ends children time ids deadline rounds s Hg Hd).
  rewrite (wait_statuses_rounds ids deadline _ rows s), Hn. done.
Qed.

Definition cli_good (t : Q) (s : cli S) : Prop := good t (cl_sup s).

Lemma on_sup_good t {A} (m : M (sup S) A) : stable (good t) m -> stable (cli_good t) (on_sup m).
Proof. intros Hm s Hs. unfold on_sup, cli_good in *. specialize (Hm _ Hs). by destruct (m (cl_sup s)). Qed.
Lemma print_good t line : stable (cli_good t) (print line).
Proof. by intros s. Qed.
Lemma cli_lift_good t {A} (r : res A) : stable (cli_good t) (lift_res r).
Proof. by intros s. Qed.
Lemma cli_db_good t {A} (m : M db A) : stable (cli_good t) (cli_db m).
Proof. apply on_sup_good, (with_db_good children time). Qed.
Lemma cli_spawn_good t env inj : stable (cli_good t) (on_sup (spawn_worker env SRC float_str inj)).
Proof. apply on_sup_good, (spawn_good children time). Qed.
Lemma cli_kill_good t w : stable (cli_good t) (on_sup (kill w)).
Proof. apply on_sup_good, (kill_good children time). Qed.
Lemma cli_gets_good t {A} (f : sup S -> A) : stable (cli_good t) (on_sup (gets f)).
Proof. by apply on_sup_good, stable_gets. Qed.
Lemma cli_monotonic_good t : stable (cli_good t) (on_sup (on_os monotonic)).
Proof. apply on_sup_good, (monotonic_good children time). Qed.
Lemma cli_submit_good t specs keys : stable (cli_good t) (on_sup (submit_all specs keys)).
Proof. apply on_sup_good, (submit_all_good children time). Qed.

Lemma wait_held_good t ids rounds : stable (cli_good t) (on_sup (wait_held ids rounds)).
Proof.
  apply on_sup_good. induction rounds as [|rounds IH]; simpl; [apply stable_ret|].
  apply stable_bind; [apply (with_db_good children time)|]. intros [|row rows]; [|apply stable_ret].
  apply stable_bind; [by apply (sleep_good children time)|done].
Qed.

Lemma wait_statuses_good t ids deadline rounds rows :
  stable (cli_good t) (on_sup (wait_statuses ids deadline rounds rows)).
Proof.
  apply on_sup_good. revert rows. induction rounds as [|rounds IH]; intros rows; simpl; [apply stable_ret|].
  apply stable_bind; [apply (monotonic_good children time)|]. intros q.
  destruct (Qle_bool _ _); [apply stable_ret|]. apply stable_bind; [apply (with_db_good children time)|].
  intros rs. destruct (forallb _ _); [apply stable_ret|].
  apply stable_bind; [by apply (sleep_good children time)|]. intros _. apply IH.
Qed.

#[local] Hint Resolve print_good cli_lift_good cli_db_good cli_spawn_good cli_kill_good cli_gets_good
  cli_monotonic_good cli_submit_good wait_held_good wait_statuses_good : phx_inv.

Lemma demo_report_good t ids rows : stable (cli_good t) (demo_report secs ids rows).
Proof.
  unfold demo_report. apply stable_bind; [auto with phx_inv|]. intros st.
  apply stable_bind; [auto with phx_inv|]. intros _. apply stable_bind; [auto with phx_inv|]. intros taken.
  apply stable_bind; [auto with phx_inv|]. intros _.
  apply stable_bind; [destruct taken; auto with phx_inv|]. intros _.
  apply stable_bind; [auto with phx_inv|]. intros n. apply stable_bind; auto with phx_inv.
Qed.
#[local] Hint Resolve demo_report_good : phx_inv.

Lemma demo_body_good t env inj keys r1 r2 :
  stable (cli_good t) (demo_body float_str secs SRC env inj keys r1 r2).
Proof.
  unfold demo_body. do 3 (apply stable_bind; [auto with phx_inv|]; intros _).
  apply stable_bind; [auto with phx_inv|]. intros ids. apply stable_bind; [auto with phx_inv|].
  intros [owner|]; [|auto with phx_inv]. apply stable_bind; [auto with phx_inv|]. intros ws.
  apply stable_bind; [auto with phx_inv|]. intros w. do 3 (apply stable_bind; [auto with phx_inv|]; intros _).
  apply stable_bind; [auto with phx_inv|]. intros q. apply stable_bind; [auto with phx_inv|].
  intros [rows|]; [|auto with phx_inv]. apply stable_bind; auto with phx_inv.
Qed.

(** The demo leaves no worker behind, however it ends. *)
Lemma demo_main_reaps file os_environ ws keys r1 r2 s r s' :
  childless (cl_sup s) ->
  demo_main MIGRATIONS exec float_str secs SRC file os_environ ws keys r1 r2 s = (r, s') ->
  clean_up children r s'.
Proof using All.
  intros Hc E. unfold demo_main in E. unfold mbind at 1, M_bind at 1, lift_res at 1 in E.
  destruct (database_url file os_environ) as [[dsn env]|e]; [|injection E as <- <-; by left].
  unfold mbind at 1, M_bind at 1 in E. destruct (migrate_db MIGRATIONS exec s) as [rm s1] eqn:Em.
  destruct (migrate_childless children time put_schema_calm MIGRATIONS exec s rm s1 Hc Em) as [Hc1 _].
  destruct rm as [ap|e]; [|injection E as <- <-; by left].
  unfold mbind at 1, M_bind at 1 in E. cbn [on_sup new_injector modify] in E. cbv zeta in E.
  set (inj := MkInjector _ _ _ _ _) in E. set (s2 := CliState _ _ _ _) in E.
  assert (Hg : cli_good (time (su_os (cl_sup s1))) s2).
  { split; [split; simpl; [by rewrite Hc1|constructor|by split]|apply Qle_refl]. }
  unfold try_finally in E. pose proof (demo_body_good (time (su_os (cl_sup s1))) env inj keys r1 r2 s2 Hg) as Hg3.
  destruct (demo_body _ _ _ _ _ _ _ _ s2) as [r0 s3]. simpl in Hg3. unfold on_sup in E.
  destruct (shutdown (cl_sup s3)) as [rs s4] eqn:Es.
  destruct (shutdown_reaps children time _ _ _ _ Hg3 Es) as [_ [-> | Hc4]].
  - injection E as <- <-. by right.
  - destruct rs; injection E as <- <-; by left.
Qed.
End DemoFacts.

(** ** The totals over the seeds *)
Lemma total_of {A} k (entry : A -> dict) (f : A -> Z) (l : list A) :
  (forall a, exists v, dget k (entry a) = Some v /\ json_number v = Ok (f a)) ->
  total k (entry <$> l) = Ok (sumZ (f <$> l)).
Proof.
  intros He. induction l as [|a l IH]; [done|]. rewrite !fmap_cons. cbn [total].
  destruct (He a) as (v & Hv & Hn). unfold dindex. rewrite Hv. cbn [of_option mbind res_bind].
  rewrite Hn. cbn [mbind res_bind]. by rewrite IH.
Qed.

Lemma sumZ_b2z {A} (p : A -> bool) (l : list A) :
  sumZ ((fun a => Z.b2z (p a)) <$> l) = Z.of_nat (length (filter (fun a => p a = true) l)).
Proof.
  induction l as [|a l IH]; [done|]. rewrite fmap_cons, filter_cons. cbn [sumZ foldr]. fold sumZ.
  case_decide as Hp; [rewrite Hp|apply not_true_is_false in Hp; rewrite Hp];
    change (foldr Z.add 0 ((fun a => Z.b2z (p a)) <$> l)) with (sumZ ((fun a => Z.b2z (p a)) <$> l));
    rewrite IH; simpl; lia.
Qed.

(** The summary of the chaos runs exists, counts the seeds that passed, and
    shows no repeated call exactly when no seed repeated one. *)
Lemma chaos_summary_correct round1 seeds runs (reports : list (Z * ChaosReport * db)) :
  let entry r := seed_entry round1 (fst (fst r)) (snd (fst r)) (snd r) in
  let repeated r := duplicate_llm_calls (cr_run_ids (snd (fst r))) (snd r) in
  exists data, chaos_summary seeds runs (entry <$> reports) = Ok data /\
    dget "seeds_passed" data =
      Some (JInt (Z.of_nat (length (filter (fun r => passed (cr_invariants (snd (fst r))) = true) reports)))) /\
    dget "duplicate_llm_calls" data = Some (JInt (sumZ (repeated <$> reports))) /\
    (sumZ (repeated <$> reports) = 0 <-> Forall (fun r => repeated r = 0) reports).
Proof.
  intros entry repeated.
  assert (Ht : forall k f, (forall r, exists v, dget k (entry r) = Some v /\ json_number v = Ok (f r)) ->
    total k (entry <$> reports) = Ok (sumZ (f <$> reports))) by (intros k f; apply total_of).
  eexists. split.
  { unfold chaos_summary.
    rewrite (Ht "passed" (fun r => Z.b2z (passed (cr_invariants (snd (fst r)))))) by (intros; eexists; done).
    rewrite (Ht "faults_hit" (fun r => cr_fired (snd (fst r)))) by (intros; eexists; done).
    rewrite (Ht "kill_9" (fun r => applied_count "kill -9" (cr_applied (snd (fst r))))) by (intros; eexists; done).
    rewrite (Ht "suspend" (fun r => applied_count " suspend " (cr_applied (snd (fst r))))) by (intros; eexists; done).
    rewrite (Ht "docker_kill" (fun r => applied_count "docker kill phoenix-sbx" (cr_applied (snd (fst r)))))
      by (intros; eexists; done).
    rewrite (Ht "takeovers" (fun r => cr_takeovers (snd (fst r)))) by (intros; eexists; done).
    rewrite (Ht "provider_calls" (fun r => provider_call_count (cr_run_ids (snd (fst r))) (snd r)))
      by (intros; eexists; done).
    rewrite (Ht "duplicate_llm_calls" repeated) by (intros; eexists; done). reflexivity. }
  split; [by rewrite sumZ_b2z|]. split; [done|].
  assert (Hp : forall r, 0 <= repeated r) by (intros r; apply duplicate_llm_calls_zero).
  assert (Hc : forall r (l : list (Z * ChaosReport * db)),
    sumZ (repeated <$> r :: l) = repeated r + sumZ (repeated <$> l)) by done.
  assert (Hs : forall l : list (Z * ChaosReport * db), 0 <= sumZ (repeated <$> l)).
  { induction l as [|r l IH]; [done|]. rewrite Hc. specialize (Hp r). lia. }
  clear Ht. clearbody repeated. induction reports as [|r l IH]; [done|]. rewrite Forall_cons, <- IH, Hc.
  specialize (Hp r). specialize (Hs l). lia.
Qed.
