(* ===== verification/BenchWitnesses.v ===== *)
(** The benchmarks on a machine whose workers work: a system where time passes
    in [sleep], and where every living worker then takes a turn - it claims,
    renews its lease every third of it, or commits a step of its toy run - and
    the reaper makes a pass.  A whole recovery trial is evaluated on it. *)

From Stdlib Require Import QArith Qround Lqa.
From S2P Require Import Prelude PyString PyDecimal Json Env Database Store Leases Engine LlmCache.
From S2P Require Import Workspace Agent Execution Invariants System Safety Runner Scenarios Workers EventLoop.
From S2P Require Import Refinement Injector Supervisor Evals EvalRun Argparse Cli Witnesses LoopRuns.
From S2P Require Import Bench BenchRuns Scripts.

(** Processes not yet waited for, those that are dead, and the claims the
    living ones work on, with the time of their last beat. *)
Record b_os := BOs {
  bo_children : gset string;
  bo_dead : gset string;
  bo_time : Q;
  bo_claims : list (string * (Claim * Z));
  bo_db : db;
}.

Definition b_lease : Z := 2000000.
Definition b_now (s : b_os) : Z := Qfloor (bo_time s * (1000000#1))%Q.

#[local] Instance b_db : HasDb b_os := {|
  get_db := bo_db; put_db d s := BOs (bo_children s) (bo_dead s) (bo_time s) (bo_claims s) d |}.
#[local] Instance b_db_laws : HasDbLaws b_os.
Proof. split; try done. by intros []. Qed.

Definition b_find (n : string) (l : list (string * (Claim * Z))) : option (Claim * Z) :=
  snd <$> head (filter (fun p => fst p = n) l).
Definition b_drop (n : string) (l : list (string * (Claim * Z))) : list (string * (Claim * Z)) :=
  filter (fun p => fst p <> n) l.

(** A turn of a worker: a beat that is due, one step, or a claim. *)
Definition b_turn (n : string) (s : b_os) : b_os :=
  let now := b_now s in
  let with_ cs d := BOs (bo_children s) (bo_dead s) (bo_time s) cs d in
  match b_find n (bo_claims s) with
  | Some (c, since) =>
      let due := b_lease <=? 3 * (now - since) in
      let d1 := if due then snd (heartbeat now c b_lease (bo_db s)) else bo_db s in
      let since' := if due then now else since in
      match execute_task true (fun _ => now) (MkToyWorkflow STEPS (Dec 1 (-4))) c 1 d1 with
      | (Ok None, d2) => with_ ((n, (c, since')) :: b_drop n (bo_claims s)) d2
      | (_, d2) => with_ (b_drop n (bo_claims s)) d2
      end
  | None =>
      match claim_task now ∅ n b_lease (bo_db s) with
      | (Ok (Some c), d1) => with_ ((n, (c, now)) :: bo_claims s) d1
      | (_, d1) => with_ (bo_claims s) d1
      end
  end.

Definition b_sleep (q : Q) (s : b_os) : b_os :=
  let s1 := BOs (bo_children s) (bo_dead s) (Qred (bo_time s + q)) (bo_claims s) (bo_db s) in
  let s2 := put_db (snd (reap_expired (b_now s1) ∅ (bo_db s1))) s1 in
  foldl (fun s n => b_turn n s) s2 (elements (bo_children s2 ∖ bo_dead s2)).

Definition b_signal (kill : bool) (n : string) : M b_os unit := fun s =>
  if bool_decide (n ∈ bo_children s) then
    (Ok tt, if kill then BOs (bo_children s) ({[n]} ∪ bo_dead s) (bo_time s) (b_drop n (bo_claims s)) (bo_db s)
            else s)
  else (Raise NoSuchProcess, s).
Definition b_reap (n : string) (s : b_os) : b_os :=
  BOs (bo_children s ∖ {[n]}) (bo_dead s ∖ {[n]}) (bo_time s) (b_drop n (bo_claims s)) (bo_db s).

#[local] Instance b_processes : Processes b_os := {|
  popen n _ _ s := (Ok tt, BOs ({[n]} ∪ bo_children s) (bo_dead s ∖ {[n]}) (bo_time s) (bo_claims s) (bo_db s));
  poll n s := if bool_decide (n ∈ bo_children s /\ n ∉ bo_dead s) then (Ok true, s) else (Ok false, b_reap n s);
  ps_kill := b_signal true; ps_suspend := b_signal false; ps_resume := b_signal false;
  proc_wait n s := (Ok tt, b_reap n s);
  monotonic s := (Ok (bo_time s), s);
  sleep q s := (Ok tt, b_sleep q s);
  containers_running _ := mret [];
|}.

#[local] Instance b_docker : Docker b_os := {|
  containers_create _ := raise DockerException; container_start _ := raise DockerException;
  container_wait _ _ := raise DockerException; container_kill _ := raise NotFound;
  container_remove _ := raise NotFound; container_logs _ _ := raise DockerException;
  container_oom _ := raise DockerException; containers_list _ := mret [];
  images_get _ := mret tt; images_pull _ := raise DockerException;
  clock s := (Ok (bo_time s), s);
|}.

Lemma b_turn_keeps n s : bo_children (b_turn n s) = bo_children s /\ bo_time (b_turn n s) = bo_time s.
Proof.
  unfold b_turn. destruct (b_find n (bo_claims s)) as [[c since]|].
  - by destruct (execute_task _ _ _ _ _ _) as [[[?|]|?] ?].
  - by destruct (claim_task _ _ _ _ _) as [[[?|]|?] ?].
Qed.

Lemma b_sleep_keeps q s : bo_children (b_sleep q s) = bo_children s /\ (bo_time (b_sleep q s) == bo_time s + q)%Q.
Proof.
  unfold b_sleep. set (s2 := put_db _ _). generalize (elements (bo_children s2 ∖ bo_dead s2)). intros l.
  assert (H : forall s, bo_children (foldl (fun s n => b_turn n s) s l) = bo_children s /\
                        bo_time (foldl (fun s n => b_turn n s) s l) = bo_time s).
  { induction l as [|n l IH]; intros u; [done|]. simpl. destruct (IH (b_turn n u)) as [-> ->].
    apply b_turn_keeps. }
  destruct (H s2) as [-> ->]. split; [done|]. simpl. apply Qred_correct.
Qed.

#[local] Instance b_laws : ProcessLaws bo_children bo_time.
Proof.
  split; try (by intros; split; [|apply Qle_refl]).
  - by intros n env args s s' [= <-].
  - done.
  - intros. apply Qle_refl.
  - intros n s. simpl. case_bool_decide as Hn.
    + exists true, s. split_and!; [done|apply Qle_refl|apply Hn|done].
    + exists false, (b_reap n s). split_and!; [done|apply Qle_refl|done].
  - intros n s Hn. simpl. unfold b_signal. by rewrite bool_decide_eq_true_2.
  - intros n s e. simpl. unfold b_signal. case_bool_decide; [done|by intros [= <-]].
  - intros n s. simpl. unfold b_signal. case_bool_decide; (split; [done|apply Qle_refl]).
  - intros n s Hn. simpl. unfold b_signal. by rewrite bool_decide_eq_true_2.
  - intros n s. simpl. unfold b_signal. case_bool_decide; (split; [done|apply Qle_refl]).
  - intros n s Hn. simpl. unfold b_signal. by rewrite bool_decide_eq_true_2.
  - intros n s. simpl. unfold b_signal. case_bool_decide; (split; [done|apply Qle_refl]).
  - intros n s. exists (b_reap n s). split_and!; [done..|apply Qle_refl].
  - intros s. exists (bo_time s), s. split; [done|]. split; [done|]. split; apply Qle_refl.
  - intros q s. exists (b_sleep q s). destruct (b_sleep_keeps q s) as [Hc Ht].
    split_and!; [done..|]. rewrite Ht. apply Qle_refl.
  - done.
Qed.

(** ** A recovery trial *)
Definition b_text (q : Q) : string := if Qeq_bool q (1#5)%Q then "0.2" else "2.0".
Definition b_start : sup b_os := Sup (BOs ∅ ∅ 0%Q [] db_empty) [] 0.
Definition b_trial : res trial * sup b_os :=
  one_trial ∅ "src" b_text b_text "dsn" "ws" 0 1%N 1%N 20 601 b_start.

(** The takeover worker's first step comes less than a lease after the dead
    worker's last one: the lease runs from the last heartbeat. *)
Example b_trial_result :
  fst b_trial = Ok (Trial 1900000 true) /\ bo_children (su_os (snd b_trial)) = ∅.
Proof. vm_compute. done. Qed.

(** ** The script *)
#[local] Instance b_fs : HasFs b_os := {| get_fs _ := ∅; put_fs _ s := s |}.
#[local] Instance b_schema : HasSchema b_os unit := {| get_schema _ := (tt, []); put_schema _ s := s |}.

Definition b_draws : list (Z * uuid * uuid * string) := [(0, 1%N, 1%N, "ws1"); (0, 2%N, 2%N, "ws2")].
Definition b_cli : cli b_os := CliState b_start [] [] [].
Definition b_recovery : res (option unit) * cli b_os :=
  recovery_main (Schema := unit) [("001_init.sql", "")] (fun _ => mret tt) b_text b_text b_text
    "src" "results" "3.13" "Linux" (Some ("DATABASE_URL=dsn" +:+ chr 10)) ∅ 2 b_draws 20 602
    b_cli.

Lemma recovery_main_witness :
  fst b_recovery = Ok (Some tt) /\ bo_children (su_os (cl_sup (snd b_recovery))) = ∅ /\
  exists results data, length results = 2%nat /\
    recovery_summary b_text b_text 2 results = Ok data /\
    (dget "all_clean" data = Some (JBool true) <-> forall g b, (g, b) ∈ results -> b = true) /\
    cl_files (snd b_recovery) = [("results/recovery.json",
      dumps_indent 0 (JObj (dict_merge [("environment", JObj (environment "3.13" "Linux"))] data)) +:+ chr 10)].
Proof.
  assert (Hr : fst b_recovery = Ok (Some tt)) by by_vm.
  assert (Hto : (60 < inject_Z (Z.of_nat 601) * (1#10))%Q) by (vm_compute; reflexivity).
  assert (Hd : (Z.to_nat 2 <= length b_draws)%nat) by (apply Nat.leb_le; reflexivity).
  assert (Hp : forall (x : unit * list string) (s : b_os), bo_children (put_schema x s) = bo_children s /\
    bo_time (put_schema x s) = bo_time s) by (exact (fun _ _ => conj eq_refl eq_refl)).
  assert (Hc0 : childless bo_children (cl_sup b_cli)) by reflexivity.
  pose proof (surjective_pairing b_recovery) as E. unfold b_recovery at 1 in E.
  destruct (recovery_main_correct (Schema := unit) bo_children bo_time Hp [("001_init.sql", "")] (fun _ => mret tt)
    b_text b_text b_text "src" "results" "3.13" "Linux" (Some ("DATABASE_URL=dsn" +:+ chr 10)) ∅ 2 b_draws 20
    601 b_cli (fst b_recovery) (snd b_recovery) Hto Hc0 Hd E) as [Hc Hf]. clear E.
  rewrite Hr in Hf. destruct Hf as (dsn & env & ap & s0 & results & data & _ & _ & _ & Hl & Hs & _ & Hcl & Hf).
  split; [exact Hr|]. split; [|exists results, data; split; [exact Hl|split; [exact Hs|split; [exact Hcl|exact Hf]]]].
  destruct Hc as [Hc|Hc]; [exact Hc|]. rewrite Hr in Hc. discriminate Hc.
Defined.

(** The gap of the takeover of [LoopRuns]. *)
Lemma recovery_gap_witness : recovery_gap 1 r_d4 = Some 100 /\ 0 <= 100.
Proof.
  split; [reflexivity|].
  exact (proj1 (recovery_gap_correct w_str w_str true r_taken 1%N 100 r_taken_reachable eq_refl)).
Defined.

Lemma no_repeated_call_witness :
  provider_call_count [1%N] r_asked_d = 1 /\ duplicate_llm_calls [1%N] r_asked_d = 0.
Proof.
  split; [reflexivity|].
  exact (proj1 (no_repeated_call w_str w_str r_asked [1%N] r_asked_smooth)).
Defined.
