(* ===== verification/Commands.v ===== *)
(** The command line at concrete inputs: whole processes from their argument
    vector, on the system of [Platform.v] whose workers do nothing. *)

From Stdlib Require Import QArith.
From S2P Require Import Prelude PyString PyDecimal Json Env Database Store Leases Engine LlmCache Workspace Agent.
From S2P Require Import Invariants Runner Scenarios Workers Refinement Injector Supervisor Evals EvalRun.
From S2P Require Import Argparse Cli Platform.

#[local] Existing Instances p_sandbox p_any_provider p_os_db p_os_fs p_processes p_no_docker.
#[local] Instance p_schema : HasSchema p_os unit := {|
  get_schema _ := (tt, []); put_schema _ s := s |}.

(** A process with [DATABASE_URL] in its [.env]; a float prints as [x]. *)
Definition c_state : cli p_os := CliState (Sup (POs ∅ 0%Q db_empty ∅) [] 0) [] [] [].
Definition c_text (q : Q) : string :=
  if Qeq_bool q (2#1)%Q then "2.0" else "x".
Definition c_main (argv : list string) (specs : list json) (schedule : list Fault) :
    res (option Z) * cli p_os :=
  main (Schema := unit) (B := unit) (P := MockProvider) [("001_init.sql", "")] (fun _ => mret tt)
    c_text c_text c_text c_text (fun _ => "x") c_text (fun _ q => q) id (fun _ => "x")
    (fun _ => "no") (fun _ => "no") "src" p_suites tt (Ok tt) (fun _ => 0%Q) (fun _ _ => mret tt)
    (Some ("DATABASE_URL=dsn" +:+ chr 10)) ∅ 1 argv
    (Drawn specs schedule [(0, 1%N, 1%N); (0, 2%N, 2%N)] ["tmp"] 8) ["ws"] [] c_state.

Definition c_eval : list string := ["eval"; "--timeout"; "1"; "--workers=2"; "--out"; "r.json"].
Definition c_chaos : list string :=
  ["chaos"; "--seed"; "7"; "--runs"; "1"; "--workers"; "2"; "--workl"; "toy"; "--timeout"; "1"].

Example eval_exits :
  fst (c_main c_eval [] []) = Ok (Some 3) /\ cl_files (snd (c_main c_eval [] [])) = [] /\
  fst (c_main (c_eval ++ ["--budget"; "2"]) [] []) = Ok (Some 2).
Proof. vm_compute. done. Qed.

Example chaos_exits :
  fst (c_main c_chaos [p_toy_spec] p_schedule) = Ok (Some 1) /\
  length (cl_out (snd (c_main c_chaos [p_toy_spec] p_schedule))) = 1%nat /\
  fst (c_main ["chaos"] [] []) = Raise (SystemExit 2) /\
  (fst (c_main ["submit"; "--count"; "2"] [] []), cl_out (snd (c_main ["submit"; "--count"; "2"] [] []))) =
    (Ok (Some 0), uuid_str <$> [1%N; 2%N]).
Proof. vm_compute. done. Qed.

(** The evaluation nobody worked on: no file, although [--out] was given. *)
Lemma exit_status_witness : cl_files (snd (c_main c_eval [] [])) = [].
Proof.
  pose proof (exit_status (Schema := unit) (B := unit) (P := MockProvider) [("001_init.sql", "")] (fun _ => mret tt)
    c_text c_text c_text c_text (fun _ => "x") c_text (fun _ q => q) id (fun _ => "x")
    (fun _ => "no") (fun _ => "no") "src" p_suites tt (Ok tt) (fun _ => 0%Q) (fun _ _ => mret tt)
    (Some ("DATABASE_URL=dsn" +:+ chr 10)) ∅ 1 c_eval
    (Drawn [] [] [(0, 1%N, 1%N); (0, 2%N, 2%N)] ["tmp"] 8) ["ws"] [] c_state _ _
    (surjective_pairing (c_main c_eval [] []))) as H.
  destruct (load_dotenv _ _) as [[names|e] env]; [|by destruct H as [_ ->]].
  assert (Ec : exists a, parse_args 1 c_eval = Ok (Eval a)) by (vm_compute; by eexists).
  destruct Ec as [a Ec]. rewrite Ec in H.
  destruct (H 3 ltac:(vm_compute; reflexivity)) as [[? _]|(url & p & cap & rs & s1 & s2 & _ & _ & _ & _ & [[? _]|(_ & _ & Hf)])];
    [done|done|exact Hf].
Defined.

(** The worker an injector starts reads its own command line. *)
Lemma arguments_witness :
  parse_args 9 ["status"; uuid_str 77] = Ok (Status 77) /\
  exists lease, (lease == 2#1)%Q /\
    parse_args 9 (drop 2 (worker_args c_text p_injector (worker_name 1))) = Ok (Worker "w1" lease (1#5)%Q).
Proof.
  destruct (arguments_roundtrip 9) as [H1 H2]. split; [by apply H1|].
  exact (H2 c_text p_injector 1 (Dec 20 (-1)) ltac:(lia) ltac:(done) eq_refl ltac:(done)).
Defined.
